(* ===== verification/_CoqProject ===== *)
-Q . S2P
Prelude.v
Bytes.v
Memlib.v
Doubles.v
Allocator.v
MmNaive.v
Mdriver.v
MmSkeleton.v
MallocLab.v
Words.v
Primes.v
Htable.v
HtableChains.v
HtableResize.v
HtableInv.v
HtableSpec.v
Interleave.v
HtableSteps.v
HtableRace.v
HtableThreads.v
HtableView.v
HtableSlots.v
Rkgrep.v
RkgrepMain.v
RkgrepSpec.v
Clock.v
Fcyc.v
TraceFile.v
TraceTypes.v
DriverMain.v
DriverSpec.v
DriverRun.v
RwLock.v
TestRwlock.v
RwlockLive.v
TestHash.v
TestHashSpec.v
Locked.v
HtableLocked.v
Tester.v
Tree.v
TreeHarness.v
TreeHarnessSpec.v
Itimer.v
BloomFilter.v
RkTest.v
RkTestSpec.v
RkTestRun.v
RkTestBloom.v
RkTestMain.v
Exercises.v
