(* ===== verification/Prelude.v ===== *)
(** * A verification library for the cso18 labs

    This library models the C programs of the repository and proves what they
    are meant to do: the malloc lab with its driver, the hash table and the
    tests of the thread lab, the search program of the Rabin-Karp lab with its
    unit tests, and the tree exercise of the C lab with its harness.

    ** How the program is put together

    - [malloclab]: [memlib.c] simulates the memory of a process as one array
      with a break; [mm-naive.c] (the worked example) and [mm.c] (the
      skeleton handed out) implement the four entry points of [mm.h] on it;
      [mdriver.c] reads traces of requests, replays them against an allocator
      and checks and rates it, with the timers of [fsecs.c], [ftimer.c],
      [fcyc.c] and [clock.c].
    - [threadlab]: [htable.c] is a chained hash table that may grow, to be
      made fit for several threads; [rwlock.c] is to become a lock that puts
      writers first.  [tester.c] runs [testhash.c] and [testrwlock.c] on them.
    - [rklab]: [rkgrep_main.c] searches a document for patterns with the
      matching routines declared in [rkgrep.h], which the student supplies,
      on the arithmetic of [rkgrep.c] and the bloom filter of [bloom.c].
      [rkgrep_test.c] compares these routines with a reference that is shipped
      as an object file.
    - [clab]: [part7.c] is to become a sorted binary tree of strings;
      [part7_harness.c] tests it.

    ** Files

    - [Prelude]: outcomes of C code ([result]: a value, or undefined
      behaviour, a failed assertion, an exit, fuel used up), the state monad
      [ST], loops with binary fuel ([while], [while_st]) and their rules
      [while_rule] and [while_st_rule], machine integers, arrays, tactics.
    - [Bytes], [Memlib]: bytes of memory and [memlib.c] ([mem] is the record
      of [mem_start_brk], [mem_brk] and [mem_max_addr] with the bytes).
    - [Allocator]: the interface of [mm.h] as a class [Allocator], its
      contract as a class [AllocatorSpec], and a client's steps
      ([client_step]) with the safety that follows from the contract alone.
    - [MmNaive]: every function of [mm-naive.c] at the level of bytes, the
      tiling of the heap by chunks, and the instance [naive_spec] of the
      contract.  [MmSkeleton]: [mm.c] as handed out.
    - [Mdriver], [MallocLab]: range lists and the three evaluations of an
      allocator in [mdriver.c], over any [Allocator]; their properties over
      any [AllocatorSpec].  [TraceFile]: [read_trace] with the conversions of
      [fscanf] it uses.  [TraceTypes]: what it makes of any file.  [DriverMain]: the program [main] with its options,
      the evaluation of libc, the scores and the report, over a class [Host]
      for the C library and the clock.  [DriverSpec], [DriverRun]: the scores,
      the contract [HostSpec] of the system and the run of the whole program.
    - [Doubles]: C [double]s as the executable IEEE 754 specification of the
      standard library, with the order facts that sorting needs.
    - [Clock], [Fcyc]: the cycle counters of [clock.c] for its three
      platforms, the K-best sampler of [fcyc.c] and the timers of [ftimer.c]
      and [fsecs.c], over a class [Machine] that supplies the hardware.
      [Itimer]: the timers of [ftimer.c] on the interval timers of Unix.
    - [Words]: the heap of the thread lab, blocks of eight-byte words, with
      [malloc] as a class and its laws.  [Primes]: [is_prime], [get_prime]
      and [hashcode].  [Htable]: every function of [htable.c].
      [HtableChains], [HtableResize], [HtableInv]: linked lists in the heap,
      the relinking and freeing loops, the invariant and the run of every
      operation.  [HtableSpec]: the properties.
    - [Interleave]: programs of single accesses to a shared state, run in any
      order ([interleave]) or alone ([exec]).  [HtableSteps]: [htable_insert],
      [htable_lookup] and [htable_resize] as such programs, and that alone
      they are the functions of [Htable].  [HtableRace], [HtableThreads]:
      threads that look up, and the two races of [htable.c].  [HtableView]: a
      logic of threads, none of which inserts where another looks ([wp], with
      one rule per kind of access); [HtableSlots]: its use.
    - [RwLock]: the interface of [rwlock.h], the policies a lock may grant
      by, and the bodies handed out.  [TestRwlock]: [testrwlock.c], the
      single-threaded test as a program, the one with eleven threads as a step
      relation; its safety.  [RwlockLive]: its progress.
    - [TestHash], [TestHashSpec]: [testhash.c] over any [Table], the threads
      being programs whose accesses interleave in any order; its verdict.
      [Tester]: [tester.c] over both.  [Locked]: threads whose operations
      make several accesses to memory while they hold the lock ([turn], [run]),
      and the atomic run that they agree with ([agree]); [HtableLocked]: the
      programs of [HtableSteps] under the lock, and the threads of [test_htable].
    - [Rkgrep]: [rkgrep.c], [bloom.c] and the interface [Matcher] with its
      contract [MatcherSpec].  [RkgrepMain]: [rkgrep_main.c].  [RkgrepSpec]:
      its properties.
    - [BloomFilter]: the interface and contract of [bloom_add] and
      [bloom_query].  [RkTest]: [rkgrep_test.c] over the routines under test
      and the [Reference].  [RkTestSpec], [RkTestRun], [RkTestBloom],
      [RkTestMain]: the contracts, the run of its parts, of its tests, and
      its verdict.
    - [Tree]: abstract trees, the interface of [part7.c], its contract
      [TreeSpec] and the bodies handed out.  [TreeHarness],
      [TreeHarnessSpec]: [part7_harness.c] and its verdict.  [Exercises]: the
      other bodies of [clab] and [binarylab] as handed out.

    ** What the theorems show

    - Refinement: a session with the hash table answers what a finite map
      would and gives back all memory ([HtableSpec.session_refines_map]); any
      allocator that meets the contract passes the driver's validity check
      ([MallocLab.eval_mm_valid_accepts]), and the naive allocator meets it;
      with any such allocator the driver program reports that all traces
      passed ([DriverRun.driver_main_correct]).
    - Equivalence: [eval_mm_speed] makes the requests of [eval_mm_util]; the
      operations of the hash table one access at a time, run alone, are the
      functions ([HtableThreads.htable_steps_alone]).
    - Threads on the hash table without a lock: those of which none uses a
      slot that another inserts into do not disturb each other
      ([HtableSlots.race_free_threads_correct]), nor do lookups; two
      insertions into one slot can lose a key, and a lookup next to an
      insertion that makes the table grow can read freed memory.
    - With the lock, held in "write" mode for an insertion and in "read" mode
      for a lookup, every run is one in which the operations are atomic, growth
      included, and no thread gets stuck
      ([HtableLocked.locked_threads_linearizable]); so the threads of
      [test_htable] pass ([HtableLocked.locked_test_completes]).
    - Types: what [read_trace] returns for any file is a well-typed trace
      ([TraceTypes.read_trace_typed]).
    - Verdicts of the test programs over anything that meets the contract of
      what they test: [test_htable] for any interleaving of its threads, on
      [htable.c] made atomic also when it grows ([TestHashSpec.htable_spec]), the
      two tests of the lock, the tester, rkgrep_test and the tree harness
      accept it, with the exceptions the theorems state (equal random keys, a
      clock near the end of a second, a pattern that occurs twice).
    - Safety and liveness of the test with eleven threads: it never fails a
      right lock, and from every reachable state it can still end
      ([RwlockLive.priority_test_completes]).
    - Invariants: clients of the naive allocator hold disjoint, aligned blocks
      in the heap ([MmNaive.naive_clients_are_safe]).
    - Functional behaviour on every branch, errors included: the operations
      of the naive allocator, of the hash table, of the driver's range lists,
      [read_ascii_file], [print_matched_sentence] and the whole of rkgrep.
    - Termination: the heap checker, [is_prime] and [get_prime] (the largest
      [int] is a prime), every loop of the hash table, the sampler.
    - Round trip: a trace is read back from its text.
    - Bounds: hash codes, counter differences across carries, alignment.
    - Where the code falls short of its comments, the theorem says what it
      does instead: for instance [bloom_bit_at_pos] looks at several bits,
      [add_range] misses ranges that contain another, [read_ascii_file] never
      terminates its buffer, [hashcode] can be negative or unreduced.

    ** Conventions

    Integers are [Z] with the conversions of their C types written out ([u64],
    [s32] and so on); signed overflow is the outcome [Undefined], as are
    accesses outside an array and reads of indeterminate cells.  The target is
    x86-64: [char] is signed, [int] has 32 bits, pointers have 64.  Loops get
    as fuel a bound on the turns they can make (the range of an [int] counter,
    the number of blocks of the heap, the length of the input); theorems
    state the result, never only that a result would be right, so that fuel
    is shown to be enough.  Only the calibration loop of [clock.c] depends on
    the machine for its end and takes its fuel as an argument.  Threads run in
    a sequentially consistent memory, in which [malloc], [free] and [bzero]
    are single steps.

    Code outside the repository is a parameter: the C library's [malloc]
    ([MallocLaws], with the instances [first_fit] and [lowest_free]), the
    hardware ([Machine], [Timers]), the systems the programs run on ([Host],
    [Platform], [System]), the answers of the system to rkgrep ([file]), the
    results of [getopt], the routines in object files ([Reference]).  Routines
    the labs leave to the student are interfaces with the contract of their
    comments ([Matcher], [BloomOps], [RkHash], [Table], [RwLock], [Tree]); the
    bodies handed out are instances.  [abort] after a message is the outcome
    [AssertFailed].

    ** Not modelled

    Messages on standard error and of the test programs, the layout of the
    driver's tables and where among its lines those of [malloc_error] stand.
    Of the exercises of [clab] other than the tree, and of those of
    [binarylab], only the bodies handed out are modelled ([Exercises]): no
    program of the repository calls them, and what tests them is shipped as
    object files.  A body handed out without a [return] has no
    value, and its use is [Undefined].  [test_htable] runs on [htable.c] made
    atomic ([htable_table]); what threads do to the code as handed out, which
    takes no lock, is the subject of [HtableSteps] and the files after it, and
    what a lock makes of it that of [HtableLocked].  The lock is there the
    contract of the comments of [rwlock.c] ([WriterPriority], [GrantLive]), as
    its bodies are left to the student, and its requests do not expire.  Of the
    repository's code nothing is left out but the instructions that read the
    counter of an Alpha processor, given as an array of machine code, and the
    [free] of [bloom_free]; both are parameters or have no effect here. *)

From Stdlib Require Export ZArith Lia.
From stdpp Require Export base numbers option strings list_numbers gmap list.

#[global] Open Scope Z_scope.
#[global] Set Default Goal Selector "!".

(** ** Outcomes of C code *)

(** Why a run stops without a value: undefined behaviour of C, a failed
    [assert], a call of [exit], or a loop that used up its fuel. *)
Inductive fault :=
  | Undefined
  | AssertFailed
  | Exited (code : Z)
  | OutOfFuel.

#[global] Instance fault_eq_dec : EqDecision fault.
Proof. solve_decision. Defined.

Inductive result (A : Type) :=
  | Ok (a : A)
  | Fault (e : fault).
Arguments Ok {A} a.
Arguments Fault {A} e.

#[global] Instance result_ret : MRet result := fun A a => Ok a.
#[global] Instance result_bind : MBind result := fun A B f m =>
  match m with Ok a => f a | Fault e => Fault e end.

(** A C assertion. *)
Definition assert_ (b : bool) : result unit :=
  if b then Ok tt else Fault AssertFailed.

(** An access that is undefined behaviour unless [b]. *)
Definition guard_ (b : bool) : result unit :=
  if b then Ok tt else Fault Undefined.

(** A value that must be there, such as an array cell or an initialised
    variable. *)
Definition need {A} (o : option A) : result A :=
  match o with Some a => Ok a | None => Fault Undefined end.

(** State passing with outcomes. *)
Definition ST (S A : Type) : Type := S -> result (A * S).

#[global] Instance st_ret S : MRet (ST S) := fun A a s => Ok (a, s).
#[global] Instance st_bind S : MBind (ST S) := fun A B f m s =>
  match m s with Ok (a, s') => f a s' | Fault e => Fault e end.

Definition get {S} : ST S S := fun s => Ok (s, s).
Definition put {S} (s : S) : ST S unit := fun _ => Ok (tt, s).
Definition gets {S A} (f : S -> A) : ST S A := fun s => Ok (f s, s).
Definition modify {S} (f : S -> S) : ST S unit := fun s => Ok (tt, f s).
Definition lift {S A} (r : result A) : ST S A := fun s =>
  match r with Ok a => Ok (a, s) | Fault e => Fault e end.

Section monad_laws.
Context {S A B : Type}.
Implicit Types (m : ST S A) (k : A -> ST S B).

Lemma bind_Ok m k s a s' :
  m s = Ok (a, s') -> (m ≫= k) s = k a s'.
Proof. unfold mbind, st_bind. by intros ->. Qed.

Lemma bind_Fault m k s e :
  m s = Fault e -> (m ≫= k) s = Fault e.
Proof. unfold mbind, st_bind. by intros ->. Qed.

Lemma bind_cong m m' k s s' : m s = m' s' -> (m ≫= k) s = (m' ≫= k) s'.
Proof. unfold mbind, st_bind. by intros ->. Qed.

Lemma bind_inv m k s b s'' :
  (m ≫= k) s = Ok (b, s'') ->
  exists a s', m s = Ok (a, s') /\ k a s' = Ok (b, s'').
Proof.
  unfold mbind, st_bind. destruct (m s) as [[a s']|e]; [eauto|done].
Qed.

Lemma assert_true b : b = true -> assert_ b = Ok tt.
Proof. by intros ->. Qed.

Lemma guard_true b : b = true -> guard_ b = Ok tt.
Proof. by intros ->. Qed.
End monad_laws.

(** Runs one monadic step whose outcome is known. *)
Ltac st_step := erewrite bind_Ok; [|first [eassumption | reflexivity]].

(** Unfolds the state monad and the primitive state operations. *)
Ltac st_unfold :=
  unfold get, put, gets, modify, lift, mret, st_ret, result_ret,
    mbind, st_bind, result_bind in *; cbv beta iota zeta in *.

(** ** Bounded loops

    [while fuel f s] runs [f] from [s] until it answers [inr r], at most
    [fuel] times.  The fuel is binary, so that the bounds of C loops (up to
    [2^31] turns and more) cost nothing to write down. *)
Section loops.
Context {S R : Type}.
Implicit Types (f : S -> result (S + R)).

Fixpoint iter_nat (n : nat) f (s : S) : result (S + R) :=
  match n with
  | O => Ok (inl s)
  | Datatypes.S n =>
      match f s with
      | Ok (inl s') => iter_nat n f s'
      | r => r
      end
  end.

Fixpoint iter_until (p : positive) f (s : S) : result (S + R) :=
  match p with
  | xH => f s
  | xO p =>
      match iter_until p f s with
      | Ok (inl s') => iter_until p f s'
      | r => r
      end
  | xI p =>
      match f s with
      | Ok (inl s') =>
          match iter_until p f s' with
          | Ok (inl s'') => iter_until p f s''
          | r => r
          end
      | r => r
      end
  end.

Definition while (fuel : positive) f (s : S) : result R :=
  match iter_until fuel f s with
  | Ok (inl _) => Fault OutOfFuel
  | Ok (inr r) => Ok r
  | Fault e => Fault e
  end.

Lemma iter_nat_add n m f s :
  iter_nat (n + m) f s =
    match iter_nat n f s with
    | Ok (inl s') => iter_nat m f s'
    | r => r
    end.
Proof.
  revert s; induction n as [|n IH]; intros s; [done|]. simpl.
  destruct (f s) as [[s'|r]|e]; [apply IH|done|done].
Qed.

Lemma iter_until_nat p f s : iter_until p f s = iter_nat (Pos.to_nat p) f s.
Proof.
  revert s; induction p as [p IH|p IH|]; intros s; cbn [iter_until].
  - replace (Pos.to_nat p~1) with (Datatypes.S (Pos.to_nat p + Pos.to_nat p)) by lia.
    cbn [iter_nat]. destruct (f s) as [[s'|r]|e]; [|done|done].
    rewrite iter_nat_add, IH.
    destruct (iter_nat _ f s') as [[s''|r]|e]; [apply IH|done|done].
  - replace (Pos.to_nat p~0) with (Pos.to_nat p + Pos.to_nat p)%nat by lia.
    rewrite iter_nat_add, IH.
    destruct (iter_nat _ f s) as [[s''|r]|e]; [apply IH|done|done].
  - simpl. by destruct (f s) as [[s''|r]|e].
Qed.

(** Total correctness of a loop: an invariant indexed by a bound on the
    number of turns left. *)
Lemma while_rule (I : nat -> S -> Prop) (Q : result R -> Prop) f fuel n s :
  (forall n s, I n s ->
    match f s with
    | Ok (inl s') => exists n', (n' < n)%nat /\ I n' s'
    | Ok (inr r) => Q (Ok r)
    | Fault e => Q (Fault e)
    end) ->
  I n s -> (n < Pos.to_nat fuel)%nat -> Q (while fuel f s).
Proof.
  intros Hstep HI Hfuel. unfold while. rewrite iter_until_nat.
  remember (Pos.to_nat fuel) as k eqn:Ek. clear fuel Ek.
  revert n s HI Hfuel; induction k as [|k IH]; intros n s HI Hfuel; [lia|].
  simpl. specialize (Hstep n s HI).
  destruct (f s) as [[s'|r]|e]; [|done|done].
  destruct Hstep as (n' & Hlt & HI'). apply (IH n'); [done|lia].
Qed.

(** A loop that ends without running out of fuel gives the same answer
    with more fuel. *)
Lemma while_fuel_mono f fuel fuel' s r :
  while fuel f s = r -> r <> Fault OutOfFuel -> (fuel <= fuel')%positive ->
  while fuel' f s = r.
Proof.
  unfold while. rewrite !iter_until_nat. intros Hr Hne Hle.
  replace (Pos.to_nat fuel') with
    (Pos.to_nat fuel + (Pos.to_nat fuel' - Pos.to_nat fuel))%nat by lia.
  rewrite iter_nat_add.
  destruct (iter_nat (Pos.to_nat fuel) f s) as [[s'|r']|e]; congruence.
Qed.
End loops.

(** A loop in the state monad: [A] is the loop's own variables. *)
Definition while_st {S A R} (fuel : positive) (body : A -> ST S (A + R))
    (a : A) : ST S R := fun s =>
  while fuel (fun '(a, s) =>
    match body a s with
    | Ok (inl a', s') => Ok (inl (a', s'))
    | Ok (inr r, s') => Ok (inr (r, s'))
    | Fault e => Fault e
    end) (a, s).

Lemma while_st_rule {S A R} (I : nat -> A -> S -> Prop) (Q : result (R * S) -> Prop)
    (fuel : positive) (body : A -> ST S (A + R)) n a s :
  (forall n a s, I n a s ->
    match body a s with
    | Ok (inl a', s') => exists n', (n' < n)%nat /\ I n' a' s'
    | Ok (inr r, s') => Q (Ok (r, s'))
    | Fault e => Q (Fault e)
    end) ->
  I n a s -> (n < Pos.to_nat fuel)%nat -> Q (while_st fuel body a s).
Proof.
  intros Hstep HI Hfuel. unfold while_st.
  apply (while_rule (fun k '(a, s) => I k a s) Q _ _ n); [|done|done].
  intros k [a' s'] HI'. specialize (Hstep k a' s' HI').
  destruct (body a' s') as [[[a''|r] s'']|e]; done.
Qed.

(** A [for] loop over the values [l] of its counter. *)
Fixpoint foldM {M : Type -> Type} `{MRet M, MBind M} {X A}
    (f : A -> X -> M A) (a : A) (l : list X) : M A :=
  match l with
  | [] => mret a
  | x :: l => a' ← f a x; foldM f a' l
  end.

(** The same with an early [return] (the [inr] case). *)
Fixpoint foldM_until {M : Type -> Type} `{MRet M, MBind M} {X A R}
    (f : A -> X -> M (A + R)%type) (a : A) (l : list X) : M (A + R)%type :=
  match l with
  | [] => mret (inl a)
  | x :: l =>
      o ← f a x;
      match o with
      | inl a' => foldM_until f a' l
      | inr r => mret (inr r)
      end
  end.

(** ** Machine integers *)

Definition wrap_u (w x : Z) : Z := x mod 2 ^ w.
Definition wrap_s (w x : Z) : Z := (x + 2 ^ (w - 1)) mod 2 ^ w - 2 ^ (w - 1).

(** The integer types of the x86-64 ABI the labs are built for. *)
Definition u8 : Z -> Z := wrap_u 8.
Definition u32 : Z -> Z := wrap_u 32.
Definition u64 : Z -> Z := wrap_u 64.
Definition s8 : Z -> Z := wrap_s 8.
Definition s32 : Z -> Z := wrap_s 32.
Definition s64 : Z -> Z := wrap_s 64.

Definition fits_int (x : Z) : bool := (-2 ^ 31 <=? x) && (x <? 2 ^ 31).
Definition fits_ll (x : Z) : bool := (-2 ^ 63 <=? x) && (x <? 2 ^ 63).

(** Signed arithmetic: an overflow is undefined behaviour. *)
Definition int_ (x : Z) : result Z := if fits_int x then Ok x else Fault Undefined.
Definition ll_ (x : Z) : result Z := if fits_ll x then Ok x else Fault Undefined.

Section integers.
Implicit Types (w x y : Z).

Lemma wrap_u_range w x : 0 <= w -> 0 <= wrap_u w x < 2 ^ w.
Proof. intros. apply Z.mod_pos_bound. lia. Qed.

Lemma wrap_u_id w x : 0 <= x < 2 ^ w -> wrap_u w x = x.
Proof. intros. by apply Z.mod_small. Qed.

Lemma wrap_s_range w x : 0 < w -> - 2 ^ (w - 1) <= wrap_s w x < 2 ^ (w - 1).
Proof.
  intros Hw. unfold wrap_s.
  assert (H2 : 2 ^ w = 2 * 2 ^ (w - 1)).
  { rewrite <- Z.pow_succ_r by lia. f_equal. lia. }
  pose proof (Z.mod_pos_bound (x + 2 ^ (w - 1)) (2 ^ w) ltac:(lia)). lia.
Qed.

Lemma wrap_s_id w x : 0 < w -> - 2 ^ (w - 1) <= x < 2 ^ (w - 1) -> wrap_s w x = x.
Proof.
  intros Hw Hx. unfold wrap_s.
  assert (H2 : 2 ^ w = 2 * 2 ^ (w - 1)).
  { rewrite <- Z.pow_succ_r by lia. f_equal. lia. }
  rewrite Z.mod_small; lia.
Qed.

Lemma u64_id x : 0 <= x < 2 ^ 64 -> u64 x = x.
Proof. apply (wrap_u_id 64). Qed.
Lemma u64_range x : 0 <= u64 x < 2 ^ 64.
Proof. by apply (wrap_u_range 64). Qed.
Lemma u8_id x : 0 <= x < 2 ^ 8 -> u8 x = x.
Proof. apply (wrap_u_id 8). Qed.
Lemma u8_range x : 0 <= u8 x < 2 ^ 8.
Proof. by apply (wrap_u_range 8). Qed.
Lemma u32_id x : 0 <= x < 2 ^ 32 -> u32 x = x.
Proof. apply (wrap_u_id 32). Qed.
Lemma s32_id x : - 2 ^ 31 <= x < 2 ^ 31 -> s32 x = x.
Proof. by apply (wrap_s_id 32). Qed.
Lemma s32_range x : - 2 ^ 31 <= s32 x < 2 ^ 31.
Proof. by apply (wrap_s_range 32). Qed.
Lemma s8_range x : - 2 ^ 7 <= s8 x < 2 ^ 7.
Proof. by apply (wrap_s_range 8). Qed.

Lemma int_ok x : - 2 ^ 31 <= x < 2 ^ 31 -> int_ x = Ok x.
Proof.
  intros. unfold int_, fits_int.
  rewrite (proj2 (Z.leb_le _ _)), (proj2 (Z.ltb_lt _ _)) by lia. done.
Qed.
Lemma int_overflow x : ~ (- 2 ^ 31 <= x < 2 ^ 31) -> int_ x = Fault Undefined.
Proof.
  intros. unfold int_, fits_int.
  destruct (Z.leb_spec (- 2 ^ 31) x), (Z.ltb_spec x (2 ^ 31)); simpl; (done || lia).
Qed.
Lemma int_inv x y : int_ x = Ok y -> y = x /\ - 2 ^ 31 <= x < 2 ^ 31.
Proof.
  unfold int_, fits_int.
  destruct (Z.leb_spec (- 2 ^ 31) x), (Z.ltb_spec x (2 ^ 31)); simpl; intros [=]; lia.
Qed.
Lemma ll_ok x : - 2 ^ 63 <= x < 2 ^ 63 -> ll_ x = Ok x.
Proof.
  intros. unfold ll_, fits_ll.
  by rewrite (proj2 (Z.leb_le _ _)), (proj2 (Z.ltb_lt _ _)) by lia.
Qed.
End integers.

Create Rewrite HintDb cint.
#[export] Hint Rewrite u64_id u32_id u8_id s32_id int_ok using lia : cint.

(** Rewrites away the conversions that do not change their argument. *)
Ltac cint := autorewrite with cint.

(** [lia] with Euclidean division by constants. *)
Ltac dlia := Z.div_mod_to_equations; lia.

(** Turns boolean tests of the code into propositions. *)
Ltac ztest :=
  repeat match goal with
  | |- context [?a <=? ?b] => destruct (Z.leb_spec a b)
  | |- context [?a <? ?b] => destruct (Z.ltb_spec a b)
  | |- context [?a =? ?b] => destruct (Z.eqb_spec a b)
  | |- context [?a >? ?b] => rewrite (Z.gtb_ltb a b)
  | |- context [?a >=? ?b] => rewrite (Z.geb_leb a b)
  end.

(** ** Remainders *)

(** The C operator [%] on [int]. *)
Definition int_rem (a b : Z) : result Z :=
  if b =? 0 then Fault Undefined
  else if (a =? - 2 ^ 31) && (b =? -1) then Fault Undefined
  else Ok (Z.rem a b).

Lemma int_rem_ok a b : 0 <= a -> 0 < b -> int_rem a b = Ok (a mod b).
Proof.
  intros Ha Hb. unfold int_rem. ztest; simpl; try lia.
  all: by rewrite Z.rem_mod_nonneg by lia.
Qed.

Lemma int_rem_range a b : 0 < b -> int_rem a b = Ok (Z.rem a b) /\ - b < Z.rem a b < b.
Proof.
  intros Hb. unfold int_rem. split; [|pose proof (Z.rem_bound_abs a b); lia].
  ztest; simpl; try lia; done.
Qed.

(** ** Arrays

    Indexing out of bounds is undefined behaviour, as is the use of a cell
    that was never written ([None]). *)

Definition arr_get {A} (l : list A) (i : Z) : result A :=
  if 0 <=? i then need (l !! Z.to_nat i) else Fault Undefined.

Definition arr_set {A} (l : list A) (i : Z) (v : A) : result (list A) :=
  if (0 <=? i) && (i <? Z.of_nat (length l)) then Ok (<[Z.to_nat i := v]> l)
  else Fault Undefined.

(** A cell of an array of indeterminate values. *)
Definition cell_get {A} (l : list (option A)) (i : Z) : result A :=
  o ← arr_get l i; need o.

Section arrays.
Context {A : Type}.
Implicit Types (l : list A) (i : Z).

Lemma arr_get_ok l i v : 0 <= i -> l !! Z.to_nat i = Some v -> arr_get l i = Ok v.
Proof. intros Hi Hl. unfold arr_get. rewrite (proj2 (Z.leb_le _ _)) by done. by rewrite Hl. Qed.

Lemma arr_get_neg l i : i < 0 -> arr_get l i = Fault Undefined.
Proof. intros Hi. unfold arr_get. by rewrite (proj2 (Z.leb_gt _ _)). Qed.

Lemma arr_set_ok l i v :
  0 <= i < Z.of_nat (length l) -> arr_set l i v = Ok (<[Z.to_nat i := v]> l).
Proof.
  intros Hi. unfold arr_set.
  by rewrite (proj2 (Z.leb_le _ _)), (proj2 (Z.ltb_lt _ _)) by lia.
Qed.
End arrays.
