(* ===== verification/Bytes.v ===== *)
(** * Byte memory

    The memory region that [malloclab/memlib.c] obtains from [malloc] and
    that the allocators and the trace driver read and write: a finite map
    from addresses to bytes, where an absent address holds an indeterminate
    value; 64-bit little-endian loads and stores; [memset] and [memcpy]. *)

From S2P Require Import Prelude.

(** ** Little-endian encoding of 64-bit words *)

Fixpoint le_split (n : nat) (v : Z) : list Z :=
  match n with
  | O => []
  | S n => v mod 256 :: le_split n (v / 256)
  end.

Fixpoint le_combine (l : list Z) : Z :=
  match l with
  | [] => 0
  | b :: l => b + 256 * le_combine l
  end.

Lemma length_le_split n v : length (le_split n v) = n.
Proof. revert v; induction n; intros; simpl; [done | by f_equal]. Qed.

Lemma le_combine_split n v : le_combine (le_split n v) = v mod 256 ^ Z.of_nat n.
Proof.
  revert v; induction n as [|n IH]; intros v; simpl le_split.
  - by rewrite Z.mod_1_r.
  - simpl. rewrite IH, Nat2Z.inj_succ, Z.pow_succ_r by lia.
    rewrite Z.rem_mul_r by lia. lia.
Qed.

(** ** Memory contents *)

Abbreviation bytes := (gmap Z Z) (only parsing).

(** [write_bytes m a l] stores the byte values [l] from address [a] on;
    [None] stands for a byte with an indeterminate value. *)
Fixpoint write_bytes (m : bytes) (a : Z) (l : list (option Z)) : bytes :=
  match l with
  | [] => m
  | o :: l => write_bytes (partial_alter (fun _ => o) a m) (a + 1) l
  end.

Definition read_bytes (m : bytes) (a n : Z) : list (option Z) :=
  (fun i => m !! i) <$> seqZ a n.

Definition load64 (m : bytes) (a : Z) : option Z :=
  le_combine <$> mapM id (read_bytes m a 8).

Definition store64 (m : bytes) (a v : Z) : bytes :=
  write_bytes m a (Some <$> le_split 8 v).

(** [memset(p, c, n)]: the value is converted to [unsigned char]. *)
Definition memset_bytes (m : bytes) (p c n : Z) : bytes :=
  write_bytes m p (replicate (Z.to_nat n) (Some (u8 c))).

(** [memcpy(dst, src, n)] *)
Definition memcpy_bytes (m : bytes) (dst src n : Z) : bytes :=
  write_bytes m dst (read_bytes m src n).

Section bytes_lemmas.
Implicit Types (m : bytes) (a b n v : Z) (l : list (option Z)).

Lemma write_bytes_out m a l b :
  ~ (a <= b < a + Z.of_nat (length l)) -> write_bytes m a l !! b = m !! b.
Proof.
  revert m a; induction l as [|o l IH]; intros m a Hb; simpl in *; [done|].
  rewrite IH by lia. rewrite lookup_partial_alter_ne by lia. done.
Qed.

Lemma write_bytes_in m a l (i : nat) o :
  l !! i = Some o -> write_bytes m a l !! (a + Z.of_nat i) = o.
Proof.
  revert m a i; induction l as [|o' l IH]; intros m a i Hi; simpl in *; [done|].
  destruct i as [|i]; simpl in Hi.
  - injection Hi as ->. rewrite write_bytes_out by lia.
    rewrite Z.add_0_r, lookup_partial_alter_eq. done.
  - replace (a + Z.of_nat (S i)) with (a + 1 + Z.of_nat i) by lia. by apply IH.
Qed.

Lemma length_read_bytes m a n : length (read_bytes m a n) = Z.to_nat n.
Proof. unfold read_bytes. by rewrite length_fmap, length_seqZ. Qed.

Lemma lookup_read_bytes m a n (i : nat) :
  Z.of_nat i < n -> read_bytes m a n !! i = Some (m !! (a + Z.of_nat i)).
Proof.
  intros Hi. unfold read_bytes.
  rewrite list_lookup_fmap, lookup_seqZ_lt by lia. done.
Qed.

Lemma read_bytes_ext m m' a n :
  (forall b, a <= b < a + n -> m !! b = m' !! b) ->
  read_bytes m a n = read_bytes m' a n.
Proof.
  intros Hext. unfold read_bytes. apply list_fmap_ext.
  intros i x Hx. apply lookup_seqZ in Hx. apply Hext. lia.
Qed.

Lemma read_write_same m a l n :
  n = Z.of_nat (length l) -> read_bytes (write_bytes m a l) a n = l.
Proof.
  intros ->. apply list_eq. intros i.
  destruct (decide (i < length l)%nat) as [Hi|Hi].
  - rewrite lookup_read_bytes by lia.
    destruct (lookup_lt_is_Some_2 l i Hi) as [o Ho].
    rewrite Ho. f_equal. by apply write_bytes_in.
  - rewrite !lookup_ge_None_2; [done|lia|]. rewrite length_read_bytes. lia.
Qed.

Lemma load64_ext m m' a :
  (forall b, a <= b < a + 8 -> m !! b = m' !! b) -> load64 m a = load64 m' a.
Proof. intros. unfold load64. by rewrite (read_bytes_ext m m'). Qed.

Lemma load64_write_out m a l b :
  b + 8 <= a \/ a + Z.of_nat (length l) <= b ->
  load64 (write_bytes m a l) b = load64 m b.
Proof. intros. apply load64_ext. intros. apply write_bytes_out. lia. Qed.

Lemma mapM_Some_fmap (l : list Z) : mapM id (Some <$> l) = Some l.
Proof. induction l as [|b l IH]; [done|]. cbn. by rewrite IH. Qed.

Lemma load64_store64 m a v : 0 <= v < 2 ^ 64 -> load64 (store64 m a v) a = Some v.
Proof.
  intros Hv. unfold load64, store64.
  rewrite read_write_same by (by rewrite length_fmap, length_le_split).
  rewrite mapM_Some_fmap. cbn [fmap option_fmap option_map].
  rewrite le_combine_split. f_equal. by apply Z.mod_small.
Qed.

Lemma store64_out m a v b : ~ (a <= b < a + 8) -> store64 m a v !! b = m !! b.
Proof.
  intros. apply write_bytes_out. rewrite length_fmap, length_le_split. lia.
Qed.

Lemma load64_store64_out m a v b :
  b + 8 <= a \/ a + 8 <= b -> load64 (store64 m a v) b = load64 m b.
Proof.
  intros. apply load64_write_out. rewrite length_fmap, length_le_split. lia.
Qed.

Lemma memset_in m p c n b : p <= b < p + n -> memset_bytes m p c n !! b = Some (u8 c).
Proof.
  intros. unfold memset_bytes.
  replace b with (p + Z.of_nat (Z.to_nat (b - p))) by lia.
  apply write_bytes_in. apply lookup_replicate_2. lia.
Qed.

Lemma memset_out m p c n b :
  ~ (p <= b < p + n) -> memset_bytes m p c n !! b = m !! b.
Proof.
  intros. apply write_bytes_out. rewrite length_replicate. lia.
Qed.

Lemma memcpy_in m dst src n b :
  dst <= b < dst + n -> memcpy_bytes m dst src n !! b = m !! (b - dst + src).
Proof.
  intros. unfold memcpy_bytes.
  replace b with (dst + Z.of_nat (Z.to_nat (b - dst))) at 1 by lia.
  apply write_bytes_in. rewrite lookup_read_bytes by lia. do 2 f_equal. lia.
Qed.

Lemma memcpy_out m dst src n b :
  ~ (dst <= b < dst + n) -> memcpy_bytes m dst src n !! b = m !! b.
Proof.
  intros. apply write_bytes_out. rewrite length_read_bytes. lia.
Qed.
End bytes_lemmas.

Arguments load64 : simpl never.
Arguments store64 : simpl never.
Arguments memset_bytes : simpl never.
Arguments memcpy_bytes : simpl never.
