(* ===== verification/Memlib.v ===== *)
(** * The simulated memory system: [malloclab/memlib.c]

    The static variables [mem_start_brk], [mem_brk] and [mem_max_addr], the
    [errno] that [mem_sbrk] sets, and the contents of the region are the
    fields of [mem].  Pointers are their numeric addresses. *)

From S2P Require Import Prelude Bytes.

(** ** Constants ([memlib.h], [config.h]) *)

Definition ALIGNMENT : Z := 16.
Definition MAX_HEAP : Z := 200 * Z.shiftl 1 20.
Definition ENOMEM : Z := 12.
Definition NULL : Z := 0.
(** [(void * ) -1] *)
Definition sbrk_failed : Z := u64 (-1).

(** ** Helpers *)

Definition align (size : Z) : Z :=
  Z.land (u64 (size + (ALIGNMENT - 1))) (u64 (Z.lnot (ALIGNMENT - 1))).

Definition is_aligned (p : Z) : bool := Z.rem (s64 p) ALIGNMENT =? 0.

(** ** State and operations *)

Record mem := Mem {
  mem_start_brk : Z;
  mem_brk : Z;
  mem_max_addr : Z;
  mem_errno : Z;
  mem_bytes : bytes;
}.

Definition set_brk (b : Z) (m : mem) : mem :=
  Mem (mem_start_brk m) b (mem_max_addr m) (mem_errno m) (mem_bytes m).
Definition set_errno (e : Z) (m : mem) : mem :=
  Mem (mem_start_brk m) (mem_brk m) (mem_max_addr m) e (mem_bytes m).
Definition set_bytes (bs : bytes) (m : mem) : mem :=
  Mem (mem_start_brk m) (mem_brk m) (mem_max_addr m) (mem_errno m) bs.

(** [region] is what [malloc(MAX_HEAP)] returned. *)
Definition mem_init (region : Z) : ST mem unit := fun m =>
  if region =? NULL then Fault (Exited 1)
  else Ok (tt, Mem region region (region + MAX_HEAP) (mem_errno m) (mem_bytes m)).

(** [free] leaves the three pointers dangling; the contents are gone. *)
Definition mem_deinit : ST mem unit := modify (set_bytes ∅).

Definition mem_reset_brk : ST mem unit :=
  modify (fun m => set_brk (mem_start_brk m) m).

Definition mem_sbrk (incr : Z) : ST mem Z :=
  m ← get;
  let old_brk := mem_brk m in
  if (incr <? 0) || (mem_brk m + incr >? mem_max_addr m) then
    modify (set_errno ENOMEM);;
    mret sbrk_failed
  else
    modify (set_brk (mem_brk m + incr));;
    mret old_brk.

Definition mem_heap_lo (m : mem) : Z := mem_start_brk m.
Definition mem_heap_hi (m : mem) : Z := mem_brk m - 1.
Definition mem_heapsize (m : mem) : Z := u64 (mem_brk m - mem_start_brk m).

(** The system's answer as a [size_t]. *)
Definition mem_pagesize (getpagesize : Z) : Z := u64 getpagesize.

(** ** Accesses to the region: undefined outside of it *)

Definition in_region (m : mem) (a n : Z) : bool :=
  (mem_start_brk m <=? a) && (a + n <=? mem_max_addr m).

Definition mem_load64 (a : Z) : ST mem Z := fun m =>
  if in_region m a 8 then
    match load64 (mem_bytes m) a with
    | Some v => Ok (v, m)
    | None => Fault Undefined
    end
  else Fault Undefined.

Definition mem_store64 (a v : Z) : ST mem unit := fun m =>
  if in_region m a 8 then Ok (tt, set_bytes (store64 (mem_bytes m) a v) m)
  else Fault Undefined.

Definition memset (p c n : Z) : ST mem unit := fun m =>
  if in_region m p n then Ok (tt, set_bytes (memset_bytes (mem_bytes m) p c n) m)
  else Fault Undefined.

(** [memcpy] is undefined when the two blocks overlap. *)
Definition memcpy (dst src n : Z) : ST mem unit := fun m =>
  if in_region m dst n && in_region m src n &&
     ((dst + n <=? src) || (src + n <=? dst) || (n =? 0))
  then Ok (tt, set_bytes (memcpy_bytes (mem_bytes m) dst src n) m)
  else Fault Undefined.

(** A read of one [char], which is signed on this target. *)
Definition mem_load_char (a : Z) : ST mem Z := fun m =>
  if in_region m a 1 then
    match mem_bytes m !! a with
    | Some b => Ok (s8 b, m)
    | None => Fault Undefined
    end
  else Fault Undefined.

(** ** Well-formed states *)

(** What [mem_init] establishes and the other operations preserve.  The
    region comes from [malloc]: it is 16-byte aligned, not null and lies
    below the end of the user address space. *)
Record mem_ok (m : mem) : Prop := {
  mem_ok_lo : 0 < mem_start_brk m;
  mem_ok_align : mem_start_brk m mod 16 = 0;
  mem_ok_brk : mem_start_brk m <= mem_brk m <= mem_max_addr m;
  mem_ok_max : mem_max_addr m = mem_start_brk m + MAX_HEAP;
  mem_ok_hi : mem_max_addr m < 2 ^ 47;
}.

Lemma MAX_HEAP_val : MAX_HEAP = 209715200.
Proof. reflexivity. Qed.

(** Clearing the low [n] bits of a 64-bit word with a complemented mask. *)
Lemma land_clear_low x n :
  0 <= x < 2 ^ 64 -> 0 <= n <= 64 ->
  Z.land x (u64 (Z.lnot (Z.ones n))) = 2 ^ n * (x / 2 ^ n).
Proof.
  intros Hx Hn. unfold u64, wrap_u.
  rewrite <- Z.land_ones by lia.
  rewrite (Z.land_comm (Z.lnot _)), Z.land_assoc, Z.land_ones by lia.
  rewrite Z.mod_small by lia.
  rewrite <- Z.ldiff_land, Z.ldiff_ones_r, Z.shiftr_div_pow2, Z.shiftl_mul_pow2 by lia.
  lia.
Qed.

Lemma align_alt size :
  align size = 16 * (u64 (size + 15) / 16).
Proof.
  unfold align. change (ALIGNMENT - 1) with (Z.ones 4).
  rewrite land_clear_low; [done|apply u64_range|lia].
Qed.

Lemma is_aligned_alt p : 0 <= p < 2 ^ 63 -> is_aligned p = (p mod 16 =? 0).
Proof.
  intros Hp. unfold is_aligned, s64, ALIGNMENT.
  rewrite wrap_s_id by lia. by rewrite Z.rem_mod_nonneg by lia.
Qed.

Section sbrk.
Context (m : mem) (Hm : mem_ok m).

Lemma mem_sbrk_ok incr :
  0 <= incr -> mem_brk m + incr <= mem_max_addr m ->
  mem_sbrk incr m = Ok (mem_brk m, set_brk (mem_brk m + incr) m).
Proof.
  intros. unfold mem_sbrk. st_unfold.
  rewrite (proj2 (Z.ltb_ge _ _)), Z.gtb_ltb, (proj2 (Z.ltb_ge _ _)) by lia. done.
Qed.

Lemma mem_sbrk_fail incr :
  incr < 0 \/ mem_max_addr m < mem_brk m + incr ->
  mem_sbrk incr m = Ok (sbrk_failed, set_errno ENOMEM m).
Proof.
  intros Hor. unfold mem_sbrk. st_unfold.
  destruct (incr <? 0) eqn:E1; [done|].
  destruct (mem_brk m + incr >? mem_max_addr m) eqn:E2; [done|]. lia.
Qed.

Lemma mem_brk_not_failed : mem_brk m <> sbrk_failed.
Proof.
  destruct Hm as [? ? ? ? ?]. unfold sbrk_failed, u64, wrap_u.
  assert (2 ^ 47 < -1 mod 2 ^ 64) by done. lia.
Qed.
End sbrk.

Lemma in_region_true m a n :
  mem_start_brk m <= a -> a + n <= mem_max_addr m -> in_region m a n = true.
Proof.
  intros. unfold in_region.
  by rewrite (proj2 (Z.leb_le _ _)), (proj2 (Z.leb_le _ _)) by lia.
Qed.

Lemma mem_load64_ok m a v :
  mem_start_brk m <= a -> a + 8 <= mem_max_addr m ->
  load64 (mem_bytes m) a = Some v -> mem_load64 a m = Ok (v, m).
Proof. intros. unfold mem_load64. rewrite in_region_true by done. by simplify_option_eq. Qed.

Lemma mem_store64_ok m a v :
  mem_start_brk m <= a -> a + 8 <= mem_max_addr m ->
  mem_store64 a v m = Ok (tt, set_bytes (store64 (mem_bytes m) a v) m).
Proof. intros. unfold mem_store64. by rewrite in_region_true. Qed.

Lemma memset_ok m p c n :
  mem_start_brk m <= p -> p + n <= mem_max_addr m ->
  memset p c n m = Ok (tt, set_bytes (memset_bytes (mem_bytes m) p c n) m).
Proof. intros. unfold memset. by rewrite in_region_true. Qed.

Lemma memcpy_ok m dst src n :
  mem_start_brk m <= dst -> dst + n <= mem_max_addr m ->
  mem_start_brk m <= src -> src + n <= mem_max_addr m ->
  dst + n <= src \/ src + n <= dst ->
  memcpy dst src n m = Ok (tt, set_bytes (memcpy_bytes (mem_bytes m) dst src n) m).
Proof.
  intros. unfold memcpy. rewrite !in_region_true by done. simpl.
  destruct (Z.leb_spec (dst + n) src), (Z.leb_spec (src + n) dst); simpl; (done || lia).
Qed.

Lemma mem_load_char_ok m a b :
  mem_start_brk m <= a -> a + 1 <= mem_max_addr m -> mem_bytes m !! a = Some b ->
  mem_load_char a m = Ok (s8 b, m).
Proof. intros. unfold mem_load_char. rewrite in_region_true by done. by simplify_option_eq. Qed.

(** ** Properties *)

(** [align] returns the least multiple of [ALIGNMENT] not below its
    argument, for every [size_t] up to the last multiple of 16; the 15 sizes
    above that wrap around to 0. *)
Theorem align_least (size : Z) :
  0 <= size < 2 ^ 64 ->
  (size <= 2 ^ 64 - 16 ->
     align size mod ALIGNMENT = 0 /\ size <= align size /\
     forall k, size <= k -> k mod ALIGNMENT = 0 -> align size <= k) /\
  (2 ^ 64 - 16 < size -> align size = 0).
Proof.
  intros Hs. rewrite align_alt. unfold ALIGNMENT. split.
  - intros Hle. destruct (Z.eq_dec size (2 ^ 64 - 16)) as [->|Hne].
    + change (u64 (2 ^ 64 - 16 + 15)) with (2 ^ 64 - 1). split_and!; [done..|].
      intros k Hk Hm. dlia.
    + rewrite u64_id by lia. split_and!; [dlia|dlia|]. intros k Hk Hm. dlia.
  - intros Hgt. unfold u64, wrap_u.
    replace (size + 15) with (size - (2 ^ 64 - 15) + 1 * 2 ^ 64) by lia.
    rewrite Z.mod_add by lia. rewrite Z.mod_small by lia.
    rewrite Z.div_small by lia. done.
Qed.

Lemma align_least_witness : align 2040 mod ALIGNMENT = 0 /\ align (2 ^ 64 - 1) = 0.
Proof.
  split.
  - apply (align_least 2040); lia.
  - apply (align_least (2 ^ 64 - 1)); lia.
Defined.

(** [mem_sbrk] grows the break by exactly [incr] and returns the old
    break when the growth is non-negative and fits below [mem_max_addr];
    otherwise it returns [(void * )-1], sets [errno] to [ENOMEM] and leaves
    the heap alone.  In both cases the state stays well formed, and a
    successful return is never confused with the error value. *)
Theorem mem_sbrk_correct (m : mem) (incr : Z) :
  mem_ok m ->
  (0 <= incr /\ mem_brk m + incr <= mem_max_addr m ->
     mem_sbrk incr m = Ok (mem_brk m, set_brk (mem_brk m + incr) m) /\
     mem_brk m <> sbrk_failed /\
     mem_heapsize (set_brk (mem_brk m + incr) m) = mem_heapsize m + incr /\
     mem_ok (set_brk (mem_brk m + incr) m)) /\
  (incr < 0 \/ mem_max_addr m < mem_brk m + incr ->
     mem_sbrk incr m = Ok (sbrk_failed, set_errno ENOMEM m) /\
     mem_ok (set_errno ENOMEM m)).
Proof.
  intros Hm. pose proof Hm as [Hlo Ha Hb Hmax Hhi]. split.
  - intros [Hi Hfit]. split_and!.
    + by apply mem_sbrk_ok.
    + by apply mem_brk_not_failed.
    + unfold mem_heapsize. simpl. rewrite !u64_id by lia. lia.
    + split; simpl; (done || lia).
  - intros Hor. split; [by apply mem_sbrk_fail|]. by split.
Qed.

Lemma mem_sbrk_correct_witness :
  let m := Mem 4096 4096 (4096 + MAX_HEAP) 0 ∅ in
  mem_sbrk 48 m = Ok (4096, set_brk 4144 m) /\
  mem_sbrk (-1) m = Ok (sbrk_failed, set_errno ENOMEM m).
Proof.
  intros m. assert (Hm : mem_ok m) by (split; vm_compute; (done || split; done)).
  destruct (mem_sbrk_correct m 48 Hm) as [H _].
  destruct (mem_sbrk_correct m (-1) Hm) as [_ H'].
  split; [apply H; vm_compute; split; done|apply H'; left; done].
Defined.
