(* ===== verification/Doubles.v ===== *)
(** * C [double]s

    IEEE 754 binary64 values and operations, as the executable specification
    [SpecFloat] of the standard library gives them (round to nearest even),
    with the conversions the labs use and the order facts of the
    measurement code. *)

From Stdlib Require Import SpecFloat.
From S2P Require Import Prelude.

Abbreviation double := spec_float.

Definition dprec : Z := 53.
Definition demax : Z := 1024.

Definition d_of_Z (z : Z) : double := binary_normalize dprec demax z 0 false.
Definition dadd : double -> double -> double := SFadd dprec demax.
Definition dsub : double -> double -> double := SFsub dprec demax.
Definition dmul : double -> double -> double := SFmul dprec demax.
Definition ddiv : double -> double -> double := SFdiv dprec demax.
Definition dlt : double -> double -> bool := SFltb.
Definition dle : double -> double -> bool := SFleb.
Definition deq : double -> double -> bool := SFeqb.
Definition dzero : double := S754_zero false.

(** A decimal literal [num / den]: one correctly rounded division. *)
Definition d_lit (num den : Z) : double := ddiv (d_of_Z num) (d_of_Z den).

(** [(int) d]: truncation toward zero, undefined when it does not fit. *)
Definition int_of_double (d : double) : result Z :=
  match d with
  | S754_zero _ => Ok 0
  | S754_finite s m e =>
      let n := if 0 <=? e then Z.shiftl (Zpos m) e else Z.shiftr (Zpos m) (- e) in
      int_ (if s then - n else n)
  | _ => Fault Undefined
  end.

Definition is_nan (d : double) : bool :=
  match d with S754_nan => true | _ => false end.

Example d_example : int_of_double (dmul (d_lit 60 100) (d_of_Z 100)) = Ok 60.
Proof. vm_compute. reflexivity. Qed.

(** ** The order of doubles

    On values that are not NaN, [<] is a strict weak order: the comparisons
    of the sampling code behave as expected. *)

(** The rank of a double: class, then exponent, then mantissa. *)
Definition drank (d : double) : Z * Z * Z :=
  match d with
  | S754_infinity true => (-2, 0, 0)
  | S754_finite true m e => (-1, - e, - Zpos m)
  | S754_zero _ => (0, 0, 0)
  | S754_finite false m e => (1, e, Zpos m)
  | S754_infinity false => (2, 0, 0)
  | S754_nan => (3, 0, 0)
  end.

Definition lex_lt (a b : Z * Z * Z) : Prop :=
  let '(a1, a2, a3) := a in
  let '(b1, b2, b3) := b in
  a1 < b1 \/ a1 = b1 /\ (a2 < b2 \/ a2 = b2 /\ a3 < b3).

Lemma lex_lt_trans a b c : lex_lt a b -> lex_lt b c -> lex_lt a c.
Proof. destruct a as [[??]?], b as [[??]?], c as [[??]?]. simpl. lia. Qed.

Lemma lex_lt_trichotomy a b : lex_lt a b \/ a = b \/ lex_lt b a.
Proof.
  destruct a as [[a1 a2] a3], b as [[b1 b2] b3]. simpl.
  destruct (Z.lt_total a1 b1) as [?|[->|?]]; [lia| |lia].
  destruct (Z.lt_total a2 b2) as [?|[->|?]]; [lia| |lia].
  destruct (Z.lt_total a3 b3) as [?|[->|?]]; [lia|by right; left|lia].
Qed.

Lemma SFcompare_rank x y c :
  is_nan x = false -> is_nan y = false -> SFcompare x y = Some c ->
  match c with
  | Lt => lex_lt (drank x) (drank y)
  | Eq => drank x = drank y
  | Gt => lex_lt (drank y) (drank x)
  end.
Proof.
  destruct x as [[]|[]| |[] m e], y as [[]|[]| |[] m' e']; simpl; intros Hx Hy [= <-];
    try done; try lia.
  - destruct (Z.compare_spec e e') as [->| |]; [|lia|lia].
    change (Pos.compare_cont Eq m m') with (Pos.compare m m').
    destruct (Pos.compare_spec m m') as [->| |]; simpl; [done|lia|lia].
  - destruct (Z.compare_spec e e') as [->| |]; [|lia|lia].
    change (Pos.compare_cont Eq m m') with (Pos.compare m m').
    destruct (Pos.compare_spec m m') as [->| |]; simpl; [done|lia|lia].
Qed.

Lemma SFcompare_not_nan x y :
  is_nan x = false -> is_nan y = false -> exists c, SFcompare x y = Some c.
Proof.
  intros Hx Hy.
  destruct x as [[]|[]| |[] m e], y as [[]|[]| |[] m' e']; simpl in *; try done; by eexists.
Qed.

Lemma lex_lt_irrefl a : ~ lex_lt a a.
Proof. destruct a as [[??]?]. simpl. lia. Qed.

Lemma dlt_spec x y :
  is_nan x = false -> is_nan y = false ->
  dlt x y = true <-> lex_lt (drank x) (drank y).
Proof.
  intros Hx Hy. destruct (SFcompare_not_nan x y Hx Hy) as [c Hc].
  pose proof (SFcompare_rank x y c Hx Hy Hc) as Hr.
  unfold dlt, SFltb. rewrite Hc. split.
  - by destruct c.
  - intros Hlt. destruct c; [|done|].
    + rewrite Hr in Hlt. by apply lex_lt_irrefl in Hlt.
    + destruct (lex_lt_irrefl (drank x)). by eapply lex_lt_trans.
Qed.

(** [x <= y] as the negation of [y < x]. *)
Definition dnlt (x y : double) : Prop := dlt y x = false.

Lemma dnlt_spec x y :
  is_nan x = false -> is_nan y = false -> dnlt x y <-> ~ lex_lt (drank y) (drank x).
Proof.
  intros Hx Hy. unfold dnlt. rewrite <- dlt_spec by done.
  by destruct (dlt y x).
Qed.

Lemma dle_dnlt x y :
  is_nan x = false -> is_nan y = false -> dle x y = true <-> dnlt x y.
Proof.
  intros Hx Hy. rewrite dnlt_spec by done.
  destruct (SFcompare_not_nan x y Hx Hy) as [c Hc].
  pose proof (SFcompare_rank x y c Hx Hy Hc) as Hr.
  unfold dle, SFleb. rewrite Hc. destruct c; split; try done.
  - intros _. rewrite Hr. apply lex_lt_irrefl.
  - intros _ Hlt. destruct (lex_lt_irrefl (drank x)). by eapply lex_lt_trans.
Qed.

Lemma dnlt_trans x y z :
  is_nan x = false -> is_nan y = false -> is_nan z = false ->
  dnlt x y -> dnlt y z -> dnlt x z.
Proof.
  intros Hx Hy Hz. rewrite !dnlt_spec by done. intros Hxy Hyz Hzx.
  destruct (lex_lt_trichotomy (drank x) (drank y)) as [H|[H|H]]; [|congruence|done].
  apply Hyz. by eapply lex_lt_trans.
Qed.

Lemma dlt_dnlt x y :
  is_nan x = false -> is_nan y = false -> dlt x y = true -> dnlt x y.
Proof.
  intros Hx Hy. rewrite dlt_spec, dnlt_spec by done. intros H1 H2.
  destruct (lex_lt_irrefl (drank x)). by eapply lex_lt_trans.
Qed.

Lemma dnlt_refl x : is_nan x = false -> dnlt x x.
Proof. intros Hx. rewrite dnlt_spec by done. apply lex_lt_irrefl. Qed.
