(* ===== verification/Allocator.v ===== *)
(** * The allocator interface: [malloclab/mm.h]

    [Allocator] lists the entry points of [mm.h] that the trace driver calls;
    [AllocatorSpec] is the contract of an allocator: a heap invariant relating
    the memory to the map of live blocks (payload address to usable size),
    and what each entry point does to it.  The driver's theorems are proved
    against the contract; [MmNaive] discharges it. *)

From S2P Require Import Prelude Bytes Memlib.

Class Allocator := {
  mm_init : ST mem Z;
  mm_malloc : Z -> ST mem Z;
  mm_free : Z -> ST mem unit;
  mm_realloc : Z -> Z -> ST mem Z;
}.

(** The contents of [[q, q + n)] are the same in both memories. *)
Definition same_bytes (m m' : mem) (q n : Z) : Prop :=
  forall b, q <= b < q + n -> mem_bytes m' !! b = mem_bytes m !! b.

(** Every live block keeps its contents. *)
Definition preserved (m m' : mem) (live : gmap Z Z) : Prop :=
  forall q n, live !! q = Some n -> same_bytes m m' q n.

(** Only the contents of the region differ. *)
Definition same_frame (m m' : mem) : Prop :=
  mem_start_brk m' = mem_start_brk m /\ mem_brk m' = mem_brk m /\
  mem_max_addr m' = mem_max_addr m.

(** The contract.  [heap_cost size] bounds the heap growth of one request of
    [size] bytes; a request that fits is served. *)
Class AllocatorSpec (A : Allocator) := {
  heap_inv : mem -> gmap Z Z -> Prop;
  heap_cost : Z -> Z;

  heap_cost_size size : 0 < size -> size <= heap_cost size;
  heap_inv_ok m live : heap_inv m live -> mem_ok m;
  heap_inv_block m live p n :
    heap_inv m live -> live !! p = Some n ->
    p mod 16 = 0 /\ mem_start_brk m <= p /\ 0 <= n /\ p + n <= mem_brk m /\ p < mem_brk m;
  heap_inv_disjoint m live p n q k :
    heap_inv m live -> live !! p = Some n -> live !! q = Some k -> p <> q ->
    p + n <= q \/ q + k <= p;
  (** The client may write inside of its live blocks. *)
  heap_inv_write m m' live p n :
    heap_inv m live -> live !! p = Some n -> same_frame m m' ->
    (forall b, ~ (p <= b < p + n) -> mem_bytes m' !! b = mem_bytes m !! b) ->
    heap_inv m' live;

  init_spec m :
    mem_ok m -> mem_brk m = mem_start_brk m ->
    exists r m', mm_init m = Ok (r, m') /\ 0 <= r /\ heap_inv m' ∅ /\
      mem_brk m' = mem_start_brk m' /\ mem_start_brk m' = mem_start_brk m;
  malloc_spec m live size :
    heap_inv m live -> 0 < size < 2 ^ 31 -> mem_brk m + heap_cost size <= mem_max_addr m ->
    exists p n m', mm_malloc size m = Ok (p, m') /\ p <> NULL /\ size <= n /\
      live !! p = None /\ heap_inv m' (<[p := n]> live) /\ preserved m m' live /\
      mem_start_brk m' = mem_start_brk m /\ mem_brk m' <= mem_brk m + heap_cost size;
  free_spec m live p n :
    heap_inv m live -> live !! p = Some n ->
    exists m', mm_free p m = Ok (tt, m') /\ heap_inv m' (delete p live) /\
      preserved m m' (delete p live) /\
      mem_start_brk m' = mem_start_brk m /\ mem_brk m' = mem_brk m;
  realloc_spec m live p n size :
    heap_inv m live -> live !! p = Some n -> 0 < size < 2 ^ 31 ->
    mem_brk m + heap_cost size <= mem_max_addr m ->
    exists q k m', mm_realloc p size m = Ok (q, m') /\ q <> NULL /\ size <= k /\
      delete p live !! q = None /\ heap_inv m' (<[q := k]> (delete p live)) /\
      preserved m m' (delete p live) /\
      (forall i, 0 <= i < n `min` size ->
        mem_bytes m' !! (q + i) = mem_bytes m !! (p + i)) /\
      mem_start_brk m' = mem_start_brk m /\ mem_brk m' <= mem_brk m + heap_cost size;
}.

(** ** Clients of an allocator

    A client holds the map of the blocks it was given, with the sizes it
    asked for.  It may request, resize and return blocks and write inside
    of them, in any order. *)
Section client.
Context {A : Allocator} {AS : AllocatorSpec A}.

Definition client_state : Type := mem * gmap Z Z.

Inductive client_step : client_state -> client_state -> Prop :=
  | client_malloc m held size p m' :
      0 < size < 2 ^ 31 -> mem_brk m + heap_cost size <= mem_max_addr m ->
      mm_malloc size m = Ok (p, m') ->
      client_step (m, held) (m', <[p := size]> held)
  | client_free m held p n m' :
      held !! p = Some n -> mm_free p m = Ok (tt, m') ->
      client_step (m, held) (m', delete p held)
  | client_realloc m held p n size q m' :
      held !! p = Some n ->
      0 < size < 2 ^ 31 -> mem_brk m + heap_cost size <= mem_max_addr m ->
      mm_realloc p size m = Ok (q, m') ->
      client_step (m, held) (m', <[q := size]> (delete p held))
  | client_write m held p n m' :
      held !! p = Some n -> same_frame m m' ->
      (forall b, ~ (p <= b < p + n) -> mem_bytes m' !! b = mem_bytes m !! b) ->
      client_step (m, held) (m', held).

(** The blocks held by the client are live blocks of the allocator, at
    least as large as requested. *)
Definition client_inv (s : client_state) : Prop :=
  exists live, heap_inv s.1 live /\
    forall p n, s.2 !! p = Some n -> exists k, live !! p = Some k /\ 0 < n <= k.

Lemma client_step_inv s s' : client_inv s -> client_step s s' -> client_inv s'.
Proof.
  intros (live & Hinv & Hheld) Hstep.
  destruct Hstep as [m held size p m' Hs Hfit Hrun|m held p n m' Hp Hrun
    |m held p n size q m' Hp Hs Hfit Hrun|m held p n m' Hp Hf Hout]; simpl in *.
  - destruct (malloc_spec _ _ _ Hinv Hs Hfit)
      as (p' & k & m'' & Hrun' & _ & Hk & _ & Hinv' & _).
    rewrite Hrun in Hrun'. injection Hrun' as <- <-. eexists; split; [exact Hinv'|].
    simpl. intros r z. rewrite !lookup_insert. case_decide; [|apply Hheld].
    intros [= <-]. exists k. split; [done|lia].
  - destruct (Hheld _ _ Hp) as (k & Hk & _).
    destruct (free_spec _ _ _ _ Hinv Hk) as (m'' & Hrun' & Hinv' & _).
    rewrite Hrun in Hrun'. injection Hrun' as <-. eexists; split; [exact Hinv'|].
    simpl. intros r z [Hne Hr]%lookup_delete_Some.
    rewrite lookup_delete_ne by done. by apply Hheld.
  - destruct (Hheld _ _ Hp) as (k & Hk & _).
    destruct (realloc_spec _ _ _ _ _ Hinv Hk Hs Hfit)
      as (q' & k' & m'' & Hrun' & _ & Hk' & _ & Hinv' & _).
    rewrite Hrun in Hrun'. injection Hrun' as <- <-. eexists; split; [exact Hinv'|].
    simpl. intros r z. rewrite !lookup_insert. case_decide.
    { intros [= <-]. exists k'. split; [done|lia]. }
    intros [Hne Hr]%lookup_delete_Some.
    rewrite lookup_delete_ne by done. by apply Hheld.
  - destruct (Hheld _ _ Hp) as (k & Hk & Hle). exists live. split; [|done].
    apply (heap_inv_write _ _ _ _ _ Hinv Hk Hf). intros b Hb. apply Hout. lia.
Qed.

Lemma client_reachable_inv s s' : client_inv s -> rtc client_step s s' -> client_inv s'.
Proof. intros H Hr. induction Hr; [done|]. eauto using client_step_inv. Qed.

(** The guarantee to a client, at every reachable state. *)
Definition client_safe (s : client_state) : Prop :=
  (forall p n, s.2 !! p = Some n ->
    p mod 16 = 0 /\ mem_start_brk s.1 <= p /\ p + n <= mem_brk s.1) /\
  (forall p n q k, s.2 !! p = Some n -> s.2 !! q = Some k -> p <> q ->
    p + n <= q \/ q + k <= p) /\
  (forall p n, s.2 !! p = Some n -> exists m', mm_free p s.1 = Ok (tt, m')).

Lemma client_inv_safe s : client_inv s -> client_safe s.
Proof.
  intros (live & Hinv & Hheld). split_and!.
  - intros p n Hp. destruct (Hheld _ _ Hp) as (k & Hk & Hle).
    destruct (heap_inv_block _ _ _ _ Hinv Hk) as (? & ? & ? & ? & ?). split_and!; (done || lia).
  - intros p n q k Hp Hq Hne.
    destruct (Hheld _ _ Hp) as (n' & Hn & ?), (Hheld _ _ Hq) as (k' & Hk & ?).
    destruct (heap_inv_disjoint _ _ _ _ _ _ Hinv Hn Hk Hne); lia.
  - intros p n Hp. destruct (Hheld _ _ Hp) as (k & Hk & Hle).
    destruct (free_spec _ _ _ _ Hinv Hk) as (m' & Hrun & _). by exists m'.
Qed.

Lemma client_start m :
  mem_ok m -> mem_brk m = mem_start_brk m ->
  exists r m', mm_init m = Ok (r, m') /\ 0 <= r /\ client_inv (m', ∅).
Proof.
  intros Hm Hb. destruct (init_spec m Hm Hb) as (r & m' & Hrun & Hr & Hinv & _).
  exists r, m'. split_and!; [done..|]. exists ∅. split; [done|]. by intros p n Hp.
Qed.
End client.
