(* ===== verification/MmNaive.v ===== *)
(** * The naive allocator: [malloclab/mm-naive.c]

    A chunk is a 16-byte header followed by the payload; the chunks tile the
    heap from [mem_heap_lo()] to the break.  A request always extends the
    heap; freeing clears the status bit of the header. *)

From S2P Require Import Prelude Bytes Memlib Allocator.

(** ** Definitions *)

(** [sizeof(header)]: the word [size_n_status] at offset 0 and the padding. *)
Definition sizeof_header : Z := 16.

Definition set_chunk_size_status (hdr size : Z) (status : bool) : ST mem unit :=
  mem_store64 hdr (Z.lor size (Z.b2z status)).

Definition set_chunk_status (hdr : Z) (status : bool) : ST mem unit :=
  let mask := u64 (Z.lnot (u64 (1 - Z.b2z status))) in
  v ← mem_load64 hdr;
  mem_store64 hdr (Z.land v mask).

Definition get_chunk_status (hdr : Z) : ST mem bool :=
  v ← mem_load64 hdr;
  mret (negb (Z.land v 1 =? 0)).

Definition get_chunk_size (hdr : Z) : ST mem Z :=
  v ← mem_load64 hdr;
  mret (Z.land v (u64 (Z.lnot 1))).

Definition payload_to_header (p : Z) : Z := p - sizeof_header.
Definition header_to_payload (hdr : Z) : Z := hdr + sizeof_header.

Definition get_next_chunk (hdr : Z) : ST mem Z :=
  sz ← get_chunk_size hdr;
  mret (hdr + sz).

Definition naive_init : ST mem Z := mret 0.

(** [int newsize] holds a [size_t] sum: the conversion keeps 32 bits. *)
Definition naive_newsize (size : Z) : Z := s32 (u64 (align size + sizeof_header)).

Definition naive_malloc (size : Z) : ST mem Z :=
  let newsize := naive_newsize size in
  h ← mem_sbrk newsize;
  if h =? sbrk_failed then mret NULL
  else
    lift (assert_ (is_aligned h));;
    set_chunk_size_status h (u64 newsize) true;;
    st ← get_chunk_status h;
    lift (assert_ (Bool.eqb st true));;
    sz ← get_chunk_size h;
    lift (assert_ (sz =? u64 newsize));;
    mret (header_to_payload h).

Definition naive_free (ptr : Z) : ST mem unit :=
  m ← get;
  lift (assert_ ((ptr >=? mem_heap_lo m) && (ptr <=? mem_heap_hi m)));;
  let h := payload_to_header ptr in
  set_chunk_status h false;;
  st ← get_chunk_status h;
  lift (assert_ (Bool.eqb st false)).

(** The part of [mm_realloc] that copies the old payload. *)
Definition naive_copy (newptr ptr size : Z) : ST mem unit :=
  if ptr =? NULL then mret tt
  else
    sz ← get_chunk_size (payload_to_header ptr);
    let copySize := u64 (sz - sizeof_header) in
    memcpy newptr ptr (if size <? copySize then size else copySize).

Definition naive_realloc (ptr size : Z) : ST mem Z :=
  o ← (if 0 <? size then
         newptr ← naive_malloc size;
         if newptr =? NULL then mret None
         else naive_copy newptr ptr size;; mret (Some newptr)
       else mret (Some NULL));
  match o with
  | None => mret NULL
  | Some newptr =>
      (if ptr =? NULL then mret tt else naive_free ptr);;
      mret newptr
  end.

(** *** [mm_checkheap] *)

Definition NORMAL_VERBOSE : Z := 1.

Record heap_totals := HeapTotals {
  total_allocated : Z;
  total_allocated_sz : Z;
  total_free : Z;
  total_free_sz : Z;
}.

(** What [mm_checkheap] prints: a line per chunk at high verbosity, and the
    totals. *)
Record heap_report := HeapReport {
  report_chunks : list (Z * bool);
  report_totals : option heap_totals;
}.

Definition checkheap_count (sz : Z) (status : bool) (t : heap_totals) : heap_totals :=
  if status then
    HeapTotals (u64 (total_allocated t + 1)) (u64 (total_allocated_sz t + sz))
      (total_free t) (total_free_sz t)
  else
    HeapTotals (total_allocated t) (total_allocated_sz t)
      (u64 (total_free t + 1)) (u64 (total_free_sz t + sz)).

Definition checkheap_step (verbose_level : Z) (v : Z * heap_totals * list (Z * bool))
    : ST mem (Z * heap_totals * list (Z * bool) + heap_totals * list (Z * bool)) :=
  let '(h, t, lines) := v in
  m ← get;
  if h <? mem_heap_hi m then
    sz ← get_chunk_size h;
    st ← get_chunk_status h;
    let lines := if NORMAL_VERBOSE <? verbose_level then lines ++ [(sz, st)] else lines in
    h' ← get_next_chunk h;
    mret (inl (h', checkheap_count sz st t, lines))
  else mret (inr (t, lines)).

Definition checkheap_fuel (m : mem) : positive :=
  Z.to_pos (mem_brk m - mem_start_brk m + 1).

Definition mm_checkheap (verbose_level : Z) : ST mem heap_report :=
  m ← get;
  '(t, lines) ← while_st (checkheap_fuel m) (checkheap_step verbose_level)
                  (mem_heap_lo m, HeapTotals 0 0 0 0, []);
  mret (HeapReport lines (if 0 <? verbose_level then Some t else None)).

#[export] Instance naive : Allocator := {|
  mm_init := naive_init;
  mm_malloc := naive_malloc;
  mm_free := naive_free;
  mm_realloc := naive_realloc;
|}.

(** A small end-to-end run: two blocks, the second one freed. *)
Example naive_run :
  (mem_init 4096;;
   p ← naive_malloc 20; q ← naive_malloc 1;
   naive_free q;;
   r ← mm_checkheap 2;
   mret (p, q, r)) (Mem 0 0 0 0 ∅) ≫= (fun '(x, _) => Ok x)
  = Ok (4112, 4160,
        HeapReport [(48, true); (32, false)] (Some (HeapTotals 1 48 1 32))).
Proof. vm_compute. reflexivity. Qed.

(** ** Chunks *)

Record chunk := Chunk { c_addr : Z; c_size : Z; c_live : bool }.

#[export] Instance chunk_eq_dec : EqDecision chunk.
Proof. solve_decision. Defined.

Definition c_end (c : chunk) : Z := c_addr c + c_size c.

(** The word [size_n_status] of a chunk. *)
Definition c_word (c : chunk) : Z := Z.lor (c_size c) (Z.b2z (c_live c)).

Definition chunk_ok (bs : bytes) (c : chunk) : Prop :=
  16 <= c_size c < 2 ^ 31 /\ c_size c mod 16 = 0 /\ load64 bs (c_addr c) = Some (c_word c).

(** The chunks [cs] tile the addresses from [a] to [e]. *)
Fixpoint tiled (bs : bytes) (a : Z) (cs : list chunk) (e : Z) : Prop :=
  match cs with
  | [] => a = e
  | c :: cs => c_addr c = a /\ chunk_ok bs c /\ tiled bs (c_end c) cs e
  end.

Lemma c_word_add c : c_size c mod 16 = 0 -> c_word c = c_size c + Z.b2z (c_live c).
Proof.
  intros Hs. unfold c_word. symmetry. apply Z.add_nocarry_lor.
  destruct (c_live c); simpl; [|apply Z.land_0_r].
  change 1 with (Z.ones 1). rewrite Z.land_ones by lia.
  change (2 ^ 1) with 2. dlia.
Qed.

Lemma word_size w : 0 <= w < 2 ^ 64 -> Z.land w (u64 (Z.lnot 1)) = 2 * (w / 2).
Proof. intros. change 1 with (Z.ones 1) at 1. by rewrite land_clear_low by lia. Qed.

Lemma word_status w : Z.land w 1 = w mod 2.
Proof. change 1 with (Z.ones 1). by rewrite Z.land_ones. Qed.

Lemma chunk_word_range bs c : chunk_ok bs c -> 0 <= c_word c < 2 ^ 32.
Proof.
  intros (Hr & Hm & _). rewrite c_word_add by done. destruct (c_live c); simpl; lia.
Qed.

Lemma chunk_word_size bs c :
  chunk_ok bs c -> Z.land (c_word c) (u64 (Z.lnot 1)) = c_size c.
Proof.
  intros Hc. pose proof (chunk_word_range _ _ Hc). destruct Hc as (Hr & Hm & _).
  rewrite word_size by lia. rewrite c_word_add by done. destruct (c_live c); simpl; dlia.
Qed.

Lemma chunk_word_status bs c :
  chunk_ok bs c -> negb (Z.land (c_word c) 1 =? 0) = c_live c.
Proof.
  intros (Hr & Hm & _). rewrite word_status, c_word_add by done.
  destruct (c_live c); simpl; [|apply negb_false_iff, Z.eqb_eq; dlia].
  apply negb_true_iff, Z.eqb_neq. dlia.
Qed.

Lemma tiled_app bs a cs1 cs2 e :
  tiled bs a (cs1 ++ cs2) e <-> exists b, tiled bs a cs1 b /\ tiled bs b cs2 e.
Proof.
  revert a; induction cs1 as [|c cs1 IH]; intros a; simpl.
  - split; [by exists a|]. by intros (b & -> & H).
  - rewrite IH. split; [intros (? & ? & b & ? & ?); by exists b|].
    intros (b & (? & ? & ?) & ?). split_and!; [done..|by exists b].
Qed.

Lemma tiled_le bs a cs e : tiled bs a cs e -> a <= e.
Proof.
  revert a; induction cs as [|c cs IH]; intros a; simpl; [lia|].
  intros (<- & (Hs & _) & H). apply IH in H. unfold c_end in H. lia.
Qed.

Lemma tiled_length bs a cs e : tiled bs a cs e -> 16 * Z.of_nat (length cs) <= e - a.
Proof.
  revert a; induction cs as [|c cs IH]; intros a; simpl; [lia|].
  intros (<- & (Hs & _) & H). apply IH in H. unfold c_end in H. lia.
Qed.

Lemma tiled_elem bs a cs e c :
  tiled bs a cs e -> c ∈ cs -> a <= c_addr c /\ c_end c <= e /\ chunk_ok bs c.
Proof.
  intros Ht Hc. apply list_elem_of_split in Hc as (cs1 & cs2 & ->).
  apply tiled_app in Ht as (b & H1 & H2). simpl in H2. destruct H2 as (<- & Hok & H2).
  apply tiled_le in H1, H2. by split_and!.
Qed.

Lemma tiled_align bs a cs e c :
  tiled bs a cs e -> a mod 16 = 0 -> c ∈ cs -> c_addr c mod 16 = 0.
Proof.
  revert a; induction cs as [|d cs IH]; intros a Ht Ha Hc; [by apply elem_of_nil in Hc|].
  simpl in Ht. destruct Ht as (Hd & (_ & Hm & _) & Ht).
  apply elem_of_cons in Hc as [->|Hc]; [by rewrite Hd|].
  apply (IH (c_end d)); [done| |done]. clear IH Ht. unfold c_end. subst a. dlia.
Qed.

Lemma tiled_disjoint bs a cs e c d :
  tiled bs a cs e -> c ∈ cs -> d ∈ cs -> c_addr c <> c_addr d ->
  c_end c <= c_addr d \/ c_end d <= c_addr c.
Proof.
  revert a; induction cs as [|x cs IH]; intros a Ht Hc Hd Hne; [by apply elem_of_nil in Hc|].
  simpl in Ht. destruct Ht as (Hx & _ & Ht).
  apply elem_of_cons in Hc as [->|Hc]; apply elem_of_cons in Hd as [->|Hd].
  - done.
  - left. by destruct (tiled_elem _ _ _ _ _ Ht Hd).
  - right. by destruct (tiled_elem _ _ _ _ _ Ht Hc).
  - by apply (IH (c_end x)).
Qed.

(** A chunk of a tiling is determined by its address. *)
Lemma tiled_addr_inj bs a cs e c d :
  tiled bs a cs e -> c ∈ cs -> d ∈ cs -> c_addr c = c_addr d -> c = d.
Proof.
  revert a; induction cs as [|x cs IH]; intros a Ht Hc Hd Heq; [by apply elem_of_nil in Hc|].
  simpl in Ht. destruct Ht as (Hx & (Hs & _) & Ht).
  apply elem_of_cons in Hc as [->|Hc]; apply elem_of_cons in Hd as [->|Hd].
  - done.
  - destruct (tiled_elem _ _ _ _ _ Ht Hd) as [? _]. unfold c_end in *. lia.
  - destruct (tiled_elem _ _ _ _ _ Ht Hc) as [? _]. unfold c_end in *. lia.
  - by apply (IH (c_end x)).
Qed.

(** A tiling survives every change that keeps the header words. *)
Lemma tiled_headers bs bs' a cs e :
  tiled bs a cs e ->
  (forall c, c ∈ cs -> load64 bs' (c_addr c) = load64 bs (c_addr c)) ->
  tiled bs' a cs e.
Proof.
  revert a; induction cs as [|c cs IH]; intros a Ht Hw; simpl in *; [done|].
  destruct Ht as (Hc & (Hs & Hm & Hl) & Ht). split_and!; [done|..].
  - split; [done|split; [done|]]. rewrite Hw by set_solver. done.
  - apply IH; [done|]. intros d Hd. apply Hw. set_solver.
Qed.

(** Clears the status of the chunk at address [a]. *)
Definition free_at (a : Z) (c : chunk) : chunk :=
  if c_addr c =? a then Chunk (c_addr c) (c_size c) false else c.

Lemma tiled_free_other bs b cs e a v :
  tiled bs b cs e -> (forall c, c ∈ cs -> c_addr c + 8 <= a \/ a + 8 <= c_addr c) ->
  tiled (store64 bs a v) b (free_at a <$> cs) e.
Proof.
  revert b; induction cs as [|c cs IH]; intros b Ht Ha; simpl in *; [done|].
  destruct Ht as (Hc & (Hs & Hm & Hl) & Ht).
  assert (Hfc : free_at a c = c).
  { unfold free_at. destruct (Z.eqb_spec (c_addr c) a); [|done].
    destruct (Ha c); [set_solver|lia|lia]. }
  rewrite Hfc. split_and!; [done| |].
  - split; [done|split; [done|]]. rewrite load64_store64_out; [done|].
    destruct (Ha c); [set_solver|lia|lia].
  - apply IH; [done|]. intros d Hd. apply Ha. set_solver.
Qed.

Lemma tiled_free bs b cs e c :
  tiled bs b cs e -> c ∈ cs ->
  tiled (store64 bs (c_addr c) (c_size c)) b (free_at (c_addr c) <$> cs) e.
Proof.
  intros Ht Hc. apply list_elem_of_split in Hc as (cs1 & cs2 & ->).
  rewrite fmap_app, fmap_cons. apply tiled_app in Ht as (b' & H1 & H2).
  simpl in H2. destruct H2 as (Hb & Hok & H2). apply tiled_app. exists b'.
  assert (Hf : free_at (c_addr c) c = Chunk (c_addr c) (c_size c) false).
  { unfold free_at. by rewrite Z.eqb_refl. }
  destruct Hok as (Hs & Hm & Hl).
  assert (He : c_end c = c_end (Chunk (c_addr c) (c_size c) false)) by done.
  split; [|simpl; rewrite Hf; split_and!].
  - apply tiled_free_other; [done|]. intros d Hd.
    destruct (tiled_elem _ _ _ _ _ H1 Hd) as (_ & Hde & (Hds & _)). unfold c_end in Hde. lia.
  - done.
  - split; [done|split; [done|]]. simpl. rewrite load64_store64 by lia.
    f_equal. unfold c_word. simpl. by rewrite Z.lor_0_r.
  - rewrite <- He. apply tiled_free_other; [done|]. intros d Hd.
    destruct (tiled_elem _ _ _ _ _ H2 Hd) as (Hde & _). unfold c_end in Hde. lia.
Qed.

(** ** The heap invariant *)

Record naive_heap (m : mem) (cs : list chunk) : Prop := {
  nh_mem : mem_ok m;
  nh_tiled : tiled (mem_bytes m) (mem_start_brk m) cs (mem_brk m);
}.

(** The live blocks of a list of chunks, by payload address. *)
Definition live_of (cs : list chunk) (live : gmap Z Z) : Prop :=
  forall p n, live !! p = Some n <-> Chunk (p - sizeof_header) (n + sizeof_header) true ∈ cs.

Definition naive_inv (m : mem) (live : gmap Z Z) : Prop :=
  exists cs, naive_heap m cs /\ live_of cs live.

(** The size of the chunk that serves a request, when nothing wraps. *)
Definition chunk_size_for (size : Z) : Z := 16 * ((size + 15) / 16) + sizeof_header.

Lemma naive_newsize_small size :
  0 <= size < 2 ^ 31 - 32 -> naive_newsize size = chunk_size_for size.
Proof.
  intros Hs. unfold naive_newsize, chunk_size_for, sizeof_header.
  rewrite align_alt, (u64_id (size + 15)) by lia.
  rewrite u64_id, s32_id by dlia. done.
Qed.

Lemma chunk_size_for_props size :
  0 <= size -> size + 16 <= chunk_size_for size <= size + 31 /\ chunk_size_for size mod 16 = 0.
Proof. intros. unfold chunk_size_for, sizeof_header. dlia. Qed.

Lemma naive_heap_chunk m cs c :
  naive_heap m cs -> c ∈ cs ->
  mem_start_brk m <= c_addr c /\ c_end c <= mem_brk m /\
  chunk_ok (mem_bytes m) c /\ c_addr c mod 16 = 0.
Proof.
  intros [Hm Ht] Hc. destruct (tiled_elem _ _ _ _ _ Ht Hc) as (? & ? & ?).
  split_and!; try done. eapply tiled_align; [done| |done]. apply Hm.
Qed.

Section chunk_access.
Context (m : mem) (cs : list chunk) (c : chunk).
Context (Hh : naive_heap m cs) (Hc : c ∈ cs).

Lemma load_chunk_word : mem_load64 (c_addr c) m = Ok (c_word c, m).
Proof using Hh Hc.
  destruct (naive_heap_chunk _ _ _ Hh Hc) as (H1 & H2 & (Hs & _ & Hl) & _).
  destruct (nh_mem _ _ Hh) as [? ? ? ? ?]. unfold c_end in H2.
  apply mem_load64_ok; [done|lia|done].
Qed.

Lemma get_chunk_size_ok : get_chunk_size (c_addr c) m = Ok (c_size c, m).
Proof using Hh Hc.
  unfold get_chunk_size. rewrite (bind_Ok _ _ _ _ _ load_chunk_word). st_unfold.
  erewrite chunk_word_size; [done|]. by eapply naive_heap_chunk.
Qed.

Lemma get_chunk_status_ok : get_chunk_status (c_addr c) m = Ok (c_live c, m).
Proof using Hh Hc.
  unfold get_chunk_status. rewrite (bind_Ok _ _ _ _ _ load_chunk_word). st_unfold.
  erewrite chunk_word_status; [done|]. by eapply naive_heap_chunk.
Qed.

(** [set_chunk_status(h, false)] writes the size alone. *)
Lemma clear_status_ok :
  set_chunk_status (c_addr c) false m =
    Ok (tt, set_bytes (store64 (mem_bytes m) (c_addr c) (c_size c)) m).
Proof using Hh Hc.
  unfold set_chunk_status. rewrite (bind_Ok _ _ _ _ _ load_chunk_word).
  destruct (naive_heap_chunk _ _ _ Hh Hc) as (H1 & H2 & Hok & _).
  destruct (nh_mem _ _ Hh) as [? ? ? ? ?].
  change (u64 (1 - Z.b2z false)) with 1.
  erewrite chunk_word_size by done. destruct Hok as (Hs & _). unfold c_end in H2.
  apply mem_store64_ok; lia.
Qed.
End chunk_access.

(** *** [mm_malloc] *)

(** The memory after a successful request. *)
Definition after_malloc (m : mem) (newsize : Z) : mem :=
  set_bytes (store64 (mem_bytes m) (mem_brk m) (Z.lor newsize 1))
    (set_brk (mem_brk m + newsize) m).

Lemma after_malloc_heap m cs newsize :
  naive_heap m cs -> 16 <= newsize < 2 ^ 31 -> newsize mod 16 = 0 ->
  mem_brk m + newsize <= mem_max_addr m ->
  naive_heap (after_malloc m newsize) (cs ++ [Chunk (mem_brk m) newsize true]).
Proof.
  intros [Hm Ht] Hn Hmod Hfit. split.
  - destruct Hm. split; simpl; lia.
  - apply tiled_app. exists (mem_brk m). split; simpl.
    + eapply tiled_headers; [done|]. intros c Hc.
      destruct (tiled_elem _ _ _ _ _ Ht Hc) as (H1 & H2 & (Hs & _)).
      apply load64_store64_out. unfold c_end in H2. lia.
    + split_and!; try done; try lia. split; [done|split; [done|]].
      simpl. rewrite load64_store64; [done|].
      change (Z.lor newsize 1) with (c_word (Chunk 0 newsize true)).
      rewrite c_word_add by done. simpl. lia.
Qed.

Lemma naive_malloc_run m cs size :
  naive_heap m cs -> 0 <= size < 2 ^ 31 - 32 ->
  mem_brk m + chunk_size_for size <= mem_max_addr m ->
  naive_malloc size m =
    Ok (mem_brk m + sizeof_header, after_malloc m (chunk_size_for size)).
Proof.
  intros Hh Hs Hfit. pose proof (chunk_size_for_props size ltac:(lia)) as [Hc Hmod].
  assert (Hc' : 16 <= chunk_size_for size < 2 ^ 31) by lia.
  pose proof (after_malloc_heap _ _ _ Hh Hc' Hmod Hfit) as Hh'.
  pose proof (nh_mem _ _ Hh) as Hm. unfold naive_malloc. rewrite naive_newsize_small by done.
  set (n := chunk_size_for size) in *.
  rewrite (bind_Ok _ _ _ _ _ (mem_sbrk_ok m n ltac:(lia) Hfit)).
  rewrite (proj2 (Z.eqb_neq _ _) (mem_brk_not_failed m Hm)).
  assert (Ha : is_aligned (mem_brk m) = true).
  { destruct Hm. rewrite is_aligned_alt by lia. apply Z.eqb_eq.
    destruct (naive_heap_chunk _ _ (Chunk (mem_brk m) n true) Hh' ltac:(set_solver)); simpl in *.
    naive_solver. }
  rewrite Ha. erewrite bind_Ok by done. rewrite (u64_id n) by lia.
  assert (Hstore : set_chunk_size_status (mem_brk m) n true (set_brk (mem_brk m + n) m) =
    Ok (tt, after_malloc m n)).
  { apply mem_store64_ok; simpl; destruct Hm; lia. }
  rewrite (bind_Ok _ _ _ _ _ Hstore).
  pose proof (get_chunk_status_ok _ _ (Chunk (mem_brk m) n true) Hh' ltac:(set_solver)) as Hst.
  pose proof (get_chunk_size_ok _ _ (Chunk (mem_brk m) n true) Hh' ltac:(set_solver)) as Hsz.
  simpl in Hst, Hsz. rewrite (bind_Ok _ _ _ _ _ Hst). erewrite bind_Ok by done.
  rewrite (bind_Ok _ _ _ _ _ Hsz). rewrite Z.eqb_refl. done.
Qed.

(** A request that does not fit only sets [errno]. *)
Lemma naive_malloc_full m size :
  0 <= size < 2 ^ 31 - 32 -> mem_max_addr m < mem_brk m + chunk_size_for size ->
  naive_malloc size m = Ok (NULL, set_errno ENOMEM m).
Proof.
  intros Hs Hfull. unfold naive_malloc. rewrite naive_newsize_small by done.
  rewrite (bind_Ok _ _ _ _ _ (mem_sbrk_fail m _ (or_intror Hfull))). done.
Qed.

(** *** [mm_free] *)

Definition after_free (m : mem) (c : chunk) : mem :=
  set_bytes (store64 (mem_bytes m) (c_addr c) (c_size c)) m.

Lemma after_free_heap m cs c :
  naive_heap m cs -> c ∈ cs -> naive_heap (after_free m c) (free_at (c_addr c) <$> cs).
Proof.
  intros [Hm Ht] Hc. split; [|by apply tiled_free].
  destruct Hm. by split.
Qed.

(** Freeing works on every chunk with a payload, live or not. *)
Lemma naive_free_run m cs c :
  naive_heap m cs -> c ∈ cs -> c_addr c + sizeof_header < mem_brk m ->
  naive_free (c_addr c + sizeof_header) m = Ok (tt, after_free m c).
Proof.
  intros Hh Hc Hlt. pose proof (naive_heap_chunk _ _ _ Hh Hc) as (H1 & H2 & (Hs & _) & _).
  unfold naive_free. st_step. unfold mem_heap_lo, mem_heap_hi, payload_to_header.
  unfold sizeof_header in *.
  rewrite Z.geb_leb, (proj2 (Z.leb_le _ _)), (proj2 (Z.leb_le _ _)) by lia.
  erewrite bind_Ok by done. rewrite Z.add_simpl_r.
  rewrite (bind_Ok _ _ _ _ _ (clear_status_ok _ _ _ Hh Hc)).
  pose proof (after_free_heap _ _ _ Hh Hc) as Hh'.
  assert (Hc' : Chunk (c_addr c) (c_size c) false ∈ free_at (c_addr c) <$> cs).
  { apply list_elem_of_fmap. exists c. unfold free_at. by rewrite Z.eqb_refl. }
  pose proof (get_chunk_status_ok _ _ _ Hh' Hc') as Hst. simpl in Hst.
  by rewrite (bind_Ok _ _ _ _ _ Hst).
Qed.

(** *** Client writes and live blocks *)

Lemma naive_heap_write m m' cs c :
  naive_heap m cs -> c ∈ cs -> same_frame m m' ->
  (forall b, ~ (c_addr c + sizeof_header <= b < c_end c) ->
    mem_bytes m' !! b = mem_bytes m !! b) ->
  naive_heap m' cs.
Proof.
  intros [Hm Ht] Hc (E1 & E2 & E3) Hout. split.
  - destruct Hm. split; rewrite ?E1, ?E2, ?E3; done.
  - rewrite E1, E2. eapply tiled_headers; [done|]. intros d Hd. apply load64_ext.
    intros b Hb. apply Hout. unfold sizeof_header.
    destruct (decide (c_addr c = c_addr d)) as [Heq|Hne]; [lia|].
    destruct (tiled_elem _ _ _ _ _ Ht Hd) as (_ & _ & (Hs & _)).
    destruct (tiled_disjoint _ _ _ _ _ _ Ht Hc Hd Hne); unfold c_end in *; lia.
Qed.

Lemma live_of_malloc m cs live newsize :
  naive_heap m cs -> live_of cs live -> 16 <= newsize ->
  live !! (mem_brk m + sizeof_header) = None /\
  live_of (cs ++ [Chunk (mem_brk m) newsize true])
    (<[mem_brk m + sizeof_header := newsize - sizeof_header]> live).
Proof.
  intros Hh Hl Hn.
  assert (Hnew : forall n b, Chunk (mem_brk m) n b ∈ cs -> False).
  { intros n b Hin. pose proof (naive_heap_chunk _ _ _ Hh Hin) as (_ & H2 & (Hs & _) & _).
    unfold c_end in H2. simpl in *. lia. }
  split.
  - apply eq_None_not_Some. intros [n Hsome]. apply Hl in Hsome.
    rewrite Z.add_simpl_r in Hsome. by eapply Hnew.
  - intros p n. rewrite lookup_insert, elem_of_app, list_elem_of_singleton.
    case_decide as Heq.
    + subst p. rewrite Z.add_simpl_r. split.
      * intros [= <-]. right. f_equal. lia.
      * intros [Hin|[= Hn']]; [by apply Hnew in Hin|]. f_equal. lia.
    + rewrite (Hl p n). split; [by left|]. intros [Hin|[= Hp _]]; [done|].
      exfalso. apply Heq. lia.
Qed.

Lemma live_of_free m cs live p n :
  naive_heap m cs -> live_of cs live -> live !! p = Some n ->
  live_of (free_at (p - sizeof_header) <$> cs) (delete p live).
Proof.
  intros Hh Hl Hp q k. apply Hl in Hp. rewrite list_elem_of_fmap.
  destruct (decide (p = q)) as [<-|Hne].
  - rewrite lookup_delete_eq. split; [done|]. intros (c & Heq & Hc).
    unfold free_at in Heq.
    destruct (Z.eqb_spec (c_addr c) (p - sizeof_header)); [done|by subst c].
  - rewrite lookup_delete_ne, (Hl q k) by done. split.
    + intros Hq. eexists. split; [|done]. unfold free_at. simpl.
      destruct (Z.eqb_spec (q - sizeof_header) (p - sizeof_header)); [lia|done].
    + intros (c & Heq & Hc). unfold free_at in Heq.
      destruct (Z.eqb_spec (c_addr c) (p - sizeof_header)); [done|by subst c].
Qed.

Lemma live_chunk m cs live p n :
  naive_heap m cs -> live_of cs live -> live !! p = Some n ->
  let c := Chunk (p - sizeof_header) (n + sizeof_header) true in
  c ∈ cs /\ mem_start_brk m + sizeof_header <= p /\ 0 <= n /\ n mod 16 = 0 /\
  p + n <= mem_brk m /\ p mod 16 = 0.
Proof.
  intros Hh Hl Hp c. apply Hl in Hp. split; [done|].
  pose proof (naive_heap_chunk _ _ _ Hh Hp) as (H1 & H2 & (Hs & Hm & _) & Ha).
  unfold c, c_end, sizeof_header in *; simpl in *. split_and!; try lia; dlia.
Qed.

Lemma after_malloc_out m n b :
  ~ (mem_brk m <= b < mem_brk m + 8) ->
  mem_bytes (after_malloc m n) !! b = mem_bytes m !! b.
Proof. intros. by apply store64_out. Qed.

Lemma after_malloc_preserved m cs live n :
  naive_heap m cs -> live_of cs live -> preserved m (after_malloc m n) live.
Proof.
  intros Hh Hl q k Hq b Hb. destruct (live_chunk _ _ _ _ _ Hh Hl Hq) as (_ & _ & _ & _ & Hk & _).
  apply after_malloc_out. lia.
Qed.

Lemma after_free_preserved m cs live p n :
  naive_heap m cs -> live_of cs live -> live !! p = Some n ->
  preserved m (after_free m (Chunk (p - sizeof_header) (n + sizeof_header) true))
    (delete p live).
Proof.
  intros Hh Hl Hp q k Hq b Hb. apply lookup_delete_Some in Hq as [Hne Hq].
  destruct (live_chunk _ _ _ _ _ Hh Hl Hp) as (Hc & _ & Hn & _).
  destruct (live_chunk _ _ _ _ _ Hh Hl Hq) as (Hd & _ & Hk & _).
  apply store64_out. simpl.
  destruct (tiled_disjoint _ _ _ _ _ _ (nh_tiled _ _ Hh) Hc Hd);
    unfold c_end, sizeof_header in *; simpl in *; lia.
Qed.

(** [mm_free] on a live block. *)
Lemma naive_free_live m cs live p n :
  naive_heap m cs -> live_of cs live -> live !! p = Some n -> p < mem_brk m ->
  let c := Chunk (p - sizeof_header) (n + sizeof_header) true in
  naive_free p m = Ok (tt, after_free m c) /\
  naive_heap (after_free m c) (free_at (p - sizeof_header) <$> cs).
Proof.
  intros Hh Hl Hp Hlt c. destruct (live_chunk _ _ _ _ _ Hh Hl Hp) as (Hc & _).
  split; [|by apply after_free_heap].
  pose proof (naive_free_run _ _ _ Hh Hc) as Hrun. simpl in Hrun.
  rewrite Z.sub_add in Hrun. by apply Hrun.
Qed.

(** *** [mm_realloc] of a live block: the copy *)

Lemma naive_copy_run m cs live p n q k size :
  naive_heap m cs -> live_of cs live -> live !! p = Some n -> live !! q = Some k ->
  p <> q -> 0 <= size <= k -> size < 2 ^ 31 ->
  naive_copy q p size m =
    Ok (tt, set_bytes (memcpy_bytes (mem_bytes m) q p (n `min` size)) m) /\
  naive_heap (set_bytes (memcpy_bytes (mem_bytes m) q p (n `min` size)) m) cs.
Proof.
  intros Hh Hl Hp Hq Hne Hs Hs'.
  destruct (live_chunk _ _ _ _ _ Hh Hl Hp) as (Hc & Hp1 & Hn & _ & Hp2 & _).
  destruct (live_chunk _ _ _ _ _ Hh Hl Hq) as (Hd & Hq1 & Hk & _ & Hq2 & _).
  pose proof (nh_mem _ _ Hh) as [? ? ? ? ?].
  assert (Hdis : p + n <= q - sizeof_header \/ q + k <= p - sizeof_header).
  { destruct (tiled_disjoint _ _ _ _ _ _ (nh_tiled _ _ Hh) Hc Hd);
      unfold c_end, sizeof_header in *; simpl in *; lia. }
  unfold sizeof_header in Hp1, Hq1, Hdis. split.
  - unfold naive_copy. rewrite (proj2 (Z.eqb_neq p NULL)) by (unfold NULL; lia).
    pose proof (get_chunk_size_ok _ _ _ Hh Hc) as Hsz. simpl in Hsz.
    unfold payload_to_header. rewrite (bind_Ok _ _ _ _ _ Hsz), Z.add_simpl_r.
    rewrite (u64_id n) by lia.
    replace (if size <? n then size else n) with (n `min` size) by (destruct (Z.ltb_spec size n); lia).
    apply memcpy_ok; lia.
  - apply (naive_heap_write m _ _ _ Hh Hd); [done|].
    intros b Hb. apply memcpy_out. unfold c_end, sizeof_header in *; simpl in *. lia.
Qed.

Lemma naive_realloc_run m cs live p n size :
  naive_heap m cs -> live_of cs live -> live !! p = Some n -> p < mem_brk m ->
  0 < size < 2 ^ 31 - 32 -> mem_brk m + chunk_size_for size <= mem_max_addr m ->
  let q := mem_brk m + sizeof_header in
  let k := chunk_size_for size - sizeof_header in
  exists m', naive_realloc p size m = Ok (q, m') /\
    delete p live !! q = None /\ naive_inv m' (<[q := k]> (delete p live)) /\
    preserved m m' (delete p live) /\
    (forall i, 0 <= i < n `min` size ->
      mem_bytes m' !! (q + i) = mem_bytes m !! (p + i)) /\
    mem_start_brk m' = mem_start_brk m /\ mem_brk m' = mem_brk m + chunk_size_for size.
Proof.
  intros Hh Hl Hp Hlt Hs Hfit q k.
  destruct (chunk_size_for_props size ltac:(lia)) as [Hcs Hmod].
  destruct (live_chunk _ _ _ _ _ Hh Hl Hp) as (_ & Hp1 & Hn & _ & Hp2 & _).
  pose proof (nh_mem _ _ Hh) as [? ? ? ? ?].
  pose proof (naive_malloc_run _ _ size Hh ltac:(lia) Hfit) as Hrun.
  set (c := chunk_size_for size) in *. set (m1 := after_malloc m c) in *.
  pose proof (after_malloc_heap _ _ c Hh ltac:(lia) Hmod Hfit) as Hh1.
  destruct (live_of_malloc _ _ _ c Hh Hl ltac:(lia)) as [Hfresh Hl1].
  fold q k in Hfresh, Hl1. fold m1 in Hh1.
  set (live1 := <[q := k]> live) in *.
  assert (Hpq : p <> q) by (unfold q, sizeof_header; lia).
  assert (Hp' : live1 !! p = Some n) by (unfold live1; by rewrite lookup_insert_ne).
  assert (Hq' : live1 !! q = Some k) by apply lookup_insert_eq.
  destruct (naive_copy_run _ _ _ _ _ _ _ size Hh1 Hl1 Hp' Hq' Hpq) as [Hcopy Hh2];
    [unfold k, sizeof_header in *; lia|lia|].
  set (m2 := set_bytes _ m1) in *.
  destruct (naive_free_live _ _ _ _ _ Hh2 Hl1 Hp') as [Hfree Hh3]; [simpl; lia|].
  eexists. split; [|split; [|split; [|split; [|split]]]].
  - unfold naive_realloc. rewrite (proj2 (Z.ltb_lt 0 size)) by lia.
    erewrite bind_Ok; [|rewrite (bind_Ok _ _ _ _ _ Hrun), (proj2 (Z.eqb_neq _ NULL));
      [by rewrite (bind_Ok _ _ _ _ _ Hcopy)|unfold sizeof_header, NULL; lia]].
    cbv beta iota. rewrite (proj2 (Z.eqb_neq p NULL)) by (unfold sizeof_header, NULL in *; lia).
    by rewrite (bind_Ok _ _ _ _ _ Hfree).
  - by rewrite lookup_delete_ne.
  - eexists. split; [exact Hh3|]. rewrite <- delete_insert_ne by done.
    eapply live_of_free; done.
  - intros r z Hr b Hb. pose proof Hr as Hr'. apply lookup_delete_Some in Hr' as [Hne Hr'].
    assert (Hr1 : delete p live1 !! r = Some z).
    { unfold live1. rewrite delete_insert_ne, lookup_insert_ne; [done| |done].
      intros ->. by rewrite Hfresh in Hr'. }
    rewrite (after_free_preserved _ _ _ _ _ Hh2 Hl1 Hp' _ _ Hr1 _ Hb).
    destruct (live_chunk _ _ _ _ _ Hh Hl Hr') as (_ & _ & _ & _ & Hz & _).
    simpl. rewrite memcpy_out by (unfold q, sizeof_header; lia).
    apply after_malloc_out. lia.
  - intros i Hi. unfold k, sizeof_header in *.
    rewrite (after_free_preserved _ _ _ _ _ Hh2 Hl1 Hp' q (c - 16)); [| |lia].
    + simpl. rewrite memcpy_in by lia. replace (q + i - q + p) with (p + i) by lia.
      apply after_malloc_out. lia.
    + by rewrite lookup_delete_ne.
  - done.
Qed.

(** ** The contract of [mm.h] *)

Definition naive_spec_inv (m : mem) (live : gmap Z Z) : Prop :=
  naive_inv m live /\ forall p n, live !! p = Some n -> 0 < n.

Lemma naive_spec_block m live p n :
  naive_spec_inv m live -> live !! p = Some n ->
  p mod 16 = 0 /\ mem_start_brk m <= p /\ 0 <= n /\ p + n <= mem_brk m /\ p < mem_brk m.
Proof.
  intros [(cs & Hh & Hl) Hpos] Hp. specialize (Hpos _ _ Hp).
  destruct (live_chunk _ _ _ _ _ Hh Hl Hp) as (_ & ? & ? & _ & ? & ?).
  unfold sizeof_header in *. split_and!; (done || lia).
Qed.

Lemma naive_spec_disjoint m live p n q k :
  naive_spec_inv m live -> live !! p = Some n -> live !! q = Some k -> p <> q ->
  p + n <= q \/ q + k <= p.
Proof.
  intros [(cs & Hh & Hl) _] Hp Hq Hne.
  destruct (live_chunk _ _ _ _ _ Hh Hl Hp) as (Hc & _).
  destruct (live_chunk _ _ _ _ _ Hh Hl Hq) as (Hd & _).
  destruct (tiled_disjoint _ _ _ _ _ _ (nh_tiled _ _ Hh) Hc Hd);
    unfold c_end, sizeof_header in *; simpl in *; lia.
Qed.

Lemma naive_spec_write m m' live p n :
  naive_spec_inv m live -> live !! p = Some n -> same_frame m m' ->
  (forall b, ~ (p <= b < p + n) -> mem_bytes m' !! b = mem_bytes m !! b) ->
  naive_spec_inv m' live.
Proof.
  intros [(cs & Hh & Hl) Hpos] Hp Hf Hout. split; [|done]. exists cs. split; [|done].
  destruct (live_chunk _ _ _ _ _ Hh Hl Hp) as (Hc & _).
  apply (naive_heap_write _ _ _ _ Hh Hc Hf). intros b Hb. apply Hout.
  unfold c_end, sizeof_header in *; simpl in *. lia.
Qed.

Lemma naive_spec_init m :
  mem_ok m -> mem_brk m = mem_start_brk m -> naive_spec_inv m ∅.
Proof.
  intros Hm Hb. split; [|done]. exists []. split; [by split|].
  intros p n. split; [done|]. intros []%elem_of_nil.
Qed.

Lemma naive_spec_malloc m live size :
  naive_spec_inv m live -> 0 < size < 2 ^ 31 ->
  mem_brk m + chunk_size_for size <= mem_max_addr m ->
  exists p n m', naive_malloc size m = Ok (p, m') /\ p <> NULL /\ size <= n /\
    live !! p = None /\ naive_spec_inv m' (<[p := n]> live) /\ preserved m m' live /\
    mem_start_brk m' = mem_start_brk m /\ mem_brk m' <= mem_brk m + chunk_size_for size.
Proof.
  intros [(cs & Hh & Hl) Hpos] Hs Hfit.
  destruct (chunk_size_for_props size ltac:(lia)) as [Hc Hmod].
  pose proof (nh_mem _ _ Hh) as [? ? ? Hmax ?]. rewrite MAX_HEAP_val in Hmax.
  destruct (live_of_malloc _ _ _ (chunk_size_for size) Hh Hl ltac:(lia)) as [Hfresh Hl'].
  exists (mem_brk m + sizeof_header), (chunk_size_for size - sizeof_header),
    (after_malloc m (chunk_size_for size)).
  split; [eapply naive_malloc_run; (done || lia)|].
  unfold NULL, sizeof_header in *.
  split_and!; [lia|lia|done| |by eapply after_malloc_preserved|done|simpl; lia].
  split.
  - eexists. split; [apply after_malloc_heap; (done || lia)|exact Hl'].
  - intros p n. rewrite lookup_insert. case_decide; [intros [= <-]; lia|apply Hpos].
Qed.

Lemma naive_spec_free m live p n :
  naive_spec_inv m live -> live !! p = Some n ->
  exists m', naive_free p m = Ok (tt, m') /\ naive_spec_inv m' (delete p live) /\
    preserved m m' (delete p live) /\
    mem_start_brk m' = mem_start_brk m /\ mem_brk m' = mem_brk m.
Proof.
  intros Hinv Hp. pose proof (naive_spec_block _ _ _ _ Hinv Hp) as (_ & _ & _ & _ & Hlt).
  destruct Hinv as [(cs & Hh & Hl) Hpos].
  destruct (naive_free_live _ _ _ _ _ Hh Hl Hp Hlt) as [Hrun Hh'].
  eexists. split; [exact Hrun|]. split; [split|split; [|done]].
  - eexists. split; [exact Hh'|]. by eapply live_of_free.
  - intros q k [_ Hq]%lookup_delete_Some. by eapply Hpos.
  - by eapply after_free_preserved.
Qed.

Lemma naive_spec_realloc m live p n size :
  naive_spec_inv m live -> live !! p = Some n -> 0 < size < 2 ^ 31 ->
  mem_brk m + chunk_size_for size <= mem_max_addr m ->
  exists q k m', naive_realloc p size m = Ok (q, m') /\ q <> NULL /\ size <= k /\
    delete p live !! q = None /\ naive_spec_inv m' (<[q := k]> (delete p live)) /\
    preserved m m' (delete p live) /\
    (forall i, 0 <= i < n `min` size ->
      mem_bytes m' !! (q + i) = mem_bytes m !! (p + i)) /\
    mem_start_brk m' = mem_start_brk m /\ mem_brk m' <= mem_brk m + chunk_size_for size.
Proof.
  intros Hinv Hp Hs Hfit.
  pose proof (naive_spec_block _ _ _ _ Hinv Hp) as (_ & _ & _ & _ & Hlt).
  destruct Hinv as [(cs & Hh & Hl) Hpos].
  destruct (chunk_size_for_props size ltac:(lia)) as [Hc Hmod].
  pose proof (nh_mem _ _ Hh) as [? ? ? Hmax ?]. rewrite MAX_HEAP_val in Hmax.
  destruct (naive_realloc_run _ _ _ _ _ size Hh Hl Hp Hlt ltac:(lia) Hfit)
    as (m' & Hrun & Hfresh & Hinv' & Hpres & Hcopy & Hlo & Hbrk).
  exists (mem_brk m + sizeof_header), (chunk_size_for size - sizeof_header), m'.
  split; [exact Hrun|]. unfold NULL, sizeof_header in *.
  split_and!; try done; try lia.
  split; [done|]. intros q k. rewrite lookup_insert. case_decide; [intros [= <-]; lia|].
  intros [_ Hq]%lookup_delete_Some. by eapply Hpos.
Qed.

#[export] Instance naive_spec : AllocatorSpec naive.
Proof.
  refine {| heap_inv := naive_spec_inv; heap_cost := chunk_size_for |}.
  - intros size Hs. pose proof (chunk_size_for_props size). lia.
  - intros m live [(cs & Hh & _) _]. apply Hh.
  - apply naive_spec_block.
  - apply naive_spec_disjoint.
  - apply naive_spec_write.
  - intros m Hm Hb. exists 0, m. split_and!; try done. by apply naive_spec_init.
  - apply naive_spec_malloc.
  - apply naive_spec_free.
  - apply naive_spec_realloc.
Defined.

(** ** [mm_checkheap] on a well-formed heap *)

Fixpoint chunk_count (b : bool) (cs : list chunk) : Z :=
  match cs with
  | [] => 0
  | c :: cs => (if Bool.eqb (c_live c) b then 1 else 0) + chunk_count b cs
  end.

Fixpoint chunk_sum (b : bool) (cs : list chunk) : Z :=
  match cs with
  | [] => 0
  | c :: cs => (if Bool.eqb (c_live c) b then c_size c else 0) + chunk_sum b cs
  end.

Definition chunk_totals (cs : list chunk) : heap_totals :=
  HeapTotals (chunk_count true cs) (chunk_sum true cs)
    (chunk_count false cs) (chunk_sum false cs).

Definition chunk_lines (verbose_level : Z) (cs : list chunk) : list (Z * bool) :=
  if NORMAL_VERBOSE <? verbose_level then (fun c => (c_size c, c_live c)) <$> cs else [].

Lemma chunk_count_app b cs1 cs2 :
  chunk_count b (cs1 ++ cs2) = chunk_count b cs1 + chunk_count b cs2.
Proof. induction cs1; simpl; lia. Qed.

Lemma chunk_sum_app b cs1 cs2 : chunk_sum b (cs1 ++ cs2) = chunk_sum b cs1 + chunk_sum b cs2.
Proof. induction cs1; simpl; lia. Qed.

Lemma chunk_count_bound b cs : 0 <= chunk_count b cs <= Z.of_nat (length cs).
Proof. induction cs as [|c cs IH]; simpl; [lia|]. destruct (Bool.eqb _ _); lia. Qed.

Lemma tiled_sum bs a cs e :
  tiled bs a cs e ->
  chunk_sum true cs + chunk_sum false cs = e - a /\
  0 <= chunk_sum true cs /\ 0 <= chunk_sum false cs.
Proof.
  revert a; induction cs as [|c cs IH]; intros a; simpl; [lia|].
  intros (<- & (Hs & _) & Ht). apply IH in Ht. unfold c_end in Ht.
  destruct (c_live c); simpl; lia.
Qed.

Lemma chunk_lines_snoc v cs c :
  chunk_lines v (cs ++ [c]) =
    (if NORMAL_VERBOSE <? v then chunk_lines v cs ++ [(c_size c, c_live c)]
     else chunk_lines v cs).
Proof. unfold chunk_lines. destruct (_ <? _); [|done]. by rewrite fmap_app. Qed.

(** Counting one more chunk does not wrap around in a heap of at most
    [MAX_HEAP] bytes. *)
Lemma checkheap_count_ok bs a cs c cs2 e :
  tiled bs a (cs ++ c :: cs2) e -> e - a < 2 ^ 63 ->
  checkheap_count (c_size c) (c_live c) (chunk_totals cs) = chunk_totals (cs ++ [c]).
Proof.
  intros Ht Hlt.
  pose proof (tiled_length _ _ _ _ Ht) as Hlen. rewrite length_app in Hlen. simpl in Hlen.
  pose proof (chunk_count_bound true cs). pose proof (chunk_count_bound false cs).
  apply tiled_app in Ht as (b & H1 & H2). simpl in H2. destruct H2 as (Hb & (Hs & _) & H2).
  pose proof (tiled_sum _ _ _ _ H1) as (Hsum & ? & ?).
  pose proof (tiled_le _ _ _ _ H2) as Hle. unfold c_end in Hle.
  unfold checkheap_count, chunk_totals. simpl.
  rewrite !chunk_count_app, !chunk_sum_app. simpl.
  destruct (c_live c); simpl; f_equal; rewrite ?u64_id by lia; lia.
Qed.

Lemma checkheap_run m cs v :
  naive_heap m cs ->
  while_st (checkheap_fuel m) (checkheap_step v) (mem_heap_lo m, HeapTotals 0 0 0 0, []) m =
    Ok (chunk_totals cs, chunk_lines v cs, m).
Proof.
  intros Hh. pose proof (nh_mem _ _ Hh) as [? ? ? Hmax ?]. rewrite MAX_HEAP_val in Hmax.
  pose proof (nh_tiled _ _ Hh) as Ht. unfold while_st.
  eapply (while_rule (fun n '((h, t, lines), m0) => m0 = m /\
    exists cs1 cs2, cs = cs1 ++ cs2 /\ tiled (mem_bytes m) h cs2 (mem_brk m) /\
      t = chunk_totals cs1 /\ lines = chunk_lines v cs1 /\ n = length cs2)
    (fun r => r = Ok (chunk_totals cs, chunk_lines v cs, m))).
  - intros n [[[h t] lines] m0] (-> & cs1 & cs2 & -> & Ht2 & -> & -> & ->).
    unfold checkheap_step, mem_heap_hi. rewrite (bind_Ok _ _ _ m m) by done.
    destruct cs2 as [|c cs2]; simpl in Ht2.
    + subst h. rewrite (proj2 (Z.ltb_ge _ _)) by lia. st_unfold. by rewrite app_nil_r.
    + destruct Ht2 as (<- & Hok & Ht2). pose proof (tiled_le _ _ _ _ Ht2) as Hle.
      destruct Hok as (Hs & Hok). unfold c_end in Hle.
      rewrite (proj2 (Z.ltb_lt _ _)) by lia.
      assert (Hc : c ∈ cs1 ++ c :: cs2) by set_solver.
      pose proof (get_chunk_size_ok _ _ _ Hh Hc) as Hsz.
      rewrite (bind_Ok _ _ _ _ _ Hsz).
      rewrite (bind_Ok _ _ _ _ _ (get_chunk_status_ok _ _ _ Hh Hc)).
      unfold get_next_chunk. erewrite bind_Ok by (by rewrite (bind_Ok _ _ _ _ _ Hsz)).
      st_unfold. exists (length cs2). split; [simpl; lia|]. split; [done|].
      exists (cs1 ++ [c]), cs2. rewrite <- app_assoc. split_and!; try done.
      * eapply checkheap_count_ok; [exact Ht|lia].
      * by rewrite chunk_lines_snoc.
  - split; [done|]. exists [], cs. split_and!; try done. unfold chunk_lines. by destruct (_ <? _).
  - pose proof (tiled_length _ _ _ _ Ht). unfold checkheap_fuel. lia.
Qed.

(** ** Properties *)

(** C30: [mm_malloc] on a heap tiled by the chunks [cs], for every size whose
    rounding fits in an [int]: if the rounded request plus the header fits,
    it returns the break plus 16, a 16-byte aligned address, and the heap is
    tiled by [cs] and one live chunk whose payload holds [size] bytes;
    otherwise it returns [NULL] and only [errno] changes.  No byte below the
    old break is written. *)
Theorem mm_malloc_correct (m : mem) (cs : list chunk) (size : Z) :
  naive_heap m cs -> 0 <= size < 2 ^ 31 - 32 ->
  let newsize := align size + sizeof_header in
  (mem_brk m + newsize <= mem_max_addr m ->
    exists m', naive_malloc size m = Ok (mem_brk m + 16, m') /\
      (mem_brk m + 16) mod 16 = 0 /\ size <= newsize - sizeof_header /\
      naive_heap m' (cs ++ [Chunk (mem_brk m) newsize true]) /\
      (forall b, b < mem_brk m -> mem_bytes m' !! b = mem_bytes m !! b)) /\
  (mem_max_addr m < mem_brk m + newsize ->
    naive_malloc size m = Ok (NULL, set_errno ENOMEM m)).
Proof.
  intros Hh Hs newsize.
  assert (E : newsize = chunk_size_for size).
  { unfold newsize, chunk_size_for. by rewrite align_alt, u64_id by lia. }
  rewrite E. destruct (chunk_size_for_props size ltac:(lia)) as [Hc Hmod]. split.
  - intros Hfit. exists (after_malloc m (chunk_size_for size)).
    pose proof (after_malloc_heap _ _ (chunk_size_for size) Hh ltac:(lia) Hmod Hfit) as Hh'.
    split_and!; [by eapply naive_malloc_run| |unfold sizeof_header; lia|done|].
    + destruct (naive_heap_chunk _ _ (Chunk (mem_brk m) (chunk_size_for size) true) Hh'
        ltac:(set_solver)) as (_ & _ & _ & Ha). simpl in Ha. dlia.
    + intros b Hb. apply after_malloc_out. lia.
  - by apply naive_malloc_full.
Qed.

(** An empty heap of [MAX_HEAP] bytes at address 4096. *)
Definition example_mem : mem := Mem 4096 4096 (4096 + MAX_HEAP) 0 ∅.

Lemma example_mem_ok : mem_ok example_mem.
Proof. split; vm_compute; (done || split; done). Defined.

Lemma example_heap : naive_heap example_mem [].
Proof. split; [apply example_mem_ok|done]. Defined.

Lemma mm_malloc_correct_witness :
  exists m', naive_malloc 2040 example_mem = Ok (4112, m') /\
    naive_heap m' [Chunk 4096 2064 true].
Proof.
  destruct (mm_malloc_correct example_mem [] 2040 example_heap ltac:(lia)) as [H _].
  destruct H as (m' & Hrun & _ & _ & Hh & _); [vm_compute; done|].
  exists m'. split; [exact Hrun|exact Hh].
Defined.

(** [int newsize] keeps 32 bits of a [size_t]: a request of
    [size + k * 2^32] bytes behaves in every way like one of [size] bytes, so
    that a request of more than 4 GiB is served with a far smaller block. *)
Theorem mm_malloc_truncates (m : mem) (size k : Z) :
  0 <= size -> 0 <= k -> size + k * 2 ^ 32 < 2 ^ 64 - 31 ->
  naive_malloc (size + k * 2 ^ 32) m = naive_malloc size m.
Proof.
  intros Hs Hk Hlt. unfold naive_malloc.
  replace (naive_newsize (size + k * 2 ^ 32)) with (naive_newsize size); [done|].
  unfold naive_newsize, sizeof_header. rewrite !align_alt.
  rewrite (u64_id (size + 15)), (u64_id (size + k * 2 ^ 32 + 15)) by lia.
  rewrite !u64_id by dlia.
  replace (size + k * 2 ^ 32 + 15) with (size + 15 + (k * 2 ^ 28) * 16) by lia.
  rewrite Z.div_add by lia. unfold s32, wrap_s.
  replace (16 * ((size + 15) / 16 + k * 2 ^ 28) + 16 + 2 ^ (32 - 1))
    with (16 * ((size + 15) / 16) + 16 + 2 ^ (32 - 1) + k * 2 ^ 32) by lia.
  by rewrite Z.mod_add by lia.
Qed.

Lemma mm_malloc_truncates_witness :
  naive_malloc (2 ^ 32) example_mem = naive_malloc 0 example_mem.
Proof. apply (mm_malloc_truncates example_mem 0 1); done. Defined.

(** C6: [mm_realloc] of a live block [p] of usable size [n], and of [NULL].
    Size 0 frees the block and returns [NULL].  A size that fits moves the
    block: the first [min n size] bytes are copied, the old block is freed,
    every other live block keeps its contents.  A size that does not fit
    returns [NULL] and leaves the heap, the old block included, as it was.
    With a null pointer it is [mm_malloc], or nothing for size 0. *)
Theorem mm_realloc_correct (m : mem) (live : gmap Z Z) (p n size : Z) :
  naive_spec_inv m live -> live !! p = Some n -> 0 <= size < 2 ^ 31 - 32 ->
  (size = 0 -> exists m', naive_realloc p size m = Ok (NULL, m') /\
     naive_spec_inv m' (delete p live) /\ preserved m m' (delete p live)) /\
  (0 < size -> mem_brk m + chunk_size_for size <= mem_max_addr m ->
     exists q k m', naive_realloc p size m = Ok (q, m') /\ size <= k /\
       delete p live !! q = None /\
       naive_spec_inv m' (<[q := k]> (delete p live)) /\
       preserved m m' (delete p live) /\
       (forall i, 0 <= i < n `min` size ->
         mem_bytes m' !! (q + i) = mem_bytes m !! (p + i))) /\
  (0 < size -> mem_max_addr m < mem_brk m + chunk_size_for size ->
     naive_realloc p size m = Ok (NULL, set_errno ENOMEM m)) /\
  naive_realloc NULL size m = (if 0 <? size then naive_malloc size m else Ok (NULL, m)).
Proof.
  intros Hinv Hp Hs.
  pose proof (naive_spec_block _ _ _ _ Hinv Hp) as (_ & Hlo & _).
  assert (Hnn : (p =? NULL) = false).
  { destruct Hinv as [(cs & Hh & _) _]. destruct (nh_mem _ _ Hh).
    apply Z.eqb_neq. unfold NULL. lia. }
  split_and!.
  - intros ->. destruct (naive_spec_free _ _ _ _ Hinv Hp) as (m' & Hrun & ? & ? & _).
    exists m'. split; [|done]. unfold naive_realloc. st_step. by rewrite Hnn, (bind_Ok _ _ _ _ _ Hrun).
  - intros Hpos Hfit.
    destruct (naive_spec_realloc _ _ _ _ size Hinv Hp ltac:(lia) Hfit)
      as (q & k & m' & Hrun & _ & Hk & Hfresh & Hinv' & Hpres & Hcopy & _).
    exists q, k, m'. by split_and!.
  - intros Hpos Hfull. unfold naive_realloc. rewrite (proj2 (Z.ltb_lt 0 size)) by done.
    erewrite bind_Ok; [|by rewrite (bind_Ok _ _ _ _ _ (naive_malloc_full m size Hs Hfull))].
    done.
  - unfold naive_realloc. destruct (0 <? size) eqn:E; [|done].
    st_unfold. destruct (naive_malloc size m) as [[q m']|e]; [|done].
    destruct (Z.eqb_spec q NULL) as [->|Hq]; [done|]. done.
Qed.

(** The heap after [mm_malloc(20)] on [example_mem]. *)
Definition example_mem1 : mem := after_malloc example_mem 48.

Lemma example_inv1 : naive_spec_inv example_mem1 {[ 4112 := 32 ]}.
Proof.
  split.
  - exists [Chunk 4096 48 true]. split.
    + by apply (after_malloc_heap _ _ 48 example_heap).
    + apply (live_of_malloc _ _ ∅ 48 example_heap); [|done].
      intros p n. split; [done|]. intros []%elem_of_nil.
  - by intros p n [<- <-]%lookup_singleton_Some.
Defined.

Lemma mm_realloc_correct_witness :
  (exists m', naive_realloc 4112 0 example_mem1 = Ok (NULL, m')) /\
  (exists q k m', naive_realloc 4112 40 example_mem1 = Ok (q, m') /\ 40 <= k /\
     naive_spec_inv m' (<[q := k]> ∅)) /\
  naive_realloc 4112 (MAX_HEAP - 32) example_mem1 = Ok (NULL, set_errno ENOMEM example_mem1).
Proof.
  split_and!.
  - destruct (mm_realloc_correct _ _ 4112 32 0 example_inv1 eq_refl ltac:(lia)) as [H _].
    destruct (H eq_refl) as (m' & Hrun & _). by exists m'.
  - destruct (mm_realloc_correct _ _ 4112 32 40 example_inv1 eq_refl ltac:(lia))
      as (_ & H & _). destruct H as (q & k & m' & Hrun & Hk & _ & Hinv & _);
      [done|vm_compute; done|]. exists q, k, m'. split; [exact Hrun|split; [exact Hk|exact Hinv]].
  - destruct (mm_realloc_correct _ _ 4112 32 (MAX_HEAP - 32) example_inv1 eq_refl)
      as (_ & _ & H & _); [vm_compute; split; congruence|]. by apply H.
Defined.



(** C31: On a well-formed heap [mm_checkheap] terminates without touching the
    memory, and its report is the heap: at verbosity above 1 one line per
    chunk in address order, at verbosity above 0 the number and the bytes of
    the non-free and free chunks, which add up to [mem_heapsize()]. *)
Theorem mm_checkheap_correct (m : mem) (cs : list chunk) (v : Z) :
  naive_heap m cs ->
  mm_checkheap v m =
    Ok (HeapReport
          (if 1 <? v then (fun c => (c_size c, c_live c)) <$> cs else [])
          (if 0 <? v then
             Some (HeapTotals (chunk_count true cs) (chunk_sum true cs)
                     (chunk_count false cs) (chunk_sum false cs))
           else None), m) /\
  chunk_sum true cs + chunk_sum false cs = mem_heapsize m.
Proof.
  intros Hh. split.
  - unfold mm_checkheap. st_step. by rewrite (bind_Ok _ _ _ _ _ (checkheap_run _ _ v Hh)).
  - destruct (nh_mem _ _ Hh). rewrite MAX_HEAP_val in *.
    unfold mem_heapsize. rewrite u64_id by lia. by eapply tiled_sum, nh_tiled.
Qed.

Lemma mm_checkheap_correct_witness :
  mm_checkheap 2 example_mem1 =
    Ok (HeapReport [(48, true)] (Some (HeapTotals 1 48 0 0)), example_mem1).
Proof.
  pose proof (after_malloc_heap _ _ 48 example_heap ltac:(lia) eq_refl
    ltac:(vm_compute; done)) as Hh.
  by destruct (mm_checkheap_correct _ _ 2 Hh) as [H _].
Defined.

(** [set_chunk_status] can only clear the status bit: called with [true]
    it leaves the header of every chunk, free or not, as it was. *)
Theorem set_chunk_status_cannot_set (m : mem) (cs : list chunk) (c : chunk) :
  naive_heap m cs -> c ∈ cs ->
  exists m', set_chunk_status (c_addr c) true m = Ok (tt, m') /\
    get_chunk_status (c_addr c) m' = Ok (c_live c, m').
Proof.
  intros Hh Hc. pose proof (naive_heap_chunk _ _ _ Hh Hc) as (H1 & H2 & Hok & _).
  pose proof (chunk_word_range _ _ Hok) as Hw.
  assert (Hmask : Z.land (c_word c) (u64 (Z.lnot (u64 (1 - Z.b2z true)))) = c_word c).
  { change (u64 (Z.lnot (u64 (1 - Z.b2z true)))) with (Z.ones 64).
    rewrite Z.land_ones, Z.mod_small by lia. done. }
  unfold set_chunk_status. rewrite (bind_Ok _ _ _ _ _ (load_chunk_word _ _ _ Hh Hc)), Hmask.
  destruct Hok as (Hs & Hok). unfold c_end in H2. destruct (nh_mem _ _ Hh).
  eexists. split; [apply mem_store64_ok; lia|].
  unfold get_chunk_status. erewrite bind_Ok; [|apply mem_load64_ok; simpl; [lia|lia|]].
  - st_unfold. erewrite chunk_word_status; [done|]. split; [exact Hs|exact Hok].
  - apply load64_store64. lia.
Qed.

Lemma set_chunk_status_cannot_set_witness :
  exists m', set_chunk_status 4096 true (after_free example_mem1 (Chunk 4096 48 true)) =
      Ok (tt, m') /\
    get_chunk_status 4096 m' = Ok (false, m').
Proof.
  pose proof (after_malloc_heap _ _ 48 example_heap ltac:(lia) eq_refl
    ltac:(vm_compute; done)) as Hh.
  pose proof (after_free_heap _ _ (Chunk 4096 48 true) Hh ltac:(by left)) as Hh'.
  exact (set_chunk_status_cannot_set _ _ (Chunk 4096 48 false) Hh' ltac:(by left)).
Defined.

(** C8: From [mem_init] on, whatever sequence of [mm_malloc], [mm_free],
    [mm_realloc] and writes inside of its blocks a client performs (with
    sizes that fit), the blocks it holds are 16-byte aligned, lie inside of
    the heap, are pairwise disjoint, and can be freed without a fault. *)
Theorem naive_clients_are_safe (m m0 m' : mem) (region : Z) (held : gmap Z Z) :
  region mod 16 = 0 -> 0 < region -> region + MAX_HEAP < 2 ^ 47 ->
  mem_init region m = Ok (tt, m0) ->
  rtc client_step (m0, ∅) (m', held) ->
  client_safe (m', held).
Proof.
  intros Ha Hr Hhi Hinit Hreach. unfold mem_init in Hinit.
  destruct (Z.eqb_spec region NULL); [done|]. injection Hinit as <-.
  apply client_inv_safe. eapply client_reachable_inv; [|exact Hreach].
  set (m1 := Mem _ _ _ _ _).
  assert (Hm1 : mem_ok m1) by (split; simpl; (done || (pose proof MAX_HEAP_val; lia))).
  destruct (client_start m1 Hm1 eq_refl) as (r & m2 & Hrun & _ & Hinv).
  cbn in Hrun. by injection Hrun as <- <-.
Qed.

Lemma naive_clients_are_safe_witness :
  client_safe (example_mem1, {[ 4112 := 20 ]}).
Proof.
  apply (naive_clients_are_safe example_mem example_mem example_mem1 4096); [done..|].
  eapply rtc_l; [|apply rtc_refl].
  apply (client_malloc example_mem ∅ 20 4112 example_mem1);
    [lia|vm_compute; done|vm_compute; reflexivity].
Defined.
