(* ===== verification/Mdriver.v ===== *)
(** * The trace driver: [malloclab/mdriver.c]

    Range lists and the evaluation of an allocator on a trace for correctness,
    space utilisation and speed.  The allocator is the one of the interface
    [Allocator]. *)

From S2P Require Import Prelude Bytes Memlib Doubles Allocator.

(** ** Data *)

Record range_t := Range { r_lo : Z; r_hi : Z }.

Inductive op_type := ALLOC | FREE | REALLOC.

#[export] Instance op_type_eq_dec : EqDecision op_type.
Proof. solve_decision. Defined.

Record traceop_t := TraceOp {
  op_type_of : op_type;
  op_index : Z;
  op_size : Z;
}.

(** A trace file in memory.  [blocks] and [block_sizes] come from [malloc]:
    their cells are indeterminate until they are written. *)
Record trace_t := Trace {
  sugg_heapsize : Z;
  num_ids : Z;
  num_ops : Z;
  weight : Z;
  ops : list traceop_t;
  blocks : list (option Z);
  block_sizes : list (option Z);
}.

(** The messages of [malloc_error]. *)
Inductive err_msg :=
  | Err_not_aligned (lo : Z)
  | Err_outside_heap (lo hi heap_lo heap_hi : Z)
  | Err_overlap (lo hi lo' hi' : Z)
  | Err_init_failed
  | Err_malloc_failed
  | Err_realloc_failed
  | Err_realloc_data.

Record stats_t := Stats {
  st_ops : double;
  st_valid : Z;
  st_secs : double;
  st_util : double;
  st_thru_ratio : double;
  st_perfindex : Z;
}.

(** The state of the driver: the simulated memory, the range list, the global
    [errors], the lines printed by [malloc_error], and the two arrays of the
    trace under evaluation. *)
Record driver := Driver {
  d_mem : mem;
  d_ranges : list range_t;
  d_errors : Z;
  d_log : list (Z * Z * err_msg);
  d_blocks : list (option Z);
  d_sizes : list (option Z);
}.

Definition with_mem (m : mem) (s : driver) : driver :=
  Driver m (d_ranges s) (d_errors s) (d_log s) (d_blocks s) (d_sizes s).
Definition with_ranges (l : list range_t) (s : driver) : driver :=
  Driver (d_mem s) l (d_errors s) (d_log s) (d_blocks s) (d_sizes s).
Definition with_blocks (l : list (option Z)) (s : driver) : driver :=
  Driver (d_mem s) (d_ranges s) (d_errors s) (d_log s) l (d_sizes s).
Definition with_sizes (l : list (option Z)) (s : driver) : driver :=
  Driver (d_mem s) (d_ranges s) (d_errors s) (d_log s) (d_blocks s) l.

(** Runs an operation of the simulated memory or of the allocator. *)
Definition on_mem {A} (c : ST mem A) : ST driver A := fun s =>
  match c (d_mem s) with
  | Ok (a, m) => Ok (a, with_mem m s)
  | Fault e => Fault e
  end.

(** ** Errors *)

Definition LINENUM (i : Z) : Z := i + 5.

Definition malloc_error (tracenum opnum : Z) (msg : err_msg) : ST driver unit := fun s =>
  errs ← int_ (d_errors s + 1);
  Ok (tt, Driver (d_mem s) (d_ranges s) errs
            (d_log s ++ [(tracenum, LINENUM opnum, msg)]) (d_blocks s) (d_sizes s)).

Definition app_error {S A} : ST S A := fun _ => Fault (Exited 1).
Definition unix_error {S A} : ST S A := fun _ => Fault (Exited 1).

(** ** Range lists *)

Definition range_hit (lo hi : Z) (p : range_t) : bool :=
  ((lo >=? r_lo p) && (lo <=? r_hi p)) || ((hi >=? r_lo p) && (hi <=? r_hi p)).

(** The first range of the list that the loop of [add_range] stops at. *)
Fixpoint first_hit (lo hi : Z) (l : list range_t) : option range_t :=
  match l with
  | [] => None
  | p :: l => if range_hit lo hi p then Some p else first_hit lo hi l
  end.

Section ranges.
(** Whether libc's [malloc] serves the next range record. *)
Context (range_malloc : list range_t -> bool).

Definition add_range (lo size tracenum opnum : Z) : ST driver Z :=
  let hi := lo + size - 1 in
  lift (assert_ (size >? 0));;
  s ← get;
  let hlo := mem_heap_lo (d_mem s) in
  let hhi := mem_heap_hi (d_mem s) in
  if negb (is_aligned lo) then
    malloc_error tracenum opnum (Err_not_aligned lo);; mret 0
  else if (lo <? hlo) || (lo >? hhi) || (hi <? hlo) || (hi >? hhi) then
    malloc_error tracenum opnum (Err_outside_heap lo hi hlo hhi);; mret 0
  else
    match first_hit lo hi (d_ranges s) with
    | Some p =>
        malloc_error tracenum opnum (Err_overlap lo hi (r_lo p) (r_hi p));; mret 0
    | None =>
        if range_malloc (d_ranges s) then
          modify (with_ranges (Range lo hi :: d_ranges s));; mret 1
        else unix_error
    end.
End ranges.

(** Unlinks the first record whose payload starts at [lo]. *)
Fixpoint remove_range_list (lo : Z) (l : list range_t) : list range_t :=
  match l with
  | [] => []
  | p :: l => if r_lo p =? lo then l else p :: remove_range_list lo l
  end.

Definition remove_range (lo : Z) : ST driver unit :=
  modify (fun s => with_ranges (remove_range_list lo (d_ranges s)) s).

Definition clear_ranges : ST driver unit := modify (with_ranges []).

(** ** [trace->blocks] and [trace->block_sizes] *)

Definition get_block (i : Z) : ST driver Z := fun s =>
  v ← cell_get (d_blocks s) i; Ok (v, s).
Definition get_size (i : Z) : ST driver Z := fun s =>
  v ← cell_get (d_sizes s) i; Ok (v, s).
Definition set_block (i p : Z) : ST driver unit := fun s =>
  l ← arr_set (d_blocks s) i (Some p); Ok (tt, with_blocks l s).
Definition set_size (i n : Z) : ST driver unit := fun s =>
  l ← arr_set (d_sizes s) i (Some n); Ok (tt, with_sizes l s).

(** ** [eval_mm_valid] *)

Section eval_mm.
Context {A : Allocator} (range_malloc : list range_t -> bool).

(** The loop that compares the first [n] bytes at [newp] with the fill
    byte of the index; a [char] is signed, the fill value is not. *)
Definition data_preserved (newp index n : Z) : ST driver bool :=
  r ← foldM_until (fun (_ : unit) j =>
        c ← on_mem (mem_load_char (newp + j));
        mret (if c =? Z.land index 255 then inl tt else inr tt))
      tt (seqZ 0 n);
  mret (match r with inl _ => true | inr _ => false end).

Definition valid_alloc (tracenum i index size : Z) : ST driver (unit + Z) :=
  p ← on_mem (mm_malloc (u64 size));
  if p =? NULL then
    malloc_error tracenum i Err_malloc_failed;; mret (inr 0)
  else
    ok ← add_range range_malloc p size tracenum i;
    if ok =? 0 then mret (inr 0)
    else
      on_mem (memset p (Z.land index 255) (u64 size));;
      set_block index p;;
      set_size index (u64 size);;
      mret (inl tt).

Definition valid_realloc (tracenum i index size : Z) : ST driver (unit + Z) :=
  oldp ← get_block index;
  newp ← on_mem (mm_realloc oldp (u64 size));
  if newp =? NULL then
    malloc_error tracenum i Err_realloc_failed;; mret (inr 0)
  else
    remove_range oldp;;
    ok ← add_range range_malloc newp size tracenum i;
    if ok =? 0 then mret (inr 0)
    else
      sz ← get_size index;
      let oldsize := s32 sz in
      let oldsize := if size <? oldsize then size else oldsize in
      same ← data_preserved newp index oldsize;
      if negb same then
        malloc_error tracenum i Err_realloc_data;; mret (inr 0)
      else
        on_mem (memset newp (Z.land index 255) (u64 size));;
        set_block index newp;;
        set_size index (u64 size);;
        mret (inl tt).

Definition valid_free (index : Z) : ST driver (unit + Z) :=
  p ← get_block index;
  remove_range p;;
  on_mem (mm_free p);;
  mret (inl tt).

Definition valid_op (trace : trace_t) (tracenum i : Z) : ST driver (unit + Z) :=
  op ← lift (arr_get (ops trace) i);
  match op_type_of op with
  | ALLOC => valid_alloc tracenum i (op_index op) (op_size op)
  | REALLOC => valid_realloc tracenum i (op_index op) (op_size op)
  | FREE => valid_free (op_index op)
  end.

Definition eval_mm_valid (trace : trace_t) (tracenum : Z) : ST driver Z :=
  on_mem mem_reset_brk;;
  clear_ranges;;
  r ← on_mem mm_init;
  if r <? 0 then malloc_error tracenum 0 Err_init_failed;; mret 0
  else
    o ← foldM_until (fun _ i => valid_op trace tracenum i) tt (seqZ 0 (num_ops trace));
    mret (match o with inl _ => 1 | inr v => v end).

(** ** [eval_mm_util] *)

Definition max_int (total best : Z) : Z := if total >? best then total else best.

(** The loop state is [(total_size, max_total_size)]. *)
Definition util_op (trace : trace_t) (v : Z * Z) (i : Z) : ST driver (Z * Z) :=
  let '(total_size, max_total_size) := v in
  op ← lift (arr_get (ops trace) i);
  let index := op_index op in
  match op_type_of op with
  | ALLOC =>
      let size := op_size op in
      p ← on_mem (mm_malloc (u64 size));
      if p =? NULL then app_error
      else
        set_block index p;;
        set_size index (u64 size);;
        total ← lift (int_ (total_size + size));
        mret (total, max_int total max_total_size)
  | REALLOC =>
      let newsize := op_size op in
      sz ← get_size index;
      let oldsize := s32 sz in
      oldp ← get_block index;
      newp ← on_mem (mm_realloc oldp (u64 newsize));
      if newp =? NULL then app_error
      else
        set_block index newp;;
        set_size index (u64 newsize);;
        total ← lift (diff ← int_ (newsize - oldsize); int_ (total_size + diff));
        mret (total, max_int total max_total_size)
  | FREE =>
      sz ← get_size index;
      p ← get_block index;
      on_mem (mm_free p);;
      total ← lift (int_ (total_size - s32 sz));
      mret (total, max_total_size)
  end.

(** The two numbers whose quotient [eval_mm_util] returns. *)
Definition util_run (trace : trace_t) : ST driver (Z * Z) :=
  on_mem mem_reset_brk;;
  r ← on_mem mm_init;
  if r <? 0 then app_error
  else
    '(_, max_total_size) ← foldM (util_op trace) (0, 0) (seqZ 0 (num_ops trace));
    s ← get;
    mret (max_total_size, mem_heapsize (d_mem s)).

Definition eval_mm_util (trace : trace_t) : ST driver double :=
  '(best, heapsize) ← util_run trace;
  mret (ddiv (d_of_Z best) (d_of_Z heapsize)).

(** ** [eval_mm_speed] *)

Definition speed_op (trace : trace_t) (_ : unit) (i : Z) : ST driver unit :=
  op ← lift (arr_get (ops trace) i);
  let index := op_index op in
  match op_type_of op with
  | ALLOC =>
      p ← on_mem (mm_malloc (u64 (op_size op)));
      if p =? NULL then app_error else set_block index p
  | REALLOC =>
      oldp ← get_block index;
      newp ← on_mem (mm_realloc oldp (u64 (op_size op)));
      if newp =? NULL then app_error else set_block index newp
  | FREE =>
      block ← get_block index;
      on_mem (mm_free block)
  end.

Definition eval_mm_speed (trace : trace_t) : ST driver unit :=
  on_mem mem_reset_brk;;
  r ← on_mem mm_init;
  if r <? 0 then app_error
  else foldM (speed_op trace) tt (seqZ 0 (num_ops trace)).
End eval_mm.

(** ** Range lists: what [add_range] accepts *)

Lemma range_hit_spec lo hi p :
  range_hit lo hi p = true <->
  (r_lo p <= lo <= r_hi p) \/ (r_lo p <= hi <= r_hi p).
Proof.
  unfold range_hit. rewrite !Z.geb_leb, orb_true_iff, !andb_true_iff, !Z.leb_le. lia.
Qed.

Lemma first_hit_None lo hi l :
  first_hit lo hi l = None <-> forall p, p ∈ l -> range_hit lo hi p = false.
Proof.
  induction l as [|p l IH]; simpl.
  - split; [|done]. intros _ p []%elem_of_nil.
  - destruct (range_hit lo hi p) eqn:E.
    + split; [done|]. intros H. specialize (H p ltac:(by left)). congruence.
    + rewrite IH. split; [intros H q [->|Hq]%elem_of_cons; auto|intros H q Hq; apply H; by right].
Qed.

Lemma first_hit_Some lo hi l p :
  first_hit lo hi l = Some p -> p ∈ l /\ range_hit lo hi p = true.
Proof.
  induction l as [|q l IH]; simpl; [done|].
  destruct (range_hit lo hi q) eqn:E.
  - intros [= <-]. split; [by left|done].
  - intros H. destruct (IH H). split; [by right|done].
Qed.

Lemma remove_range_sub lo l r : r ∈ remove_range_list lo l -> r ∈ l.
Proof.
  induction l as [|p l IH]; simpl; [done|].
  destruct (r_lo p =? lo); [by right|].
  intros [->|H]%elem_of_cons; [by left|right; auto].
Qed.

Lemma remove_range_nodup lo l :
  NoDup (r_lo <$> l) ->
  NoDup (r_lo <$> remove_range_list lo l) /\
  forall r, r ∈ remove_range_list lo l -> r_lo r <> lo.
Proof.
  induction l as [|p l IH]; simpl.
  { intros _. split; [apply NoDup_nil_2|]. by intros r []%elem_of_nil. }
  intros [Hp Hnd]%NoDup_cons. destruct (IH Hnd) as [IH1 IH2].
  destruct (Z.eqb_spec (r_lo p) lo) as [<-|Hne].
  - split; [done|]. intros r Hr Heq. apply Hp. rewrite <- Heq. by apply list_elem_of_fmap_2.
  - split.
    + simpl. apply NoDup_cons. split; [|done]. intros (r & Heq & Hr)%list_elem_of_fmap.
      apply Hp. rewrite Heq. apply list_elem_of_fmap_2. by apply remove_range_sub in Hr.
    + intros r [->|Hr]%elem_of_cons; [done|auto].
Qed.

Lemma on_mem_ok {A} (c : ST mem A) s a m :
  c (d_mem s) = Ok (a, m) -> on_mem c s = Ok (a, with_mem m s).
Proof. unfold on_mem. by intros ->. Qed.

Lemma get_block_ok s i p :
  0 <= i -> d_blocks s !! Z.to_nat i = Some (Some p) -> get_block i s = Ok (p, s).
Proof. intros Hi Hb. unfold get_block, cell_get. by rewrite (arr_get_ok _ _ _ Hi Hb). Qed.

Lemma get_size_ok s i n :
  0 <= i -> d_sizes s !! Z.to_nat i = Some (Some n) -> get_size i s = Ok (n, s).
Proof. intros Hi Hb. unfold get_size, cell_get. by rewrite (arr_get_ok _ _ _ Hi Hb). Qed.

(** ** Well-formed traces *)

(** The live indices and their sizes after a request. *)
Definition live_after (live : gmap Z Z) (op : traceop_t) : gmap Z Z :=
  match op_type_of op with
  | FREE => delete (op_index op) live
  | _ => <[op_index op := op_size op]> live
  end.

(** A trace that allocates fresh indices, resizes and frees live ones, with
    positive [int] sizes whose costs add up to at most [avail].  When
    [bytes_ok], the low byte of every resized index is below 128. *)
Fixpoint trace_ok (bytes_ok : bool) (cost : Z -> Z) (nids : Z) (live : gmap Z Z)
    (avail : Z) (l : list traceop_t) : bool :=
  match l with
  | [] => true
  | op :: l =>
      let i := op_index op in
      let n := op_size op in
      (0 <=? i) && (i <? nids) &&
      match op_type_of op with
      | FREE =>
          bool_decide (is_Some (live !! i)) &&
          trace_ok bytes_ok cost nids (live_after live op) avail l
      | t =>
          (0 <? n) && (n <? 2 ^ 31) && (cost n <=? avail) &&
          (match t with
           | ALLOC => bool_decide (live !! i = None)
           | _ => bool_decide (is_Some (live !! i)) && (negb bytes_ok || (Z.land i 255 <? 128))
           end) &&
          trace_ok bytes_ok cost nids (live_after live op) (avail - cost n) l
      end
  end.

(** The number of payload bytes of the live indices. *)
Definition live_total (live : gmap Z Z) : Z := map_fold (fun _ n acc => n + acc) 0 live.

(** The largest [live_total] after any prefix of the trace. *)
Fixpoint peak (live : gmap Z Z) (l : list traceop_t) : Z :=
  live_total live `max`
  match l with
  | [] => 0
  | op :: l => peak (live_after live op) l
  end.

Lemma live_total_insert live i n :
  live !! i = None -> live_total (<[i := n]> live) = n + live_total live.
Proof. intros Hi. unfold live_total.
  apply (map_fold_insert_L (fun _ n acc => n + acc) 0 i n live); [intros; lia|done]. Qed.

Lemma live_total_delete live i n :
  live !! i = Some n -> live_total live = n + live_total (delete i live).
Proof. intros Hi. unfold live_total.
  apply (map_fold_delete_L (fun _ n acc => n + acc) 0 i n live); [intros; lia|done]. Qed.

Lemma live_total_update live i n n' :
  live !! i = Some n -> live_total (<[i := n']> live) = live_total live - n + n'.
Proof.
  intros Hi. rewrite (live_total_delete live i n Hi).
  rewrite <- insert_delete_eq, live_total_insert by apply lookup_delete_eq. lia.
Qed.

Lemma live_total_nonneg live : (forall i n, live !! i = Some n -> 0 < n) -> 0 <= live_total live.
Proof.
  induction live as [|i n live Hi IH] using map_ind; intros Hpos; [done|].
  rewrite live_total_insert by done.
  pose proof (Hpos i n (lookup_insert_eq _ _ _)).
  enough (0 <= live_total live) by lia. apply IH. intros j k Hj. apply (Hpos j).
  rewrite lookup_insert_ne; [done|congruence].
Qed.

Lemma peak_ge live l : live_total live <= peak live l.
Proof. destruct l; simpl; lia. Qed.

(** ** Measuring speed does what measuring utilisation does

    The requests of [eval_mm_speed] are those of [eval_mm_util], which does
    the accounting besides: on a state with any [block_sizes], the first runs
    whenever the second does and ends in the same memory.  Neither reports
    anything. *)

(** No error was reported. *)
Definition same_log (s s' : driver) : Prop :=
  d_errors s' = d_errors s /\ d_log s' = d_log s.

(** [c], on whatever sizes, does what took [s] to [s']. *)
Definition mirrored (c : ST driver unit) (s s' : driver) : Prop :=
  same_log s s' /\ forall sz, c (with_sizes sz s) = Ok (tt, with_sizes sz s').

Lemma on_mem_inv {B} (c : ST mem B) s b s' :
  on_mem c s = Ok (b, s') -> exists m, c (d_mem s) = Ok (b, m) /\ s' = with_mem m s.
Proof. unfold on_mem. destruct (c (d_mem s)) as [[x m]|]; [intros [= -> <-]; eauto|done]. Qed.

Lemma on_mem_sizes {B} (c : ST mem B) s b m sz :
  c (d_mem s) = Ok (b, m) -> on_mem c (with_sizes sz s) = Ok (b, with_sizes sz (with_mem m s)).
Proof. intros H. by apply (on_mem_ok c (with_sizes sz s)). Qed.

Lemma get_block_inv i s p s' :
  get_block i s = Ok (p, s') ->
  s' = s /\ forall sz, get_block i (with_sizes sz s) = Ok (p, with_sizes sz s).
Proof.
  unfold get_block, mbind, result_bind. simpl.
  destruct (cell_get (d_blocks s) i); [intros [= -> <-]; done|done].
Qed.

Lemma get_size_inv i s n s' : get_size i s = Ok (n, s') -> s' = s.
Proof.
  unfold get_size, mbind, result_bind. by destruct (cell_get (d_sizes s) i); intros [=].
Qed.

Lemma set_block_inv i p s s' :
  set_block i p s = Ok (tt, s') -> mirrored (set_block i p) s s'.
Proof.
  unfold mirrored, set_block, mbind, result_bind. simpl.
  destruct (arr_set (d_blocks s) i (Some p)); [intros [= <-]|done].
  by split.
Qed.

Lemma set_size_inv i n s s' :
  set_size i n s = Ok (tt, s') -> exists l, s' = with_sizes l s.
Proof.
  unfold set_size, mbind, result_bind.
  destruct (arr_set (d_sizes s) i (Some n)); [intros [= <-]; eauto|done].
Qed.

Lemma lift_inv {S B} (r : result B) (s : S) b s' : lift r s = Ok (b, s') -> r = Ok b /\ s' = s.
Proof. unfold lift. by destruct r; intros [= -> ->]. Qed.

(** Takes the first step off a run. *)
Ltac run_inv H x s' Hx := apply bind_inv in H as (x & s' & Hx & H).

Section agrees.
Context {A : Allocator}.

(** A block is remembered, then its size, then the totals change. *)
Lemma remember_agrees i p n (c : result Z) best s s' v :
  (set_block i p;; set_size i n;; t ← lift c; mret (t, max_int t best)) s = Ok (v, s') ->
  mirrored (set_block i p) s s'.
Proof.
  intros H. run_inv H u s1 Hb. destruct u. apply set_block_inv in Hb as [Hlog Hb].
  run_inv H u s2 Hs. destruct u. apply set_size_inv in Hs as [l ->].
  run_inv H t s3 Ht. apply lift_inv in Ht as [_ ->]. injection H as _ <-.
  by split.
Qed.

Lemma util_op_agrees trace v i s v' s' :
  util_op trace v i s = Ok (v', s') -> mirrored (speed_op trace tt i) s s'.
Proof.
  destruct v as [total best]. unfold util_op, speed_op. intros H.
  run_inv H op s0 Hop. apply lift_inv in Hop as [Hop ->]. rewrite Hop.
  destruct (op_type_of op) eqn:Hty.
  - run_inv H p s1 Hp. apply on_mem_inv in Hp as (m & Hp & ->).
    destruct (p =? NULL) eqn:E; [done|]. apply remember_agrees in H as [Hlog H].
    split; [done|]. intros sz. st_step. rewrite Hty. erewrite bind_Ok; [|by apply on_mem_sizes].
    rewrite E. apply H.
  - run_inv H n s1 Hn. apply get_size_inv in Hn as ->.
    run_inv H p s1 Hp. apply get_block_inv in Hp as [-> Hp].
    run_inv H u s1 Hf. apply on_mem_inv in Hf as (m & Hf & ->). destruct u.
    run_inv H t s1 Ht. apply lift_inv in Ht as [_ ->]. injection H as _ <-.
    split; [done|]. intros sz. st_step. rewrite Hty. rewrite (bind_Ok _ _ _ _ _ (Hp sz)).
    by apply on_mem_sizes.
  - run_inv H n s1 Hn. apply get_size_inv in Hn as ->.
    run_inv H p s1 Hp. apply get_block_inv in Hp as [-> Hp].
    run_inv H q s1 Hq. apply on_mem_inv in Hq as (m & Hq & ->).
    destruct (q =? NULL) eqn:E; [done|]. apply remember_agrees in H as [Hlog H].
    split; [done|]. intros sz. st_step. rewrite Hty. rewrite (bind_Ok _ _ _ _ _ (Hp sz)).
    erewrite bind_Ok; [|by apply on_mem_sizes]. rewrite E. apply H.
Qed.

Lemma util_loop_agrees trace l v s v' s' :
  foldM (util_op trace) v l s = Ok (v', s') -> mirrored (foldM (speed_op trace) tt l) s s'.
Proof.
  revert v s; induction l as [|i l IH]; intros v s H.
  { injection H as _ <-. by split. }
  cbn [foldM] in H. run_inv H v1 s1 H1. apply util_op_agrees in H1 as [Hlog1 H1].
  apply IH in H as [Hlog H]. split.
  { destruct Hlog1, Hlog. split; congruence. }
  intros sz. cbn [foldM]. rewrite (bind_Ok _ _ _ _ _ (H1 sz)). apply H.
Qed.

Lemma util_run_agrees trace s v s' :
  util_run trace s = Ok (v, s') -> mirrored (eval_mm_speed trace) s s'.
Proof.
  unfold util_run, eval_mm_speed. intros H.
  run_inv H u s0 Hr. apply on_mem_inv in Hr as (m0 & Hr & ->).
  run_inv H r s1 Hi. apply on_mem_inv in Hi as (m1 & Hi & ->).
  destruct (r <? 0) eqn:E; [done|].
  run_inv H t s2 Hl. destruct t as [t best]. apply util_loop_agrees in Hl as [Hlog Hl].
  injection H as _ <-. split; [done|]. intros sz.
  erewrite bind_Ok; [|by apply on_mem_sizes].
  erewrite bind_Ok; [|by apply on_mem_sizes]. rewrite E. apply Hl.
Qed.
End agrees.

(** ** The driver against the allocator's contract *)

Section valid_run.
Context {A : Allocator} {AS : AllocatorSpec A}.
Context (range_malloc : list range_t -> bool).
Context (range_malloc_ok : forall l, range_malloc l = true).

(** The state between two requests: the allocator's live blocks [L] contain
    the block of every live index and, in a run that checks the allocator
    ([checked]), that block is filled with the index's low byte and every
    recorded range is a live block. *)
Record driver_inv (checked : bool) (nids : Z) (live L : gmap Z Z) (s : driver) : Prop := {
  di_heap : heap_inv (d_mem s) L;
  di_blocks : Z.of_nat (length (d_blocks s)) = nids;
  di_sizes : Z.of_nat (length (d_sizes s)) = nids;
  di_live i n : live !! i = Some n ->
    0 <= i < nids /\ 0 < n < 2 ^ 31 /\
    d_sizes s !! Z.to_nat i = Some (Some n) /\
    exists p k, d_blocks s !! Z.to_nat i = Some (Some p) /\
      L !! p = Some k /\ n <= k /\
      (checked = true ->
        forall b, p <= b < p + n -> mem_bytes (d_mem s) !! b = Some (Z.land i 255));
  di_inj i j p : is_Some (live !! i) -> is_Some (live !! j) ->
    d_blocks s !! Z.to_nat i = Some (Some p) ->
    d_blocks s !! Z.to_nat j = Some (Some p) -> i = j;
  di_ranges r : checked = true -> r ∈ d_ranges s ->
    exists k, L !! r_lo r = Some k /\ r_lo r <= r_hi r < r_lo r + k;
  di_nodup : checked = true -> NoDup (r_lo <$> d_ranges s);
}.

(** Memory steps that keep the blocks in use. *)
Lemma driver_inv_update checked nids live live' L L' s m' rs :
  driver_inv checked nids live L s -> live' ⊆ live -> heap_inv m' L' ->
  (checked = true -> forall r, r ∈ rs -> r ∈ d_ranges s /\ L' !! r_lo r = L !! r_lo r) ->
  (checked = true -> NoDup (r_lo <$> rs)) ->
  (forall i p k, is_Some (live' !! i) -> d_blocks s !! Z.to_nat i = Some (Some p) ->
    L !! p = Some k -> L' !! p = Some k /\ same_bytes (d_mem s) m' p k) ->
  driver_inv checked nids live' L' (with_ranges rs (with_mem m' s)).
Proof.
  intros [H1 H2 H3 H4 H5 H6 H7] Hsub Hh Hrs Hnd Hkeep.
  assert (Hsome : forall i, is_Some (live' !! i) -> is_Some (live !! i)).
  { intros i [n Hn]. exists n. by eapply lookup_weaken. }
  split; simpl; try done.
  - intros i n Hi. assert (Hi' : live !! i = Some n) by (by eapply lookup_weaken).
    destruct (H4 i n Hi') as (? & ? & ? & p & k & Hb & HL & Hk & Hfill).
    destruct (Hkeep i p k (mk_is_Some _ _ Hi) Hb HL) as [HL' Hsame].
    do 3 (split; [done|]). exists p, k. split_and!; try done.
    intros Hck b Hbb. rewrite Hsame by lia. by apply Hfill.
  - intros i j p Hi Hj. apply H5; auto.
  - intros r Hck Hr. destruct (Hrs Hck r Hr) as [Hr' ->]. by apply H6.
Qed.

Lemma heap_inv_memset m L p k c n :
  heap_inv m L -> L !! p = Some k -> 0 <= n <= k ->
  memset p c n m = Ok (tt, set_bytes (memset_bytes (mem_bytes m) p c n) m) /\
  heap_inv (set_bytes (memset_bytes (mem_bytes m) p c n) m) L.
Proof.
  intros Hh HL Hn. pose proof (heap_inv_ok _ _ Hh) as [? ? ? ? ?].
  destruct (heap_inv_block _ _ _ _ Hh HL) as (? & ? & ? & ? & ?). split.
  - apply memset_ok; lia.
  - apply (heap_inv_write _ _ _ _ _ Hh HL); [done|].
    intros b Hb. apply memset_out. lia.
Qed.

(** Writing into a block that no index owns. *)
Lemma memset_inv nids live L s q k c n :
  driver_inv true nids live L s -> L !! q = Some k -> 0 <= n <= k ->
  (forall j, is_Some (live !! j) -> d_blocks s !! Z.to_nat j <> Some (Some q)) ->
  driver_inv true nids live L
    (with_mem (set_bytes (memset_bytes (mem_bytes (d_mem s)) q c n) (d_mem s)) s).
Proof.
  intros [H1 H2 H3 H4 H5 H6 H7] HL Hn Hq.
  destruct (heap_inv_memset _ _ _ _ c n H1 HL Hn) as [_ Hh].
  split; simpl; try done. intros i z Hi.
  destruct (H4 i z Hi) as (Hir & Hz & Hsz & p & y & Hb & HLp & Hy & Hfill).
  do 3 (split; [done|]). exists p, y. split_and!; try done. intros Hck b Hbb.
  assert (Hpq : p <> q) by (intros ->; by apply (Hq i (mk_is_Some _ _ Hi))).
  destruct (heap_inv_disjoint _ _ _ _ _ _ H1 HLp HL Hpq);
    (rewrite memset_out by lia; by apply Hfill).
Qed.

(** [blocks[index] = q; block_sizes[index] = size] *)
Lemma remember_block {B} checked nids live L s index q k size (rest : ST driver B) :
  driver_inv checked nids live L s -> L !! q = Some k -> 0 < size <= k -> size < 2 ^ 31 ->
  0 <= index < nids ->
  (forall j, is_Some (live !! j) -> d_blocks s !! Z.to_nat j <> Some (Some q)) ->
  (checked = true ->
    forall b, q <= b < q + size -> mem_bytes (d_mem s) !! b = Some (Z.land index 255)) ->
  exists s',
    (set_block index q;; set_size index (u64 size);; rest) s = rest s' /\
    driver_inv checked nids (<[index := size]> live) L s' /\
    d_mem s' = d_mem s /\ same_log s s'.
Proof.
  intros [H1 H2 H3 H4 H5 H6 H7] HL Hs Hs' Hi Hq Hfillq.
  rewrite (u64_id size) by lia. eexists. split.
  { unfold set_block, set_size. st_unfold. simpl.
    rewrite (arr_set_ok (d_blocks s)) by lia. simpl.
    rewrite (arr_set_ok (d_sizes s)) by lia. reflexivity. }
  assert (Hidx : forall j n, live !! j = Some n -> 0 <= j < nids).
  { intros j n Hj. by destruct (H4 j n Hj). }
  split; [|done]. split; simpl; try (rewrite ?length_insert; done).
  - intros j n. rewrite lookup_insert. case_decide as Hij.
    + subst j. intros [= <-]. split; [done|]. split; [lia|]. split.
      { apply list_lookup_insert_eq. lia. }
      exists q, k. split_and!; [apply list_lookup_insert_eq; lia|done|lia|done].
    + intros Hj. destruct (H4 j n Hj) as (Hjr & Hn & Hsz & p & z & Hb & HLp & Hz & Hfill).
      rewrite !list_lookup_insert_ne by lia. do 3 (split; [done|]). by exists p, z.
  - assert (Hcell : forall j, j <> index -> is_Some (<[index:=size]> live !! j) ->
      is_Some (live !! j) /\
      <[Z.to_nat index:=Some q]> (d_blocks s) !! Z.to_nat j = d_blocks s !! Z.to_nat j).
    { intros j Hne. rewrite lookup_insert_ne by done. intros Hj. split; [done|].
      destruct Hj as [n Hj]. specialize (Hidx j n Hj).
      by rewrite list_lookup_insert_ne by lia. }
    assert (Hown : <[Z.to_nat index:=Some q]> (d_blocks s) !! Z.to_nat index = Some (Some q))
      by (apply list_lookup_insert_eq; lia).
    intros i j p Hi' Hj' Hbi Hbj.
    destruct (decide (i = index)) as [->|Hni], (decide (j = index)) as [->|Hnj]; try done.
    + destruct (Hcell j Hnj Hj') as [Hj Ej]. rewrite Ej in Hbj.
      exfalso. apply (Hq j Hj). congruence.
    + destruct (Hcell i Hni Hi') as [Hi2 Ei]. rewrite Ei in Hbi.
      exfalso. apply (Hq i Hi2). congruence.
    + destruct (Hcell i Hni Hi') as [Hi2 Ei], (Hcell j Hnj Hj') as [Hj Ej].
      rewrite Ei in Hbi. rewrite Ej in Hbj. by apply (H5 i j p).
Qed.

(** The tail of ALLOC and REALLOC: fill the block and remember it. *)
Lemma fill_block nids live L s index q k size :
  driver_inv true nids live L s -> L !! q = Some k -> 0 < size <= k -> size < 2 ^ 31 ->
  0 <= index < nids ->
  (forall j, is_Some (live !! j) -> d_blocks s !! Z.to_nat j <> Some (Some q)) ->
  exists s',
    (on_mem (memset q (Z.land index 255) (u64 size));;
     set_block index q;; set_size index (u64 size);; mret (inl tt : unit + Z)) s =
      Ok (inl tt, s') /\
    driver_inv true nids (<[index := size]> live) L s' /\
    same_frame (d_mem s) (d_mem s') /\ same_log s s'.
Proof.
  intros Hinv HL Hs Hs' Hi Hq.
  destruct (heap_inv_memset _ _ _ _ (Z.land index 255) size
    (di_heap _ _ _ _ _ Hinv) HL ltac:(lia)) as [Hm _].
  pose proof (memset_inv _ _ _ _ _ _ (Z.land index 255) size Hinv HL ltac:(lia) Hq) as Hinv1.
  destruct (remember_block _ _ _ _ _ index q k size
    (mret (inl tt : unit + Z)) Hinv1 HL Hs Hs' Hi Hq)
    as (s' & Hrun & Hinv' & Hmem & Hlog).
  { intros _ b Hb. simpl. rewrite memset_in by lia. f_equal. apply u8_id.
    change 255 with (Z.ones 8). rewrite Z.land_ones by lia. change (2 ^ 8) with 256. dlia. }
  exists s'. rewrite (u64_id size) in * by lia.
  rewrite (bind_Ok _ _ _ _ _ (on_mem_ok _ _ _ _ Hm)), Hmem. by split_and!.
Qed.

(** *** Checks that pass *)

Lemma add_range_fresh s L p k size tracenum i :
  heap_inv (d_mem s) L -> L !! p = Some k -> 0 < size <= k ->
  (forall r, r ∈ d_ranges s -> r_lo r <> p /\
    exists z, L !! r_lo r = Some z /\ r_lo r <= r_hi r < r_lo r + z) ->
  add_range range_malloc p size tracenum i s =
    Ok (1, with_ranges (Range p (p + size - 1) :: d_ranges s) s).
Proof.
  intros Hh HL Hs Hr. pose proof (heap_inv_ok _ _ Hh) as [? ? ? ? ?].
  destruct (heap_inv_block _ _ _ _ Hh HL) as (Ha & ? & ? & ? & ?).
  unfold add_range. rewrite (proj2 (Z.gtb_lt size 0)) by lia. st_step. st_step.
  rewrite is_aligned_alt, Ha by lia. simpl.
  unfold mem_heap_lo, mem_heap_hi.
  rewrite !Z.gtb_ltb, !(proj2 (Z.ltb_ge _ _)) by lia. simpl.
  rewrite (proj2 (first_hit_None _ _ _)).
  { rewrite range_malloc_ok. done. }
  intros r Hin. destruct (Hr r Hin) as (Hne & z & Hz & Hrr).
  apply not_true_is_false. rewrite range_hit_spec.
  destruct (heap_inv_disjoint _ _ _ _ _ _ Hh HL Hz); [congruence|lia|lia].
Qed.

Lemma data_preserved_run s newp index n :
  mem_start_brk (d_mem s) <= newp -> newp + n <= mem_max_addr (d_mem s) -> 0 <= n ->
  (forall j, 0 <= j < n -> mem_bytes (d_mem s) !! (newp + j) = Some (Z.land index 255)) ->
  data_preserved newp index n s =
    Ok ((n =? 0) || (Z.land index 255 <? 128), s).
Proof.
  intros Hlo Hhi Hn Hdata. unfold data_preserved.
  assert (Hle : Z.land index 255 = index mod 256) by (by apply (Z.land_ones index 8)).
  assert (Hread : forall j, 0 <= j < n ->
    on_mem (mem_load_char (newp + j)) s = Ok (s8 (Z.land index 255), s)).
  { intros j Hj. erewrite on_mem_ok; [|apply mem_load_char_ok; [lia|lia|by apply Hdata]].
    by destruct s. }
  destruct (Z.ltb_spec (Z.land index 255) 128) as [Hlt|Hge].
  - assert (Hs8 : s8 (Z.land index 255) = Z.land index 255).
    { apply wrap_s_id; [lia|]. rewrite Hle in *. dlia. }
    assert (Hloop : forall l, (forall j, j ∈ l -> 0 <= j < n) ->
      foldM_until (fun (_ : unit) j =>
        c ← on_mem (mem_load_char (newp + j));
        mret (if c =? Z.land index 255 then inl tt else inr tt)) tt l s = Ok (inl tt, s)).
    { induction l as [|j l IH]; intros Hl; [done|]. simpl.
      erewrite bind_Ok; [|by rewrite (bind_Ok _ _ _ _ _ (Hread j (Hl j ltac:(by left))))].
      rewrite Hs8, Z.eqb_refl. apply IH. intros j' Hj'. apply Hl. by right. }
    rewrite (bind_Ok _ _ _ _ _ (Hloop (seqZ 0 n) ltac:(intros j Hj%elem_of_seqZ; lia))).
    by rewrite orb_true_r.
  - destruct (Z.eqb_spec n 0) as [->|Hne]; [done|].
    rewrite (seqZ_cons 0 n) by lia. simpl.
    assert (Hs8 : s8 (Z.land index 255) =? Z.land index 255 = false).
    { pose proof (s8_range (Z.land index 255)). apply Z.eqb_neq. lia. }
    erewrite bind_Ok; [|erewrite bind_Ok;
      [|by rewrite (bind_Ok _ _ _ _ _ (Hread 0 ltac:(lia)))]; by rewrite Hs8].
    done.
Qed.

(** *** One request *)

(** Room left in the region. *)
Definition room (s : driver) : Z := mem_max_addr (d_mem s) - mem_brk (d_mem s).

Lemma room_after ck ck' nids live live' L L' s s' n :
  driver_inv ck nids live L s -> driver_inv ck' nids live' L' s' ->
  mem_start_brk (d_mem s') = mem_start_brk (d_mem s) ->
  mem_brk (d_mem s') <= mem_brk (d_mem s) + n -> room s - n <= room s'.
Proof.
  intros H H' Hst Hb. unfold room.
  pose proof (heap_inv_ok _ _ (di_heap _ _ _ _ _ H)) as [].
  pose proof (heap_inv_ok _ _ (di_heap _ _ _ _ _ H')) as []. lia.
Qed.

Lemma valid_alloc_run nids live L s tracenum i index size :
  driver_inv true nids live L s -> live !! index = None -> 0 <= index < nids ->
  0 < size < 2 ^ 31 -> heap_cost size <= room s ->
  exists s' L', valid_alloc range_malloc tracenum i index size s = Ok (inl tt, s') /\
    driver_inv true nids (<[index := size]> live) L' s' /\
    room s - heap_cost size <= room s' /\ same_log s s'.
Proof.
  intros Hinv Hfree Hi Hs Hroom. unfold room in Hroom.
  destruct (malloc_spec _ _ size (di_heap _ _ _ _ _ Hinv) Hs ltac:(lia))
    as (p & k & m' & Hrun & Hnull & Hk & Hfresh & Hh' & Hpres & Hst & Hbrk).
  assert (Hinv1 : driver_inv true nids live (<[p := k]> L)
    (with_ranges (d_ranges s) (with_mem m' s))).
  { apply (driver_inv_update _ _ _ _ _ _ _ _ _ Hinv); [done|done| |apply Hinv|].
    - intros _ r Hr. split; [done|].
      destruct (di_ranges _ _ _ _ _ Hinv r eq_refl Hr) as (z & Hz & _).
      rewrite lookup_insert_ne; [done|congruence].
    - intros j q z _ _ Hq. split; [|by apply Hpres].
      rewrite lookup_insert_ne; [done|congruence]. }
  set (s1 := with_ranges _ _) in Hinv1.
  assert (Hown : (<[p := k]> L) !! p = Some k) by apply lookup_insert_eq.
  assert (Hrange : forall r, r ∈ d_ranges s -> r_lo r <> p).
  { intros r Hr Heq. destruct (di_ranges _ _ _ _ _ Hinv r eq_refl Hr) as (z & Hz & _). congruence. }
  pose proof (add_range_fresh s1 _ p k size tracenum i (di_heap _ _ _ _ _ Hinv1) Hown
    ltac:(lia) (fun r Hr => conj (Hrange r Hr) (di_ranges _ _ _ _ _ Hinv1 r eq_refl Hr))) as Hadd.
  set (s2 := with_ranges _ s1) in Hadd.
  assert (Hinv2 : driver_inv true nids live (<[p := k]> L) s2).
  { destruct Hinv1 as [? ? ? ? ? Hr1 Hn1]. split; simpl; try done.
    - intros r _ [->|Hr]%elem_of_cons; [|by apply Hr1]. exists k. simpl. split; [done|lia].
    - intros _. apply NoDup_cons. split; [|by apply Hn1]. intros (r & Heq & Hr)%list_elem_of_fmap.
      by apply (Hrange r). }
  destruct (fill_block nids live _ s2 index p k size Hinv2 Hown ltac:(lia) ltac:(lia) Hi)
    as (s' & Hfill & Hinv' & Hf & Hlog).
  { intros j [n Hj] Hb. destruct (di_live _ _ _ _ _ Hinv j n Hj) as (_ & _ & _ & q & z & Hq & Hz & _).
    simpl in Hb. congruence. }
  exists s', (<[p := k]> L). split; [|split; [done|split; [|exact Hlog]]].
  - unfold valid_alloc. rewrite (u64_id size) by lia.
    rewrite (bind_Ok _ _ _ _ _ (on_mem_ok _ _ _ _ Hrun)).
    rewrite (proj2 (Z.eqb_neq p NULL)) by done.
    replace (with_mem m' s) with s1 by (by destruct s). rewrite (bind_Ok _ _ _ _ _ Hadd).
    rewrite (u64_id size) in Hfill by lia. exact Hfill.
  - destruct Hf as (E1 & E2 & _). eapply room_after; [exact Hinv|exact Hinv'|simpl in *; congruence|].
    rewrite E2. simpl. lia.
Qed.

Lemma valid_free_run nids live L s index n :
  driver_inv true nids live L s -> live !! index = Some n ->
  exists s' L', valid_free index s = Ok (inl tt, s') /\
    driver_inv true nids (delete index live) L' s' /\ room s <= room s' /\
    same_log s s'.
Proof.
  intros Hinv Hlive.
  destruct (di_live _ _ _ _ _ Hinv index n Hlive) as (Hi & Hn & _ & p & k & Hb & HL & Hk & _).
  destruct (free_spec _ _ _ _ (di_heap _ _ _ _ _ Hinv) HL)
    as (m' & Hrun & Hh' & Hpres & Hst & Hbrk).
  destruct (remove_range_nodup p (d_ranges s) (di_nodup _ _ _ _ _ Hinv eq_refl)) as [Hnd Hne].
  exists (with_ranges (remove_range_list p (d_ranges s)) (with_mem m' s)), (delete p L).
  assert (Hinv' : driver_inv true nids (delete index live) (delete p L)
    (with_ranges (remove_range_list p (d_ranges s)) (with_mem m' s))).
  { apply (driver_inv_update _ _ _ _ _ _ _ _ _ Hinv); [apply delete_subseteq|done| |done|].
    - intros _ r Hr. split; [by apply remove_range_sub in Hr|].
      rewrite lookup_delete_ne; [done|]. intros Heq. by apply (Hne r Hr).
    - intros j q z [nj Hj] Hq HLq. apply lookup_delete_Some in Hj as [Hij Hj].
      assert (Hpq : p <> q).
      { intros ->. apply Hij. eapply (di_inj _ _ _ _ _ Hinv); eauto. }
      assert (HLq' : delete p L !! q = Some z) by (by rewrite lookup_delete_ne).
      split; [done|by apply Hpres]. }
  split; [|split; [done|split; [|done]]].
  - unfold valid_free. rewrite (bind_Ok _ _ _ _ _ (get_block_ok s _ _ (proj1 Hi) Hb)).
    unfold remove_range. st_step.
    rewrite (bind_Ok _ _ _ _ _ (on_mem_ok _ (with_ranges _ s) _ _ Hrun)). done.
  - pose proof (room_after _ _ _ _ _ _ _ _ _ 0 Hinv Hinv'). simpl in *. lia.
Qed.

(** After [mm_realloc] moved the block of [index] from [p] to [q]: the other
    indices keep their blocks, and none of them owns [q]. *)
Lemma moved_inv checked nids live L s index n p q k z L' m' rs :
  driver_inv checked nids live L s -> live !! index = Some n ->
  d_blocks s !! Z.to_nat index = Some (Some p) -> L !! p = Some z ->
  L' = <[q := k]> (delete p L) -> delete p L !! q = None -> heap_inv m' L' ->
  preserved (d_mem s) m' (delete p L) ->
  (checked = true -> forall r, r ∈ rs -> r ∈ d_ranges s /\ L' !! r_lo r = L !! r_lo r) ->
  (checked = true -> NoDup (r_lo <$> rs)) ->
  driver_inv checked nids (delete index live) L' (with_ranges rs (with_mem m' s)) /\
  (forall j, is_Some (delete index live !! j) ->
    d_blocks s !! Z.to_nat j <> Some (Some q)).
Proof.
  intros Hinv Hlive Hb HL HL' Hfresh Hh' Hpres Hrs Hnd.
  assert (Hother : forall j r, is_Some (delete index live !! j) ->
    d_blocks s !! Z.to_nat j = Some (Some r) -> is_Some (live !! j) /\ p <> r).
  { intros j r [nj Hj] Hr. apply lookup_delete_Some in Hj as [Hij Hj].
    split; [done|]. intros ->. apply Hij. eapply (di_inj _ _ _ _ _ Hinv); eauto. }
  split.
  - apply (driver_inv_update _ _ _ _ _ _ _ _ _ Hinv); [apply delete_subseteq|done..|].
    intros j r y Hj Hr HLr. destruct (Hother j r Hj Hr) as [_ Hpr].
    assert (HLr' : delete p L !! r = Some y) by (by rewrite lookup_delete_ne).
    split; [|by apply Hpres]. rewrite HL', lookup_insert_ne; [done|congruence].
  - intros j Hj Hbj. destruct (Hother j q Hj Hbj) as [[nj Hj'] Hpq].
    destruct (di_live _ _ _ _ _ Hinv j nj Hj') as (_ & _ & _ & r & y & Hr & Hy & _).
    rewrite lookup_delete_ne in Hfresh by done. congruence.
Qed.

(** REALLOC up to the comparison of the data, in a checked run: the range
    of the new block is accepted. *)
Lemma realloc_moved nids live L s index n size p q k L' m' z :
  driver_inv true nids live L s -> live !! index = Some n ->
  d_blocks s !! Z.to_nat index = Some (Some p) -> L !! p = Some z ->
  L' = <[q := k]> (delete p L) -> delete p L !! q = None -> heap_inv m' L' ->
  preserved (d_mem s) m' (delete p L) -> 0 < size <= k ->
  let s1 := with_ranges (remove_range_list p (d_ranges s)) (with_mem m' s) in
  let s2 := with_ranges (Range q (q + size - 1) :: d_ranges s1) s1 in
  (forall tracenum i, add_range range_malloc q size tracenum i s1 = Ok (1, s2)) /\
  driver_inv true nids (delete index live) L' s2 /\
  (forall j, is_Some (delete index live !! j) ->
    d_blocks s !! Z.to_nat j <> Some (Some q)).
Proof.
  intros Hinv Hlive Hb HL HL' Hfresh Hh' Hpres Hs s1 s2.
  destruct (remove_range_nodup p (d_ranges s) (di_nodup _ _ _ _ _ Hinv eq_refl)) as [Hnd Hne].
  assert (Hother : forall r, r ∈ d_ranges s1 -> r_lo r <> q /\ L' !! r_lo r = L !! r_lo r).
  { intros r Hr. specialize (Hne r Hr). apply remove_range_sub in Hr.
    destruct (di_ranges _ _ _ _ _ Hinv r eq_refl Hr) as (y & Hy & _).
    assert (Hy' : delete p L !! r_lo r = Some y) by (by rewrite lookup_delete_ne).
    assert (Hq : r_lo r <> q) by congruence. split; [done|].
    rewrite HL', lookup_insert_ne by done. by rewrite Hy', Hy. }
  destruct (moved_inv _ _ _ _ _ _ _ _ q k _ _ _ (remove_range_list p (d_ranges s))
    Hinv Hlive Hb HL HL' Hfresh Hh' Hpres) as [Hinv1 Hfree].
  { intros _ r Hr. split; [by apply remove_range_sub in Hr|exact (proj2 (Hother r Hr))]. }
  { done. }
  assert (Hown : L' !! q = Some k) by (rewrite HL'; apply lookup_insert_eq).
  split_and!; [| |exact Hfree].
  - intros tracenum i. apply (add_range_fresh s1 L' q k); [done|done|lia|].
    intros r Hr. split; [by apply Hother|by apply (di_ranges _ _ _ _ _ Hinv1 r eq_refl)].
  - destruct Hinv1 as [? ? ? ? ? Hr1 Hn1]. split; simpl; try done.
    + intros r _ [->|Hr]%elem_of_cons; [|by apply Hr1]. exists k. simpl. split; [done|lia].
    + intros _. apply NoDup_cons. split; [|by apply Hn1].
      intros (r & Heq & Hr)%list_elem_of_fmap. by destruct (Hother r Hr) as [[] _].
Qed.

Lemma valid_realloc_run nids live L s tracenum i index n size :
  driver_inv true nids live L s -> live !! index = Some n ->
  0 < size < 2 ^ 31 -> heap_cost size <= room s ->
  if Z.land index 255 <? 128 then
    exists s' L', valid_realloc range_malloc tracenum i index size s = Ok (inl tt, s') /\
      driver_inv true nids (<[index := size]> live) L' s' /\
      room s - heap_cost size <= room s' /\ same_log s s'
  else
    exists s2, same_log s s2 /\
      valid_realloc range_malloc tracenum i index size s =
        (malloc_error tracenum i Err_realloc_data;; mret (inr 0)) s2.
Proof.
  intros Hinv Hlive Hs Hroom. unfold room in Hroom.
  destruct (di_live _ _ _ _ _ Hinv index n Hlive)
    as (Hi & Hn & Hsz & p & z & Hb & HL & Hz & Hfillb).
  destruct (realloc_spec _ _ _ _ size (di_heap _ _ _ _ _ Hinv) HL Hs ltac:(lia))
    as (q & k & m' & Hrun & Hnull & Hk & Hfresh & Hh' & Hpres & Hcopy & Hst & Hbrk).
  destruct (realloc_moved _ _ _ _ _ _ size _ _ k _ _ _ Hinv Hlive Hb HL eq_refl Hfresh Hh' Hpres)
    as (Hadd & Hinv2 & Hfree); [lia|].
  set (s1 := with_ranges (remove_range_list p (d_ranges s)) (with_mem m' s)) in *.
  set (s2 := with_ranges _ s1) in *.
  set (old := if size <? n then size else n).
  assert (Hold : 0 < old <= n `min` size) by (unfold old; destruct (Z.ltb_spec size n); lia).
  assert (Hown : (<[q := k]> (delete p L)) !! q = Some k) by apply lookup_insert_eq.
  destruct (heap_inv_block _ _ _ _ Hh' Hown) as (_ & Hq1 & _ & Hq2 & _).
  pose proof (heap_inv_ok _ _ Hh') as [? ? ? ? ?].
  assert (Hdata : data_preserved q index old s2 = Ok (Z.land index 255 <? 128, s2)).
  { rewrite data_preserved_run; simpl; [|lia..|].
    - by rewrite (proj2 (Z.eqb_neq old 0)) by lia.
    - intros j Hj. rewrite Hcopy by lia. apply Hfillb; [done|lia]. }
  assert (Hprefix : valid_realloc range_malloc tracenum i index size s =
    (if Z.land index 255 <? 128 then
       on_mem (memset q (Z.land index 255) (u64 size));;
       set_block index q;; set_size index (u64 size);; mret (inl tt)
     else malloc_error tracenum i Err_realloc_data;; mret (inr 0)) s2).
  { unfold valid_realloc. rewrite (u64_id size) by lia.
    rewrite (bind_Ok _ _ _ _ _ (get_block_ok s _ _ (proj1 Hi) Hb)).
    rewrite (bind_Ok _ _ _ _ _ (on_mem_ok _ _ _ _ Hrun)).
    rewrite (proj2 (Z.eqb_neq q NULL)) by done.
    unfold remove_range. st_step. rewrite (bind_Ok _ _ _ _ _ (Hadd tracenum i)).
    change (1 =? 0) with false. cbv iota.
    rewrite (bind_Ok _ _ _ _ _ (get_size_ok s2 _ _ (proj1 Hi) Hsz)).
    rewrite (s32_id n) by lia. fold old. rewrite (bind_Ok _ _ _ _ _ Hdata).
    by destruct (Z.land index 255 <? 128). }
  rewrite Hprefix. destruct (Z.land index 255 <? 128); [|by exists s2].
  destruct (fill_block nids _ _ s2 index q k size Hinv2 Hown ltac:(lia) ltac:(lia) Hi Hfree)
    as (s' & Hfill & Hinv' & (E1 & E2 & _) & Hlog).
  rewrite insert_delete_eq in Hinv'.
  exists s', (<[q := k]> (delete p L)). split_and!; [done|done| |apply Hlog..].
  eapply room_after; [exact Hinv|exact Hinv'|simpl in *; congruence|]. rewrite E2. simpl. lia.
Qed.

(** *** The whole trace *)

Lemma valid_op_run nids live L s trace tracenum i op :
  driver_inv true nids live L s ->
  0 <= i -> ops trace !! Z.to_nat i = Some op ->
  forall avail l, avail <= room s ->
  trace_ok true heap_cost nids live avail (op :: l) = true ->
  exists s' L' avail', valid_op range_malloc trace tracenum i s = Ok (inl tt, s') /\
    driver_inv true nids (live_after live op) L' s' /\ avail' <= room s' /\
    trace_ok true heap_cost nids (live_after live op) avail' l = true /\ same_log s s'.
Proof.
  intros Hinv Hi Hop avail l Hav Hok. simpl in Hok.
  unfold valid_op. rewrite (arr_get_ok _ _ _ Hi Hop). st_step.
  unfold live_after in *. destruct (op_type_of op).
  - apply andb_true_iff in Hok as [Hidx Hok].
    repeat (apply andb_true_iff in Hok as [Hok ?]). apply bool_decide_eq_true in H0.
    destruct (valid_alloc_run _ _ _ _ tracenum i (op_index op) (op_size op) Hinv)
      as (s' & L' & Hrun & Hinv' & Hroom & Hlog); [done|lia..|].
    exists s', L', (avail - heap_cost (op_size op)). split_and!; (done || (apply Hlog) || lia).
  - apply andb_true_iff in Hok as [Hidx Hok]. apply andb_true_iff in Hok as [Hl Hok].
    apply bool_decide_eq_true in Hl as [n Hl].
    destruct (valid_free_run _ _ _ _ (op_index op) n Hinv Hl)
      as (s' & L' & Hrun & Hinv' & Hroom & Hlog).
    exists s', L', avail. split_and!; (done || (apply Hlog) || lia).
  - apply andb_true_iff in Hok as [Hidx Hok].
    repeat (apply andb_true_iff in Hok as [Hok ?]). apply andb_true_iff in H0 as [Hl Hb].
    apply bool_decide_eq_true in Hl as [n Hl]. simpl in Hb.
    pose proof (valid_realloc_run _ _ _ _ tracenum i (op_index op) n (op_size op) Hinv Hl
      ltac:(lia) ltac:(lia)) as Hre. rewrite Hb in Hre.
    destruct Hre as (s' & L' & Hrun & Hinv' & Hroom & Hlog).
    exists s', L', (avail - heap_cost (op_size op)). split_and!; (done || (apply Hlog) || lia).
Qed.

Lemma valid_loop_run nids trace tracenum l i live L s avail :
  driver_inv true nids live L s -> 0 <= i ->
  (forall k op, l !! k = Some op -> ops trace !! Z.to_nat (i + Z.of_nat k) = Some op) ->
  avail <= room s -> trace_ok true heap_cost nids live avail l = true ->
  exists s' L', foldM_until (fun _ i => valid_op range_malloc trace tracenum i) tt
      (seqZ i (Z.of_nat (length l))) s = Ok (inl tt, s') /\
    driver_inv true nids (foldl live_after live l) L' s' /\ same_log s s'.
Proof.
  revert i live L s avail; induction l as [|op l IH]; intros i live L s avail Hinv Hi Hops Hav Hok.
  { exists s, L. by split_and!. }
  pose proof (Hops 0%nat op eq_refl) as Hop. rewrite Z.add_0_r in Hop.
  destruct (valid_op_run _ _ _ _ trace tracenum i op Hinv Hi Hop avail l Hav Hok)
    as (s1 & L1 & avail1 & Hrun & Hinv1 & Hav1 & Hok1 & Hlog1).
  destruct (IH (i + 1) _ _ _ avail1 Hinv1 ltac:(lia))
    as (s2 & L2 & Hrest & Hinv2 & Hlog2); [|done|done|].
  { intros k op' Hk. specialize (Hops (S k) op' Hk).
    by replace (i + 1 + Z.of_nat k) with (i + Z.of_nat (S k)) by lia. }
  exists s2, L2. simpl length. rewrite seqZ_cons by lia.
  replace (Z.succ i) with (i + 1) by lia.
  replace (Z.pred (Z.of_nat (S (length l)))) with (Z.of_nat (length l)) by lia.
  cbn [foldM_until]. rewrite (bind_Ok _ _ _ _ _ Hrun). split; [done|split; [done|]].
  destruct Hlog1, Hlog2. split; congruence.
Qed.

(** What the evaluation functions start from. *)
Definition driver_start (trace : trace_t) (s : driver) : Prop :=
  mem_ok (d_mem s) /\ num_ops trace = Z.of_nat (length (ops trace)) /\
  Z.of_nat (length (d_blocks s)) = num_ids trace /\
  Z.of_nat (length (d_sizes s)) = num_ids trace.

Lemma driver_start_inv checked trace s :
  driver_start trace s ->
  exists r m', on_mem mem_reset_brk s =
      Ok (tt, with_mem (set_brk (mem_start_brk (d_mem s)) (d_mem s)) s) /\
    mm_init (set_brk (mem_start_brk (d_mem s)) (d_mem s)) = Ok (r, m') /\ 0 <= r /\
    mem_start_brk m' = mem_start_brk (d_mem s) /\ mem_brk m' = mem_start_brk m' /\
    forall rs, (checked = true -> rs = []) ->
      driver_inv checked (num_ids trace) ∅ ∅ (with_ranges rs (with_mem m' s)) /\
      room (with_ranges rs (with_mem m' s)) = MAX_HEAP.
Proof.
  intros (Hm & _ & Hb & Hs). set (m0 := set_brk _ _).
  assert (Hm0 : mem_ok m0) by (destruct Hm; split; simpl; (done || lia)).
  destruct (init_spec m0 Hm0 eq_refl) as (r & m' & Hrun & Hr & Hh & Hbrk & Hst).
  exists r, m'. split_and!; try done. intros rs Hrs. split.
  - split; simpl; try done.
    + by intros i j p [].
    + intros p Hck Hin. rewrite (Hrs Hck) in Hin. by apply elem_of_nil in Hin.
    + intros Hck. rewrite (Hrs Hck). apply NoDup_nil_2.
  - pose proof (heap_inv_ok _ _ Hh) as []. unfold room. simpl. lia.
Qed.

Lemma driver_inv_start checked trace live L s :
  driver_inv checked (num_ids trace) live L s -> num_ops trace = Z.of_nat (length (ops trace)) ->
  driver_start trace s.
Proof.
  intros Hinv Hn. split_and!; [|done|apply Hinv|apply Hinv].
  eapply heap_inv_ok. apply Hinv.
Qed.

Lemma eval_mm_valid_run trace tracenum s :
  driver_start trace s ->
  trace_ok true heap_cost (num_ids trace) ∅ MAX_HEAP (ops trace) = true ->
  exists s', eval_mm_valid range_malloc trace tracenum s = Ok (1, s') /\ same_log s s' /\
    driver_start trace s'.
Proof.
  intros Hst Hok. destruct (driver_start_inv true _ _ Hst)
    as (r & m' & Hreset & Hinit & Hr & _ & _ & Hinv).
  destruct (Hinv [] ltac:(done)) as [Hinv' Hroom].
  destruct (valid_loop_run _ trace tracenum (ops trace) 0 _ _ _ MAX_HEAP Hinv')
    as (s' & L' & Hloop & Hend & Hlog); [lia| |lia|done|].
  { intros k op Hk. by rewrite Z.add_0_l, Nat2Z.id. }
  destruct Hst as (_ & Hn & _).
  exists s'. split; [|split; [exact Hlog|by eapply driver_inv_start]]. unfold eval_mm_valid.
  rewrite (bind_Ok _ _ _ _ _ Hreset). unfold clear_ranges. st_step.
  rewrite (bind_Ok _ _ _ _ _ (on_mem_ok mm_init
    (with_ranges [] (with_mem (set_brk (mem_start_brk (d_mem s)) (d_mem s)) s)) _ _ Hinit)).
  rewrite (proj2 (Z.ltb_ge r 0)) by lia.
  rewrite Hn. by rewrite (bind_Ok _ _ _ _ _ Hloop).
Qed.

(** *** Space utilisation *)

(** What one request of [eval_mm_util] establishes: the next totals, and
    the invariant with the room that is left. *)
Definition util_after (nids : Z) (live : gmap Z Z) (s : driver) (best avail : Z)
    (op : traceop_t) (res : result (Z * Z * driver)) : Prop :=
  exists s' L',
    res = Ok ((live_total (live_after live op),
               if decide (op_type_of op = FREE) then best
               else live_total (live_after live op) `max` best), s') /\
    driver_inv false nids (live_after live op) L' s' /\ 0 <= avail <= room s' /\
    live_total (live_after live op) + avail <= MAX_HEAP.

Lemma live_sizes_pos nids live L s : driver_inv false nids live L s ->
  forall i n, live !! i = Some n -> 0 < n.
Proof. intros Hinv i n Hi. destruct (di_live _ _ _ _ _ Hinv i n Hi) as (_ & ? & _). lia. Qed.

Lemma live_bounds nids live L s i n : driver_inv false nids live L s ->
  live !! i = Some n -> 0 < n <= live_total live.
Proof.
  intros Hinv Hi. pose proof (live_sizes_pos _ _ _ _ Hinv) as Hpos.
  rewrite (live_total_delete live i n Hi).
  enough (0 <= live_total (delete i live)) by (specialize (Hpos i n Hi); lia).
  apply live_total_nonneg. intros j y [_ Hj]%lookup_delete_Some. by eapply Hpos.
Qed.

Lemma max_int_max t best : max_int t best = t `max` best.
Proof. unfold max_int. rewrite Z.gtb_ltb. destruct (Z.ltb_spec best t); lia. Qed.

(** The tail of ALLOC and REALLOC: remember the block, add up. *)
Lemma util_remember nids live live0 L s s0 op q k total best avail :
  driver_inv false nids live0 L s -> L !! q = Some k -> op_type_of op <> FREE ->
  0 < op_size op <= k -> op_size op < 2 ^ 31 -> 0 <= op_index op < nids ->
  (forall j, is_Some (live0 !! j) -> d_blocks s !! Z.to_nat j <> Some (Some q)) ->
  <[op_index op := op_size op]> live0 = live_after live op ->
  total = live_total (live_after live op) -> total + avail <= MAX_HEAP ->
  0 <= avail <= room s ->
  util_after nids live s0 best avail op
    ((set_block (op_index op) q;; set_size (op_index op) (u64 (op_size op));;
      mret (total, max_int total best)) s).
Proof.
  intros Hinv HL Hty Hs Hs' Hi Hq Hlive -> Hmax Hav.
  destruct (remember_block false _ _ _ _ (op_index op) q k (op_size op)
    (mret (live_total (live_after live op), max_int (live_total (live_after live op)) best))
    Hinv HL Hs Hs' Hi Hq ltac:(done)) as (s' & Hrem & Hinv' & Hmem & _).
  rewrite Hrem. rewrite Hlive in Hinv'. exists s', L. rewrite decide_False by done.
  rewrite max_int_max. unfold room in *. rewrite Hmem. split_and!; done || lia.
Qed.

Lemma util_alloc_run nids live L s trace i op best avail :
  driver_inv false nids live L s -> arr_get (ops trace) i = Ok op ->
  op_type_of op = ALLOC -> live !! op_index op = None -> 0 <= op_index op < nids ->
  0 < op_size op < 2 ^ 31 -> heap_cost (op_size op) <= avail -> avail <= room s ->
  live_total live + avail <= MAX_HEAP ->
  util_after nids live s best (avail - heap_cost (op_size op)) op
    (util_op trace (live_total live, best) i s).
Proof.
  intros Hinv Hop Hty Hnone Hi Hs Hcost Hav Hmax. pose proof MAX_HEAP_val as HMAX.
  pose proof (live_total_nonneg _ (live_sizes_pos _ _ _ _ Hinv)) as Hnn.
  pose proof (heap_cost_size (op_size op) ltac:(lia)) as Hcs. unfold room in Hav.
  unfold util_op. rewrite Hop. st_step. rewrite Hty.
  destruct (malloc_spec _ _ (op_size op) (di_heap _ _ _ _ _ Hinv) Hs ltac:(lia))
    as (p & k & m' & Hrun & Hnull & Hk & Hfresh & Hh' & Hpres & Hst & Hbrk).
  rewrite (u64_id (op_size op)) by lia.
  rewrite (bind_Ok _ _ _ _ _ (on_mem_ok _ _ _ _ Hrun)), (proj2 (Z.eqb_neq p NULL)) by done.
  assert (Hinv1 : driver_inv false nids live (<[p := k]> L)
    (with_ranges (d_ranges s) (with_mem m' s))).
  { apply (driver_inv_update _ _ _ _ _ _ _ _ _ Hinv); [done..|].
    intros j q z _ _ Hq. split; [|by apply Hpres]. rewrite lookup_insert_ne; [done|congruence]. }
  pose proof (room_after _ _ _ _ _ _ _ _ _ (heap_cost (op_size op)) Hinv Hinv1 Hst Hbrk).
  assert (Htot : live_total live + op_size op = live_total (live_after live op)).
  { unfold live_after. rewrite Hty, live_total_insert by done. lia. }
  rewrite int_ok by lia.
  pose proof (util_remember nids live live _ _ s op p k (live_total live + op_size op) best
    (avail - heap_cost (op_size op)) Hinv1 (lookup_insert_eq _ _ _)) as Hrem.
  rewrite (u64_id (op_size op)) in Hrem by lia.
  apply Hrem; try lia; try done; [by rewrite Hty| | |unfold room in *; lia].
  - intros j [n Hj] Hb.
    destruct (di_live _ _ _ _ _ Hinv j n Hj) as (_ & _ & _ & q & z & Hq & Hz & _).
    simpl in Hb. congruence.
  - unfold live_after. by rewrite Hty.
Qed.

Lemma util_realloc_run nids live L s trace i op n best avail :
  driver_inv false nids live L s -> arr_get (ops trace) i = Ok op ->
  op_type_of op = REALLOC -> live !! op_index op = Some n ->
  0 < op_size op < 2 ^ 31 -> heap_cost (op_size op) <= avail -> avail <= room s ->
  live_total live + avail <= MAX_HEAP ->
  util_after nids live s best (avail - heap_cost (op_size op)) op
    (util_op trace (live_total live, best) i s).
Proof.
  intros Hinv Hop Hty Hl Hs Hcost Hav Hmax. pose proof MAX_HEAP_val as HMAX.
  pose proof (live_bounds _ _ _ _ _ _ Hinv Hl) as Hn.
  pose proof (heap_cost_size (op_size op) ltac:(lia)) as Hcs. unfold room in Hav.
  destruct (di_live _ _ _ _ _ Hinv _ n Hl) as (Hir & _ & Hsz & p & z & Hb & HL & Hz & _).
  unfold util_op. rewrite Hop. st_step. rewrite Hty.
  rewrite (bind_Ok _ _ _ _ _ (get_size_ok s _ _ (proj1 Hir) Hsz)).
  rewrite (bind_Ok _ _ _ _ _ (get_block_ok s _ _ (proj1 Hir) Hb)).
  destruct (realloc_spec _ _ _ _ (op_size op) (di_heap _ _ _ _ _ Hinv) HL Hs ltac:(lia))
    as (q & k & m' & Hrun & Hnull & Hk & Hfresh & Hh' & Hpres & _ & Hst & Hbrk).
  rewrite (u64_id (op_size op)) by lia.
  rewrite (bind_Ok _ _ _ _ _ (on_mem_ok _ _ _ _ Hrun)), (proj2 (Z.eqb_neq q NULL)) by done.
  destruct (moved_inv false _ _ _ _ _ _ _ q k _ _ _ (d_ranges s)
    Hinv Hl Hb HL eq_refl Hfresh Hh' Hpres) as [Hinv1 Hfree]; [done..|].
  pose proof (room_after _ _ _ _ _ _ _ _ _ (heap_cost (op_size op)) Hinv Hinv1 Hst Hbrk).
  assert (Htot : live_total live + (op_size op - n) = live_total (live_after live op)).
  { unfold live_after. rewrite Hty, (live_total_update _ _ n) by done. lia. }
  assert (Hint : (diff ← int_ (op_size op - s32 n); int_ (live_total live + diff)) =
    Ok (live_total live + (op_size op - n))).
  { rewrite (s32_id n), int_ok by lia. cbn. by rewrite int_ok by lia. }
  rewrite Hint.
  pose proof (util_remember nids live _ _ _ s op q k (live_total live + (op_size op - n)) best
    (avail - heap_cost (op_size op)) Hinv1 (lookup_insert_eq _ _ _)) as Hrem.
  rewrite (u64_id (op_size op)) in Hrem by lia.
  apply Hrem; try lia; try done; [by rewrite Hty| |unfold room in *; lia].
  unfold live_after. by rewrite Hty, insert_delete_eq.
Qed.

Lemma util_free_run nids live L s trace i op n best avail :
  driver_inv false nids live L s -> arr_get (ops trace) i = Ok op ->
  op_type_of op = FREE -> live !! op_index op = Some n -> 0 <= avail <= room s ->
  live_total live + avail <= MAX_HEAP ->
  util_after nids live s best avail op (util_op trace (live_total live, best) i s).
Proof.
  intros Hinv Hop Hty Hl Hav Hmax. pose proof MAX_HEAP_val as HMAX.
  pose proof (live_bounds _ _ _ _ _ _ Hinv Hl) as Hn.
  pose proof (live_total_delete live _ n Hl) as Hdel.
  pose proof (heap_inv_ok _ _ (di_heap _ _ _ _ _ Hinv)) as [].
  destruct (di_live _ _ _ _ _ Hinv _ n Hl) as (Hir & Hn' & Hsz & p & k & Hb & HL & Hk & _).
  unfold util_op. rewrite Hop. st_step. rewrite Hty.
  rewrite (bind_Ok _ _ _ _ _ (get_size_ok s _ _ (proj1 Hir) Hsz)).
  rewrite (bind_Ok _ _ _ _ _ (get_block_ok s _ _ (proj1 Hir) Hb)).
  destruct (free_spec _ _ _ _ (di_heap _ _ _ _ _ Hinv) HL)
    as (m' & Hrun & Hh' & Hpres & Hst & Hbrk).
  rewrite (bind_Ok _ _ _ _ _ (on_mem_ok _ _ _ _ Hrun)).
  unfold room in Hav. rewrite (s32_id n), int_ok by lia. st_step.
  assert (Hinv' : driver_inv false nids (delete (op_index op) live) (delete p L)
    (with_ranges (d_ranges s) (with_mem m' s))).
  { apply (driver_inv_update _ _ _ _ _ _ _ _ _ Hinv); [apply delete_subseteq|done..|].
    intros j q z [nj Hj] Hq HLq. apply lookup_delete_Some in Hj as [Hij Hj].
    assert (Hpq : p <> q).
    { intros ->. apply Hij. eapply (di_inj _ _ _ _ _ Hinv); eauto. }
    assert (HLq' : delete p L !! q = Some z) by (by rewrite lookup_delete_ne).
    split; [done|by apply Hpres]. }
  exists (with_mem m' s), (delete p L). unfold live_after. rewrite Hty, decide_True by done.
  replace (live_total live - n) with (live_total (delete (op_index op) live)) by lia.
  split_and!; [done|exact Hinv'|lia| |lia].
  pose proof (room_after _ _ _ _ _ _ _ _ _ 0 Hinv Hinv'). unfold room in *. simpl in *. lia.
Qed.

Lemma util_op_run nids live L s trace i op best avail l :
  driver_inv false nids live L s -> 0 <= i -> ops trace !! Z.to_nat i = Some op ->
  0 <= avail <= room s -> live_total live + avail <= MAX_HEAP ->
  trace_ok false heap_cost nids live avail (op :: l) = true ->
  exists avail', util_after nids live s best avail' op (util_op trace (live_total live, best) i s) /\
    trace_ok false heap_cost nids (live_after live op) avail' l = true.
Proof.
  intros Hinv Hi Hop Hav Hmax Hok. simpl in Hok.
  pose proof (arr_get_ok _ _ _ Hi Hop) as Hget.
  destruct (op_type_of op) eqn:Hty; apply andb_true_iff in Hok as [Hidx Hok].
  - repeat (apply andb_true_iff in Hok as [Hok ?]). apply bool_decide_eq_true in H0.
    exists (avail - heap_cost (op_size op)).
    split; [eapply util_alloc_run; (done || lia)|done].
  - apply andb_true_iff in Hok as [Hl Hok]. apply bool_decide_eq_true in Hl as [n Hl].
    exists avail. split; [by eapply util_free_run|done].
  - repeat (apply andb_true_iff in Hok as [Hok ?]). apply andb_true_iff in H0 as [Hl _].
    apply bool_decide_eq_true in Hl as [n Hl].
    exists (avail - heap_cost (op_size op)).
    split; [eapply util_realloc_run; (done || lia)|done].
Qed.

Lemma util_loop_run nids trace l i live L s best avail :
  driver_inv false nids live L s -> 0 <= i ->
  (forall k op, l !! k = Some op -> ops trace !! Z.to_nat (i + Z.of_nat k) = Some op) ->
  0 <= avail <= room s -> live_total live + avail <= MAX_HEAP -> live_total live <= best ->
  trace_ok false heap_cost nids live avail l = true ->
  exists t s' L', foldM (util_op trace) (live_total live, best)
      (seqZ i (Z.of_nat (length l))) s = Ok ((t, peak live l `max` best), s') /\
    driver_inv false nids (foldl live_after live l) L' s'.
Proof.
  revert i live L s best avail; induction l as [|op l IH];
    intros i live L s best avail Hinv Hi Hops Hav Hmax Hbest Hok.
  { exists (live_total live), s, L. split; [|done]. simpl.
    replace ((live_total live `max` 0) `max` best) with best; [done|].
    pose proof (live_total_nonneg _ (live_sizes_pos _ _ _ _ Hinv)). lia. }
  pose proof (Hops 0%nat op eq_refl) as Hop. rewrite Z.add_0_r in Hop.
  destruct (util_op_run _ _ _ _ trace i op best avail l Hinv Hi Hop Hav Hmax Hok)
    as (avail1 & (s1 & L1 & Hrun & Hinv1 & Hav1 & Hmax1) & Hok1).
  set (best1 := if decide _ then _ else _) in Hrun.
  pose proof (peak_ge (live_after live op) l) as Hpeak.
  assert (Hb1 : live_total (live_after live op) <= best1 /\
    peak (live_after live op) l `max` best1 = peak live (op :: l) `max` best).
  { unfold best1. simpl. case_decide as Hty; [|lia]. unfold live_after in *. rewrite Hty in *.
    enough (live_total (delete (op_index op) live) <= live_total live) by lia.
    destruct (live !! op_index op) as [n|] eqn:Hl; [|by rewrite delete_id].
    rewrite (live_total_delete live _ n Hl).
    pose proof (live_bounds _ _ _ _ _ _ Hinv Hl). lia. }
  destruct Hb1 as [Hb1 <-].
  destruct (IH (i + 1) _ _ _ best1 avail1 Hinv1 ltac:(lia))
    as (t & s2 & L2 & Hrest & Hinv2); [|done..|].
  { intros k op' Hk. specialize (Hops (S k) op' Hk).
    by replace (i + 1 + Z.of_nat k) with (i + Z.of_nat (S k)) by lia. }
  exists t, s2, L2. simpl length. rewrite seqZ_cons by lia.
  replace (Z.succ i) with (i + 1) by lia.
  replace (Z.pred (Z.of_nat (S (length l)))) with (Z.of_nat (length l)) by lia.
  cbn [foldM]. rewrite (bind_Ok _ _ _ _ _ Hrun). by split.
Qed.

Lemma util_run_ok trace s :
  driver_start trace s ->
  trace_ok false heap_cost (num_ids trace) ∅ MAX_HEAP (ops trace) = true ->
  exists s', util_run trace s = Ok ((peak ∅ (ops trace), mem_heapsize (d_mem s')), s') /\
    same_log s s' /\ driver_start trace s'.
Proof.
  intros Hst Hok. destruct (driver_start_inv false _ _ Hst)
    as (r & m' & Hreset & Hinit & Hr & _ & _ & Hinv).
  destruct (Hinv (d_ranges s) ltac:(done)) as [Hinv' Hroom].
  pose proof MAX_HEAP_val as HMAX.
  destruct (util_loop_run _ trace (ops trace) 0 _ _ _ 0 MAX_HEAP Hinv')
    as (t & s' & L' & Hloop & Hend); [lia| |lia|reflexivity|reflexivity|done|].
  { intros k op Hk. by rewrite Z.add_0_l, Nat2Z.id. }
  destruct Hst as (_ & Hn & _).
  assert (Hrun : util_run trace s = Ok ((peak ∅ (ops trace), mem_heapsize (d_mem s')), s')).
  { unfold util_run. rewrite (bind_Ok _ _ _ _ _ Hreset).
    rewrite (bind_Ok _ _ _ _ _ (on_mem_ok mm_init
      (with_mem (set_brk (mem_start_brk (d_mem s)) (d_mem s)) s) _ _ Hinit)).
    rewrite (proj2 (Z.ltb_ge r 0)) by lia. rewrite Hn.
    replace (live_total ∅) with 0 in Hloop by done.
    erewrite bind_Ok; [|exact Hloop]. cbv beta iota. st_step.
    pose proof (peak_ge ∅ (ops trace)) as Hp. change (live_total ∅) with 0 in Hp.
    by rewrite Z.max_l by lia. }
  exists s'. split; [exact Hrun|]. split; [|by eapply driver_inv_start].
  destruct (util_run_agrees trace s _ _ Hrun) as [Hlog _]. exact Hlog.
Qed.
End valid_run.
