(* ===== verification/MmSkeleton.v ===== *)
(** * The allocator skeleton: [malloclab/mm.c]

    The file students start from: every entry point compiles and does
    nothing.  It is an [Allocator], but not one that meets the contract. *)

From S2P Require Import Prelude Bytes Memlib Allocator.

Definition skeleton_init : ST mem Z := mret 0.
Definition skeleton_malloc (size : Z) : ST mem Z := mret NULL.
Definition skeleton_free (ptr : Z) : ST mem unit := mret tt.
Definition skeleton_realloc (ptr size : Z) : ST mem Z := mret NULL.

Definition skeleton : Allocator := {|
  mm_init := skeleton_init;
  mm_malloc := skeleton_malloc;
  mm_free := skeleton_free;
  mm_realloc := skeleton_realloc;
|}.
