(* ===== verification/MallocLab.v ===== *)
(** * Malloc lab: the driver and the allocators together

    The properties of the evaluation functions of [mdriver.c], stated
    against the contract of [mm.h] and applied to [mm-naive.c] and to the
    skeleton [mm.c]. *)

From S2P Require Import Prelude Bytes Memlib Doubles Allocator MmNaive MmSkeleton Mdriver.

(** ** Example traces *)

(** [malloclab/short1.rep] *)
Definition short1_ops : list traceop_t :=
  [TraceOp ALLOC 0 2040; TraceOp ALLOC 1 2040; TraceOp FREE 1 0; TraceOp ALLOC 2 48;
   TraceOp ALLOC 3 4072; TraceOp FREE 3 0; TraceOp ALLOC 4 4072; TraceOp FREE 0 0;
   TraceOp FREE 2 0; TraceOp ALLOC 5 4072; TraceOp FREE 4 0; TraceOp FREE 5 0].

Definition trace_of (nids : Z) (l : list traceop_t) : trace_t :=
  Trace 20000 nids (Z.of_nat (length l)) 1 l
    (replicate (Z.to_nat nids) None) (replicate (Z.to_nat nids) None).

Definition driver_of (t : trace_t) : driver :=
  Driver example_mem [] 0 [] (blocks t) (block_sizes t).

Lemma driver_of_start t :
  num_ops t = Z.of_nat (length (ops t)) ->
  Z.of_nat (length (blocks t)) = num_ids t ->
  Z.of_nat (length (block_sizes t)) = num_ids t -> driver_start t (driver_of t).
Proof. intros. split_and!; [apply example_mem_ok|done..]. Defined.

(** ** Range lists *)

(** C33: [add_range] returns 1 and pushes the range exactly when the payload
    address is aligned, both ends lie in the heap and neither end lies in a
    recorded range; otherwise it returns 0, leaves the range list alone and
    reports one error.  A non-positive size fails its assertion. *)
Theorem add_range_correct (rm : list range_t -> bool) (s : driver) (lo size tn opn : Z) :
  let hi := lo + size - 1 in
  let accepts :=
    is_aligned lo = true /\
    mem_heap_lo (d_mem s) <= lo <= mem_heap_hi (d_mem s) /\
    mem_heap_lo (d_mem s) <= hi <= mem_heap_hi (d_mem s) /\
    forall r, r ∈ d_ranges s -> ~ (r_lo r <= lo <= r_hi r) /\ ~ (r_lo r <= hi <= r_hi r) in
  rm (d_ranges s) = true -> - 2 ^ 31 <= d_errors s < 2 ^ 31 - 1 ->
  (size <= 0 -> add_range rm lo size tn opn s = Fault AssertFailed) /\
  (0 < size -> accepts ->
     add_range rm lo size tn opn s = Ok (1, with_ranges (Range lo hi :: d_ranges s) s)) /\
  (0 < size -> ~ accepts ->
     exists msg s', add_range rm lo size tn opn s = Ok (0, s') /\
       d_ranges s' = d_ranges s /\ d_mem s' = d_mem s /\
       d_errors s' = d_errors s + 1 /\ d_log s' = d_log s ++ [(tn, LINENUM opn, msg)]).
Proof.
  intros hi accepts Hrm Herr. split_and!.
  - intros Hs. unfold add_range. rewrite Z.gtb_ltb, (proj2 (Z.ltb_ge 0 size)) by done. done.
  - intros Hs (Ha & Hl & Hh & Hr). unfold add_range.
    rewrite (proj2 (Z.gtb_lt size 0)) by lia. st_step. st_step. fold hi.
    rewrite Ha, !Z.gtb_ltb, !(proj2 (Z.ltb_ge _ _)) by lia. simpl.
    rewrite (proj2 (first_hit_None _ _ _)); [by rewrite Hrm|].
    intros r Hin. apply not_true_is_false. rewrite range_hit_spec. specialize (Hr r Hin). lia.
  - intros Hs Hna. assert (Hlog : forall msg, exists s',
      (malloc_error tn opn msg;; mret 0) s = Ok (0, s') /\
      d_ranges s' = d_ranges s /\ d_mem s' = d_mem s /\
      d_errors s' = d_errors s + 1 /\ d_log s' = d_log s ++ [(tn, LINENUM opn, msg)]).
    { intros msg. unfold malloc_error. st_unfold. rewrite int_ok by lia. by eexists. }
    unfold add_range. rewrite (proj2 (Z.gtb_lt size 0)) by lia. st_step. st_step. fold hi.
    destruct (is_aligned lo) eqn:Ha; simpl; [|eexists; by apply Hlog].
    destruct ((lo <? mem_heap_lo (d_mem s)) || (lo >? mem_heap_hi (d_mem s)) ||
      (hi <? mem_heap_lo (d_mem s)) || (hi >? mem_heap_hi (d_mem s))) eqn:Hb;
      [eexists; by apply Hlog|].
    destruct (first_hit lo hi (d_ranges s)) eqn:Hf; [eexists; by apply Hlog|].
    exfalso. apply Hna. rewrite !orb_false_iff, !Z.gtb_ltb, !Z.ltb_ge in Hb.
    split_and!; [done|lia..|]. intros r Hin.
    pose proof (proj1 (first_hit_None _ _ _) Hf r Hin) as Hh.
    apply not_true_iff_false in Hh. rewrite range_hit_spec in Hh. lia.
Qed.

Lemma add_range_correct_witness :
  let s := with_mem example_mem1 (driver_of (trace_of 1 [])) in
  add_range (fun _ => true) 4112 0 0 0 s = Fault AssertFailed /\
  add_range (fun _ => true) 4112 20 0 0 s = Ok (1, with_ranges [Range 4112 4131] s).
Proof.
  intros s.
  destruct (add_range_correct (fun _ => true) s 4112 20 0 0 eq_refl ltac:(simpl; lia))
    as (_ & H & _).
  destruct (add_range_correct (fun _ => true) s 4112 0 0 0 eq_refl ltac:(simpl; lia))
    as (H0 & _). split; [by apply H0|]. apply H; [lia|].
  split_and!; try by vm_compute. intros r []%elem_of_nil.
Defined.

(** C38: The overlap test of [add_range] only looks at the two ends of the new
    payload: an aligned payload inside of the heap that strictly contains a
    recorded range is accepted, although the two overlap. *)
Theorem add_range_misses_containment (rm : list range_t -> bool) (s : driver)
    (lo size tn opn : Z) (r : range_t) :
  rm (d_ranges s) = true -> d_ranges s = [r] ->
  is_aligned lo = true -> mem_heap_lo (d_mem s) <= lo ->
  lo + size - 1 <= mem_heap_hi (d_mem s) ->
  lo < r_lo r -> r_lo r <= r_hi r -> r_hi r < lo + size - 1 ->
  exists s', add_range rm lo size tn opn s = Ok (1, s') /\
    d_ranges s' = [Range lo (lo + size - 1); r] /\ d_log s' = d_log s.
Proof.
  intros Hrm Hrs Ha Hlo Hhi H1 H2 H3. unfold add_range.
  rewrite (proj2 (Z.gtb_lt size 0)) by lia. st_step. st_step.
  rewrite Ha, !Z.gtb_ltb, !(proj2 (Z.ltb_ge _ _)) by lia. rewrite Hrm, Hrs. simpl.
  rewrite (proj1 (not_true_iff_false _)); [by eexists|]. rewrite range_hit_spec. lia.
Qed.

Lemma add_range_misses_containment_witness :
  let s := with_ranges [Range 4128 4135] (with_mem example_mem1 (driver_of (trace_of 1 []))) in
  exists s', add_range (fun _ => true) 4112 32 0 0 s = Ok (1, s') /\
    d_ranges s' = [Range 4112 4143; Range 4128 4135] /\ d_log s' = [].
Proof.
  intros s.
  apply (add_range_misses_containment (fun _ => true) s 4112 32 0 0 (Range 4128 4135));
    try done; vm_compute; done.
Defined.

(** ** Evaluation *)

(** C4: Every allocator that meets the contract passes [eval_mm_valid] on
    every well-formed trace that fits in the heap and resizes only indices
    whose low byte is below 128: the result is 1 and nothing is reported. *)
Theorem eval_mm_valid_accepts {A : Allocator} {AS : AllocatorSpec A}
    (rm : list range_t -> bool) (trace : trace_t) (tracenum : Z) (s : driver) :
  (forall l, rm l = true) -> driver_start trace s ->
  trace_ok true heap_cost (num_ids trace) ∅ MAX_HEAP (ops trace) = true ->
  exists s', eval_mm_valid rm trace tracenum s = Ok (1, s') /\
    d_errors s' = d_errors s /\ d_log s' = d_log s.
Proof.
  intros Hrm Hst Hok. destruct (eval_mm_valid_run rm Hrm trace tracenum s Hst Hok)
    as (s' & Hrun & Hlog & _). by exists s'.
Qed.

Lemma eval_mm_valid_accepts_witness :
  let t := trace_of 6 (short1_ops ++ [TraceOp ALLOC 0 16; TraceOp REALLOC 0 40]) in
  exists s', eval_mm_valid (fun _ => true) t 0 (driver_of t) = Ok (1, s') /\
    d_errors s' = 0 /\ d_log s' = [].
Proof.
  intros t. apply (eval_mm_valid_accepts (fun _ => true) t 0 (driver_of t)); [done| |].
  - by apply driver_of_start.
  - vm_compute. reflexivity.
Defined.



(** C14: On every well-formed trace that fits, [eval_mm_util] runs to the end
    and returns the quotient of two numbers: the largest number of payload
    bytes that were live after any prefix of the trace, and the size the heap
    has at the end. *)
Theorem eval_mm_util_correct {A : Allocator} {AS : AllocatorSpec A}
    (trace : trace_t) (s : driver) :
  driver_start trace s ->
  trace_ok false heap_cost (num_ids trace) ∅ MAX_HEAP (ops trace) = true ->
  exists s', eval_mm_util trace s =
    Ok (ddiv (d_of_Z (peak ∅ (ops trace))) (d_of_Z (mem_heapsize (d_mem s'))), s').
Proof.
  intros Hst Hok. destruct (util_run_ok trace s Hst Hok) as (s' & Hrun & _).
  exists s'. unfold eval_mm_util. by rewrite (bind_Ok _ _ _ _ _ Hrun).
Qed.

Lemma eval_mm_util_correct_witness :
  let t := trace_of 6 short1_ops in
  exists s', eval_mm_util t (driver_of t) =
    Ok (ddiv (d_of_Z 8144) (d_of_Z (mem_heapsize (d_mem s'))), s').
Proof.
  intros t. apply (eval_mm_util_correct t (driver_of t)); [by apply driver_of_start|].
  vm_compute. reflexivity.
Defined.

(** C21: [eval_mm_speed] times exactly the requests that [eval_mm_util] rates:
    whenever the latter runs to its end, over any allocator, the former, from
    the same state with whatever block sizes, ends with the same memory,
    ranges and blocks, leaves the sizes alone and reports nothing. *)
Theorem eval_mm_speed_agrees {A : Allocator} (trace : trace_t) (s s' : driver) (u : double)
    (sizes : list (option Z)) :
  eval_mm_util trace s = Ok (u, s') ->
  eval_mm_speed trace (with_sizes sizes s) = Ok (tt, with_sizes sizes s') /\
  d_errors s' = d_errors s /\ d_log s' = d_log s.
Proof.
  unfold eval_mm_util. intros H. run_inv H v s1 Hrun.
  destruct v as [best heapsize]. injection H as _ <-.
  apply util_run_agrees in Hrun as [Hlog Hspeed]. split; [apply Hspeed|exact Hlog].
Qed.

Lemma eval_mm_speed_agrees_witness :
  let t := trace_of 2 [TraceOp ALLOC 0 16; TraceOp REALLOC 0 40; TraceOp ALLOC 1 8; TraceOp FREE 0 0] in
  exists u s', eval_mm_util t (driver_of t) = Ok (u, s') /\
    eval_mm_speed t (with_sizes [] (driver_of t)) = Ok (tt, with_sizes [] s') /\ d_log s' = [].
Proof.
  intros t. destruct (eval_mm_util t (driver_of t)) as [[u s']|e] eqn:E;
    [|exfalso; vm_compute in E; discriminate].
  destruct (eval_mm_speed_agrees t (driver_of t) s' u [] E) as (H & _ & Hl).
  exists u, s'. split; [reflexivity|]. split; [exact H|exact Hl].
Defined.

(** The skeleton [mm.c] is rejected on every trace that starts with an
    allocation, with one error at line 5 of the trace file. *)
Theorem skeleton_is_rejected (rm : list range_t -> bool) (trace : trace_t) (tracenum : Z)
    (s : driver) (op : traceop_t) (l : list traceop_t) :
  ops trace = op :: l -> op_type_of op = ALLOC -> 0 < num_ops trace ->
  - 2 ^ 31 <= d_errors s < 2 ^ 31 - 1 ->
  exists s', eval_mm_valid (A := skeleton) rm trace tracenum s = Ok (0, s') /\
    d_errors s' = d_errors s + 1 /\
    d_log s' = d_log s ++ [(tracenum, 5, Err_malloc_failed)].
Proof.
  intros Hops Hty Hn Herr.
  set (s0 := with_ranges [] (with_mem (set_brk (mem_start_brk (d_mem s)) (d_mem s)) s)).
  assert (Hop : arr_get (ops trace) 0 = Ok op) by (rewrite Hops; done).
  assert (Hstep : exists s', valid_op (A := skeleton) rm trace tracenum 0 s0 = Ok (inr 0, s') /\
    d_errors s' = d_errors s + 1 /\ d_log s' = d_log s ++ [(tracenum, 5, Err_malloc_failed)]).
  { unfold valid_op. rewrite Hop. st_step. rewrite Hty.
    unfold valid_alloc, on_mem, malloc_error. st_unfold. simpl. rewrite int_ok by lia.
    by eexists. }
  destruct Hstep as (s' & Hrun & Hlog). exists s'. split; [|exact Hlog].
  unfold eval_mm_valid. rewrite (seqZ_cons 0) by lia. cbn [foldM_until].
  st_step. unfold clear_ranges. st_step. erewrite bind_Ok; [|by apply on_mem_ok].
  change (0 <? 0) with false. cbv iota.
  erewrite bind_Ok; [|by erewrite bind_Ok; [|exact Hrun]]. done.
Qed.

Lemma skeleton_is_rejected_witness :
  let t := trace_of 6 short1_ops in
  exists s', eval_mm_valid (A := skeleton) (fun _ => true) t 0 (driver_of t) = Ok (0, s') /\
    d_errors s' = 1 /\ d_log s' = [(0, 5, Err_malloc_failed)].
Proof.
  intros t. by apply (skeleton_is_rejected (fun _ => true) t 0 (driver_of t)
    (TraceOp ALLOC 0 2040) (tail short1_ops)).
Defined.
