(* ===== verification/Words.v ===== *)
(** * The C heap of the thread lab

    Memory as the thread lab's data structures use it: blocks of eight-byte
    words got from [malloc], addressed by the pointer to their first word, and
    NUL-terminated strings that belong to the callers.  [malloc] itself is a
    parameter: any function that answers NULL or the address of no block. *)

From S2P Require Import Prelude.

(** A block is the list of its words, indeterminate ones included. *)
Abbreviation words := (gmap Z (list (option Z))).

(** The allocator of the C library. *)
Class Malloc := malloc_pick : words -> Z -> option Z.

Class MallocLaws `{Malloc} : Prop :=
  malloc_fresh h n p : malloc_pick h n = Some p -> 0 < p < 2 ^ 64 /\ h !! p = None.

(** [sizeof] on x86-64. *)
Definition sizeof_pointer : Z := 8.

(** ** Access to blocks *)

Definition block_of (h : words) (p : Z) : result (list (option Z)) :=
  if p =? 0 then Fault Undefined else need (h !! p).

Definition load_word (h : words) (p i : Z) : result Z :=
  l ← block_of h p; cell_get l i.

Definition store_word (h : words) (p i v : Z) : result words :=
  l ← block_of h p;
  l ← arr_set l i (Some v);
  Ok (<[p := l]> h).

(** [bzero(p, n)]. *)
Definition bzero_words (h : words) (p n : Z) : result words :=
  l ← block_of h p;
  guard_ (n / sizeof_pointer <=? Z.of_nat (length l));;
  let k := Z.to_nat (n / sizeof_pointer) in
  Ok (<[p := replicate k (Some 0) ++ drop k l]> h).

(** [free(p)]. *)
Definition free_words (h : words) (p : Z) : result words :=
  if p =? 0 then Ok h
  else guard_ (bool_decide (is_Some (h !! p)));; Ok (delete p h).

(** [malloc(n)]: NULL, or a new block of indeterminate words. *)
Definition malloc_words `{Malloc} (h : words) (n : Z) : Z * words :=
  match malloc_pick h n with
  | None => (0, h)
  | Some p => (p, <[p := replicate (Z.to_nat (n / sizeof_pointer)) None]> h)
  end.

(** [strcmp]: the difference of the first characters that differ, as
    [unsigned char]. *)
Fixpoint strcmp (a b : list Z) : Z :=
  match a, b with
  | [], [] => 0
  | [], y :: _ => - u8 y
  | x :: _, [] => u8 x
  | x :: a, y :: b => if x =? y then strcmp a b else u8 x - u8 y
  end.

(** ** An allocator that always serves

    The lowest address, multiple of 16, that no block has: an instance of the
    laws, which refuses only requests on a heap of [2^40] blocks or more. *)

(** Requests of up to 16 GB are served while the heap has fewer than
    [blocks] blocks. *)
Class MallocServes `{Malloc} (blocks : nat) : Prop :=
  malloc_serves h n : (size h < blocks)%nat -> 0 <= n < 2 ^ 34 -> is_Some (malloc_pick h n).

Definition address_free (h : words) (k : Z) : bool :=
  bool_decide (h !! (16 * k) = None).

Definition lowest_free : Malloc := fun h n =>
  if Z.of_nat (size h) <? 2 ^ 40 then
    k ← list_find (fun k => Is_true (address_free h k)) (seqZ 1 (Z.of_nat (size h) + 1));
    Some (16 * k.2)
  else None.

Lemma lowest_free_laws : @MallocLaws lowest_free.
Proof.
  intros h n p. unfold malloc_pick, lowest_free.
  destruct (Z.ltb_spec (Z.of_nat (size h)) (2 ^ 40)); [|done].
  intros ([i k] & Hk & Hp)%bind_Some. injection Hp as <-. simpl.
  apply list_find_Some in Hk as (Hi & Hk & _).
  apply bool_decide_unpack in Hk. split; [|done].
  apply list_elem_of_lookup_2, elem_of_seqZ in Hi. lia.
Qed.

(** Among more addresses than there are blocks, one is free. *)
Lemma some_address_free h :
  exists k, 1 <= k <= Z.of_nat (size h) + 1 /\ address_free h k = true.
Proof.
  destruct (decide (Forall (fun k => is_Some (h !! (16 * k))) (seqZ 1 (Z.of_nat (size h) + 1)))) as [Hall|Hno].
  - exfalso. rewrite Forall_forall in Hall.
    set (ps := (fun k => 16 * k) <$> seqZ 1 (Z.of_nat (size h) + 1)).
    assert (Hsub : (list_to_set ps : gset Z) ⊆ dom h).
    { intros p Hp. apply elem_of_list_to_set, list_elem_of_fmap in Hp as (k & -> & Hk).
      apply elem_of_dom. by apply Hall. }
    apply subseteq_size in Hsub. rewrite size_list_to_set, size_dom in Hsub.
    + unfold ps in Hsub. rewrite length_fmap, length_seqZ in Hsub. lia.
    + apply NoDup_fmap_2; [|apply NoDup_seqZ]. intros x y. lia.
  - apply not_Forall_Exists in Hno; [|intros k; solve_decision].
    apply Exists_exists in Hno as (k & Hk & Hf). apply elem_of_seqZ in Hk.
    exists k. split; [lia|]. apply bool_decide_eq_true_2.
    simpl in Hf. by rewrite <- eq_None_not_Some in Hf.
Qed.

Lemma lowest_free_serves blocks : Z.of_nat blocks <= 2 ^ 40 -> @MallocServes lowest_free blocks.
Proof.
  intros Hb h n Hsize _. unfold malloc_pick, lowest_free.
  rewrite (proj2 (Z.ltb_lt _ _)) by lia.
  destruct (some_address_free h) as (k & Hk & Hf).
  destruct (list_find_elem_of (fun k => Is_true (address_free h k))
    (seqZ 1 (Z.of_nat (size h) + 1)) k) as [[i k'] ->].
  - apply elem_of_seqZ. lia.
  - by rewrite Hf.
  - by exists (16 * k').
Qed.

(** ** Lemmas *)

Section words_lemmas.
Implicit Types (h : words) (p i v : Z) (l : list (option Z)).

Lemma block_of_ok h p l : p <> 0 -> h !! p = Some l -> block_of h p = Ok l.
Proof. intros Hp Hl. unfold block_of. by rewrite (proj2 (Z.eqb_neq _ _)), Hl. Qed.

Lemma load_word_ok h p i l v :
  p <> 0 -> h !! p = Some l -> 0 <= i -> l !! Z.to_nat i = Some (Some v) ->
  load_word h p i = Ok v.
Proof.
  intros Hp Hl Hi Hv. unfold load_word. rewrite (block_of_ok h p l) by done.
  unfold mbind, result_bind, cell_get. by rewrite (arr_get_ok l i (Some v)).
Qed.

Lemma load_word_null h i : load_word h 0 i = Fault Undefined.
Proof. done. Qed.

Lemma store_word_null h i v : store_word h 0 i v = Fault Undefined.
Proof. done. Qed.

Lemma store_word_ok h p i l v :
  p <> 0 -> h !! p = Some l -> 0 <= i < Z.of_nat (length l) ->
  store_word h p i v = Ok (<[p := <[Z.to_nat i := Some v]> l]> h).
Proof.
  intros Hp Hl Hi. unfold store_word. rewrite (block_of_ok h p l) by done.
  unfold mbind, result_bind. by rewrite arr_set_ok.
Qed.

Lemma free_words_ok h p l :
  p <> 0 -> h !! p = Some l -> free_words h p = Ok (delete p h).
Proof.
  intros Hp Hl. unfold free_words. rewrite (proj2 (Z.eqb_neq _ _)) by done.
  by rewrite Hl.
Qed.

(** The characters a C string is made of. *)
Definition c_chars (s : list Z) : Prop := Forall (fun c => - 128 <= c < 128 /\ c <> 0) s.

Lemma strcmp_eq a b : c_chars a -> c_chars b -> (strcmp a b =? 0) = bool_decide (a = b).
Proof.
  assert (Hu : forall x, - 128 <= x < 128 -> x <> 0 -> u8 x <> 0).
  { intros x Hx Hx0. unfold u8, wrap_u. dlia. }
  intros Ha. revert b. induction Ha as [|x a [Hx Hx0] Ha IH]; intros b Hb.
  - destruct Hb as [|y b [Hy Hy0] Hb]; [done|]. cbn [strcmp]. specialize (Hu y Hy Hy0).
    rewrite (proj2 (Z.eqb_neq _ _)) by lia. by rewrite bool_decide_false.
  - destruct Hb as [|y b [Hy Hy0] Hb]; cbn [strcmp].
    + specialize (Hu x Hx Hx0). rewrite (proj2 (Z.eqb_neq _ _)) by lia.
      by rewrite bool_decide_false.
    + destruct (Z.eqb_spec x y) as [<-|Hne].
      * rewrite IH by done. apply bool_decide_ext. split; [by intros ->|by intros [=]].
      * rewrite (proj2 (Z.eqb_neq _ _)) by (unfold u8, wrap_u; dlia).
        rewrite bool_decide_false; [done|]. by intros [=].
Qed.
End words_lemmas.
