(* ===== verification/Primes.v ===== *)
(** * Arithmetic of the hash table: primality and hash codes

    [is_prime], [get_prime], [madd], [mmul] and [hashcode] of
    threadlab/htable.c on 32-bit signed integers, where an overflow is
    undefined behaviour.  A C string is the list of its characters before the
    terminating NUL, as values of the signed [char] of x86-64. *)

From Stdlib Require Import Znumtheory.
From S2P Require Import Prelude.

(** ** The code *)

Definition BIG_PRIME : Z := 1560007.

Definition madd (a b : Z) : result Z :=
  s ← int_ (a + b);
  if s >? BIG_PRIME then
    s ← int_ (a + b);
    int_ (s - BIG_PRIME)
  else int_ (a + b).

Definition mmul (a b : Z) : result Z :=
  m ← int_ (a * b);
  int_rem m BIG_PRIME.

(** [s[i]], the terminating NUL included. *)
Definition char_at (s : list Z) (i : Z) : result Z :=
  if i =? Z.of_nat (length s) then Ok 0 else arr_get s i.

Definition hashcode_step (s : list Z) (st : Z * Z) : result (Z * Z + Z) :=
  let '(p, i) := st in
  c ← char_at s i;
  if c =? 0 then Ok (inr p)
  else
    m ← mmul p 256;
    p ← madd m c;
    i ← int_ (i + 1);
    Ok (inl (p, i)).

(** The index is an [int], so the loop makes at most [2^31] turns. *)
Definition hashcode (s : list Z) : result Z :=
  while (2 ^ 31) (hashcode_step s) (0, 0).

Definition is_prime_step (n i : Z) : result (Z + Z) :=
  if i <? n then
    r ← int_rem n i;
    if r =? 0 then Ok (inr 0)
    else i ← int_ (i + 2); Ok (inl i)
  else Ok (inr 1).

Definition is_prime (n : Z) : result Z :=
  if n <=? 3 then Ok 1
  else
    r ← int_rem n 2;
    if r =? 0 then Ok 0
    else while (2 ^ 31) (is_prime_step n) 3.

Definition get_prime_step (n : Z) : result (Z + Z) :=
  b ← is_prime n;
  if negb (b =? 0) then Ok (inr n)
  else n ← int_ (n + 1); Ok (inl n).

Definition get_prime (min : Z) : result Z :=
  while (2 ^ 32) get_prime_step min.

(** ** Primality *)

(** What the code takes for a prime: [n <= 3] is always accepted. *)
Definition passes (n : Z) : Prop := n <= 3 \/ prime n.

Lemma divisor_up_to_root n d :
  1 < d < n -> (d | n) -> exists e, 1 < e /\ e * e <= n /\ (e | n).
Proof.
  intros Hd [k Hk]. destruct (Z.le_gt_cases (d * d) n) as [Hle|Hgt].
  - exists d. split_and!; [lia|lia|]. by exists k.
  - exists k. split_and!; [nia|nia|]. exists d. lia.
Qed.

Lemma not_divisible n i : 0 < i -> n mod i <> 0 <-> ~ (i | n).
Proof.
  intros Hi. split; intros H H'; apply H.
  - by apply Z.mod_divide; [lia|].
  - by apply Z.mod_divide; [lia|].
Qed.

(** No odd number from 3 up to [i] (excluded) divides [n]. *)
Definition no_odd_divisor (n i : Z) : Prop :=
  forall d, 3 <= d < i -> d mod 2 = 1 -> ~ (d | n).

Lemma no_odd_divisor_next n i :
  i mod 2 = 1 -> n mod i <> 0 -> 3 <= i ->
  no_odd_divisor n i -> no_odd_divisor n (i + 2).
Proof.
  intros Hodd Hi H3 Hno d Hd Hd2.
  destruct (decide (d < i)); [apply Hno; [lia|done]|].
  assert (d = i) as -> by dlia. apply not_divisible; [lia|done].
Qed.

Lemma odd_prime n :
  3 < n -> n mod 2 = 1 -> no_odd_divisor n n -> prime n.
Proof.
  intros Hn Hodd Hno. apply prime_alt. split; [lia|].
  intros d Hd Hdiv. destruct (decide (d mod 2 = 1)) as [Hd2|Hd2].
  - apply (Hno d); [|done|done]. assert (d <> 2) by dlia. lia.
  - destruct Hdiv as [k ->]. assert (d = 2 * (d / 2)) as E by dlia.
    rewrite E in Hodd. rewrite Z.mul_assoc, (Z.mul_comm k 2), <- Z.mul_assoc, Z.mul_comm in Hodd.
    rewrite Z.mod_mul in Hodd by lia. done.
Qed.

Lemma is_prime_loop n :
  3 < n < 2 ^ 31 -> n mod 2 = 1 ->
  exists b, while (2 ^ 31) (is_prime_step n) 3 = Ok b /\
    (b = 1 /\ no_odd_divisor n n \/ b = 0 /\ ~ prime n).
Proof.
  intros Hn Hodd.
  apply (while_rule (fun k i => 3 <= i <= n /\ i mod 2 = 1 /\ no_odd_divisor n i /\
           (k = Z.to_nat (n - i)))
    (fun r => exists b, r = Ok b /\ (b = 1 /\ no_odd_divisor n n \/ b = 0 /\ ~ prime n))
    _ _ (Z.to_nat (n - 3))).
  - intros k i (Hi & Hi2 & Hno & ->). unfold is_prime_step.
    destruct (Z.ltb_spec i n) as [Hlt|Hge].
    + rewrite int_rem_ok by lia. unfold mbind, result_bind.
      destruct (Z.eqb_spec (n mod i) 0) as [H0|H0].
      * exists 0. split; [done|]. right. split; [done|].
        apply Z.mod_divide in H0; [|lia]. intros Hp.
        apply prime_alt in Hp. destruct Hp as [_ Hp]. apply (Hp i); [lia|done].
      * assert (i + 2 <= n) by dlia. rewrite int_ok by lia.
        exists (Z.to_nat (n - (i + 2))). split; [lia|].
        split_and!; [lia|lia|dlia| |done]. apply no_odd_divisor_next; [done|done|lia|done].
    + assert (i = n) as -> by lia. exists 1. split; [done|]. by left.
  - split_and!; [lia|lia|done| |done]. intros d Hd. lia.
  - lia.
Qed.

Lemma even_not_prime n : 3 < n -> n mod 2 = 0 -> ~ prime n.
Proof.
  intros Hn H0 Hp. apply prime_alt in Hp. destruct Hp as [_ Hp].
  apply (Hp 2); [lia|]. by apply Z.mod_divide.
Qed.

(** [is_prime] always answers, 0 or 1, and its answer is right. *)
Lemma is_prime_run n :
  n < 2 ^ 31 ->
  exists b, is_prime n = Ok b /\ (b = 1 /\ passes n \/ b = 0 /\ ~ passes n).
Proof.
  intros Hn. unfold is_prime, passes.
  destruct (Z.leb_spec n 3); [exists 1; tauto|].
  rewrite int_rem_ok by lia. unfold mbind, result_bind.
  destruct (Z.eqb_spec (n mod 2) 0) as [H0|H0].
  - exists 0. split; [done|]. right. split; [done|].
    intros [?|Hp]; [lia|]. by apply (even_not_prime n).
  - assert (n mod 2 = 1) by dlia.
    destruct (is_prime_loop n) as (b & Hb & [[-> Hno]|[-> Hno]]); [lia|done| |].
    + exists 1. split; [done|]. left. split; [done|]. right. by apply odd_prime.
    + exists 0. split; [done|]. right. split; [done|]. intros [?|?]; [lia|done].
Qed.

(** ** A prime that no [int] exceeds *)

Fixpoint trial (fuel : nat) (d n : Z) : bool :=
  match fuel with
  | O => true
  | S fuel => negb (n mod d =? 0) && trial fuel (d + 2) n
  end.

Lemma trial_sound fuel d n :
  3 <= d -> d mod 2 = 1 -> trial fuel d n = true ->
  no_odd_divisor n d -> no_odd_divisor n (d + 2 * Z.of_nat fuel).
Proof.
  revert d; induction fuel as [|fuel IH]; intros d Hd Hodd Ht Hno.
  - by replace (d + 2 * Z.of_nat 0) with d by lia.
  - simpl in Ht. apply andb_prop in Ht as [H1 H2].
    replace (d + 2 * Z.of_nat (S fuel)) with (d + 2 + 2 * Z.of_nat fuel) by lia.
    apply IH; [lia|dlia|done|]. apply no_odd_divisor_next; [done| |lia|done].
    by destruct (Z.eqb_spec (n mod d) 0).
Qed.

Lemma trial_prime fuel n :
  3 < n -> n mod 2 = 1 -> trial fuel 3 n = true ->
  n < (3 + 2 * Z.of_nat fuel) * (3 + 2 * Z.of_nat fuel) -> prime n.
Proof.
  intros Hn Hodd Ht Hbig. apply prime_alt. split; [lia|].
  intros d Hd Hdiv. destruct (divisor_up_to_root n d) as (e & He & Hee & Hen); [done|done|].
  assert (Hno : no_odd_divisor n (3 + 2 * Z.of_nat fuel)).
  { apply trial_sound; [lia|done|done|]. intros ? ?; lia. }
  assert (Hodde : e mod 2 = 1).
  { assert (e mod 2 <> 0); [|dlia]. intros He0.
    apply Z.mod_divide in He0; [|lia].
    pose proof (Z.divide_trans _ _ _ He0 Hen) as H2. apply Z.mod_divide in H2; lia. }
  apply (Hno e); [|done|done]. split; [|nia].
  assert (e <> 2) by (intros ->; done). lia.
Qed.

Lemma max_int_prime : prime (2 ^ 31 - 1).
Proof.
  assert (Ht : trial (Z.to_nat 23170) 3 (2 ^ 31 - 1) = true) by (vm_compute; reflexivity).
  refine (trial_prime (Z.to_nat 23170) _ _ _ Ht _); [lia|done|].
  rewrite Z2Nat.id by lia. done.
Qed.

(** [get_prime] returns, for every [int], the least accepted number not
    below it. *)
Lemma get_prime_run min :
  - 2 ^ 31 <= min < 2 ^ 31 ->
  exists n, get_prime min = Ok n /\ min <= n < 2 ^ 31 /\ passes n /\
    forall k, min <= k < n -> ~ passes k.
Proof.
  intros Hmin. unfold get_prime.
  apply (while_rule
    (fun j n => min <= n < 2 ^ 31 /\ (forall k, min <= k < n -> ~ passes k) /\
       j = Z.to_nat (2 ^ 31 - 1 - n))
    (fun r => exists n, r = Ok n /\ min <= n < 2 ^ 31 /\ passes n /\
       forall k, min <= k < n -> ~ passes k) _ _ (Z.to_nat (2 ^ 31 - 1 - min))).
  - intros j n (Hn & Hno & ->). unfold get_prime_step.
    destruct (is_prime_run n) as (b & -> & [[-> Hp]|[-> Hp]]); [lia| |].
    + exists n. done.
    + unfold mbind, result_bind. change (negb (0 =? 0)) with false. cbv iota.
      destruct (decide (n = 2 ^ 31 - 1)) as [->|Hne].
      { destruct Hp. right. apply max_int_prime. }
      rewrite int_ok by lia. exists (Z.to_nat (2 ^ 31 - 1 - (n + 1))).
      split_and!; [lia|lia|lia| |done]. intros k Hk.
      destruct (decide (k = n)) as [->|]; [done|]. apply Hno. lia.
  - split_and!; [lia|lia| |done]. intros k Hk. lia.
  - lia.
Qed.

(** ** Hash codes *)

(** One turn of [hashcode] on non-negative numbers. *)
Definition hash_char (p c : Z) : Z :=
  let s := (p * 256) mod BIG_PRIME + c in
  if s >? BIG_PRIME then s - BIG_PRIME else s.

Definition hash_of (s : list Z) : Z := foldl hash_char 0 s.

(** The polynomial a hash code stands for. *)
Definition radix256 (s : list Z) : Z := foldl (fun p c => p * 256 + c) 0 s.

(** The characters of an ASCII string. *)
Definition ascii (s : list Z) : Prop := Forall (fun c => 0 < c < 128) s.

Lemma hash_char_range p c :
  0 < c < 128 -> 0 <= hash_char p c <= BIG_PRIME.
Proof.
  intros Hc. unfold hash_char.
  pose proof (Z.mod_pos_bound (p * 256) BIG_PRIME ltac:(done)).
  ztest; unfold BIG_PRIME in *; lia.
Qed.

Lemma foldl_hash_range s p :
  ascii s -> 0 <= p <= BIG_PRIME -> 0 <= foldl hash_char p s <= BIG_PRIME.
Proof.
  intros Hs. revert p. induction Hs as [|c s Hc Hs IH]; intros p Hp; [done|].
  simpl. apply IH. by apply hash_char_range.
Qed.

Lemma hash_of_range s : ascii s -> 0 <= hash_of s <= BIG_PRIME.
Proof. intros Hs. by apply foldl_hash_range. Qed.

Lemma hash_char_cong p q c :
  p mod BIG_PRIME = q mod BIG_PRIME ->
  hash_char p c mod BIG_PRIME = (q * 256 + c) mod BIG_PRIME.
Proof.
  intros Hpq. unfold hash_char.
  assert (E : ((p * 256) mod BIG_PRIME + c) mod BIG_PRIME = (q * 256 + c) mod BIG_PRIME).
  { rewrite Z.add_mod_idemp_l by done.
    rewrite <- (Z.add_mod_idemp_l (p * 256)), <- (Z.mul_mod_idemp_l p), Hpq by done.
    by rewrite Z.mul_mod_idemp_l, Z.add_mod_idemp_l by done. }
  destruct (_ >? _); [|done].
  by rewrite <- Z.add_opp_r, <- (Z.mod_add _ 1), Z.mul_1_l, <- Z.add_assoc,
    Z.add_opp_diag_l, Z.add_0_r by done.
Qed.

Lemma foldl_hash_cong s p q :
  p mod BIG_PRIME = q mod BIG_PRIME ->
  foldl hash_char p s mod BIG_PRIME = foldl (fun p c => p * 256 + c) q s mod BIG_PRIME.
Proof.
  revert p q. induction s as [|c s IH]; intros p q Hpq; [done|].
  simpl. apply IH. by apply hash_char_cong.
Qed.

Lemma hash_of_cong s : hash_of s mod BIG_PRIME = radix256 s mod BIG_PRIME.
Proof. by apply foldl_hash_cong. Qed.

(** The arithmetic of one turn neither overflows nor leaves the range. *)
Lemma hash_turn p c :
  0 <= p <= BIG_PRIME -> 0 < c < 128 ->
  (m ← mmul p 256; madd m c) = Ok (hash_char p c).
Proof.
  intros Hp Hc. unfold mmul, madd, hash_char, BIG_PRIME in *.
  rewrite (int_ok (p * 256)) by lia. unfold mbind, result_bind.
  rewrite int_rem_ok by lia.
  pose proof (Z.mod_pos_bound (p * 256) 1560007 ltac:(done)).
  rewrite int_ok by lia. ztest; [|done]. by rewrite int_ok by lia.
Qed.

Lemma char_at_in s i c : s !! i = Some c -> char_at s (Z.of_nat i) = Ok c.
Proof.
  intros Hi. unfold char_at. pose proof (lookup_lt_Some _ _ _ Hi).
  rewrite (proj2 (Z.eqb_neq _ _)) by lia.
  apply arr_get_ok; [lia|]. by rewrite Nat2Z.id.
Qed.

Lemma hashcode_run s :
  ascii s -> Z.of_nat (length s) < 2 ^ 31 -> hashcode s = Ok (hash_of s).
Proof.
  intros Hs Hlen. unfold hashcode.
  apply (while_rule (fun k '(p, i) => exists l r, s = l ++ r /\ i = Z.of_nat (length l) /\
           p = hash_of l /\ k = length r)
    (fun r => r = Ok (hash_of s)) _ _ (length s)).
  - intros k [p i] (l & r & -> & -> & -> & ->). unfold hashcode_step.
    apply Forall_app in Hs as [Hl Hr]. destruct r as [|c r].
    + unfold char_at. rewrite app_nil_r, Z.eqb_refl. done.
    + apply Forall_cons in Hr as [Hc Hr].
      rewrite (char_at_in _ _ c) by (rewrite lookup_app_r, Nat.sub_diag; done).
      unfold mbind at 1, result_bind at 1. rewrite (proj2 (Z.eqb_neq c 0)) by lia.
      pose proof (hash_turn (hash_of l) c (hash_of_range l Hl) Hc) as Ht.
      unfold mbind, result_bind in *. destruct (mmul _ _) as [m|]; [|done]. rewrite Ht.
      rewrite length_app in Hlen. simpl in Hlen. rewrite int_ok by lia.
      exists (length r). split; [simpl; lia|]. exists (l ++ [c]), r.
      split_and!; [by rewrite <- app_assoc|rewrite length_app; simpl; lia| |done].
      unfold hash_of. by rewrite foldl_app.
  - exists [], s. done.
  - lia.
Qed.
