(* ===== verification/Htable.v ===== *)
(** * The hash table of threadlab/htable.c

    The table at the level of its heap blocks: the array of list heads, the
    nodes with their [next] pointers, and the strings the keys point to. *)

From S2P Require Import Prelude Words Primes.

(** ** Data *)

Definition MAX_COLLISION : Z := 10.

(** The words of a [node]. *)
Definition node_hashcode : Z := 0.
Definition node_key : Z := 1.
Definition node_val : Z := 2.
Definition node_next : Z := 3.
Definition sizeof_node : Z := 32.

Record htable := {
  allow_resize : Z;
  store : Z;
  ht_size : Z;
}.

(** The memory and the table a caller works on: [strings] holds the
    characters the key pointers point to, which belong to the caller. *)
Record world := {
  heap : words;
  strings : gmap Z (list Z);
  ht : htable;
}.

Definition set_heap (h : words) (w : world) : world :=
  {| heap := h; strings := strings w; ht := ht w |}.
Definition set_ht (t : htable) (w : world) : world :=
  {| heap := heap w; strings := strings w; ht := t |}.

(** ** Memory operations on the world *)

Definition load (p i : Z) : ST world Z :=
  w ← get; lift (load_word (heap w) p i).

Definition store_at (p i v : Z) : ST world unit :=
  w ← get; h ← lift (store_word (heap w) p i v); modify (set_heap h).

Definition bzero (p n : Z) : ST world unit :=
  w ← get; h ← lift (bzero_words (heap w) p n); modify (set_heap h).

Definition free (p : Z) : ST world unit :=
  w ← get; h ← lift (free_words (heap w) p); modify (set_heap h).

Definition c_string (p : Z) : ST world (list Z) :=
  w ← get; lift (need (strings w !! p)).

(** Nobody follows more pointers than there are blocks, except around a cycle. *)
Definition chain_fuel (w : world) : positive := Pos.of_succ_nat (size (heap w)).

Section operations.
Context `{Malloc}.

Definition malloc (n : Z) : ST world Z :=
  w ← get;
  let '(p, h) := malloc_words (heap w) n in
  modify (set_heap h);; mret p.

(** ** The operations *)

Definition htable_init (sz allow : Z) : ST world unit :=
  n ← lift (int_ (sz + 1));
  n ← lift (get_prime n);
  p ← malloc (u64 (sizeof_pointer * u64 n));
  modify (set_ht {| allow_resize := allow; store := p; ht_size := n |});;
  lift (assert_ (negb (p =? 0)));;
  bzero p (u64 (sizeof_pointer * u64 n)).

Definition htable_size : ST world Z := t ← gets ht; mret (ht_size t).

(** The recursion follows the list, so its depth is the fuel. *)
Fixpoint free_linked_list (fuel : nat) (n : Z) : ST world unit :=
  if n =? 0 then mret tt
  else
    match fuel with
    | O => lift (Fault OutOfFuel)
    | S fuel =>
        nx ← load n node_next;
        free_linked_list fuel nx;;
        free n
    end.

Definition htable_destroy : ST world unit :=
  w ← get;
  foldM (fun _ i =>
    p ← load (store (ht w)) i;
    w ← get;
    free_linked_list (Pos.to_nat (chain_fuel w)) p) tt (seqZ 0 (ht_size (ht w)));;
  free (store (ht w)).

(** One turn of the inner loop of [htable_resize]: the node [curr] moves to
    the new array. *)
Definition resize_node (new_store new_size : Z) (curr : Z) : ST world (Z + unit) :=
  if curr =? 0 then mret (inr tt)
  else
    let n := curr in
    curr ← load curr node_next;
    hc ← load n node_hashcode;
    slot ← lift (int_rem hc new_size);
    head ← load new_store slot;
    (if negb (head =? 0) then
       head ← load new_store slot; store_at n node_next head
     else store_at n node_next 0);;
    store_at new_store slot n;;
    mret (inl curr).

Definition htable_resize : ST world unit :=
  t ← gets ht;
  n ← lift (int_ (2 * ht_size t));
  new_size ← lift (get_prime n);
  new_store ← malloc (u64 (sizeof_pointer * u64 new_size));
  lift (assert_ (negb (new_store =? 0)));;
  bzero new_store (u64 (sizeof_pointer * u64 new_size));;
  foldM (fun _ i =>
    curr ← load (store t) i;
    w ← get;
    while_st (chain_fuel w) (resize_node new_store new_size) curr)
    tt (seqZ 0 (ht_size t));;
  modify (set_ht {| allow_resize := allow_resize t; store := store t; ht_size := new_size |});;
  free (store t);;
  modify (set_ht {| allow_resize := allow_resize t; store := new_store; ht_size := new_size |}).

(** The test of the search loops: equal hash codes and equal strings. *)
Definition node_matches (hcode : Z) (key : Z) (curr : Z) : ST world bool :=
  hc ← load curr node_hashcode;
  if hc =? hcode then
    k ← load curr node_key;
    s ← c_string k;
    s' ← c_string key;
    mret (strcmp s s' =? 0)
  else mret false.

(** One turn of the search of [htable_insert], on [prev], [curr] and
    [collision]; it ends with [None] when the key is there already. *)
Definition insert_walk (hcode key : Z) (st : Z * Z * Z)
    : ST world (Z * Z * Z + option (Z * Z)) :=
  let '(prev, curr, collision) := st in
  if curr =? 0 then mret (inr (Some (prev, collision)))
  else
    b ← node_matches hcode key curr;
    if b : bool then mret (inr None)
    else
      nx ← load curr node_next;
      collision ← lift (int_ (collision + 1));
      mret (inl (curr, nx, collision)).

(** The new node: [malloc] and the four assignments to its fields. *)
Definition new_node (hcode key val : Z) : ST world Z :=
  n ← malloc sizeof_node;
  store_at n node_hashcode hcode;;
  store_at n node_key key;;
  store_at n node_val val;;
  store_at n node_next 0;;
  mret n.

Definition htable_insert (key val : Z) : ST world Z :=
  s ← c_string key;
  hcode ← lift (hashcode s);
  t ← gets ht;
  slot ← lift (int_rem hcode (ht_size t));
  curr ← load (store t) slot;
  w ← get;
  r ← while_st (chain_fuel w) (insert_walk hcode key) (0, curr, 0);
  match r with
  | None => mret 1
  | Some (prev, collision) =>
      n ← new_node hcode key val;
      (if prev =? 0 then store_at (store t) slot n
       else store_at prev node_next n);;
      (if negb (allow_resize t =? 0) && (collision >=? MAX_COLLISION)
       then htable_resize else mret tt);;
      mret 0
  end.

Definition lookup_walk (hcode key : Z) (curr : Z) : ST world (Z + Z) :=
  if curr =? 0 then mret (inr 0)
  else
    b ← node_matches hcode key curr;
    if b : bool then v ← load curr node_val; mret (inr v)
    else nx ← load curr node_next; mret (inl nx).

Definition htable_lookup (key : Z) : ST world Z :=
  s ← c_string key;
  hcode ← lift (hashcode s);
  t ← gets ht;
  slot ← lift (int_rem hcode (ht_size t));
  curr ← load (store t) slot;
  w ← get;
  while_st (chain_fuel w) (lookup_walk hcode key) curr.
End operations.
