(* ===== verification/HtableChains.v ===== *)
(** * Linked lists of the hash table

    The shape of the table's blocks in the heap: lists of nodes that share no
    block, and the array of their heads; how the loops of threadlab/htable.c
    that follow or relink a list act on that shape. *)

From S2P Require Import Prelude Words Primes Htable.

(** A node of the table. *)
Record entry := {
  e_loc : Z;
  e_hash : Z;
  e_key : Z;
  e_val : Z;
}.

Definition node_words (e : entry) (nx : Z) : list (option Z) :=
  [Some (e_hash e); Some (e_key e); Some (e_val e); Some nx].

(** The nodes [l], linked in that order, start at [p]. *)
Fixpoint chain (h : words) (p : Z) (l : list entry) : Prop :=
  match l with
  | [] => p = 0
  | e :: l => p = e_loc e /\ p <> 0 /\
      exists nx, h !! p = Some (node_words e nx) /\ chain h nx l
  end.

Definition locs (l : list entry) : list Z := e_loc <$> l.

Lemma chain_ext h h' p l :
  (forall q, q ∈ locs l -> h' !! q = h !! q) -> chain h p l -> chain h' p l.
Proof.
  revert p; induction l as [|e l IH]; intros p Hext; [done|].
  intros (-> & Hne & nx & Hp & Hl). split_and!; [done|done|]. exists nx.
  split; [rewrite Hext; [done|by left]|].
  apply IH; [|done]. intros q Hq. apply Hext. by right.
Qed.

(** A block outside a list does not matter to it. *)
Lemma chain_insert h q b p l : q ∉ locs l -> chain h p l -> chain (<[q := b]> h) p l.
Proof.
  intros Hq. apply chain_ext. intros q' Hq'. apply lookup_insert_ne. by intros ->.
Qed.

Lemma chain_delete h q p l : q ∉ locs l -> chain h p l -> chain (delete q h) p l.
Proof.
  intros Hq. apply chain_ext. intros q' Hq'. apply lookup_delete_ne. by intros ->.
Qed.

Lemma chain_in h p l e : chain h p l -> e ∈ l -> exists nx, h !! e_loc e = Some (node_words e nx) /\ e_loc e <> 0.
Proof.
  revert p; induction l as [|e' l IH]; intros p Hc He; [by apply elem_of_nil in He|].
  destruct Hc as (-> & Hne & nx & Hp & Hl).
  apply elem_of_cons in He as [->|He]; [by exists nx|]. by apply (IH nx).
Qed.

Lemma chain_null h p l : chain h p l -> p = 0 <-> l = [].
Proof. destruct l as [|e l]; [done|]. intros (_ & Hne & _). by split. Qed.

(** The walks have fuel enough. *)
Lemma chain_length h p l : chain h p l -> NoDup (locs l) -> (length l <= size h)%nat.
Proof.
  intros Hc Hnd.
  assert (Hsub : (list_to_set (locs l) : gset Z) ⊆ dom h).
  { intros q Hq. apply elem_of_list_to_set, list_elem_of_fmap in Hq as (e & -> & He).
    destruct (chain_in _ _ _ _ Hc He) as (nx & Hp & _). by apply elem_of_dom. }
  apply subseteq_size in Hsub. 
  rewrite size_list_to_set in Hsub by done. unfold locs in Hsub. rewrite length_fmap in Hsub.
  by rewrite <- (size_dom (D := gset Z) h).
Qed.

(** ** Fields of a node *)

Lemma load_node (w : world) p e nx i v :
  p <> 0 -> heap w !! p = Some (node_words e nx) -> 0 <= i ->
  node_words e nx !! Z.to_nat i = Some (Some v) ->
  load p i w = Ok (v, w).
Proof.
  intros Hp0 Hp Hi Hv. unfold load. st_unfold.
  by rewrite (load_word_ok _ _ _ (node_words e nx) v).
Qed.

Lemma load_head (w : world) p heads i v :
  p <> 0 -> heap w !! p = Some (Some <$> heads) -> 0 <= i -> heads !! Z.to_nat i = Some v ->
  load p i w = Ok (v, w).
Proof.
  intros Hp0 Hp Hi Hv. unfold load. st_unfold.
  rewrite (load_word_ok _ _ _ (Some <$> heads) v); [done|done|done|done|].
  by rewrite list_lookup_fmap, Hv.
Qed.

Lemma store_block (w : world) p l i v :
  p <> 0 -> heap w !! p = Some l -> 0 <= i < Z.of_nat (length l) ->
  store_at p i v w = Ok (tt, set_heap (<[p := <[Z.to_nat i := Some v]> l]> (heap w)) w).
Proof.
  intros Hp0 Hp Hi. unfold store_at. st_unfold. by rewrite (store_word_ok _ _ _ l).
Qed.

Lemma free_block (w : world) p l :
  p <> 0 -> heap w !! p = Some l -> free p w = Ok (tt, set_heap (delete p (heap w)) w).
Proof.
  intros Hp0 Hp. unfold free. st_unfold. by rewrite (free_words_ok _ _ l).
Qed.

(** ** Appending a node at the end of a list *)

Lemma chain_snoc_empty h p e :
  p = e_loc e -> p <> 0 -> h !! p = Some (node_words e 0) -> chain h p [e].
Proof. intros -> Hne Hp. split_and!; [done|done|]. by exists 0. Qed.

Lemma chain_snoc h hd l e' e :
  chain h hd (l ++ [e']) -> NoDup (locs (l ++ [e'])) ->
  e_loc e ∉ locs (l ++ [e']) -> e_loc e <> 0 ->
  h !! e_loc e = Some (node_words e 0) ->
  chain (<[e_loc e' := node_words e' (e_loc e)]> h) hd ((l ++ [e']) ++ [e]).
Proof.
  revert hd; induction l as [|e0 l IH]; intros hd Hc Hnd Hnew Hne He; simpl in *.
  - destruct Hc as (-> & Hne' & nx & Hp & ->). split_and!; [done|done|].
    exists (e_loc e). rewrite lookup_insert_eq. split; [done|]. split_and!; [done|done|].
    exists 0. split; [|done]. rewrite lookup_insert_ne; [done|].
    intros E. apply Hnew. rewrite <- E. by left.
  - destruct Hc as (-> & Hne' & nx & Hp & Hc). split_and!; [done|done|].
    apply NoDup_cons in Hnd as [Hnin Hnd].
    exists nx. split.
    + rewrite lookup_insert_ne; [done|]. intros E. apply Hnin. rewrite <- E.
      unfold locs. rewrite fmap_app. apply elem_of_app. right. by left.
    + apply IH; [done|done| |done|done]. intros Hin. apply Hnew. by right.
Qed.

(** ** Freeing a list *)

Definition free_all (ps : list Z) (h : words) : words := foldr (fun p h => delete p h) h ps.

Lemma lookup_free_all ps h q :
  free_all ps h !! q = if decide (q ∈ ps) then None else h !! q.
Proof.
  unfold free_all. induction ps as [|p ps IH]; cbn [foldr].
  { rewrite decide_False; [done|]. by apply not_elem_of_nil. }
  destruct (decide (q = p)) as [->|Hne].
  { rewrite lookup_delete_eq, decide_True; [done|]. by left. }
  rewrite lookup_delete_ne by done. rewrite IH.
  destruct (decide (q ∈ ps)) as [Hin|Hin].
  - rewrite decide_True; [done|]. by right.
  - rewrite decide_False; [done|]. by intros [?|?]%elem_of_cons.
Qed.

Lemma free_all_app ps qs h : free_all (ps ++ qs) h = free_all ps (free_all qs h).
Proof. apply foldr_app. Qed.

Lemma free_linked_list_run l : forall fuel p (w : world),
  chain (heap w) p l -> NoDup (locs l) -> (length l <= fuel)%nat ->
  free_linked_list fuel p w = Ok (tt, set_heap (free_all (locs l) (heap w)) w).
Proof.
  induction l as [|e l IH]; intros fuel p w Hc Hnd Hfuel.
  - simpl in Hc. subst p. destruct fuel; by destruct w.
  - destruct Hc as (-> & Hne & nx & Hp & Hc). apply NoDup_cons in Hnd as [Hnin Hnd].
    destruct fuel as [|fuel]; simpl in Hfuel; [lia|]. simpl.
    rewrite (proj2 (Z.eqb_neq _ _)) by done.
    erewrite bind_Ok; [|by apply (load_node _ _ e nx)].
    rewrite (bind_Ok _ _ _ tt (set_heap (free_all (locs l) (heap w)) w)) by (apply IH; [done|done|lia]).
    rewrite (free_block _ _ (node_words e nx)); [done|done|]. simpl.
    by rewrite lookup_free_all, decide_False.
Qed.

(** ** Relinking *)

(** The new table with one more node at the head of its list. *)
Definition push (n : Z) (chs : list (list entry)) (e : entry) : list (list entry) :=
  alter (cons e) (Z.to_nat (e_hash e mod n)) chs.

(** The lists of a table of [n] slots after the nodes [l] moved to it. *)
Definition rehash (n : Z) (l : list entry) : list (list entry) :=
  foldl (push n) (replicate (Z.to_nat n) []) l.

Lemma length_push n chs e : length (push n chs e) = length chs.
Proof. apply length_alter. Qed.

Lemma concat_insert (chs : list (list entry)) i l l' :
  chs !! i = Some l ->
  exists r, concat chs ≡ₚ l ++ r /\ concat (<[i := l']> chs) ≡ₚ l' ++ r.
Proof.
  intros Hi. exists (concat (take i chs) ++ concat (drop (S i) chs)).
  assert (Happ : forall x y z : list entry, x ++ y ++ z ≡ₚ y ++ x ++ z).
  { intros x y z. by rewrite !app_assoc, (Permutation_app_comm x y). }
  split.
  - rewrite <- (take_drop_middle chs i l) at 1 by done.
    rewrite concat_app. simpl. apply Happ.
  - rewrite insert_take_drop by (by eapply lookup_lt_Some).
    rewrite concat_app. simpl. apply Happ.
Qed.

Lemma push_insert n chs e l :
  chs !! Z.to_nat (e_hash e mod n) = Some l ->
  push n chs e = <[Z.to_nat (e_hash e mod n) := e :: l]> chs.
Proof.
  intros Hl. unfold push. rewrite list_insert_alter. apply list_alter_ext; [|done].
  intros x. rewrite Hl. by intros [= ->].
Qed.

Lemma concat_push n chs e :
  0 < n -> length chs = Z.to_nat n -> concat (push n chs e) ≡ₚ e :: concat chs.
Proof.
  intros Hn Hlen.
  pose proof (Z.mod_pos_bound (e_hash e) n Hn).
  destruct (lookup_lt_is_Some_2 chs (Z.to_nat (e_hash e mod n))) as [l Hl]; [lia|].
  rewrite (push_insert _ _ _ l) by done.
  destruct (concat_insert chs _ l (e :: l) Hl) as (r & -> & ->). done.
Qed.

Lemma length_foldl_push n l chs : length (foldl (push n) chs l) = length chs.
Proof.
  revert chs; induction l as [|e l IH]; intros chs; [done|]. simpl.
  by rewrite IH, length_push.
Qed.

Lemma concat_foldl_push n l chs :
  0 < n -> length chs = Z.to_nat n -> concat (foldl (push n) chs l) ≡ₚ l ++ concat chs.
Proof.
  intros Hn. revert chs; induction l as [|e l IH]; intros chs Hlen; [done|]. simpl.
  rewrite IH by (by rewrite length_push). rewrite concat_push by done.
  by rewrite Permutation_middle.
Qed.

Lemma length_rehash n l : length (rehash n l) = Z.to_nat n.
Proof. unfold rehash. by rewrite length_foldl_push, length_replicate. Qed.

Lemma concat_replicate_nil k : concat (replicate k (@nil entry)) = [].
Proof. by induction k. Qed.

Lemma concat_rehash n l : 0 < n -> concat (rehash n l) ≡ₚ l.
Proof.
  intros Hn. unfold rehash. rewrite concat_foldl_push; [|done|by rewrite length_replicate].
  by rewrite concat_replicate_nil, app_nil_r.
Qed.

(** Each node is in the list of its hash code. *)
Definition in_slots (n : Z) (chs : list (list entry)) : Prop :=
  forall i l e, chs !! i = Some l -> e ∈ l -> e_hash e mod n = Z.of_nat i.

Lemma push_in_slots n chs e : 0 < n -> in_slots n chs -> in_slots n (push n chs e).
Proof.
  intros Hn Hs i l e' Hi He'. unfold push in Hi.
  pose proof (Z.mod_pos_bound (e_hash e) n Hn).
  destruct (decide (i = Z.to_nat (e_hash e mod n))) as [->|Hne].
  - rewrite list_lookup_alter_eq in Hi. apply fmap_Some in Hi as (l0 & Hl0 & ->).
    apply elem_of_cons in He' as [->|He']; [lia|]. by apply (Hs _ l0).
  - rewrite list_lookup_alter_ne in Hi by done. by apply (Hs _ l).
Qed.

Lemma rehash_in_slots n l : 0 < n -> in_slots n (rehash n l).
Proof.
  intros Hn. unfold rehash.
  assert (H0 : in_slots n (replicate (Z.to_nat n) [])).
  { intros i l' e [-> _]%lookup_replicate He. by apply elem_of_nil in He. }
  revert H0. generalize (replicate (Z.to_nat n) (@nil entry)).
  induction l as [|e l IH]; intros chs Hs; [done|]. simpl. apply IH. by apply push_in_slots.
Qed.

(** A list of the new table is a list of the old one's nodes in reverse order. *)
Lemma rehash_lookup n l i :
  0 < n -> (i < Z.to_nat n)%nat ->
  rehash n l !! i = Some (reverse (filter (fun e => e_hash e mod n = Z.of_nat i) l)).
Proof.
  intros Hn Hi. unfold rehash.
  assert (H0 : forall chs a, length chs = Z.to_nat n -> chs !! i = Some a ->
    foldl (push n) chs l !! i =
      Some (reverse (filter (fun e => e_hash e mod n = Z.of_nat i) l) ++ a)).
  { induction l as [|e l IH]; intros chs a Hlen Ha; [done|]. simpl.
    pose proof (Z.mod_pos_bound (e_hash e) n Hn).
    destruct (decide (e_hash e mod n = Z.of_nat i)) as [He|He].
    - rewrite (IH _ (e :: a)); [|by rewrite length_push|].
      + rewrite filter_cons_True by done. by rewrite reverse_cons, <- app_assoc.
      + unfold push. rewrite He, Nat2Z.id, list_lookup_alter_eq, Ha. done.
    - rewrite (IH _ a); [|by rewrite length_push|].
      + by rewrite filter_cons_False.
      + unfold push. rewrite list_lookup_alter_ne by lia. done. }
  rewrite (H0 _ []); [by rewrite app_nil_r|apply length_replicate|].
  by apply lookup_replicate_2.
Qed.
