(* ===== verification/HtableResize.v ===== *)
(** * Resizing and freeing the hash table

    Total correctness of the loops of [htable_resize] and [htable_destroy] of
    threadlab/htable.c, on any table of well-formed lists. *)

From S2P Require Import Prelude Words Primes Htable HtableChains.

(** ** The state of a resize

    The new array at [new] holds the lists [nchs]; the nodes [l] starting at
    [curr] are being moved; the lists [chs] with heads [heads] are still to
    come.  No two of their nodes share a block. *)
Record shape (h : words) (new : Z) (nchs : list (list entry)) (curr : Z) (l : list entry)
    (heads : list Z) (chs : list (list entry)) : Prop := {
  sh_new : exists nheads, h !! new = Some (Some <$> nheads) /\ Forall2 (chain h) nheads nchs;
  sh_curr : chain h curr l;
  sh_rest : Forall2 (chain h) heads chs;
  sh_nodup : NoDup (new :: locs (l ++ concat chs ++ concat nchs));
}.

(** The blocks a resize may change. *)
Definition unchanged_outside (ps : list Z) (h h' : words) : Prop :=
  forall p, p ∉ ps -> h' !! p = h !! p.

#[global] Instance unchanged_outside_preorder ps : PreOrder (unchanged_outside ps).
Proof.
  split; [by intros h p|]. intros h1 h2 h3 H1 H2 p Hp. by rewrite H2, H1.
Qed.

Lemma unchanged_outside_insert ps h p b :
  p ∈ ps -> unchanged_outside ps h (<[p := b]> h).
Proof. intros Hp q Hq. apply lookup_insert_ne. by intros ->. Qed.

Lemma unchanged_outside_delete ps h p : p ∈ ps -> unchanged_outside ps h (delete p h).
Proof. intros Hp q Hq. apply lookup_delete_ne. by intros ->. Qed.

Lemma unchanged_outside_mono ps qs h h' :
  ps ⊆ qs -> unchanged_outside ps h h' -> unchanged_outside qs h h'.
Proof. intros Hsub Hu p Hp. apply Hu. by intros Hin%Hsub. Qed.

Lemma chains_insert h q b heads chs :
  q ∉ locs (concat chs) -> Forall2 (chain h) heads chs ->
  Forall2 (chain (<[q := b]> h)) heads chs.
Proof.
  intros Hq Hc. induction Hc as [|p l heads chs Hl Hc IH]; [done|].
  unfold locs in Hq. simpl in Hq. rewrite fmap_app, not_elem_of_app in Hq.
  destruct Hq as [Hq1 Hq2]. constructor; [by apply chain_insert|by apply IH].
Qed.

Lemma chains_ext h h' heads chs :
  (forall q, q ∈ locs (concat chs) -> h' !! q = h !! q) ->
  Forall2 (chain h) heads chs -> Forall2 (chain h') heads chs.
Proof.
  intros Hext Hc. induction Hc as [|p l heads chs Hl Hc IH]; [done|].
  unfold locs in Hext. simpl in Hext. rewrite fmap_app in Hext. constructor.
  - apply (chain_ext h); [|done]. intros q Hq. apply Hext. apply elem_of_app. by left.
  - apply IH. intros q Hq. apply Hext. apply elem_of_app. by right.
Qed.

Lemma chains_allocated h heads chs p :
  Forall2 (chain h) heads chs -> h !! p = None -> p ∈ locs (concat chs) -> False.
Proof.
  intros Hc Hp Hin. induction Hc as [|q l heads chs Hl Hc IH]; [by apply elem_of_nil in Hin|].
  unfold locs in Hin. simpl in Hin. rewrite fmap_app in Hin.
  apply elem_of_app in Hin as [Hin|Hin]; [|by apply IH].
  apply list_elem_of_fmap in Hin as (e & -> & He).
  destruct (chain_in _ _ _ _ Hl He) as (nx & He' & _). by rewrite Hp in He'.
Qed.

Lemma locs_app l l' : locs (l ++ l') = locs l ++ locs l'.
Proof. apply fmap_app. Qed.

Lemma locs_perm l l' : l ≡ₚ l' -> locs l ≡ₚ locs l'.
Proof. intros H. unfold locs. by rewrite H. Qed.

Lemma locs_in_concat chs i l x :
  chs !! i = Some l -> x ∈ locs l -> x ∈ locs (concat chs).
Proof.
  revert i; induction chs as [|c chs IH]; intros [|i] Hl Hx; try done.
  - injection Hl as ->. simpl. rewrite locs_app. apply elem_of_app. by left.
  - simpl. rewrite locs_app. apply elem_of_app. right. by apply (IH i).
Qed.

(** Two lists share no block. *)
Lemma chains_disjoint chs i j l l' x :
  NoDup (locs (concat chs)) -> chs !! i = Some l -> chs !! j = Some l' -> i <> j ->
  x ∈ locs l -> x ∉ locs l'.
Proof.
  revert i j; induction chs as [|c chs IH]; intros i j Hnd Hi Hj Hij Hx Hx'; [done|].
  simpl in Hnd. rewrite locs_app in Hnd. apply NoDup_app in Hnd as (_ & Hd & Hnd).
  destruct i as [|i], j as [|j]; [done| | |].
  - injection Hi as ->. apply (Hd x); [done|]. by apply (locs_in_concat chs j l').
  - injection Hj as ->. apply (Hd x); [done|]. by apply (locs_in_concat chs i l).
  - apply (IH i j); try done. by intros ->.
Qed.

Lemma set_heap_set_heap h h' w : set_heap h (set_heap h' w) = set_heap h w.
Proof. done. Qed.

Lemma set_heap_id w : set_heap (heap w) w = w.
Proof. by destruct w. Qed.

Section resize.
Context (new n : Z) (Hnew : new <> 0) (Hn : 0 < n < 2 ^ 31).

(** The heap after the node [e] moved in front of [hd] in the slot [i] of the
    new array, whose heads were [nheads]. *)
Definition moved (e : entry) (hd : Z) (i : nat) (nheads : list Z) (h : words) : words :=
  <[new := Some <$> <[i := e_loc e]> nheads]> (<[e_loc e := node_words e hd]> h).

Lemma moved_other e hd i nheads h q :
  q <> e_loc e -> q <> new -> moved e hd i nheads h !! q = h !! q.
Proof. intros H1 H2. unfold moved. by rewrite !lookup_insert_ne. Qed.

(** The statements of one turn. *)
Lemma resize_node_steps (w : world) e nx nheads hd :
  e_loc e <> 0 -> heap w !! e_loc e = Some (node_words e nx) -> new <> e_loc e ->
  0 <= e_hash e -> heap w !! new = Some (Some <$> nheads) -> length nheads = Z.to_nat n ->
  nheads !! Z.to_nat (e_hash e mod n) = Some hd ->
  resize_node new n (e_loc e) w =
    Ok (inl nx, set_heap (moved e hd (Z.to_nat (e_hash e mod n)) nheads (heap w)) w).
Proof.
  intros Hne Hp Hnew_e He Hnh Hlenh Hhd.
  pose proof (Z.mod_pos_bound (e_hash e) n ltac:(lia)) as Hslot.
  set (h1 := <[e_loc e := node_words e hd]> (heap w)).
  unfold resize_node. rewrite (proj2 (Z.eqb_neq _ _)) by done.
  erewrite bind_Ok; [|by apply (load_node _ _ e nx)].
  erewrite bind_Ok; [|by apply (load_node _ _ e nx)].
  rewrite (bind_Ok _ _ _ (e_hash e mod n) w) by (unfold lift; by rewrite int_rem_ok by lia).
  pose proof (load_head w new nheads (e_hash e mod n) hd Hnew Hnh (proj1 Hslot) Hhd) as Hload.
  rewrite (bind_Ok _ _ _ hd w) by done.
  rewrite (bind_Ok _ _ _ tt (set_heap h1 w)).
  - erewrite bind_Ok; [|apply (store_block _ _ (Some <$> nheads)); [done| |rewrite length_fmap; lia]].
    + unfold moved. simpl. by rewrite list_fmap_insert.
    + simpl. unfold h1. by rewrite lookup_insert_ne.
  - assert (Hst : store_at (e_loc e) node_next hd w = Ok (tt, set_heap h1 w)).
    { by rewrite (store_block _ _ (node_words e nx)). }
    destruct (Z.eqb_spec hd 0) as [->|Hhd0]; simpl; [done|].
    by rewrite (bind_Ok _ _ _ hd w).
Qed.

(** What they make of the shape. *)
Lemma moved_shape h nchs nheads e l nx heads chs i hd l0 :
  Forall2 (chain h) nheads nchs -> nheads !! i = Some hd -> nchs !! i = Some l0 ->
  i = Z.to_nat (e_hash e mod n) -> length nchs = Z.to_nat n ->
  e_loc e <> 0 -> chain h nx l -> Forall2 (chain h) heads chs ->
  NoDup (new :: locs ((e :: l) ++ concat chs ++ concat nchs)) ->
  shape (moved e hd i nheads h) new (push n nchs e) nx l heads chs.
Proof.
  intros Hnchs Hhd Hl0 -> Hlen Hne Hl Hrest Hnd.
  assert (HP : l ++ concat chs ++ concat (push n nchs e) ≡ₚ e :: l ++ concat chs ++ concat nchs).
  { rewrite concat_push by (done || lia). by rewrite <- !Permutation_middle. }
  pose proof Hnd as Hnd'. simpl in Hnd'. rewrite !locs_app in Hnd'.
  apply NoDup_cons in Hnd' as [Hnew_nin Hnd']. apply NoDup_cons in Hnd' as [He_nin _].
  rewrite not_elem_of_cons, !not_elem_of_app in Hnew_nin. rewrite !not_elem_of_app in He_nin.
  destruct He_nin as (Hel & Hec & Hen). destruct Hnew_nin as (Hnew_e & Hnl & Hnc & Hnn).
  set (h2 := moved e hd _ nheads h).
  assert (Hother : forall q lq, q ∈ locs lq -> e_loc e ∉ locs lq -> new ∉ locs lq -> h2 !! q = h !! q).
  { intros q lq Hq H1 H2. apply moved_other; intros ->; done. }
  assert (Hnchs2 : Forall2 (chain h2) nheads nchs).
  { apply (chains_ext h); [|done]. intros q Hq. by apply (Hother q (concat nchs)). }
  split.
  - eexists. split; [apply lookup_insert_eq|].
    rewrite (push_insert _ _ _ l0) by done. apply Forall2_insert; [done|].
    split_and!; [done|done|]. exists hd. split.
    + unfold h2, moved. rewrite lookup_insert_ne by done. by rewrite lookup_insert_eq.
    + by destruct (Forall2_lookup_l _ _ _ _ _ Hnchs2 Hhd) as (l1 & [= <-]%(eq_trans (eq_sym Hl0)) & Hc1).
  - apply (chain_ext h); [|done]. intros q Hq. by apply (Hother q l).
  - apply (chains_ext h); [|done]. intros q Hq. by apply (Hother q (concat chs)).
  - by rewrite (locs_perm _ _ HP).
Qed.

(** One node moves to the head of the list of its new slot. *)
Lemma resize_node_run (w : world) nchs e l heads chs :
  shape (heap w) new nchs (e_loc e) (e :: l) heads chs ->
  length nchs = Z.to_nat n -> 0 <= e_hash e ->
  exists h' nx,
    resize_node new n (e_loc e) w = Ok (inl nx, set_heap h' w) /\
    shape h' new (push n nchs e) nx l heads chs /\
    unchanged_outside [new; e_loc e] (heap w) h'.
Proof.
  intros [(nheads & Hnh & Hnchs) (_ & Hne & nx & Hp & Hl) Hrest Hnd] Hlen He.
  pose proof (Z.mod_pos_bound (e_hash e) n ltac:(lia)) as Hslot.
  assert (Hlenh : length nheads = Z.to_nat n) by (by rewrite (Forall2_length _ _ _ Hnchs)).
  destruct (lookup_lt_is_Some_2 nheads (Z.to_nat (e_hash e mod n))) as [hd Hhd]; [lia|].
  destruct (Forall2_lookup_l _ _ _ _ _ Hnchs Hhd) as (l0 & Hl0 & _).
  assert (Hnew_e : new <> e_loc e).
  { apply NoDup_cons in Hnd as [Hnin _]. simpl in Hnin. by apply not_elem_of_cons in Hnin as [? _]. }
  eexists _, nx. split_and!.
  - by apply resize_node_steps.
  - by apply (moved_shape _ _ _ _ _ _ _ _ _ _ l0).
  - intros q Hq. rewrite !not_elem_of_cons in Hq. apply moved_other; naive_solver.
Qed.

Lemma shape_length h nchs curr l heads chs :
  shape h new nchs curr l heads chs -> (length l < Pos.to_nat (Pos.of_succ_nat (size h)))%nat.
Proof.
  intros [_ Hc _ Hnd]. rewrite SuccNat2Pos.id_succ.
  apply NoDup_cons in Hnd as [_ Hnd]. rewrite locs_app in Hnd.
  apply NoDup_app in Hnd as [Hnd _]. pose proof (chain_length _ _ _ Hc Hnd). lia.
Qed.

(** A whole list moves, its nodes one by one. *)
Lemma resize_list_run (w : world) nchs curr l heads chs :
  shape (heap w) new nchs curr l heads chs ->
  length nchs = Z.to_nat n -> Forall (fun e => 0 <= e_hash e) l ->
  exists h',
    while_st (chain_fuel w) (resize_node new n) curr w = Ok (tt, set_heap h' w) /\
    shape h' new (foldl (push n) nchs l) 0 [] heads chs /\
    unchanged_outside (new :: locs l) (heap w) h'.
Proof.
  intros Hsh Hlen Hpos.
  apply (while_st_rule (fun k curr' w' => exists done_ rest h', l = done_ ++ rest /\
           w' = set_heap h' w /\ k = length rest /\
           shape h' new (foldl (push n) nchs done_) curr' rest heads chs /\
           unchanged_outside (new :: locs l) (heap w) h')
         (fun r => exists h', r = Ok (tt, set_heap h' w) /\
            shape h' new (foldl (push n) nchs l) 0 [] heads chs /\
            unchanged_outside (new :: locs l) (heap w) h') _ _ (length l)).
  - intros k c w' (dn & rest & h' & El & -> & -> & Hsh' & Hun).
    destruct rest as [|e rest].
    + pose proof (sh_curr _ _ _ _ _ _ _ Hsh') as Hc0. simpl in Hc0. subst c.
      rewrite app_nil_r in El. subst dn. by exists h'.
    + pose proof (sh_curr _ _ _ _ _ _ _ Hsh') as (-> & _).
      assert (He : 0 <= e_hash e).
      { rewrite El in Hpos. apply Forall_app in Hpos as [_ Hpos].
        by apply Forall_cons in Hpos as [? _]. }
      destruct (resize_node_run (set_heap h' w) (foldl (push n) nchs dn) e rest heads chs)
        as (h2 & nx & -> & Hsh2 & Hun2); [done|by rewrite length_foldl_push|done|].
      exists (length rest). split; [simpl; lia|].
      exists (dn ++ [e]), rest, h2. split_and!; [by rewrite <- app_assoc|done|done| |].
      * by rewrite foldl_app.
      * transitivity h'; [done|]. apply (unchanged_outside_mono [new; e_loc e]); [|done].
        rewrite El, locs_app. intros q. rewrite !elem_of_cons, elem_of_app. simpl.
        rewrite elem_of_cons, elem_of_nil. tauto.
  - exists [], l, (heap w). split_and!; [done|by rewrite set_heap_id|done|done|done].
  - by apply shape_length in Hsh.
Qed.

(** The outer loop, from slot [k] on. *)
Lemma resize_lists_run : forall chs heads (w : world) nchs k heads0,
  shape (heap w) new nchs 0 [] heads chs ->
  length nchs = Z.to_nat n -> Forall (fun e => 0 <= e_hash e) (concat chs) ->
  store (ht w) <> 0 -> heap w !! store (ht w) = Some (Some <$> heads0) ->
  store (ht w) ∉ new :: locs (concat chs) ->
  0 <= k -> drop (Z.to_nat k) heads0 = heads ->
  exists h',
    foldM (fun _ i =>
      curr ← load (store (ht w)) i;
      w ← get;
      while_st (chain_fuel w) (resize_node new n) curr)
      tt (seqZ k (Z.of_nat (length heads))) w = Ok (tt, set_heap h' w) /\
    shape h' new (foldl (push n) nchs (concat chs)) 0 [] [] [] /\
    unchanged_outside (new :: locs (concat chs)) (heap w) h'.
Proof.
  induction chs as [|l chs IH]; intros heads w nchs k heads0 Hsh Hlen Hpos Hs0 Hst Hsn Hk Hdrop.
  - pose proof (sh_rest _ _ _ _ _ _ _ Hsh) as Hr. apply Forall2_nil_inv_r in Hr as ->.
    exists (heap w). rewrite set_heap_id. split_and!; [done| |done]. by simpl.
  - pose proof (sh_rest _ _ _ _ _ _ _ Hsh) as Hr.
    apply Forall2_cons_inv_r in Hr as (hd & heads' & Hhd & Hr & ->).
    simpl in Hpos. apply Forall_app in Hpos as [Hpos1 Hpos2].
    simpl in Hsn. rewrite locs_app, not_elem_of_cons, not_elem_of_app in Hsn.
    destruct Hsn as (Hsn & Hsl & Hsc).
    simpl length. rewrite Nat2Z.inj_succ, seqZ_cons by lia. cbn [foldM].
    replace (Z.pred (Z.succ (Z.of_nat (length heads')))) with (Z.of_nat (length heads')) by lia.
    assert (Hhead : heads0 !! Z.to_nat k = Some hd).
    { rewrite <- (Nat.add_0_r (Z.to_nat k)), <- lookup_drop, Hdrop. done. }
    assert (Hsh1 : shape (heap w) new nchs hd l heads' chs).
    { destruct Hsh as [H1 _ _ H4]. split; [done|done|done|]. simpl in H4. by rewrite <- app_assoc in H4. }
    destruct (resize_list_run w nchs hd l heads' chs Hsh1 Hlen Hpos1) as (h1 & Hrun & Hsh2 & Hun).
    rewrite (bind_Ok _ _ _ tt (set_heap h1 w)).
    2: { erewrite bind_Ok; [|by apply (load_head _ _ heads0)]. by erewrite bind_Ok. }
    destruct (IH heads' (set_heap h1 w) (foldl (push n) nchs l) (Z.succ k) heads0)
      as (h2 & Hrun2 & Hsh3 & Hun2).
    + done.
    + by rewrite length_foldl_push.
    + done.
    + done.
    + simpl. rewrite Hun; [done|]. by rewrite not_elem_of_cons.
    + simpl. by rewrite not_elem_of_cons.
    + lia.
    + rewrite Z2Nat.inj_succ by done. rewrite <- Nat.add_1_r, Nat.add_comm.
      rewrite Nat.add_comm, <- drop_drop, Hdrop. done.
    + exists h2. split_and!.
      * exact Hrun2.
      * simpl. by rewrite foldl_app.
      * simpl. rewrite locs_app. transitivity h1.
        -- apply (unchanged_outside_mono (new :: locs l)); [|done].
           intros q. rewrite !elem_of_cons, elem_of_app. tauto.
        -- apply (unchanged_outside_mono (new :: locs (concat chs))); [|done].
           intros q. rewrite !elem_of_cons, elem_of_app. tauto.
Qed.
End resize.
