(* ===== verification/HtableInv.v ===== *)
(** * The hash table as a finite map

    The invariant of a table of threadlab/htable.c, the map from strings to
    values it stands for, and the run of every operation on it. *)

From S2P Require Import Prelude Words Primes Htable HtableChains HtableResize.

(** ** The invariant *)

(** The blocks of the table: the array of heads and one block per node. *)
Record layout (h : words) (t : htable) (chs : list (list entry)) : Prop := {
  ly_store : store t <> 0;
  ly_heads : exists heads, h !! store t = Some (Some <$> heads) /\ Forall2 (chain h) heads chs;
  ly_size : length chs = Z.to_nat (ht_size t);
  ly_pos : 0 < ht_size t < 2 ^ 31;
  ly_nodup : NoDup (store t :: locs (concat chs));
}.

(** A string the table can hash. *)
Definition good_key (s : list Z) : Prop := ascii s /\ Z.of_nat (length s) < 2 ^ 31.

(** The key pointer of a node still leads to the string that was hashed. *)
Definition entry_ok (strs : gmap Z (list Z)) (e : entry) : Prop :=
  exists s, strs !! e_key e = Some s /\ good_key s /\ e_hash e = hash_of s.

Definition key_of (strs : gmap Z (list Z)) (e : entry) : list Z :=
  default [] (strs !! e_key e).

Record table_inv (w : world) (chs : list (list entry)) : Prop := {
  ti_layout : layout (heap w) (ht w) chs;
  ti_entries : Forall (entry_ok (strings w)) (concat chs);
  ti_keys : NoDup (key_of (strings w) <$> concat chs);
  ti_slots : in_slots (ht_size (ht w)) chs;
}.

Definition contents (strs : gmap Z (list Z)) (l : list entry) : gmap (list Z) Z :=
  list_to_map ((fun e => (key_of strs e, e_val e)) <$> l).

(** The table of the world [w] stands for the map [m] and owns the blocks
    [own]. *)
Definition table (w : world) (m : gmap (list Z) Z) (own : list Z) : Prop :=
  exists chs, table_inv w chs /\ m = contents (strings w) (concat chs) /\
    own = store (ht w) :: locs (concat chs).

(** ** Searching a list *)

Fixpoint find_key (strs : gmap Z (list Z)) (s : list Z) (l : list entry) : option entry :=
  match l with
  | [] => None
  | e :: l => if bool_decide (key_of strs e = s) then Some e else find_key strs s l
  end.

Lemma contents_lookup strs l s : contents strs l !! s = e_val <$> find_key strs s l.
Proof.
  induction l as [|e l IH]; [done|]. cbn [find_key].
  unfold contents. simpl. case_bool_decide as Hs.
  - rewrite Hs. by rewrite lookup_insert_eq.
  - by rewrite lookup_insert_ne.
Qed.

Lemma find_key_None strs s l : find_key strs s l = None <-> forall e, e ∈ l -> key_of strs e <> s.
Proof.
  induction l as [|e l IH]; cbn [find_key].
  { split; [|done]. intros _ e He. by apply elem_of_nil in He. }
  case_bool_decide as Hs.
  - split; [done|]. intros H. destruct (H e); [by left|done].
  - rewrite IH. split.
    + by intros H e' [->|He']%elem_of_cons; [|apply H].
    + intros H e' He'. apply H. by right.
Qed.

Lemma find_key_app strs s l l' :
  find_key strs s (l ++ l') =
    match find_key strs s l with Some e => Some e | None => find_key strs s l' end.
Proof. induction l as [|e l IH]; [done|]. cbn [find_key app]. by case_bool_decide. Qed.

Lemma contents_perm strs l l' :
  NoDup (key_of strs <$> l) -> l ≡ₚ l' -> contents strs l = contents strs l'.
Proof.
  intros Hnd HP. unfold contents. apply list_to_map_proper; [|by rewrite HP].
  by rewrite <- list_fmap_compose.
Qed.

Lemma size_contents strs l : NoDup (key_of strs <$> l) -> size (contents strs l) = length l.
Proof.
  intros Hnd. unfold contents. rewrite map_size_list_to_map.
  - by rewrite length_fmap.
  - by rewrite <- list_fmap_compose.
Qed.

Lemma entry_ok_hash strs e : entry_ok strs e -> e_hash e = hash_of (key_of strs e) /\ good_key (key_of strs e).
Proof. intros (s & Hs & Hg & He). unfold key_of. by rewrite Hs. Qed.

Lemma entry_hash_nonneg strs e : entry_ok strs e -> 0 <= e_hash e.
Proof.
  intros He. destruct (entry_ok_hash _ _ He) as [-> [Hg _]].
  apply hash_of_range in Hg. lia.
Qed.

(** A key can only be in the list of its slot. *)
Lemma find_key_slot w chs s l :
  table_inv w chs -> chs !! Z.to_nat (hash_of s mod ht_size (ht w)) = Some l ->
  find_key (strings w) s (concat chs) = find_key (strings w) s l.
Proof.
  intros [[_ _ _ Hpos _] Hok _ Hslots] Hl. set (i := Z.to_nat _) in Hl.
  assert (Hother : forall j l', chs !! j = Some l' -> j <> i -> forall e, e ∈ l' -> key_of (strings w) e <> s).
  { intros j l' Hj Hne e He Heq. apply Hne. unfold i. rewrite <- Heq.
    rewrite Forall_forall in Hok.
    destruct (entry_ok_hash (strings w) e) as [<- _].
    - apply Hok, list_elem_of_In, in_concat. exists l'.
      split; [|by apply list_elem_of_In]. by apply list_elem_of_In, (list_elem_of_lookup_2 _ j).
    - rewrite (Hslots j l' e) by done. lia. }
  assert (Hnone : forall k (chs' : list (list entry)),
    (forall j l', chs' !! j = Some l' -> chs !! (k + j)%nat = Some l' /\ (k + j)%nat <> i) ->
    find_key (strings w) s (concat chs') = None).
  { intros k chs' Hsub. apply find_key_None. intros e He.
    apply list_elem_of_In, in_concat in He as (l' & Hl' & He).
    apply list_elem_of_In, list_elem_of_lookup in Hl' as (j & Hj).
    destruct (Hsub j l' Hj) as [H1 H2]. by apply (Hother _ _ H1 H2), list_elem_of_In. }
  rewrite <- (take_drop_middle chs i l) by done.
  rewrite concat_app. simpl. rewrite !find_key_app.
  rewrite (Hnone 0%nat), (Hnone (S i) (drop (S i) chs)).
  - by destruct (find_key _ s l).
  - intros j l' Hj. rewrite lookup_drop in Hj. split; [done|lia].
  - intros j l' Hj. apply lookup_take_Some in Hj as [Hj Hji]. split; [done|simpl; lia].
Qed.

(** ** The search loops *)

Section walks.
Context (w : world) (key : Z) (s : list Z).
Context (Hkey : strings w !! key = Some s) (Hs : good_key s).

Lemma good_c_chars s' : good_key s' -> c_chars s'.
Proof. intros [H _]. eapply Forall_impl; [exact H|]. intros c ?; simpl in *. lia. Qed.

Lemma node_matches_run e nx :
  e_loc e <> 0 -> heap w !! e_loc e = Some (node_words e nx) -> entry_ok (strings w) e ->
  node_matches (hash_of s) key (e_loc e) w = Ok (bool_decide (key_of (strings w) e = s), w).
Proof.
  intros Hne He (s' & Hs' & Hg & Hh). unfold node_matches.
  erewrite bind_Ok; [|by apply (load_node _ _ e nx)].
  unfold key_of. rewrite Hs'. simpl. rewrite Hh.
  destruct (Z.eqb_spec (hash_of s') (hash_of s)) as [Heq|Hneq].
  - erewrite bind_Ok; [|by apply (load_node _ _ e nx)].
    rewrite (bind_Ok _ _ _ s' w) by (unfold c_string; st_unfold; by rewrite Hs').
    rewrite (bind_Ok _ _ _ s w) by (unfold c_string; st_unfold; by rewrite Hkey).
    unfold mret, st_ret. by rewrite strcmp_eq by (by apply good_c_chars).
  - rewrite bool_decide_false; [done|]. by intros ->.
Qed.

Lemma lookup_walk_run p l :
  chain (heap w) p l -> NoDup (locs l) -> Forall (entry_ok (strings w)) l ->
  while_st (chain_fuel w) (lookup_walk (hash_of s) key) p w =
    Ok (default 0 (e_val <$> find_key (strings w) s l), w).
Proof.
  intros Hc Hnd Hok.
  apply (while_st_rule (fun k p' w' => exists l', w' = w /\ k = length l' /\ chain (heap w) p' l' /\
            Forall (entry_ok (strings w)) l' /\ find_key (strings w) s l' = find_key (strings w) s l)
         (fun r => r = Ok (default 0 (e_val <$> find_key (strings w) s l), w)) _ _ (length l)).
  - intros k p' w' (l' & -> & -> & Hc' & Hok' & <-). destruct l' as [|e l'].
    + simpl in Hc'. by subst p'.
    + destruct Hc' as (-> & Hne & nx & He & Hc'). apply Forall_cons in Hok' as [Hoke Hok'].
      unfold lookup_walk. rewrite (proj2 (Z.eqb_neq _ _)) by done.
      erewrite bind_Ok; [|by eapply node_matches_run].
      cbn [find_key]. case_bool_decide as Hk.
      * by erewrite bind_Ok; [|by apply (load_node _ _ e nx)].
      * erewrite bind_Ok; [|by apply (load_node _ _ e nx)].
        exists (length l'). split; [simpl; lia|]. by exists l'.
  - by exists l.
  - unfold chain_fuel. rewrite SuccNat2Pos.id_succ.
    pose proof (chain_length _ _ _ Hc Hnd). lia.
Qed.

(** The last node of a list, NULL when it has none. *)
Definition last_loc (l : list entry) : Z := default 0 (e_loc <$> last l).

Lemma insert_walk_run p l :
  chain (heap w) p l -> NoDup (locs l) -> Forall (entry_ok (strings w)) l ->
  Z.of_nat (length l) < 2 ^ 31 ->
  while_st (chain_fuel w) (insert_walk (hash_of s) key) (0, p, 0) w =
    Ok (match find_key (strings w) s l with
        | Some _ => None
        | None => Some (last_loc l, Z.of_nat (length l))
        end, w).
Proof.
  intros Hc Hnd Hok Hlen.
  apply (while_st_rule (fun k '(prev, p', coll) w' => exists l1 l', l = l1 ++ l' /\ w' = w /\
            k = length l' /\ chain (heap w) p' l' /\ find_key (strings w) s l1 = None /\
            prev = last_loc l1 /\ coll = Z.of_nat (length l1))
         (fun r => r = Ok (match find_key (strings w) s l with
            | Some _ => None | None => Some (last_loc l, Z.of_nat (length l)) end, w)) _ _ (length l)).
  - intros k [[prev p'] coll] w' (l1 & l' & -> & -> & -> & Hc' & Hno & -> & ->).
    rewrite find_key_app, Hno. apply Forall_app in Hok as [_ Hok'].
    destruct l' as [|e l'].
    + simpl in Hc'. subst p'. by rewrite app_nil_r.
    + destruct Hc' as (-> & Hne & nx & He & Hc'). apply Forall_cons in Hok' as [Hoke Hok'].
      unfold insert_walk. rewrite (proj2 (Z.eqb_neq _ _)) by done.
      erewrite bind_Ok; [|by eapply node_matches_run].
      cbn [find_key]. case_bool_decide as Hk; [done|].
      erewrite bind_Ok; [|by apply (load_node _ _ e nx)].
      rewrite length_app in Hlen. simpl in Hlen.
      unfold lift. rewrite (bind_Ok _ _ _ (Z.of_nat (length l1) + 1) w) by (by rewrite int_ok by lia).
      exists (length l'). split; [simpl; lia|]. exists (l1 ++ [e]), l'.
      split_and!; [by rewrite <- app_assoc|done|done|done| | |].
      * rewrite find_key_app, Hno. cbn [find_key]. by rewrite bool_decide_false.
      * unfold last_loc. by rewrite last_snoc.
      * rewrite length_app. simpl. lia.
  - by exists [], l.
  - unfold chain_fuel. rewrite SuccNat2Pos.id_succ.
    pose proof (chain_length _ _ _ Hc Hnd). lia.
Qed.
End walks.

(** ** Runs of the operations *)

(** [malloc] answers NULL, or an address of no block, and the new block is
    indeterminate. *)
Definition block_size (n : Z) : nat := Z.to_nat (n / sizeof_pointer).

Section runs.
Context `{MallocLaws}.

Lemma malloc_run w n :
  malloc n w =
    match malloc_pick (heap w) n with
    | None => Ok (0, w)
    | Some p => Ok (p, set_heap (<[p := replicate (block_size n) None]> (heap w)) w)
    end.
Proof.
  unfold malloc, malloc_words. st_unfold. destruct (malloc_pick _ _); [done|].
  by rewrite set_heap_id.
Qed.

Lemma slot_lookup w chs s :
  table_inv w chs ->
  exists heads hd l,
    heap w !! store (ht w) = Some (Some <$> heads) /\
    heads !! Z.to_nat (hash_of s mod ht_size (ht w)) = Some hd /\
    chs !! Z.to_nat (hash_of s mod ht_size (ht w)) = Some l /\
    Forall2 (chain (heap w)) heads chs /\ chain (heap w) hd l.
Proof.
  intros [[Hst0 (heads & Hh & Hc) Hsz Hpos _] _ _ _].
  pose proof (Z.mod_pos_bound (hash_of s) (ht_size (ht w)) ltac:(lia)).
  destruct (lookup_lt_is_Some_2 chs (Z.to_nat (hash_of s mod ht_size (ht w)))) as [l Hl]; [lia|].
  destruct (Forall2_lookup_r _ _ _ _ _ Hc Hl) as (hd & Hhd & Hcl).
  by exists heads, hd, l.
Qed.

Lemma chain_of_table w chs i l :
  table_inv w chs -> chs !! i = Some l ->
  NoDup (locs l) /\ Forall (entry_ok (strings w)) l /\ (length l <= length (concat chs))%nat.
Proof.
  intros [[_ _ _ _ Hnd] Hok _ _] Hl.
  destruct (concat_insert chs i l l Hl) as (r & HP & _).
  apply NoDup_cons in Hnd as [_ Hnd].
  rewrite (locs_perm _ _ HP), locs_app in Hnd. apply NoDup_app in Hnd as [Hnd _].
  rewrite HP in Hok. apply Forall_app in Hok as [Hok _].
  split_and!; [done|done|]. rewrite (Permutation_length HP), length_app. lia.
Qed.

Lemma htable_lookup_run w chs key s :
  table_inv w chs -> strings w !! key = Some s -> good_key s ->
  htable_lookup key w = Ok (default 0 (contents (strings w) (concat chs) !! s), w).
Proof.
  intros Hinv Hkey [Ha Hlen]. pose proof (hash_of_range s Ha) as Hh.
  destruct (slot_lookup w chs s Hinv) as (heads & hd & l & Hheads & Hhd & Hl & _ & Hc).
  destruct (chain_of_table _ _ _ _ Hinv Hl) as (Hnd & Hok & _).
  pose proof (ti_layout _ _ Hinv) as [Hst0 _ _ Hpos _].
  unfold htable_lookup.
  rewrite (bind_Ok _ _ _ s w) by (unfold c_string; st_unfold; by rewrite Hkey).
  rewrite (bind_Ok _ _ _ (hash_of s) w) by (unfold lift; by rewrite hashcode_run).
  rewrite (bind_Ok _ _ _ (ht w) w) by done.
  rewrite (bind_Ok _ _ _ (hash_of s mod ht_size (ht w)) w) by (unfold lift; by rewrite int_rem_ok by lia).
  rewrite (bind_Ok _ _ _ hd w); [|apply (load_head _ _ heads); [done|done|dlia|done]].
  rewrite (bind_Ok _ _ _ w w) by done.
  rewrite (lookup_walk_run w key s Hkey (conj Ha Hlen) _ l); [|done|done|done].
  by rewrite contents_lookup, (find_key_slot w chs s l).
Qed.

(** ** Linking a new node *)

Definition with_node (chs : list (list entry)) (i : nat) (e : entry) : list (list entry) :=
  alter (fun l => l ++ [e]) i chs.

Lemma with_node_insert chs i l e : chs !! i = Some l -> with_node chs i e = <[i := l ++ [e]]> chs.
Proof.
  intros Hl. unfold with_node. rewrite list_insert_alter. apply list_alter_ext; [|done].
  intros x. rewrite Hl. by intros [= ->].
Qed.

Lemma concat_with_node chs i l e :
  chs !! i = Some l -> concat (with_node chs i e) ≡ₚ e :: concat chs.
Proof.
  intros Hl. rewrite (with_node_insert _ _ l) by done.
  destruct (concat_insert chs i l (l ++ [e]) Hl) as (r & -> & ->).
  rewrite <- app_assoc. simpl. by rewrite <- Permutation_middle.
Qed.

Lemma with_node_in_slots n chs i l e :
  in_slots n chs -> chs !! i = Some l -> e_hash e mod n = Z.of_nat i ->
  in_slots n (with_node chs i e).
Proof.
  intros Hs Hl He j l' e' Hj He'. rewrite (with_node_insert _ _ l) in Hj by done.
  apply list_lookup_insert_Some in Hj as [(<- & <- & _)|[_ Hj]]; [|by apply (Hs j l')].
  apply elem_of_app in He' as [He'|He']; [by apply (Hs _ l)|].
  apply list_elem_of_singleton in He' as ->. done.
Qed.

Lemma layout_with_node t chs i l e :
  length chs = Z.to_nat (ht_size t) -> chs !! i = Some l ->
  NoDup (store t :: locs (concat chs)) -> e_loc e ∉ store t :: locs (concat chs) ->
  length (with_node chs i e) = Z.to_nat (ht_size t) /\
  NoDup (store t :: locs (concat (with_node chs i e))).
Proof.
  intros Hsz Hl Hnd Hnew. split; [unfold with_node; by rewrite length_alter|].
  pose proof (concat_with_node chs i l e Hl) as HP.
  rewrite not_elem_of_cons in Hnew. destruct Hnew as [Hnew1 Hnew2].
  apply NoDup_cons in Hnd as [Hnd1 Hnd2].
  apply NoDup_cons. rewrite (locs_perm _ _ HP). simpl. split.
  - by rewrite not_elem_of_cons.
  - by apply NoDup_cons.
Qed.

(** The two assignments that put the node [e] at the end of the list of
    slot [i]. *)
Lemma link_run (w : world) t heads chs i l e :
  store t <> 0 -> length chs = Z.to_nat (ht_size t) -> 0 < ht_size t < 2 ^ 31 ->
  NoDup (store t :: locs (concat chs)) ->
  heap w !! store t = Some (Some <$> heads) -> Forall2 (chain (heap w)) heads chs ->
  chs !! Z.to_nat i = Some l -> 0 <= i ->
  e_loc e <> 0 -> e_loc e ∉ store t :: locs (concat chs) ->
  heap w !! e_loc e = Some (node_words e 0) ->
  exists h',
    (if last_loc l =? 0 then store_at (store t) i (e_loc e)
     else store_at (last_loc l) node_next (e_loc e)) w = Ok (tt, set_heap h' w) /\
    layout h' t (with_node chs (Z.to_nat i) e) /\
    unchanged_outside (store t :: locs (concat chs)) (heap w) h'.
Proof.
  intros Hst0 Hsz Hpos Hnd Hheads Hcs Hl Hi He0 Hnew He.
  destruct (Forall2_lookup_r _ _ _ _ _ Hcs Hl) as (hd & Hhd & Hc).
  pose proof (layout_with_node t chs (Z.to_nat i) l e Hsz Hl Hnd Hnew) as [Hsz' Hnd'].
  rewrite not_elem_of_cons in Hnew. destruct Hnew as [Hnew1 Hnew2].
  apply NoDup_cons in Hnd as [Hst_nin Hnd].
  pose proof (lookup_lt_Some _ _ _ Hhd) as Hlt.
  assert (Hsub : forall x, x ∈ locs l -> x ∈ locs (concat chs)).
  { intros x. by apply (locs_in_concat chs (Z.to_nat i) l). }
  assert (Hndl : NoDup (locs l)).
  { destruct (concat_insert chs _ l l Hl) as (r & HP & _).
    rewrite (locs_perm _ _ HP), locs_app in Hnd. by apply NoDup_app in Hnd as [Hnd _]. }
  destruct l as [|e' l' _] using rev_ind.
  - simpl in Hc. subst hd. exists (<[store t := Some <$> <[Z.to_nat i := e_loc e]> heads]> (heap w)).
    change (last_loc [] =? 0) with true. cbv iota. split_and!.
    + rewrite (store_block _ _ (Some <$> heads)); [|done|done|rewrite length_fmap; lia].
      by rewrite list_fmap_insert.
    + split; [done| |done|done|done]. exists (<[Z.to_nat i := e_loc e]> heads).
      rewrite lookup_insert_eq. split; [done|]. rewrite (with_node_insert _ _ []) by done.
      apply Forall2_insert; [by apply chains_insert|].
      apply (chain_snoc_empty _ _ e); [done|done|]. by rewrite lookup_insert_ne by done.
    + apply unchanged_outside_insert. by left.
  - unfold last_loc. rewrite last_snoc. simpl.
    assert (He' : e' ∈ l' ++ [e']) by (apply elem_of_app; right; by left).
    destruct (chain_in _ _ _ _ Hc He') as (nx & Hp & Hne').
    assert (Hloc : e_loc e' ∈ locs (l' ++ [e'])) by (apply list_elem_of_fmap; by exists e').
    rewrite (proj2 (Z.eqb_neq _ _)) by done.
    exists (<[e_loc e' := node_words e' (e_loc e)]> (heap w)). split_and!.
    + by rewrite (store_block _ _ (node_words e' nx)).
    + split; [done| |done|done|done]. exists heads. split.
      * rewrite lookup_insert_ne; [done|]. intros E. apply Hst_nin. rewrite <- E. by apply Hsub.
      * apply Forall2_same_length_lookup_2.
        { rewrite Hsz', <- Hsz. by apply (Forall2_length _ _ _ Hcs). }
        intros j p c Hj Hcj. rewrite (with_node_insert _ _ (l' ++ [e'])) in Hcj by done.
        apply list_lookup_insert_Some in Hcj as [(<- & <- & _)|[Hij Hcj]].
        -- rewrite Hhd in Hj. injection Hj as <-. apply chain_snoc; try done.
           intros Hbad. by apply Hnew2, Hsub.
        -- apply chain_insert.
           ++ by apply (chains_disjoint chs (Z.to_nat i) j (l' ++ [e']) c).
           ++ by apply (Forall2_lookup_lr _ _ _ _ _ _ Hcs Hj).
    + apply unchanged_outside_insert. right. by apply Hsub.
Qed.

(** ** New nodes *)

Lemma new_node_run w hcode key val :
  new_node hcode key val w =
    match malloc_pick (heap w) sizeof_node with
    | None => Fault Undefined
    | Some p => Ok (p, set_heap (<[p := [Some hcode; Some key; Some val; Some 0]]> (heap w)) w)
    end.
Proof.
  unfold new_node.
  destruct (malloc_pick (heap w) sizeof_node) as [p|] eqn:Ep.
  2: { erewrite bind_Ok; [|by rewrite malloc_run, Ep]. done. }
  erewrite bind_Ok; [|by rewrite malloc_run, Ep].
  apply malloc_fresh in Ep as [Hp _]. assert (Hp0 : p <> 0) by lia.
  erewrite bind_Ok; [|apply (store_block _ p (replicate 4 None)); [done|apply lookup_insert_eq|done]].
  erewrite bind_Ok; [|eapply (store_block _ p); [done|apply lookup_insert_eq|done]].
  erewrite bind_Ok; [|eapply (store_block _ p); [done|apply lookup_insert_eq|done]].
  erewrite bind_Ok; [|eapply (store_block _ p); [done|apply lookup_insert_eq|done]].
  unfold mret, st_ret. simpl. unfold set_heap. simpl. by rewrite !insert_insert_eq.
Qed.

(** ** New arrays *)

Lemma array_bytes n : 0 <= n < 2 ^ 31 ->
  u64 (sizeof_pointer * u64 n) = 8 * n /\ block_size (8 * n) = Z.to_nat n.
Proof.
  intros Hn. unfold sizeof_pointer. rewrite (u64_id n) by lia.
  rewrite (u64_id (8 * n)) by lia. split; [done|].
  unfold block_size, sizeof_pointer. f_equal. rewrite Z.mul_comm, Z.div_mul; lia.
Qed.

(** [bzero] of a new array: every slot is an empty list. *)
Lemma bzero_run w p n :
  0 <= n -> p <> 0 -> heap w !! p = Some (replicate (Z.to_nat n) None) ->
  bzero p (8 * n) w = Ok (tt, set_heap (<[p := Some <$> replicate (Z.to_nat n) 0]> (heap w)) w).
Proof.
  intros Hn Hp Hl. unfold bzero, bzero_words. st_unfold.
  rewrite (block_of_ok _ _ (replicate (Z.to_nat n) None)) by done.
  unfold sizeof_pointer. rewrite (Z.mul_comm 8 n), Z.div_mul by lia.
  rewrite length_replicate, Z2Nat.id by done. unfold guard_. rewrite Z.leb_refl.
  by rewrite drop_replicate, Nat.sub_diag, app_nil_r, fmap_replicate.
Qed.

Lemma empty_chains h n : Forall2 (chain h) (replicate n 0) (replicate n []).
Proof. by apply Forall2_replicate. Qed.

(** ** Resizing *)

Definition resized (n : Z) (p : Z) (t : htable) : htable :=
  {| allow_resize := allow_resize t; store := p; ht_size := n |}.

Lemma rehash_layout w chs (p n : Z) h' :
  layout (heap w) (ht w) chs -> p <> 0 -> 0 < n < 2 ^ 31 ->
  p ∉ store (ht w) :: locs (concat chs) ->
  shape h' p (rehash n (concat chs)) 0 [] [] [] ->
  layout (delete (store (ht w)) h') (resized n p (ht w)) (rehash n (concat chs)).
Proof.
  intros [Hst0 _ _ _ Hnd] Hp Hn Hpn [(nheads & Hnh & Hnc) _ _ Hnd'].
  simpl in Hnd'. split; simpl; [done| |apply length_rehash|done|done].
  exists nheads. rewrite not_elem_of_cons in Hpn. split; [by rewrite lookup_delete_ne by naive_solver|].
  apply (chains_ext h'); [|done]. intros q Hq. apply lookup_delete_ne. intros <-.
  apply NoDup_cons in Hnd as [Hnin _]. apply Hnin.
  by rewrite <- (locs_perm _ _ (concat_rehash n (concat chs) (proj1 Hn))).
Qed.

Definition least_prime_from (k n : Z) : Prop :=
  k <= n < 2 ^ 31 /\ passes n /\ forall j, k <= j < n -> ~ passes j.

Lemma table_inv_rehash w chs n w' :
  table_inv w chs -> 0 < n -> strings w' = strings w -> ht_size (ht w') = n ->
  layout (heap w') (ht w') (rehash n (concat chs)) ->
  table_inv w' (rehash n (concat chs)).
Proof.
  intros [_ Hok Hnd _] Hn Hstr Hsz Hly. pose proof (concat_rehash n (concat chs) Hn) as HP.
  split; [done| | |].
  - by rewrite Hstr, HP.
  - by rewrite Hstr, HP.
  - rewrite Hsz. by apply rehash_in_slots.
Qed.

Lemma fresh_loc w chs p :
  layout (heap w) (ht w) chs -> heap w !! p = None -> p ∉ store (ht w) :: locs (concat chs).
Proof.
  intros [_ (heads & Hh & Hc) _ _ _] Hp [->|Hin]%elem_of_cons; [by rewrite Hh in Hp|].
  by apply (chains_allocated _ _ _ _ Hc Hp).
Qed.

(** The new array before the first node moves. *)
Lemma resize_start w chs heads p n :
  layout (heap w) (ht w) chs -> Forall2 (chain (heap w)) heads chs ->
  p ∉ store (ht w) :: locs (concat chs) ->
  shape (<[p := Some <$> replicate (Z.to_nat n) 0]> (heap w)) p
    (replicate (Z.to_nat n) []) 0 [] heads chs.
Proof.
  intros [_ _ _ _ Hnd] Hc Hp. rewrite not_elem_of_cons in Hp. destruct Hp as [_ Hpl].
  apply NoDup_cons in Hnd as [_ Hnd]. split.
  - exists (replicate (Z.to_nat n) 0). rewrite lookup_insert_eq. split; [done|]. apply empty_chains.
  - done.
  - by apply chains_insert.
  - simpl. rewrite concat_replicate_nil, app_nil_r. by apply NoDup_cons.
Qed.

(** Moving all nodes to a new array at [p]. *)
Lemma resize_move_run w chs heads p n :
  table_inv w chs -> heap w !! store (ht w) = Some (Some <$> heads) ->
  Forall2 (chain (heap w)) heads chs -> 0 < n < 2 ^ 31 -> p <> 0 ->
  p ∉ store (ht w) :: locs (concat chs) ->
  let w1 := set_heap (<[p := Some <$> replicate (Z.to_nat n) 0]> (heap w)) w in
  exists h2,
    foldM (fun _ i =>
      curr ← load (store (ht w)) i;
      w ← get;
      while_st (chain_fuel w) (resize_node p n) curr) tt (seqZ 0 (ht_size (ht w))) w1
    = Ok (tt, set_heap h2 w1) /\
    shape h2 p (rehash n (concat chs)) 0 [] [] [] /\
    unchanged_outside (p :: locs (concat chs)) (heap w1) h2.
Proof.
  intros Hinv Hh Hc Hn Hp Hpn w1. pose proof (ti_layout _ _ Hinv) as Hly.
  pose proof Hly as [Hst0 _ Hsz Hpos Hnd].
  pose proof (resize_start w chs heads p n Hly Hc Hpn) as Hsh0.
  rewrite not_elem_of_cons in Hpn. destruct Hpn as [Hps Hpl]. apply NoDup_cons in Hnd as [Hnd1 _].
  destruct (resize_lists_run p n Hp Hn chs heads w1 (replicate (Z.to_nat n) []) 0 heads)
    as (h2 & Hrun & Hsh & Hun); simpl.
  { done. }
  { apply length_replicate. }
  { eapply Forall_impl; [apply (ti_entries _ _ Hinv)|]. apply entry_hash_nonneg. }
  { done. }
  { by rewrite lookup_insert_ne by done. }
  { rewrite not_elem_of_cons. split; [naive_solver|done]. }
  { lia. }
  { done. }
  exists h2. split; [|by split]. rewrite <- Hrun.
  replace (ht_size (ht w)) with (Z.of_nat (length heads)); [done|].
  rewrite (Forall2_length _ _ _ Hc), Hsz. lia.
Qed.

Lemma htable_resize_run w chs :
  table_inv w chs -> ht_size (ht w) < 2 ^ 30 ->
  exists n, least_prime_from (2 * ht_size (ht w)) n /\
    match malloc_pick (heap w) (8 * n) with
    | None => htable_resize w = Fault AssertFailed
    | Some p => exists w',
        htable_resize w = Ok (tt, w') /\
        table_inv w' (rehash n (concat chs)) /\
        ht w' = resized n p (ht w) /\ strings w' = strings w /\
        heap w' !! store (ht w) = None /\ p ∉ store (ht w) :: locs (concat chs) /\
        unchanged_outside (p :: store (ht w) :: locs (concat chs)) (heap w) (heap w')
    end.
Proof.
  intros Hinv Hsmall. pose proof (ti_layout _ _ Hinv) as Hly.
  pose proof Hly as [Hst0 (heads & Hh & Hc) _ Hpos Hnd].
  destruct (get_prime_run (2 * ht_size (ht w))) as (n & Hgp & Hn); [lia|].
  exists n. split; [done|]. destruct Hn as [Hn _]. assert (Hn0 : 0 < n < 2 ^ 31) by lia.
  destruct (array_bytes n ltac:(lia)) as [Hbytes Hblock].
  unfold htable_resize. rewrite (bind_Ok _ _ _ (ht w) w) by done.
  rewrite (bind_Ok _ _ _ (2 * ht_size (ht w)) w) by (unfold lift; by rewrite int_ok by lia).
  rewrite (bind_Ok _ _ _ n w) by (unfold lift; by rewrite Hgp). rewrite Hbytes.
  destruct (malloc_pick (heap w) (8 * n)) as [p|] eqn:Ep.
  2: { erewrite bind_Ok; [|by rewrite malloc_run, Ep]. done. }
  erewrite bind_Ok; [|by rewrite malloc_run, Ep].
  apply malloc_fresh in Ep as [Hp Hfree]. assert (Hp0 : p <> 0) by lia.
  pose proof (fresh_loc _ _ _ Hly Hfree) as Hpn.
  rewrite (proj2 (Z.eqb_neq p 0)), Hblock by done. erewrite bind_Ok; [|done].
  erewrite bind_Ok; [|apply bzero_run; [lia|done|apply lookup_insert_eq]].
  simpl heap. rewrite insert_insert_eq, set_heap_set_heap.
  destruct (resize_move_run w chs heads p n Hinv Hh Hc Hn0 Hp0 Hpn) as (h2 & Hrun & Hsh & Hun).
  rewrite (bind_Ok _ _ _ _ _ Hrun). erewrite bind_Ok; [|done].
  assert (Hps : store (ht w) ∉ p :: locs (concat chs)).
  { rewrite not_elem_of_cons in *. apply NoDup_cons in Hnd as [Hnin _]. naive_solver. }
  erewrite bind_Ok; [|apply (free_block _ _ (Some <$> heads)); [done|]].
  2: { simpl. rewrite Hun by done. simpl. rewrite lookup_insert_ne; [done|set_solver]. }
  eexists. split; [reflexivity|]. simpl. split_and!; [|done|done|apply lookup_delete_eq|done|].
  - apply (table_inv_rehash w); [done|lia|done|done|]. by apply (rehash_layout w).
  - transitivity (<[p := Some <$> replicate (Z.to_nat n) 0]> (heap w)); [|transitivity h2].
    + apply unchanged_outside_insert. by left.
    + apply (unchanged_outside_mono (p :: locs (concat chs))); [set_solver|done].
    + apply unchanged_outside_delete. set_solver.
Qed.

(** ** Insertion *)

Lemma table_inv_with_node w chs l e w' :
  table_inv w chs -> strings w' = strings w -> ht w' = ht w ->
  chs !! Z.to_nat (e_hash e mod ht_size (ht w)) = Some l ->
  find_key (strings w) (key_of (strings w) e) l = None ->
  entry_ok (strings w) e ->
  layout (heap w') (ht w') (with_node chs (Z.to_nat (e_hash e mod ht_size (ht w))) e) ->
  table_inv w' (with_node chs (Z.to_nat (e_hash e mod ht_size (ht w))) e).
Proof.
  intros Hinv Hstr Hht Hl Hfind He Hly.
  pose proof Hinv as [[_ _ _ Hpos _] Hok Hnd Hsl].
  pose proof (Z.mod_pos_bound (e_hash e) (ht_size (ht w)) ltac:(lia)) as Hb.
  pose proof (concat_with_node chs _ l e Hl) as HP.
  split; [done| | |].
  - rewrite Hstr, HP. by constructor.
  - rewrite Hstr, HP. simpl. apply NoDup_cons. split; [|done].
    intros (e' & Heq & He')%list_elem_of_fmap.
    destruct (entry_ok_hash _ _ He) as [Hhash _]. rewrite Hhash in Hl.
    rewrite <- (find_key_slot w chs _ l Hinv Hl) in Hfind.
    rewrite find_key_None in Hfind. by apply (Hfind e').
  - rewrite Hht. apply (with_node_in_slots _ _ _ l); [done|done|]. lia.
Qed.

(** The part of [htable_insert] that follows the search. *)
Definition insert_rest (key val hcode slot prev collision : Z) (t : htable) : ST world Z :=
  n ← new_node hcode key val;
  (if prev =? 0 then store_at (store t) slot n
   else store_at prev node_next n);;
  (if negb (allow_resize t =? 0) && (collision >=? MAX_COLLISION)
   then htable_resize else mret tt);;
  mret 0.

Lemma insert_search_run w chs key val s l :
  table_inv w chs -> strings w !! key = Some s -> good_key s ->
  Z.of_nat (length (concat chs)) < 2 ^ 31 ->
  chs !! Z.to_nat (hash_of s mod ht_size (ht w)) = Some l ->
  htable_insert key val w =
    match find_key (strings w) s l with
    | Some _ => Ok (1, w)
    | None => insert_rest key val (hash_of s) (hash_of s mod ht_size (ht w))
                (last_loc l) (Z.of_nat (length l)) (ht w) w
    end.
Proof.
  intros Hinv Hkey [Ha Hlen] Hcount Hl. pose proof (hash_of_range s Ha) as Hh.
  destruct (slot_lookup w chs s Hinv) as (heads & hd & l' & Hheads & Hhd & Hl' & _ & Hc).
  rewrite Hl in Hl'. injection Hl' as <-.
  destruct (chain_of_table _ _ _ _ Hinv Hl) as (Hnd & Hok & Hle).
  pose proof (ti_layout _ _ Hinv) as [Hst0 _ _ Hpos _].
  unfold htable_insert.
  rewrite (bind_Ok _ _ _ s w) by (unfold c_string; st_unfold; by rewrite Hkey).
  rewrite (bind_Ok _ _ _ (hash_of s) w) by (unfold lift; by rewrite hashcode_run).
  rewrite (bind_Ok _ _ _ (ht w) w) by done.
  rewrite (bind_Ok _ _ _ (hash_of s mod ht_size (ht w)) w) by (unfold lift; by rewrite int_rem_ok by lia).
  rewrite (bind_Ok _ _ _ hd w); [|apply (load_head _ _ heads); [done|done|dlia|done]].
  rewrite (bind_Ok _ _ _ w w) by done.
  erewrite bind_Ok; [|apply (insert_walk_run w key s Hkey (conj Ha Hlen) _ l); [done|done|done|lia]].
  by destruct (find_key (strings w) s l).
Qed.

Lemma insert_link_run w chs key val s l p :
  table_inv w chs -> strings w !! key = Some s -> good_key s ->
  chs !! Z.to_nat (hash_of s mod ht_size (ht w)) = Some l ->
  find_key (strings w) s l = None ->
  malloc_pick (heap w) sizeof_node = Some p ->
  exists w1 chs1,
    insert_rest key val (hash_of s) (hash_of s mod ht_size (ht w))
      (last_loc l) (Z.of_nat (length l)) (ht w) w =
      ((if negb (allow_resize (ht w) =? 0) && (Z.of_nat (length l) >=? MAX_COLLISION)
        then htable_resize else mret tt);; mret 0) w1 /\
    table_inv w1 chs1 /\
    concat chs1 ≡ₚ {| e_loc := p; e_hash := hash_of s; e_key := key; e_val := val |} :: concat chs /\
    ht w1 = ht w /\ strings w1 = strings w /\
    unchanged_outside (p :: store (ht w) :: locs (concat chs)) (heap w) (heap w1).
Proof.
  intros Hinv Hkey Hs Hl Hfind Ep.
  pose proof (ti_layout _ _ Hinv) as Hly. pose proof Hly as [Hst0 (heads & Hheads & Hc) Hsz Hpos Hnd].
  set (e := {| e_loc := p; e_hash := hash_of s; e_key := key; e_val := val |}).
  set (i := hash_of s mod ht_size (ht w)) in *.
  pose proof (Z.mod_pos_bound (hash_of s) (ht_size (ht w)) ltac:(lia)) as Hi.
  unfold insert_rest. erewrite bind_Ok; [|by rewrite new_node_run, Ep].
  apply malloc_fresh in Ep as [Hp Hfree]. pose proof (fresh_loc _ _ _ Hly Hfree) as Hpn.
  pose proof Hpn as Hpn'. rewrite not_elem_of_cons in Hpn'. destruct Hpn' as [Hps Hpl].
  set (w0 := set_heap (<[p := node_words e 0]> (heap w)) w).
  destruct (link_run w0 (ht w) heads chs i l e) as (h' & Hlink & Hly' & Hun).
  { done. } { done. } { done. } { done. }
  { simpl. by rewrite lookup_insert_ne. }
  { by apply chains_insert. }
  { done. } { unfold i. lia. } { simpl. lia. } { done. }
  { simpl. apply lookup_insert_eq. }
  exists (set_heap h' w0), (with_node chs (Z.to_nat i) e). split_and!.
  - by rewrite (bind_Ok _ _ _ tt (set_heap h' w0)).
  - apply (table_inv_with_node w chs l e); [done|done|done|done| |by exists s|done].
    unfold key_of. simpl. by rewrite Hkey.
  - by apply (concat_with_node chs _ l).
  - done.
  - done.
  - transitivity (heap w0).
    + apply unchanged_outside_insert. by left.
    + apply (unchanged_outside_mono (store (ht w) :: locs (concat chs))); [|done].
      intros q ?. by right.
Qed.

(** ** Destruction *)

Lemma free_all_then ps qs h : free_all qs (free_all ps h) = free_all (ps ++ qs) h.
Proof.
  apply map_eq. intros q. rewrite !lookup_free_all.
  repeat case_decide; set_solver.
Qed.

Lemma chains_free_all ps h heads chs :
  (forall q, q ∈ locs (concat chs) -> q ∉ ps) -> Forall2 (chain h) heads chs ->
  Forall2 (chain (free_all ps h)) heads chs.
Proof.
  intros Hps. apply chains_ext. intros q Hq. rewrite lookup_free_all, decide_False; [done|].
  by apply Hps.
Qed.

Lemma destroy_lists_run : forall chs heads (w : world) k heads0,
  Forall2 (chain (heap w)) heads chs -> NoDup (store (ht w) :: locs (concat chs)) ->
  store (ht w) <> 0 -> heap w !! store (ht w) = Some (Some <$> heads0) ->
  0 <= k -> drop (Z.to_nat k) heads0 = heads ->
  foldM (fun _ i =>
    p ← load (store (ht w)) i;
    w ← get;
    free_linked_list (Pos.to_nat (chain_fuel w)) p) tt (seqZ k (Z.of_nat (length heads))) w
  = Ok (tt, set_heap (free_all (locs (concat chs)) (heap w)) w).
Proof.
  induction chs as [|l chs IH]; intros heads w k heads0 Hc Hnd Hs0 Hst Hk Hdrop.
  - apply Forall2_nil_inv_r in Hc as ->. simpl. by rewrite set_heap_id.
  - apply Forall2_cons_inv_r in Hc as (hd & heads' & Hhd & Hc & ->).
    simpl in Hnd. rewrite locs_app in Hnd. apply NoDup_cons in Hnd as [Hst_nin Hnd].
    rewrite not_elem_of_app in Hst_nin. destruct Hst_nin as [Hs1 Hs2].
    apply NoDup_app in Hnd as (Hnd1 & Hdisj & Hnd2).
    simpl length. rewrite Nat2Z.inj_succ, seqZ_cons by lia. cbn [foldM].
    replace (Z.pred (Z.succ (Z.of_nat (length heads')))) with (Z.of_nat (length heads')) by lia.
    assert (Hhead : heads0 !! Z.to_nat k = Some hd).
    { rewrite <- (Nat.add_0_r (Z.to_nat k)), <- lookup_drop, Hdrop. done. }
    rewrite (bind_Ok _ _ _ tt (set_heap (free_all (locs l) (heap w)) w)).
    2: { erewrite bind_Ok; [|by apply (load_head _ _ heads0)].
         rewrite (bind_Ok _ _ _ w w) by done. apply free_linked_list_run; [done|done|].
         unfold chain_fuel. rewrite SuccNat2Pos.id_succ.
         pose proof (chain_length _ _ _ Hhd Hnd1). lia. }
    assert (Hdisj' : forall q, q ∈ locs (concat chs) -> q ∉ locs l).
    { intros q Hq Hq'. by apply (Hdisj q). }
    pose proof (IH heads' (set_heap (free_all (locs l) (heap w)) w) (Z.succ k) heads0) as IHk.
    simpl in IHk. rewrite IHk.
    + cbn [concat]. by rewrite locs_app, free_all_then.
    + by apply chains_free_all.
    + by apply NoDup_cons.
    + done.
    + by rewrite lookup_free_all, decide_False.
    + lia.
    + rewrite Z2Nat.inj_succ by done. rewrite <- Nat.add_1_r, <- drop_drop, Hdrop. done.
Qed.

Lemma htable_destroy_run w chs :
  layout (heap w) (ht w) chs ->
  htable_destroy w =
    Ok (tt, set_heap (free_all (store (ht w) :: locs (concat chs)) (heap w)) w).
Proof.
  intros [Hst0 (heads & Hh & Hc) Hsz Hpos Hnd].
  unfold htable_destroy. rewrite (bind_Ok _ _ _ w w) by done.
  pose proof (destroy_lists_run chs heads w 0 heads Hc Hnd Hst0 Hh ltac:(lia) eq_refl) as Hrun.
  replace (Z.of_nat (length heads)) with (ht_size (ht w)) in Hrun
    by (rewrite (Forall2_length _ _ _ Hc), Hsz; lia).
  rewrite (bind_Ok _ _ _ _ _ Hrun).
  apply NoDup_cons in Hnd as [Hnin _].
  rewrite (free_block _ _ (Some <$> heads)); [done|done|]. simpl.
  by rewrite lookup_free_all, decide_False.
Qed.

(** ** Initialisation *)

Lemma htable_init_run w sz allow :
  0 <= sz < 2 ^ 31 - 1 ->
  exists n, least_prime_from (sz + 1) n /\
    match malloc_pick (heap w) (8 * n) with
    | None => htable_init sz allow w = Fault AssertFailed
    | Some p => exists w',
        htable_init sz allow w = Ok (tt, w') /\
        table_inv w' (replicate (Z.to_nat n) []) /\
        ht w' = {| allow_resize := allow; store := p; ht_size := n |} /\
        strings w' = strings w /\ heap w !! p = None /\
        heap w' = <[p := Some <$> replicate (Z.to_nat n) 0]> (heap w)
    end.
Proof.
  intros Hsz. destruct (get_prime_run (sz + 1)) as (n & Hgp & Hn); [lia|].
  exists n. split; [done|]. destruct Hn as [Hn _].
  destruct (array_bytes n ltac:(lia)) as [Hbytes Hblock].
  unfold htable_init.
  rewrite (bind_Ok _ _ _ (sz + 1) w) by (unfold lift; by rewrite int_ok by lia).
  rewrite (bind_Ok _ _ _ n w) by (unfold lift; by rewrite Hgp).
  rewrite Hbytes.
  destruct (malloc_pick (heap w) (8 * n)) as [p|] eqn:Ep.
  2: { erewrite bind_Ok; [|by rewrite malloc_run, Ep]. done. }
  erewrite bind_Ok; [|by rewrite malloc_run, Ep].
  apply malloc_fresh in Ep as [Hp Hfree]. assert (Hp0 : p <> 0) by lia.
  erewrite bind_Ok; [|done]. rewrite (proj2 (Z.eqb_neq p 0)) by done. rewrite Hblock.
  erewrite bind_Ok; [|done].
  rewrite bzero_run; [|lia|done|apply lookup_insert_eq].
  eexists. split; [reflexivity|]. simpl. rewrite insert_insert_eq.
  split_and!; [|done|done|done|done].
  split; simpl; rewrite ?concat_replicate_nil.
  - split; simpl; [done| |apply length_replicate|lia|].
    + exists (replicate (Z.to_nat n) 0). rewrite lookup_insert_eq. split; [done|]. apply empty_chains.
    + rewrite concat_replicate_nil. apply NoDup_singleton.
  - done.
  - constructor.
  - intros i l e [-> _]%lookup_replicate He. by apply elem_of_nil in He.
Qed.
End runs.
