(* ===== verification/HtableSpec.v ===== *)
(** * Properties of threadlab/htable.c

    What a client of the hash table may rely on, stated with the map the
    table stands for; and where the code stops short of its comments. *)

From Stdlib Require Import Znumtheory.
From S2P Require Import Prelude Words Primes Htable HtableChains HtableResize HtableInv.

(** ** A table on top of a heap

    [table_over h0 w m]: the world [w] has the blocks of [h0], untouched, and
    besides them exactly the blocks of a table that stands for [m]. *)
Definition table_over (h0 : words) (w : world) (m : gmap (list Z) Z) : Prop :=
  exists own, table w m own /\
    (forall p, p ∉ own -> heap w !! p = h0 !! p) /\
    (forall p, p ∈ own -> h0 !! p = None).

(** ** A client's session *)

Inductive table_op :=
  | Insert (key val : Z)
  | Lookup (key : Z).

Definition run_op `{Malloc} (op : table_op) : ST world Z :=
  match op with
  | Insert key val => htable_insert key val
  | Lookup key => htable_lookup key
  end.

Fixpoint run_ops `{Malloc} (ops : list table_op) : ST world (list Z) :=
  match ops with
  | [] => mret []
  | op :: ops => r ← run_op op; rs ← run_ops ops; mret (r :: rs)
  end.

(** From [htable_init] to [htable_destroy]. *)
Definition session `{Malloc} (sz allow : Z) (ops : list table_op) : ST world (list Z) :=
  htable_init sz allow;; rs ← run_ops ops; htable_destroy;; mret rs.

(** The same on a map from strings. *)
Definition spec_op (strs : gmap Z (list Z)) (op : table_op) (m : gmap (list Z) Z)
    : Z * gmap (list Z) Z :=
  match op with
  | Insert key val =>
      let s := default [] (strs !! key) in
      match m !! s with Some _ => (1, m) | None => (0, <[s := val]> m) end
  | Lookup key => (default 0 (m !! default [] (strs !! key)), m)
  end.

Fixpoint spec_ops (strs : gmap Z (list Z)) (ops : list table_op) (m : gmap (list Z) Z)
    : list Z :=
  match ops with
  | [] => []
  | op :: ops => let '(r, m) := spec_op strs op m in r :: spec_ops strs ops m
  end.

Definition op_key (op : table_op) : Z :=
  match op with Insert key _ | Lookup key => key end.

Definition op_ok (strs : gmap Z (list Z)) (op : table_op) : Prop :=
  exists s, strs !! op_key op = Some s /\ good_key s.

(** The number of keys in the slot of [s], when there are [n] slots; whether
    an insertion of [s] makes the table grow. *)
Definition same_slot (n : Z) (s : list Z) (kv : list Z * Z) : Prop := hash_of kv.1 mod n = hash_of s mod n.

#[export] Instance same_slot_dec n s kv : Decision (same_slot n s kv).
Proof. unfold same_slot. apply _. Defined.

Definition collisions (n : Z) (s : list Z) (m : gmap (list Z) Z) : nat := size (filter (same_slot n s) m).
Definition must_resize (t : htable) (s : list Z) (m : gmap (list Z) Z) : bool :=
  negb (allow_resize t =? 0) && (MAX_COLLISION <=? Z.of_nat (collisions (ht_size t) s m)).

(** ** Tables on top of a heap: lemmas *)

Section over.
Context `{MallocLaws}.
Implicit Types (w : world) (m : gmap (list Z) Z).

Lemma table_over_intro h0 w chs w' chs' own :
  table_inv w chs -> table_inv w' chs' ->
  own = store (ht w) :: locs (concat chs) ->
  (forall p, p ∉ own -> heap w !! p = h0 !! p) ->
  (forall p, p ∈ own -> h0 !! p = None) ->
  (forall p, p ∈ store (ht w') :: locs (concat chs') -> p ∈ own \/ heap w !! p = None) ->
  (forall p, p ∉ store (ht w') :: locs (concat chs') -> p ∉ own -> heap w' !! p = heap w !! p) ->
  (forall p, p ∉ store (ht w') :: locs (concat chs') -> p ∈ own -> heap w' !! p = None) ->
  table_over h0 w' (contents (strings w') (concat chs')).
Proof.
  intros Hi Hi' Hown Hout Hin Hnew Hkeep Hgone.
  exists (store (ht w') :: locs (concat chs')). split_and!.
  - by exists chs'.
  - intros p Hp. destruct (decide (p ∈ own)) as [Ho|Ho].
    + rewrite Hgone by done. symmetry. by apply Hin.
    + rewrite Hkeep by done. by apply Hout.
  - intros p [Ho|Hfree]%Hnew; [by apply Hin|].
    destruct (decide (p ∈ own)) as [Ho|Ho]; [by apply Hin|]. by rewrite <- Hout.
Qed.

(** The heap has the blocks of [h0], one per key and one for the array. *)
Lemma table_over_size h0 w m :
  table_over h0 w m -> size (heap w) = (size h0 + S (size m))%nat.
Proof.
  intros (own & (chs & [[Hst0 (heads & Hh & Hc) _ _ Hnd] _ Hkeys _] & -> & ->) & Hout & Hin).
  rewrite size_contents by done.
  assert (Hdom : dom (heap w) = dom h0 ∪ (list_to_set (store (ht w) :: locs (concat chs)) : gset Z)).
  { apply set_eq. intros p. rewrite elem_of_union, !elem_of_dom, elem_of_list_to_set.
    destruct (decide (p ∈ store (ht w) :: locs (concat chs))) as [Ho|Ho].
    - split; [by right|]. intros _. apply elem_of_cons in Ho as [->|Ho]; [by rewrite Hh|].
      destruct (heap w !! p) eqn:E; [done|]. by destruct (chains_allocated _ _ _ _ Hc E Ho).
    - rewrite Hout by done. tauto. }
  rewrite <- (size_dom (D := gset Z) (heap w)), Hdom, size_union, size_dom, size_list_to_set.
  - simpl. unfold locs. rewrite length_fmap. done.
  - done.
  - intros p Hp1 Hp2. apply elem_of_list_to_set in Hp2. apply Hin in Hp2.
    by rewrite elem_of_dom, Hp2 in Hp1.
Qed.

Lemma table_over_init w sz allow :
  0 <= sz < 2 ^ 31 - 1 ->
  exists n, least_prime_from (sz + 1) n /\
    match malloc_pick (heap w) (8 * n) with
    | None => htable_init sz allow w = Fault AssertFailed
    | Some p => exists w',
        htable_init sz allow w = Ok (tt, w') /\ table_over (heap w) w' ∅ /\
        ht w' = {| allow_resize := allow; store := p; ht_size := n |} /\
        strings w' = strings w
    end.
Proof.
  intros Hsz. destruct (htable_init_run w sz allow Hsz) as (n & Hn & Hrun).
  exists n. split; [done|]. destruct (malloc_pick _ _) as [p|]; [|done].
  destruct Hrun as (w' & Hrun & Hinv & Hht & Hstr & Hp & Hheap).
  exists w'. split_and!; [done| |done|done].
  exists [p]. split_and!.
  - exists (replicate (Z.to_nat n) []). rewrite concat_replicate_nil, Hht. by split_and!.
  - intros q Hq. rewrite Hheap. apply lookup_insert_ne. intros ->. apply Hq. by left.
  - intros q ->%list_elem_of_singleton. done.
Qed.

Lemma table_over_lookup h0 w m key s :
  table_over h0 w m -> strings w !! key = Some s -> good_key s ->
  htable_lookup key w = Ok (default 0 (m !! s), w).
Proof.
  intros (own & (chs & Hinv & -> & _) & _) Hkey Hs. by apply htable_lookup_run.
Qed.

Lemma table_over_resize h0 w m :
  table_over h0 w m -> ht_size (ht w) < 2 ^ 30 ->
  exists n, least_prime_from (2 * ht_size (ht w)) n /\
    match malloc_pick (heap w) (8 * n) with
    | None => htable_resize w = Fault AssertFailed
    | Some p => exists w',
        htable_resize w = Ok (tt, w') /\ table_over h0 w' m /\
        ht w' = resized n p (ht w) /\ strings w' = strings w
    end.
Proof.
  intros (own & (chs & Hinv & -> & ->) & Hout & Hin) Hsmall.
  destruct (htable_resize_run w chs Hinv Hsmall) as (n & Hn & Hrun).
  exists n. split; [done|]. destruct (malloc_pick _ _) as [p|] eqn:Ep; [|done].
  destruct Hrun as (w' & Hrun & Hinv' & Hht & Hstr & Hold & Hp & Hun).
  exists w'. split_and!; [done| |done|done].
  assert (Hn0 : 0 < n) by (destruct Hn as [Hn _]; pose proof (ly_pos _ _ _ (ti_layout _ _ Hinv)); lia).
  pose proof (concat_rehash n (concat chs) Hn0) as HP.
  rewrite <- (contents_perm (strings w) (concat (rehash n (concat chs)))).
  2: { rewrite HP. apply (ti_keys _ _ Hinv). }
  2: { done. }
  rewrite <- Hstr.
  assert (Hown : forall q, q ∈ store (ht w') :: locs (concat (rehash n (concat chs))) <->
            q = p \/ q ∈ locs (concat chs)).
  { intros q. rewrite elem_of_cons, (locs_perm _ _ HP), Hht. done. }
  apply malloc_fresh in Ep as [_ Hfree].
  apply (table_over_intro h0 w chs w' _ (store (ht w) :: locs (concat chs))); try done.
  - intros q [->|Hq]%Hown; [by right|]. left. by right.
  - intros q Hq1 Hq2. apply Hun. rewrite Hown in Hq1. rewrite elem_of_cons. tauto.
  - intros q Hq1 Hq2. rewrite Hown in Hq1. apply elem_of_cons in Hq2 as [->|Hq2]; [done|]. tauto.
Qed.

Lemma table_over_destroy h0 w m :
  table_over h0 w m -> htable_destroy w = Ok (tt, set_heap h0 w).
Proof.
  intros (own & (chs & Hinv & -> & ->) & Hout & Hin).
  rewrite (htable_destroy_run w chs (ti_layout _ _ Hinv)). do 3 f_equal.
  apply map_eq. intros p. rewrite lookup_free_all.
  case_decide as Hp; [symmetry; by apply Hin|by apply Hout].
Qed.

Lemma slot_length w chs s l :
  table_inv w chs -> chs !! Z.to_nat (hash_of s mod ht_size (ht w)) = Some l ->
  collisions (ht_size (ht w)) s (contents (strings w) (concat chs)) = length l.
Proof.
  intros Hinv Hl. destruct (concat_insert chs _ l l Hl) as (r & HP & _).
  pose proof Hinv as [[_ _ _ Hpos _] Hok Hnd Hslots].
  assert (Hndl : NoDup (key_of (strings w) <$> l)).
  { rewrite HP, fmap_app in Hnd. by apply NoDup_app in Hnd as [Hnd _]. }
  unfold collisions. rewrite <- (size_contents _ _ Hndl). f_equal. apply map_eq. intros k.
  rewrite contents_lookup, map_lookup_filter, contents_lookup. unfold same_slot. cbn [fst].
  destruct (decide (hash_of k mod ht_size (ht w) = hash_of s mod ht_size (ht w))) as [Heq|Hne].
  - rewrite (find_key_slot w chs k l) by (done || by rewrite Heq).
    destruct (find_key (strings w) k l) as [e|]; [|done]. simpl. by rewrite option_guard_True.
  - assert (Hnone : find_key (strings w) k l = None).
    { apply find_key_None. intros e He <-. apply Hne.
      assert (Hine : e ∈ concat chs) by (rewrite HP; apply elem_of_app; by left).
      rewrite Forall_forall in Hok. destruct (entry_ok_hash _ _ (Hok e Hine)) as [<- _].
      rewrite (Hslots _ _ _ Hl He). pose proof (Z.mod_pos_bound (hash_of s) (ht_size (ht w)) ltac:(lia)). lia. }
    rewrite Hnone. destruct (find_key (strings w) k (concat chs)) as [e|]; [|done]. simpl. by rewrite option_guard_False.
Qed.

(** The outcome of [htable_insert] on every branch. *)
Definition insert_outcome (h0 : words) (w : world) (m : gmap (list Z) Z) (s : list Z) (val : Z)
    (r : result (Z * world)) : Prop :=
  match r with
  | Ok (c, w') =>
      c = 1 /\ is_Some (m !! s) /\ w' = w \/
      c = 0 /\ m !! s = None /\ table_over h0 w' (<[s := val]> m) /\
        strings w' = strings w /\ allow_resize (ht w') = allow_resize (ht w) /\
        (if must_resize (ht w) s m then least_prime_from (2 * ht_size (ht w)) (ht_size (ht w'))
         else ht_size (ht w') = ht_size (ht w))
  | Fault Undefined =>
      m !! s = None /\
        (malloc_pick (heap w) sizeof_node = None \/
         must_resize (ht w) s m = true /\ 2 ^ 30 <= ht_size (ht w))
  | Fault AssertFailed =>
      m !! s = None /\ must_resize (ht w) s m = true /\
        exists n h, least_prime_from (2 * ht_size (ht w)) n /\
          size h = S (size (heap w)) /\ malloc_pick h (8 * n) = None
  | Fault _ => False
  end.

Lemma resize_overflow w : 2 ^ 30 <= ht_size (ht w) -> htable_resize w = Fault Undefined.
Proof.
  intros Hbig. unfold htable_resize. erewrite bind_Ok; [|done].
  rewrite (bind_Fault _ _ _ Undefined); [done|]. unfold lift. by rewrite int_overflow by lia.
Qed.

Lemma table_over_linked h0 w m s val p key chs w1 chs1 :
  table_inv w chs -> m = contents (strings w) (concat chs) ->
  (forall q, q ∉ store (ht w) :: locs (concat chs) -> heap w !! q = h0 !! q) ->
  (forall q, q ∈ store (ht w) :: locs (concat chs) -> h0 !! q = None) ->
  heap w !! p = None -> strings w !! key = Some s ->
  table_inv w1 chs1 ->
  concat chs1 ≡ₚ {| e_loc := p; e_hash := hash_of s; e_key := key; e_val := val |} :: concat chs ->
  ht w1 = ht w -> strings w1 = strings w ->
  unchanged_outside (p :: store (ht w) :: locs (concat chs)) (heap w) (heap w1) ->
  table_over h0 w1 (<[s := val]> m).
Proof.
  intros Hinv -> Hout Hin Hfree Hkey Hinv1 HP Hht Hstr Hun.
  replace (<[s := val]> (contents (strings w) (concat chs)))
    with (contents (strings w1) (concat chs1)).
  2: { rewrite (contents_perm _ _ _ (ti_keys _ _ Hinv1) HP), Hstr.
       unfold contents, key_of. simpl. by rewrite Hkey. }
  assert (Hown : forall q, q ∈ store (ht w1) :: locs (concat chs1) <->
            q = p \/ q ∈ store (ht w) :: locs (concat chs)).
  { intros q. rewrite !elem_of_cons, (locs_perm _ _ HP), Hht. simpl. rewrite elem_of_cons. tauto. }
  apply (table_over_intro h0 w chs w1 _ (store (ht w) :: locs (concat chs))); try done.
  - intros q [->|Hq]%Hown; [by right|by left].
  - intros q Hq1 Hq2. rewrite Hown in Hq1. apply Hun. rewrite elem_of_cons. tauto.
  - intros q Hq1 Hq2. rewrite Hown in Hq1. tauto.
Qed.

Lemma table_over_insert h0 w m key val s :
  table_over h0 w m -> strings w !! key = Some s -> good_key s ->
  Z.of_nat (size m) < 2 ^ 31 ->
  insert_outcome h0 w m s val (htable_insert key val w).
Proof.
  intros Hover Hkey Hs Hsize.
  pose proof Hover as (own & (chs & Hinv & Hm & ->) & Hout & Hin).
  assert (Hcount : size m = length (concat chs)).
  { rewrite Hm. apply size_contents, (ti_keys _ _ Hinv). }
  destruct (slot_lookup w chs s Hinv) as (heads & hd & l & _ & _ & Hl & _ & _).
  rewrite (insert_search_run w chs key val s l) by (done || lia).
  assert (Hms : m !! s = e_val <$> find_key (strings w) s l).
  { by rewrite Hm, contents_lookup, (find_key_slot w chs s l). }
  destruct (find_key (strings w) s l) as [e|] eqn:Hfind.
  { left. rewrite Hms. split_and!; [done|by eexists|done]. }
  simpl in Hms.
  destruct (malloc_pick (heap w) sizeof_node) as [p|] eqn:Ep.
  2: { unfold insert_rest. erewrite bind_Fault; [|by rewrite new_node_run, Ep]. simpl. tauto. }
  destruct (insert_link_run w chs key val s l p Hinv Hkey Hs Hl Hfind Ep)
    as (w1 & chs1 & -> & Hinv1 & HP & Hht & Hstr & Hun).
  apply malloc_fresh in Ep as [_ Hfree].
  pose proof (table_over_linked h0 w m s val p key chs w1 chs1 Hinv Hm Hout Hin Hfree Hkey
                Hinv1 HP Hht Hstr Hun) as Hover1.
  assert (Hgrow : negb (allow_resize (ht w) =? 0) && (Z.of_nat (length l) >=? MAX_COLLISION) = must_resize (ht w) s m).
  { unfold must_resize. by rewrite Hm, (slot_length w chs s l Hinv Hl), Z.geb_leb. }
  unfold insert_outcome. rewrite Hgrow. destruct (must_resize (ht w) s m) eqn:Hmust.
  2: { right. simpl. rewrite Hht. by split_and!. }
  destruct (Z_lt_le_dec (ht_size (ht w)) (2 ^ 30)) as [Hsmall|Hbig].
  2: { rewrite (bind_Fault _ _ _ Undefined) by (apply resize_overflow; by rewrite Hht). simpl. tauto. }
  destruct (table_over_resize h0 w1 _ Hover1) as (n & Hn & Hrun); [by rewrite Hht|].
  rewrite Hht in Hn, Hrun. destruct (malloc_pick (heap w1) (8 * n)) as [p'|] eqn:Ep'.
  - destruct Hrun as (w2 & Hrun & Hover2 & Hht2 & Hstr2).
    rewrite (bind_Ok _ _ _ tt w2) by done. right. simpl.
    split_and!; [done|done|done|by rewrite Hstr2|by rewrite Hht2|by rewrite Hht2].
  - rewrite (bind_Fault _ _ _ AssertFailed) by done. simpl. split_and!; [done|done|].
    exists n, (heap w1). split_and!; [done| |done].
    rewrite (table_over_size _ _ _ Hover), (table_over_size _ _ _ Hover1).
    rewrite map_size_insert_None by done. lia.
Qed.
End over.

Section sessions.
Context `{MallocLaws} (blocks : nat) `{!MallocServes blocks}.
Implicit Types (w : world) (m : gmap (list Z) Z).

(** What one operation does when memory does not run out. *)
Lemma run_op_over h0 w m op :
  table_over h0 w m -> op_ok (strings w) op ->
  Z.of_nat (size m) < 2 ^ 31 -> (size (heap w) + 1 < blocks)%nat ->
  match run_op op w with
  | Ok (r, w') => r = fst (spec_op (strings w) op m) /\
      table_over h0 w' (snd (spec_op (strings w) op m)) /\ strings w' = strings w /\
      allow_resize (ht w') = allow_resize (ht w)
  | Fault e => e = Undefined /\ 2 ^ 30 <= ht_size (ht w) /\
      m !! default [] (strings w !! op_key op) = None /\
      must_resize (ht w) (default [] (strings w !! op_key op)) m = true
  end.
Proof.
  intros Hover (s & Hkey & Hs) Hsize Hroom.
  assert (Hserve : forall h k, (size h < blocks)%nat -> 0 <= k < 2 ^ 34 -> malloc_pick h k <> None).
  { intros h k Hh Hk. destruct (malloc_serves h k Hh Hk) as [p ->]. done. }
  destruct op as [key val|key]; simpl in Hkey |- *; rewrite Hkey; simpl.
  - pose proof (table_over_insert h0 w m key val s Hover Hkey Hs Hsize) as Hout.
    destruct (htable_insert key val w) as [[r w']|[]]; simpl in Hout; [| | |done|done].
    + destruct Hout as [(-> & [v Hv] & ->)|(-> & Hv & Hover' & Hstr & Ha & _)]; by rewrite Hv.
    + destruct Hout as (Hnone & [Hm|[Ha Hbig]]); [|by split_and!]. by apply Hserve in Hm; [|lia|done].
    + destruct Hout as (_ & _ & n & h & Hn & Hh & Hm).
      apply Hserve in Hm; [done|lia|]. destruct Hn as [Hn _].
      destruct Hover as (own & (chs & Hinv & _) & _).
      pose proof (ly_pos _ _ _ (ti_layout _ _ Hinv)). lia.
  - by rewrite (table_over_lookup h0 w m key s).
Qed.

Lemma must_resize_allowed t s m : must_resize t s m = true -> allow_resize t <> 0.
Proof. unfold must_resize. intros [Hn _]%andb_prop E. by rewrite E in Hn. Qed.

Lemma spec_op_size strs op m : (size (snd (spec_op strs op m)) <= S (size m))%nat.
Proof.
  destruct op as [key val|key]; simpl; [|lia].
  destruct (m !! _) eqn:E; simpl; [lia|]. by rewrite map_size_insert_None.
Qed.

Lemma run_ops_over h0 ops : forall w m,
  table_over h0 w m -> Forall (op_ok (strings w)) ops ->
  Z.of_nat (size m + length ops) < 2 ^ 31 ->
  (size h0 + size m + length ops + 2 < blocks)%nat ->
  match run_ops ops w with
  | Ok (rs, w') => rs = spec_ops (strings w) ops m /\ strings w' = strings w /\
      exists m', table_over h0 w' m'
  | Fault e => e = Undefined /\ allow_resize (ht w) <> 0
  end.
Proof.
  induction ops as [|op ops IH]; intros w m Hover Hok Hsize Hroom; simpl.
  { split_and!; [done|done|by exists m]. }
  apply Forall_cons in Hok as [Hop Hok]. simpl in Hsize, Hroom.
  pose proof (table_over_size _ _ _ Hover) as Hh.
  pose proof (run_op_over h0 w m op Hover Hop ltac:(lia) ltac:(lia)) as Hrun.
  pose proof (spec_op_size (strings w) op m) as Hgrow.
  destruct (run_op op w) as [[r w1]|e] eqn:Er.
  2: { rewrite (bind_Fault _ _ _ e) by done. destruct Hrun as (-> & _ & _ & Hmust).
       split; [done|by eapply must_resize_allowed]. }
  rewrite (bind_Ok _ _ _ r w1) by done.
  destruct (spec_op (strings w) op m) as [r' m1] eqn:Es. simpl in *.
  destruct Hrun as (-> & Hover1 & Hstr & Ha).
  specialize (IH w1 m1 Hover1). rewrite Hstr, Ha in IH.
  specialize (IH Hok ltac:(lia) ltac:(lia)).
  destruct (run_ops ops w1) as [[rs w2]|e] eqn:Ers.
  2: { by rewrite (bind_Fault _ _ _ e). }
  rewrite (bind_Ok _ _ _ rs w2) by done.
  destruct IH as (-> & Hstr2 & Hm2). done.
Qed.
End sessions.

(** ** Properties *)


(** Strings for the witnesses: two pointers to "A", one to "BC". *)
Definition example_strings : gmap Z (list Z) :=
  {[ 1000 := [65]; 1001 := [66; 67]; 1002 := [65] ]}.

Definition example_world : world := {|
  heap := {[ 7 := [Some 1] ]};
  strings := example_strings;
  ht := {| allow_resize := 0; store := 0; ht_size := 0 |};
|}.

Definition example_ops : list table_op :=
  [Insert 1000 5; Insert 1001 6; Insert 1002 7; Lookup 1002; Lookup 1001].

Lemma good_key_dec (s : list Z) :
  forallb (fun c => (0 <? c) && (c <? 128)) s && (Z.of_nat (length s) <? 2 ^ 31) = true ->
  good_key s.
Proof.
  intros [Hs Hlen%Z.ltb_lt]%andb_prop. split; [|done].
  apply Forall_forall. intros c Hc. rewrite forallb_forall in Hs.
  specialize (Hs c (proj1 (list_elem_of_In _ _) Hc)).
  apply andb_prop in Hs as [H1%Z.ltb_lt H2%Z.ltb_lt]. lia.
Qed.

Lemma example_op_ok key s :
  example_strings !! key = Some s -> good_key s -> forall op, op_key op = key ->
  op_ok (strings example_world) op.
Proof. intros Hkey Hs op <-. by exists s. Qed.

Lemma example_ops_ok : Forall (op_ok (strings example_world)) example_ops.
Proof.
  repeat constructor; eexists; (split; [reflexivity|]); by apply good_key_dec.
Qed.


(** C7: [htable_insert] on every branch.  It returns 1 and changes nothing
    exactly when the key is present; otherwise it returns 0 and the table
    stands for the map with the key added, all other blocks untouched, its
    size the same unless resizing is allowed and the slot of the key already
    holds MAX_COLLISION keys, and then the least accepted prime from twice the
    old size on.  The only faults: [malloc] refused the node, whose
    fields are then written through NULL; [2*ht->size] overflowed; the
    assertion that the new array was allocated failed. *)
Theorem htable_insert_correct `{MallocLaws} (h0 : words) (w : world)
    (m : gmap (list Z) Z) (key val : Z) (s : list Z) :
  table_over h0 w m -> strings w !! key = Some s -> good_key s ->
  Z.of_nat (size m) < 2 ^ 31 ->
  insert_outcome h0 w m s val (htable_insert key val w).
Proof. apply table_over_insert. Qed.

(** The world after [htable_init(ht, 4, 1)]. *)
Definition example_table : world :=
  match @htable_init lowest_free 4 1 example_world with
  | Ok (_, w) => w
  | Fault _ => example_world
  end.

Lemma example_table_over : table_over (heap example_world) example_table ∅.
Proof.
  destruct (@table_over_init lowest_free lowest_free_laws example_world 4 1)
    as (n & Hn & Hinit); [lia|]. unfold example_table.
  destruct (@malloc_serves lowest_free 100 (lowest_free_serves 100 ltac:(lia))
    (heap example_world) (8 * n)) as [p Hp]; [vm_compute; lia|destruct Hn as [Hn _]; lia|].
  rewrite Hp in Hinit. by destruct Hinit as (w' & -> & Hover & _).
Qed.

Lemma example_strings_kept : strings example_table = example_strings.
Proof. vm_compute. reflexivity. Qed.

Lemma htable_insert_correct_witness :
  exists w', @htable_insert lowest_free 1001 6 example_table = Ok (0, w') /\
    table_over (heap example_world) w' {[ [66; 67] := 6 ]}.
Proof.
  pose proof (@htable_insert_correct lowest_free lowest_free_laws (heap example_world)
    example_table ∅ 1001 6 [66; 67] example_table_over ltac:(reflexivity)
    ltac:(by apply good_key_dec) ltac:(done)) as Hout.
  assert (Hrun : exists w', @htable_insert lowest_free 1001 6 example_table = Ok (0, w')).
  { vm_compute. by eexists. }
  destruct Hrun as [w' Hrun]. rewrite Hrun in Hout. exists w'. split; [done|].
  destruct Hout as [(? & _)|(_ & _ & Hover & _)]; [done|exact Hover].
Defined.

(** [htable_lookup] returns the value of the key in the map the table
    stands for, NULL when there is none, and changes nothing. *)
Theorem htable_lookup_correct `{MallocLaws} (h0 : words) (w : world)
    (m : gmap (list Z) Z) (key : Z) (s : list Z) :
  table_over h0 w m -> strings w !! key = Some s -> good_key s ->
  htable_lookup key w = Ok (default 0 (m !! s), w).
Proof. apply table_over_lookup. Qed.

Lemma htable_lookup_correct_witness : htable_lookup 1000 example_table = Ok (0, example_table).
Proof.
  apply (@htable_lookup_correct lowest_free lowest_free_laws (heap example_world) example_table ∅ 1000 [65]
    example_table_over ltac:(reflexivity)). by apply good_key_dec.
Defined.

(** C12: [htable_resize] keeps the map the table stands for and every other
    block; the new size is the least number from twice the old one on that
    [is_prime] accepts; the old array is freed.  Each list of the new table
    has the nodes of its slot in the reverse of the order in which the old
    table is read: they are put in at the head, not, as the comment says, at
    the end. *)
Theorem htable_resize_correct `{MallocLaws} (h0 : words) (w : world)
    (m : gmap (list Z) Z) (chs : list (list entry)) :
  table_over h0 w m -> table_inv w chs -> ht_size (ht w) < 2 ^ 30 ->
  exists n, least_prime_from (2 * ht_size (ht w)) n /\
    match malloc_pick (heap w) (8 * n) with
    | None => htable_resize w = Fault AssertFailed
    | Some p => exists w' chs',
        htable_resize w = Ok (tt, w') /\
        table_over h0 w' m /\ ht_size (ht w') = n /\ heap w' !! store (ht w) = None /\
        table_inv w' chs' /\
        forall i, 0 <= i < n -> chs' !! Z.to_nat i =
          Some (reverse (filter (fun e => e_hash e mod n = i) (concat chs)))
    end.
Proof.
  intros Hover Hinv Hsmall.
  destruct (table_over_resize h0 w m Hover Hsmall) as (n & Hn & Hrun).
  destruct (htable_resize_run w chs Hinv Hsmall) as (n' & Hn' & Hrun').
  assert (n' = n) as ->.
  { destruct Hn as (H1 & H2 & H3), Hn' as (H1' & H2' & H3').
    destruct (Z.lt_trichotomy n n') as [Hlt|[->|Hlt]]; [|done|].
    - destruct (H3' n); [lia|done].
    - destruct (H3 n'); [lia|done]. }
  exists n. split; [done|]. destruct (malloc_pick _ _) as [p|]; [|done].
  destruct Hrun as (w' & Hrun & Hover' & Hht & _).
  destruct Hrun' as (w'' & Hrun' & Hinv' & _ & _ & Hold & _).
  rewrite Hrun in Hrun'. injection Hrun' as <-.
  exists w', (rehash n (concat chs)). split_and!; [done|done|by rewrite Hht|done|done|].
  intros i Hi. rewrite rehash_lookup by lia. by rewrite Z2Nat.id by lia.
Qed.

Lemma htable_resize_correct_witness :
  exists w', @htable_resize lowest_free example_table = Ok (tt, w') /\
    table_over (heap example_world) w' ∅ /\ 10 <= ht_size (ht w').
Proof.
  assert (ht_size (ht example_table) = 5) as E by (vm_compute; reflexivity).
  destruct example_table_over as (own & (chs & Hinv & _) & _).
  destruct (@htable_resize_correct lowest_free lowest_free_laws (heap example_world)
    example_table ∅ chs example_table_over Hinv ltac:(rewrite E; lia)) as (n & [Hn _] & Hrun).
  rewrite E in Hn.
  destruct (@malloc_serves lowest_free 100 (lowest_free_serves 100 ltac:(lia))
    (heap example_table) (8 * n)) as [p Hp]; [vm_compute; lia|lia|].
  rewrite Hp in Hrun. destruct Hrun as (w' & chs' & Hrun & Hover & Hsz & _).
  exists w'. split; [done|]. split; [done|]. lia.
Defined.

(** C32: [htable_destroy] frees the array and every node of every list, each
    once, and nothing else: the heap is what it was before [htable_init]. *)
Theorem htable_destroy_correct `{MallocLaws} (h0 : words) (w : world)
    (m : gmap (list Z) Z) :
  table_over h0 w m -> htable_destroy w = Ok (tt, set_heap h0 w).
Proof. apply table_over_destroy. Qed.

Lemma htable_destroy_correct_witness :
  htable_destroy example_table = Ok (tt, set_heap (heap example_world) example_table).
Proof.
  apply (@htable_destroy_correct lowest_free lowest_free_laws (heap example_world) example_table ∅).
  exact example_table_over.
Defined.

(** [htable_init(ht, sz, allow)] makes an empty table whose size is the
    least number above [sz] that [is_prime] accepts, or fails its assertion
    when [malloc] refuses the array.  With [sz] the largest [int] the size
    overflows; with [sz] -1 the table has no slot and a lookup divides by
    zero. *)
Theorem htable_init_correct `{MallocLaws} (w : world) (sz allow : Z) :
  - 1 <= sz < 2 ^ 31 ->
  match htable_init sz allow w with
  | Ok (_, w') => exists n, ht_size (ht w') = n /\ allow_resize (ht w') = allow /\
      strings w' = strings w /\ least_prime_from (sz + 1) n /\
      (0 <= sz -> table_over (heap w) w' ∅) /\
      (sz = -1 -> forall key s, strings w !! key = Some s -> good_key s ->
         htable_lookup key w' = Fault Undefined)
  | Fault AssertFailed => exists n, least_prime_from (sz + 1) n /\
      malloc_pick (heap w) (8 * n) = None
  | Fault Undefined => sz = 2 ^ 31 - 1
  | Fault _ => False
  end.
Proof.
  intros Hsz. destruct (decide (sz = 2 ^ 31 - 1)) as [->|Hmax].
  { unfold htable_init. rewrite (bind_Fault _ _ _ Undefined); [done|].
    unfold lift. by rewrite int_overflow by lia. }
  destruct (decide (sz = -1)) as [->|Hneg].
  - assert (Hleast : least_prime_from (-1 + 1) 0).
    { split_and!; [lia|lia|by left|]. intros j Hj. lia. }
    unfold htable_init. rewrite (bind_Ok _ _ _ 0 w) by done.
    rewrite (bind_Ok _ _ _ 0 w) by done.
    change (u64 (sizeof_pointer * u64 0)) with 0.
    destruct (malloc_pick (heap w) 0) as [p|] eqn:Ep.
    2: { erewrite bind_Ok; [|by rewrite malloc_run, Ep]. simpl. by exists 0. }
    erewrite bind_Ok; [|by rewrite malloc_run, Ep].
    apply malloc_fresh in Ep as [Hp Hfree]. assert (Hp0 : p <> 0) by lia.
    erewrite bind_Ok; [|done]. rewrite (proj2 (Z.eqb_neq p 0)) by done.
    erewrite bind_Ok; [|done].
    rewrite (bzero_run _ p 0); [|done|done|apply lookup_insert_eq].
    exists 0. simpl. split_and!; [done|done|done|done|lia|]. intros _ key s Hkey [Ha Hl].
    unfold htable_lookup. erewrite bind_Ok; [|unfold c_string; st_unfold; simpl; by rewrite Hkey].
    erewrite bind_Ok; [|unfold lift; by rewrite hashcode_run]. done.
  - destruct (table_over_init w sz allow) as (n & Hn & Hinit); [lia|].
    destruct (malloc_pick _ _) as [p|] eqn:Ep.
    + destruct Hinit as (w' & -> & Hover & Hht & Hstr). exists n. rewrite Hht.
      by split_and!.
    + rewrite Hinit. by exists n.
Qed.

Lemma htable_init_correct_witness :
  exists w', @htable_init lowest_free 4 1 example_world = Ok (tt, w') /\
    table_over (heap example_world) w' ∅.
Proof.
  pose proof (@htable_init_correct lowest_free lowest_free_laws example_world 4 1 ltac:(lia)) as Hi.
  assert (Hrun : exists w', @htable_init lowest_free 4 1 example_world = Ok (tt, w')).
  { vm_compute. by eexists. }
  destruct Hrun as [w' Hrun]. rewrite Hrun in Hi. exists w'. split; [done|].
  destruct Hi as (n & _ & _ & _ & _ & Hover & _). by apply Hover.
Defined.

(** C36: a key whose hash code is negative, which takes a character outside
    ASCII, reads the array of lists below its start, unless the table's size
    divides the code: both [htable_lookup] and [htable_insert] are undefined. *)
Theorem negative_hash_undefined `{MallocLaws} (h0 : words) (w : world)
    (m : gmap (list Z) Z) (key val : Z) (s : list Z) (h : Z) :
  table_over h0 w m -> strings w !! key = Some s -> hashcode s = Ok h ->
  h < 0 -> Z.rem h (ht_size (ht w)) <> 0 ->
  htable_lookup key w = Fault Undefined /\ htable_insert key val w = Fault Undefined.
Proof.
  intros (own & (chs & Hinv & _ & _) & _) Hkey Hh Hneg Hrem.
  destruct (ti_layout _ _ Hinv) as [Hst0 (heads & Hheads & _) _ Hpos _].
  destruct (int_rem_range h (ht_size (ht w)) (proj1 Hpos)) as [Hslot _].
  assert (Hlow : Z.rem h (ht_size (ht w)) < 0).
  { pose proof (Z.rem_nonpos h (ht_size (ht w)) ltac:(lia) ltac:(lia)). lia. }
  assert (Hload : load (store (ht w)) (Z.rem h (ht_size (ht w))) w = Fault Undefined).
  { unfold load, load_word, cell_get. st_unfold.
    rewrite (block_of_ok _ _ _ Hst0 Hheads). by rewrite arr_get_neg. }
  split; unfold htable_lookup, htable_insert.
  all: rewrite (bind_Ok _ _ _ s w) by (unfold c_string; st_unfold; by rewrite Hkey).
  all: rewrite (bind_Ok _ _ _ h w) by (unfold lift; by rewrite Hh).
  all: rewrite (bind_Ok _ _ _ (ht w) w) by done.
  all: rewrite (bind_Ok _ _ _ (Z.rem h (ht_size (ht w))) w) by (unfold lift; by rewrite Hslot).
  all: by rewrite (bind_Fault _ _ _ Undefined).
Qed.

(** The table of the examples with the UTF-8 bytes of an accented letter at
    1003. *)
Definition example_utf8 : world := {|
  heap := heap example_table;
  strings := {[ 1003 := [-61; -87] ]};
  ht := ht example_table;
|}.

Lemma example_utf8_over : table_over (heap example_world) example_utf8 ∅.
Proof.
  destruct example_table_over as (own & (chs & [Hly Hok Hk Hs] & Hm & Hown) & Hout & Hin).
  assert (Hnil : concat chs = []).
  { apply length_zero_iff_nil. rewrite <- (size_contents _ _ Hk), <- Hm. done. }
  exists own. split; [|done]. exists chs. rewrite Hnil in *. split; [|done].
  split; [done| | |done]; rewrite Hnil; constructor.
Qed.

Lemma negative_hash_undefined_witness :
  hashcode [-61; -87] = Ok (-15703) /\
  @htable_insert lowest_free 1003 1 example_utf8 = Fault Undefined.
Proof.
  split; [vm_compute; reflexivity|].
  apply (@negative_hash_undefined lowest_free lowest_free_laws (heap example_world) example_utf8 ∅
    1003 1 [-61; -87] (-15703) example_utf8_over).
  - reflexivity.
  - vm_compute. reflexivity.
  - lia.
  - vm_compute. discriminate.
Defined.

(** ** The arithmetic *)

(** On ASCII strings [hashcode] never overflows; its result is the
    polynomial of the characters in base 256 modulo [BIG_PRIME], from 0 to
    [BIG_PRIME]. *)
Theorem hashcode_correct (s : list Z) :
  ascii s -> Z.of_nat (length s) < 2 ^ 31 ->
  exists h, hashcode s = Ok h /\ 0 <= h <= BIG_PRIME /\
    h mod BIG_PRIME = radix256 s mod BIG_PRIME.
Proof.
  intros Hs Hlen. exists (hash_of s).
  split_and!; [by apply hashcode_run| | |apply hash_of_cong]; by apply hash_of_range.
Qed.

Lemma hashcode_correct_witness : exists h, hashcode [66; 67] = Ok h /\ h mod BIG_PRIME = 16963.
Proof.
  destruct (hashcode_correct [66; 67]) as (h & Hh & _ & Hm).
  - repeat constructor; lia.
  - vm_compute. reflexivity.
  - by exists h.
Defined.

(** [madd] does not reduce a sum that equals the modulus: "GiU" hashes to
    [BIG_PRIME] itself, although its polynomial is 0 modulo [BIG_PRIME]. *)
Theorem hashcode_not_reduced :
  hashcode [71; 105; 85] = Ok BIG_PRIME /\ radix256 [71; 105; 85] mod BIG_PRIME = 0.
Proof. split; vm_compute; reflexivity. Qed.

(** [is_prime] ends on every [int] and decides primality from 2 on; it
    also accepts every number up to 1. *)
Theorem is_prime_correct (n : Z) :
  - 2 ^ 31 <= n < 2 ^ 31 ->
  exists b, is_prime n = Ok b /\ (b = 0 \/ b = 1) /\ (b = 1 <-> n <= 1 \/ prime n).
Proof.
  intros Hn. destruct (is_prime_run n) as (b & Hb & Hp); [lia|]. exists b. split; [done|].
  assert (Hpass : passes n <-> n <= 1 \/ prime n).
  { unfold passes. split.
    - intros [Hle|?]; [|by right]. destruct (decide (n <= 1)); [by left|]. right.
      assert (n = 2 \/ n = 3) as [-> | ->] by lia; [apply prime_2|apply prime_3].
    - intros [?|?]; [left; lia|by right]. }
  rewrite <- Hpass. destruct Hp as [[-> Hp]|[-> Hp]]; (split; [tauto|]); split; try tauto.
  by intros [=].
Qed.

Lemma is_prime_correct_witness : is_prime 11 = Ok 1 /\ prime 11.
Proof.
  destruct (is_prime_correct 11) as (b & Hb & _ & Hp); [lia|].
  assert (is_prime 11 = Ok 1) as E by (vm_compute; reflexivity).
  rewrite E in Hb. injection Hb as <-. split; [done|].
  destruct (proj1 Hp eq_refl) as [?|?]; [lia|done].
Defined.

(** C35: [get_prime(min)] ends on every [int] without overflow, because the
    largest [int] is prime, and returns the least number from [min] on that
    is prime or at most 1: [min] itself when it is prime, where the comment
    promises a larger number. *)
Theorem get_prime_correct (min : Z) :
  - 2 ^ 31 <= min < 2 ^ 31 ->
  exists n, get_prime min = Ok n /\ min <= n < 2 ^ 31 /\ (n <= 1 \/ prime n) /\
    forall k, min <= k < n -> 1 < k /\ ~ prime k.
Proof.
  intros Hmin. destruct (get_prime_run min Hmin) as (n & Hn & Hr & Hp & Hno).
  exists n. split_and!; [done|lia|lia| |].
  - destruct Hp as [Hle|?]; [|by right]. destruct (decide (n <= 1)); [by left|]. right.
    assert (n = 2 \/ n = 3) as [-> | ->] by lia; [apply prime_2|apply prime_3].
  - intros k Hk. specialize (Hno k Hk). unfold passes in Hno. split; [lia|tauto].
Qed.

Lemma get_prime_correct_witness : get_prime 8 = Ok 11 /\ ~ prime 9.
Proof.
  assert (E : get_prime 8 = Ok 11) by (vm_compute; reflexivity). split; [done|].
  destruct (get_prime_correct 8) as (n & Hn & _ & _ & Hno); [lia|].
  rewrite E in Hn. injection Hn as <-. apply (Hno 9). lia.
Defined.
