(* ===== verification/Interleave.v ===== *)
(** * Threads as programs over a shared state

    A program makes accesses to a state that other threads share, one at a
    time; a pool of programs runs in the order a schedule gives.  Memory is
    sequentially consistent. *)

From S2P Require Import Prelude.

(** ** Programs *)

(** An access is a transformer of the state that answers a number. *)
Inductive prog (W A : Type) : Type :=
  | Done (a : A)
  | Do (c : ST W Z) (k : Z -> prog W A)
  | Halt (e : fault).
Arguments Done {W A} a.
Arguments Do {W A} c k.
Arguments Halt {W A} e.

#[export] Instance prog_ret W : MRet (prog W) := fun A a => Done a.
#[export] Instance prog_bind W : MBind (prog W) := fun A B f =>
  fix bind (p : prog W A) : prog W B :=
    match p with
    | Done a => f a
    | Do c k => Do c (fun r => bind (k r))
    | Halt e => Halt e
    end.

Definition access {W} (c : ST W Z) : prog W Z := Do c Done.
Definition action {W} (c : ST W unit) : prog W unit := Do (c;; mret 0) (fun _ => Done tt).
Definition calc {W A} (r : result A) : prog W A :=
  match r with Ok a => Done a | Fault e => Halt e end.

Lemma bind_calc {W A B} (a : A) (f : A -> prog W B) : (calc (Ok a) ≫= f) = f a.
Proof. reflexivity. Qed.

(** A loop of at most [fuel] turns. *)
Fixpoint loop {W A R} (fuel : nat) (body : A -> prog W (A + R)) (a : A) : prog W R :=
  match fuel with
  | O => Halt OutOfFuel
  | S fuel => r ← body a; match r with inl a' => loop fuel body a' | inr r => Done r end
  end.

(** The program alone, without other threads. *)
Fixpoint exec {W A} (p : prog W A) : ST W A :=
  match p with
  | Done a => mret a
  | Do c k => fun w => match c w with Ok (r, w') => exec (k r) w' | Fault e => Fault e end
  | Halt e => lift (Fault e)
  end.

(** ** Pools *)

(** The accesses of the threads [ps], in the order of the schedule; a thread
    that is done, or not there, does nothing. *)
Fixpoint interleave {W A} (sched : list nat) (ps : list (prog W A)) : ST W (list (prog W A)) :=
  match sched with
  | [] => mret ps
  | i :: sched =>
      match ps !! i with
      | Some (Do c k) => r ← c; interleave sched (<[i := k r]> ps)
      | Some (Halt e) => lift (Fault e)
      | _ => interleave sched ps
      end
  end.

(** How often a thread has its turn. *)
Definition turns (i : nat) (sched : list nat) : nat := length (filter (fun j => j = i) sched).

Section laws.
Context {W : Type}.

Lemma exec_bind {A B} (p : prog W A) (f : A -> prog W B) w :
  exec (p ≫= f) w = (exec p ≫= (fun a => exec (f a))) w.
Proof.
  revert w; induction p as [a|c k IH|e]; intros w; [done| |done].
  unfold mbind at 2, st_bind. simpl. destruct (c w) as [[r w']|e]; [|done]. apply IH.
Qed.

Lemma exec_access (c : ST W Z) w : exec (access c) w = c w.
Proof. unfold access. simpl. by destruct (c w) as [[r w']|e]. Qed.

Lemma exec_action (c : ST W unit) w : exec (action c) w = c w.
Proof.
  unfold action. simpl. unfold mbind, st_bind, mret, st_ret. by destruct (c w) as [[[] w']|e].
Qed.

Lemma exec_calc {A} (r : result A) (w : W) : exec (calc r) w = lift r w.
Proof. by destruct r. Qed.

Lemma st_bind_assoc {A B C} (c : ST W A) (f : A -> ST W B) (g : B -> ST W C) w :
  ((c ≫= f) ≫= g) w = (c ≫= (fun a => f a ≫= g)) w.
Proof. unfold mbind, st_bind. by destruct (c w) as [[a w']|e]. Qed.

Lemma prog_bind_assoc {A B C} (p : prog W A) (f : A -> prog W B) (g : B -> prog W C) w :
  exec ((p ≫= f) ≫= g) w = exec (p ≫= (fun a => f a ≫= g)) w.
Proof.
  revert w; induction p as [a|c k IH|e]; intros w; [done| |done].
  simpl. destruct (c w) as [[r w']|e]; [apply IH|done].
Qed.

Lemma interleave_app {A} s1 s2 (ps : list (prog W A)) w :
  interleave (s1 ++ s2) ps w = (interleave s1 ps ≫= interleave s2) w.
Proof.
  revert ps w; induction s1 as [|i s1 IH]; intros ps w; [done|]. cbn [app interleave].
  destruct (ps !! i) as [[a|c k|e]|]; [apply IH| |done|apply IH].
  unfold mbind, st_bind. destruct (c w) as [[r w']|e]; [|done]. apply IH.
Qed.

(** A thread that has its turns in a row runs as if alone. *)
Lemma interleave_alone {A B} (q : prog W A) w a w' :
  exec q w = Ok (a, w') ->
  exists n, forall (rest : A -> prog W B) i ps, ps !! i = Some (q ≫= rest) ->
    interleave (replicate n i) ps w = Ok (<[i := rest a]> ps, w').
Proof.
  revert w; induction q as [a'|c k IH|e]; intros w Hq; [|simpl in Hq|done].
  - injection Hq as -> ->. exists 0%nat. intros rest i ps Hi. by rewrite list_insert_id.
  - destruct (c w) as [[r w1]|e] eqn:Hc; [|done]. destruct (IH r w1 Hq) as [n Hn].
    exists (S n). intros rest i ps Hi. cbn [replicate interleave]. rewrite Hi. cbn [mbind prog_bind].
    rewrite (bind_Ok _ _ _ _ _ Hc).
    rewrite (Hn rest) by (apply list_lookup_insert_eq; by eapply lookup_lt_Some).
    by rewrite list_insert_insert_eq.
Qed.

Lemma interleave_alone_done {A} (q : prog W A) w a w' :
  exec q w = Ok (a, w') ->
  exists n, forall i ps, ps !! i = Some q ->
    interleave (replicate n i) ps w = Ok (<[i := Done a]> ps, w').
Proof.
  revert w; induction q as [a'|c k IH|e]; intros w Hq; [|simpl in Hq|done].
  - injection Hq as -> ->. exists 0%nat. intros i ps Hi. by rewrite list_insert_id.
  - destruct (c w) as [[r w1]|e] eqn:Hc; [|done]. destruct (IH r w1 Hq) as [n Hn].
    exists (S n). intros i ps Hi. cbn [replicate interleave]. rewrite Hi.
    rewrite (bind_Ok _ _ _ _ _ Hc).
    rewrite Hn by (apply list_lookup_insert_eq; by eapply lookup_lt_Some).
    by rewrite list_insert_insert_eq.
Qed.

(** ** Programs and the functions they run

    From the states [I] the program does what the function does, in states
    [J] afterwards, unless the function is out of fuel. *)
Definition sim {A} (I : W -> Prop) (p : prog W A) (c : ST W A) (J : A -> W -> Prop) : Prop :=
  forall w, I w -> c w = Fault OutOfFuel \/
    (exec p w = c w /\ forall a w', c w = Ok (a, w') -> J a w').

Lemma sim_exec {A} (I : W -> Prop) (p : prog W A) c J w :
  sim I p c J -> I w -> c w <> Fault OutOfFuel -> exec p w = c w.
Proof. intros Hs Hw Hf. by destruct (Hs w Hw) as [?|[? _]]. Qed.

Lemma sim_bind {A B} I J K (p : prog W A) c (f : A -> prog W B) g :
  sim I p c J -> (forall a, sim (J a) (f a) (g a) K) -> sim I (p ≫= f) (c ≫= g) K.
Proof.
  intros Hp Hf w Hw. rewrite exec_bind. unfold mbind, st_bind.
  destruct (Hp w Hw) as [->|[-> HJ]]; [by left|].
  destruct (c w) as [[a w']|e]; [|by right]. by apply Hf, HJ.
Qed.

Lemma sim_assoc {A B C} (I : W -> Prop) (p : prog W A) (f : A -> prog W B) (g : B -> prog W C) c J :
  sim I (p ≫= (fun a => f a ≫= g)) c J -> sim I ((p ≫= f) ≫= g) c J.
Proof. intros Hs w Hw. rewrite prog_bind_assoc. by apply Hs. Qed.

Lemma sim_ext {A} (I : W -> Prop) (p : prog W A) c c' J :
  (forall w, c' w = c w) -> sim I p c J -> sim I p c' J.
Proof. intros Hc Hs w Hw. rewrite Hc. by apply Hs. Qed.

Lemma sim_pre {A} (I I' : W -> Prop) (p : prog W A) c J :
  (forall w, I w -> I' w) -> sim I' p c J -> sim I p c J.
Proof. intros HI Hs w Hw. by apply Hs, HI. Qed.

Lemma sim_post {A} (I : W -> Prop) (p : prog W A) c (J J' : A -> W -> Prop) :
  (forall a w, J a w -> J' a w) -> sim I p c J -> sim I p c J'.
Proof. intros HJ Hs w Hw. destruct (Hs w Hw) as [?|[? ?]]; [by left|right; eauto]. Qed.

Lemma sim_ret {A} (I : W -> Prop) (a : A) : sim I (mret a) (mret a) (fun _ => I).
Proof. intros w Hw. right. split; [done|]. by intros ? ? [= <- <-]. Qed.

Lemma sim_calc {A} (I : W -> Prop) (r : result A) : sim I (calc r) (lift r) (fun _ => I).
Proof. intros w Hw. right. rewrite exec_calc. split; [done|]. unfold lift. destruct r; [|done]. by intros ? ? [= <- <-]. Qed.

Lemma sim_access (I : W -> Prop) (c : ST W Z) (J : Z -> W -> Prop) :
  (forall w a w', I w -> c w = Ok (a, w') -> J a w') -> sim I (access c) c J.
Proof. intros HJ w Hw. right. rewrite exec_access. split; [done|]. eauto. Qed.

Lemma sim_action (I : W -> Prop) (c : ST W unit) (J : unit -> W -> Prop) :
  (forall w a w', I w -> c w = Ok (a, w') -> J a w') -> sim I (action c) c J.
Proof. intros HJ w Hw. right. rewrite exec_action. split; [done|]. eauto. Qed.

(** A loop with turns enough does what [while_st] does. *)
Lemma sim_while {A R} (I : W -> Prop) (fuel : nat) (n : W -> positive) body (step : A -> ST W (A + R)) a :
  (forall a, sim I (body a) (step a) (fun _ => I)) -> (forall w, I w -> (Pos.to_nat (n w) <= fuel)%nat) ->
  sim I (loop fuel body a) (w ← get; while_st (n w) step a) (fun _ => I).
Proof.
  intros Hbody Hn w Hw. specialize (Hn w Hw).
  change ((w ← get; while_st (n w) step a) w) with (while_st (n w) step a w).
  unfold while_st, while. rewrite iter_until_nat. generalize dependent (Pos.to_nat (n w)). intros k Hk.
  revert fuel a w Hw Hk. induction k as [|k IH]; intros fuel a w Hw Hk; [by left|].
  destruct fuel as [|fuel]; [lia|]. cbn [loop iter_nat]. rewrite exec_bind. unfold mbind, st_bind.
  destruct (Hbody a w Hw) as [->|[-> HI]]; [by left|].
  destruct (step a w) as [[[a'|r] w']|e]; [| |by right].
  - apply IH; [by apply (HI (inl a'))|lia].
  - right. split; [done|]. intros ? ? [= <- <-]. by apply (HI (inr r)).
Qed.

(** ** Programs that only read *)

(** In the state [w] the program makes [n] accesses that leave the state as
    it is, and answers [a]. *)
Fixpoint reads {A} (w : W) (n : nat) (p : prog W A) (a : A) : Prop :=
  match p with
  | Done b => n = O /\ b = a
  | Do c k => exists r m, n = S m /\ c w = Ok (r, w) /\ reads w m (k r) a
  | Halt _ => False
  end.

Lemma reads_bind {A B} (w : W) n m (p : prog W A) (f : A -> prog W B) a b :
  reads w n p a -> reads w m (f a) b -> reads w (n + m) (p ≫= f) b.
Proof.
  revert n; induction p as [a'|c k IH|e]; intros n Hp Hf; [|simpl in Hp|done].
  - by destruct Hp as [-> ->].
  - destruct Hp as (r & n' & -> & Hc & Hp). simpl. exists r, (n' + m)%nat. split_and!; [done|done|by apply IH].
Qed.

Lemma reads_access (w : W) (c : ST W Z) r : c w = Ok (r, w) -> reads w 1 (access c) r.
Proof. intros Hc. exists r, 0%nat. by split_and!. Qed.

(** Whatever the state, no access changes it. *)
Fixpoint read_only {A} (p : prog W A) : Prop :=
  match p with
  | Do c k => (forall w r w', c w = Ok (r, w') -> w' = w) /\ forall r, read_only (k r)
  | _ => True
  end.

Lemma read_only_bind {A B} (p : prog W A) (f : A -> prog W B) :
  read_only p -> (forall a, read_only (f a)) -> read_only (p ≫= f).
Proof.
  intros Hp Hf. induction p as [a|c k IH|e]; [apply Hf| |done].
  destruct Hp as [Hc Hk]. split; [done|]. intros r. by apply IH.
Qed.

Lemma read_only_calc {A} (r : result A) : read_only (calc (W := W) r).
Proof. by destruct r. Qed.

Lemma read_only_loop {A R} fuel (body : A -> prog W (A + R)) a :
  (forall a, read_only (body a)) -> read_only (loop fuel body a).
Proof.
  intros Hbody. revert a; induction fuel as [|fuel IH]; intros a; [done|]. simpl.
  apply read_only_bind; [apply Hbody|]. intros [a'|r]; [apply IH|done].
Qed.

Lemma read_only_reads {A} (p : prog W A) w a w' :
  read_only p -> exec p w = Ok (a, w') -> exists n, reads w n p a.
Proof.
  revert w; induction p as [a'|c k IH|e]; intros w Hp Hrun; [|simpl in Hp, Hrun|done].
  - injection Hrun as -> ->. by exists 0%nat.
  - destruct Hp as [Hc Hk]. destruct (c w) as [[r w1]|e] eqn:Ec; [|done].
    pose proof (Hc w r w1 Ec) as ->. destruct (IH r w (Hk r) Hrun) as [n Hn].
    exists (S n), r, n. by split_and!.
Qed.

Lemma read_only_exec {A} (p : prog W A) w a w' :
  read_only p -> exec p w = Ok (a, w') -> w' = w.
Proof.
  revert w; induction p as [a'|c k IH|e]; intros w Hp Hrun; [by injection Hrun| |done].
  destruct Hp as [Hc Hk]. simpl in Hrun. destruct (c w) as [[r w1]|e] eqn:Ec; [|done].
  rewrite (Hc w r w1 Ec) in Hrun. by apply (IH r w (Hk r)).
Qed.

(** What remains of a reader after [t] turns: nothing when it had [n]. *)
Lemma interleave_reads {A} (w : W) sched : forall (ps : list (prog W A)) (ns : list nat) (rs : list A),
  length ps = length ns ->
  (forall i p, ps !! i = Some p -> exists n a, ns !! i = Some n /\ rs !! i = Some a /\ reads w n p a) ->
  exists ps', interleave sched ps w = Ok (ps', w) /\ length ps' = length ps /\
    forall i p n, ps' !! i = Some p -> ns !! i = Some n ->
      exists a, rs !! i = Some a /\ reads w (n - turns i sched) p a.
Proof.
  induction sched as [|j sched IH]; intros ps ns rs Hlen Hps.
  { exists ps. split_and!; [done|done|]. intros i p n Hp Hn.
    destruct (Hps i p Hp) as (n' & a & Hn' & Ha & Hr). exists a. rewrite Nat.sub_0_r.
    rewrite Hn in Hn'. by injection Hn' as ->. }
  assert (Hsame : (forall p, ps !! j = Some p -> exists a, p = Done a) -> exists ps',
    interleave sched ps w = Ok (ps', w) /\ length ps' = length ps /\
    forall i p n, ps' !! i = Some p -> ns !! i = Some n ->
      exists a, rs !! i = Some a /\ reads w (n - turns i (j :: sched)) p a).
  { intros Hdone. destruct (IH ps ns rs Hlen Hps) as (ps' & Hrun & Hl & Hps'). exists ps'. split_and!; [done|done|].
    intros i p n Hp Hn. destruct (Hps' i p n Hp Hn) as (a & Ha & Hr). exists a. split; [done|].
    unfold turns in *. rewrite filter_cons. destruct (decide (j = i)) as [->|]; [|done].
    destruct (lookup_lt_is_Some_2 ps i) as [q Hq]; [rewrite <- Hl; by eapply lookup_lt_Some|].
    destruct (Hdone q Hq) as [b ->]. destruct (Hps i _ Hq) as (n' & a' & Hn' & Ha' & Hr').
    rewrite Hn in Hn'. injection Hn' as <-. destruct Hr' as [-> <-]. done. }
  cbn [interleave]. destruct (ps !! j) as [[b|c k|e]|] eqn:Hj.
  - apply Hsame. intros p [= <-]. by exists b.
  - clear Hsame. destruct (Hps j _ Hj) as (n & a & Hn & Ha & r & m & -> & Hc & Hr).
    rewrite (bind_Ok _ _ _ _ _ Hc).
    destruct (IH (<[j := k r]> ps) (<[j := m]> ns) rs) as (ps' & Hrun & Hl & Hps').
    { by rewrite !length_insert. }
    { intros i p [(<- & <- & Hlt)|[Hne Hi]]%list_lookup_insert_Some.
      - exists m, a. split_and!; [|done|done]. apply list_lookup_insert_eq. lia.
      - rewrite list_lookup_insert_ne by done. by apply Hps. }
    exists ps'. rewrite length_insert in Hl. split_and!; [done|done|].
    intros i p n' Hp Hn'. unfold turns. rewrite filter_cons. destruct (decide (j = i)) as [<-|Hne].
    + rewrite Hn in Hn'. injection Hn' as <-. apply (Hps' j p m Hp), list_lookup_insert_eq.
      by eapply lookup_lt_Some.
    + apply (Hps' i p n' Hp). by rewrite list_lookup_insert_ne.
  - destruct (Hps j _ Hj) as (? & ? & _ & _ & []).
  - apply Hsame. done.
Qed.
End laws.
