(* ===== verification/HtableSteps.v ===== *)
(** * The hash table one memory access at a time ([threadlab/htable.c])

    [htable_insert], [htable_lookup] and [htable_resize] as programs whose
    accesses to the table and to the heap are single steps that other
    threads may come between.  Run alone they are the functions of [Htable]. *)

From S2P Require Import Prelude Words Primes Htable HtableChains HtableInv Interleave.

(** ** The code *)

(** A field of the table, read or assigned. *)
Definition read_ht (f : htable -> Z) : prog world Z := access (t ← gets ht; mret (f t)).
Definition set_size (n : Z) : ST world unit :=
  t ← gets ht; modify (set_ht {| allow_resize := allow_resize t; store := store t; ht_size := n |}).
Definition set_store (p : Z) : ST world unit :=
  t ← gets ht; modify (set_ht {| allow_resize := allow_resize t; store := p; ht_size := ht_size t |}).

Definition load_p (p i : Z) : prog world Z := access (load p i).
Definition store_p (p i v : Z) : prog world unit := action (store_at p i v).

Section steps.
(** What the key pointers point to, which nobody changes, and a bound on the
    turns of each loop. *)
Context `{Malloc} (strs : gmap Z (list Z)) (fuel : nat).

Definition string_p (p : Z) : prog world (list Z) := calc (need (strs !! p)).

Definition node_matches_p (hcode key curr : Z) : prog world bool :=
  hc ← load_p curr node_hashcode;
  if hc =? hcode then
    k ← load_p curr node_key;
    s ← string_p k;
    s' ← string_p key;
    mret (strcmp s s' =? 0)
  else mret false.

Definition insert_walk_p (hcode key : Z) (st : Z * Z * Z) : prog world (Z * Z * Z + option (Z * Z)) :=
  let '(prev, curr, collision) := st in
  if curr =? 0 then mret (inr (Some (prev, collision)))
  else
    b ← node_matches_p hcode key curr;
    if b : bool then mret (inr None)
    else
      nx ← load_p curr node_next;
      collision ← calc (int_ (collision + 1));
      mret (inl (curr, nx, collision)).

Definition new_node_p (hcode key val : Z) : prog world Z :=
  n ← access (malloc sizeof_node);
  store_p n node_hashcode hcode;;
  store_p n node_key key;;
  store_p n node_val val;;
  store_p n node_next 0;;
  mret n.

(** Up to the new node: [None] for a key that is there, or the slot, [prev],
    [collision] and the node. *)
Definition insert_front_p (key val : Z) : prog world (option (Z * Z * Z * Z)) :=
  s ← string_p key;
  hcode ← calc (hashcode s);
  size ← read_ht ht_size;
  slot ← calc (int_rem hcode size);
  st ← read_ht store;
  curr ← load_p st slot;
  r ← loop fuel (insert_walk_p hcode key) (0, curr, 0);
  match r with
  | None => mret None
  | Some (prev, collision) => n ← new_node_p hcode key val; mret (Some (slot, prev, collision, n))
  end.

Definition resize_node_p (new_store new_size curr : Z) : prog world (Z + unit) :=
  if curr =? 0 then mret (inr tt)
  else
    let n := curr in
    curr ← load_p curr node_next;
    hc ← load_p n node_hashcode;
    slot ← calc (int_rem hc new_size);
    head ← load_p new_store slot;
    (if negb (head =? 0) then
       head ← load_p new_store slot; store_p n node_next head
     else store_p n node_next 0);;
    store_p new_store slot n;;
    mret (inl curr).

Definition resize_slot_p (new_store new_size i : Z) : prog world (Z + unit) :=
  size ← read_ht ht_size;
  if i <? size then
    st ← read_ht store;
    curr ← load_p st i;
    loop fuel (resize_node_p new_store new_size) curr;;
    mret (inl (i + 1))
  else mret (inr tt).

(** [bzero] and [free] are calls of the library, one step each. *)
Definition htable_resize_p : prog world unit :=
  size ← read_ht ht_size;
  n ← calc (int_ (2 * size));
  new_size ← calc (get_prime n);
  new_store ← access (malloc (u64 (sizeof_pointer * u64 new_size)));
  calc (assert_ (negb (new_store =? 0)));;
  action (bzero new_store (u64 (sizeof_pointer * u64 new_size)));;
  loop fuel (resize_slot_p new_store new_size) 0;;
  action (set_size new_size);;
  st ← read_ht store;
  action (free st);;
  action (set_store new_store).

Definition insert_back_p (slot prev collision n : Z) : prog world Z :=
  (if prev =? 0 then st ← read_ht store; store_p st slot n
   else store_p prev node_next n);;
  allow ← read_ht allow_resize;
  (if negb (allow =? 0) && (collision >=? MAX_COLLISION) then htable_resize_p else mret tt);;
  mret 0.

Definition htable_insert_p (key val : Z) : prog world Z :=
  r ← insert_front_p key val;
  match r with
  | None => mret 1
  | Some (slot, prev, collision, n) => insert_back_p slot prev collision n
  end.

Definition lookup_walk_p (hcode key curr : Z) : prog world (Z + Z) :=
  if curr =? 0 then mret (inr 0)
  else
    b ← node_matches_p hcode key curr;
    if b : bool then v ← load_p curr node_val; mret (inr v)
    else nx ← load_p curr node_next; mret (inl nx).

Definition htable_lookup_p (key : Z) : prog world Z :=
  s ← string_p key;
  hcode ← calc (hashcode s);
  size ← read_ht ht_size;
  slot ← calc (int_rem hcode size);
  st ← read_ht store;
  curr ← load_p st slot;
  loop fuel (lookup_walk_p hcode key) curr.

(** A thread that makes several lookups. *)
Definition lookups_p (keys : list Z) : prog world (list Z) :=
  foldM (fun vals key => v ← htable_lookup_p key; mret (vals ++ [v])) [] keys.

(** ** Alone

    The states in which the functions are compared: the strings, the table
    [t], and at most [k] blocks. *)
Definition calm (t : htable) (k : nat) (w : world) : Prop :=
  strings w = strs /\ ht w = t /\ (size (heap w) <= k)%nat.

Lemma load_calm t k p i w a w' : calm t k w -> load p i w = Ok (a, w') -> calm t k w'.
Proof. intros Hw. unfold load. st_unfold. destruct (load_word _ _ _); [|done]. by intros [= <- <-]. Qed.

Lemma store_calm t k p i v w a w' : calm t k w -> store_at p i v w = Ok (a, w') -> calm t k w'.
Proof.
  intros (Hs & Ht & Hk). unfold store_at, store_word, block_of. st_unfold. destruct (p =? 0); [done|].
  destruct (heap w !! p) as [l|] eqn:Hp; [|done]. simpl. unfold arr_set. destruct (_ && _); [|done].
  intros [= <- <-]. split_and!; [done|done|]. simpl. rewrite map_size_insert_Some; [done|by eexists].
Qed.

Lemma malloc_calm t k n w a w' : calm t k w -> malloc n w = Ok (a, w') -> calm t (S k) w'.
Proof.
  intros (Hs & Ht & Hk). unfold malloc, malloc_words. st_unfold. destruct (malloc_pick _ _) as [p|].
  - intros [= <- <-]. split_and!; [done|done|]. simpl.
    rewrite map_size_insert. destruct (heap w !! p); simpl; lia.
  - intros [= <- <-]. split_and!; [done|done|]. simpl. lia.
Qed.

Lemma sim_load t k p i : sim (calm t k) (load_p p i) (load p i) (fun _ => calm t k).
Proof. apply sim_access. intros w a w'. apply load_calm. Qed.
Lemma sim_store t k p i v : sim (calm t k) (store_p p i v) (store_at p i v) (fun _ => calm t k).
Proof. apply sim_action. intros w a w'. apply store_calm. Qed.

Lemma sim_string t k p : sim (calm t k) (string_p p) (c_string p) (fun _ => calm t k).
Proof.
  intros w Hw. right. unfold string_p. rewrite exec_calc. unfold c_string. st_unfold.
  destruct Hw as (<- & Hw). destruct (need _); simpl; split; try done. by intros ? ? [= <- <-].
Qed.

(** A field read where the table is known. *)
Lemma sim_read_ht {B} t k f (g : Z -> prog world B) c J :
  sim (calm t k) (g (f t)) c J -> sim (calm t k) (x ← read_ht f; g x) c J.
Proof. intros Hs w Hw. rewrite exec_bind. pose proof Hw as (_ & <- & _). apply (Hs w Hw). Qed.

Lemma sim_gets {B} t k (p : prog world B) (g : htable -> ST world B) (J : B -> world -> Prop) :
  sim (calm t k) p (g t) J -> sim (calm t k) p (t ← gets ht; g t) J.
Proof. intros Hs w Hw. pose proof Hw as (_ & <- & _). apply (Hs w Hw). Qed.

Lemma sim_node_matches t k hcode key curr :
  sim (calm t k) (node_matches_p hcode key curr) (node_matches hcode key curr) (fun _ => calm t k).
Proof.
  eapply sim_bind; [apply sim_load|intros hc]. destruct (hc =? hcode); [|apply sim_ret].
  eapply sim_bind; [apply sim_load|intros q]. eapply sim_bind; [apply sim_string|intros s].
  eapply sim_bind; [apply sim_string|intros s']. apply sim_ret.
Qed.

Lemma sim_insert_walk t k hcode key st :
  sim (calm t k) (insert_walk_p hcode key st) (insert_walk hcode key st) (fun _ => calm t k).
Proof.
  destruct st as [[prev curr] coll]. unfold insert_walk_p, insert_walk. destruct (curr =? 0); [apply sim_ret|].
  eapply sim_bind; [apply sim_node_matches|intros b]. destruct b; [apply sim_ret|].
  eapply sim_bind; [apply sim_load|intros nx]. eapply sim_bind; [apply sim_calc|intros c]. apply sim_ret.
Qed.

Lemma sim_lookup_walk t k hcode key curr :
  sim (calm t k) (lookup_walk_p hcode key curr) (lookup_walk hcode key curr) (fun _ => calm t k).
Proof.
  unfold lookup_walk_p, lookup_walk. destruct (curr =? 0); [apply sim_ret|].
  eapply sim_bind; [apply sim_node_matches|intros b].
  destruct b; (eapply sim_bind; [apply sim_load|intros v]; apply sim_ret).
Qed.

Lemma chain_fuel_calm t k w : (k < fuel)%nat -> calm t k w -> (Pos.to_nat (chain_fuel w) <= fuel)%nat.
Proof. intros Hk (_ & _ & Hs). unfold chain_fuel. rewrite SuccNat2Pos.id_succ. lia. Qed.

Lemma sim_new_node t k hcode key val :
  sim (calm t k) (new_node_p hcode key val) (new_node hcode key val) (fun _ => calm t (S k)).
Proof.
  eapply sim_bind; [apply sim_access; intros w a w'; apply malloc_calm|intros n].
  do 4 (eapply sim_bind; [apply sim_store|intros []]). apply sim_ret.
Qed.

(** The first part of [htable_insert]. *)
Definition insert_front (key val : Z) : ST world (option (Z * Z * Z * Z)) :=
  s ← c_string key;
  hcode ← lift (hashcode s);
  t ← gets ht;
  slot ← lift (int_rem hcode (ht_size t));
  curr ← load (store t) slot;
  r ← (w ← get; while_st (chain_fuel w) (insert_walk hcode key) (0, curr, 0));
  match r with
  | None => mret None
  | Some (prev, collision) => n ← new_node hcode key val; mret (Some (slot, prev, collision, n))
  end.

Lemma sim_insert_front t k key val :
  (k < fuel)%nat ->
  sim (calm t k) (insert_front_p key val) (insert_front key val) (fun _ => calm t (S k)).
Proof.
  intros Hk. eapply sim_bind; [apply sim_string|intros s]. eapply sim_bind; [apply sim_calc|intros hcode].
  apply sim_gets, sim_read_ht. eapply sim_bind; [apply sim_calc|intros slot].
  apply sim_read_ht. eapply sim_bind; [apply sim_load|intros curr].
  eapply sim_bind.
  { apply (sim_while _ fuel chain_fuel); [apply sim_insert_walk|]. intros w. by apply chain_fuel_calm. }
  intros [[prev coll]|].
  - eapply sim_bind; [apply sim_new_node|intros n]. apply sim_ret.
  - eapply sim_post; [|apply sim_ret]. simpl. intros a w (? & ? & ?). split_and!; [done|done|lia].
Qed.

Lemma sim_resize_node t k ns n curr :
  sim (calm t k) (resize_node_p ns n curr) (resize_node ns n curr) (fun _ => calm t k).
Proof.
  unfold resize_node_p, resize_node. destruct (curr =? 0); [apply sim_ret|].
  eapply sim_bind; [apply sim_load|intros nx]. eapply sim_bind; [apply sim_load|intros hc].
  eapply sim_bind; [apply sim_calc|intros slot]. eapply sim_bind; [apply sim_load|intros head].
  eapply (sim_bind _ (fun _ => calm t k)).
  { destruct (negb _); [|apply sim_store]. eapply sim_bind; [apply sim_load|intros h]. apply sim_store. }
  intros []. eapply sim_bind; [apply sim_store|intros []]. apply sim_ret.
Qed.

(** The [for] loop reads the size at every turn. *)
Lemma sim_resize_slots t k ns n : (k < fuel)%nat -> forall m i turns,
  Z.to_nat (ht_size t - i) = m -> (m < turns)%nat ->
  sim (calm t k) (loop turns (resize_slot_p ns n) i)
    (foldM (fun _ i => curr ← load (store t) i; w ← get; while_st (chain_fuel w) (resize_node ns n) curr)
      tt (seqZ i (ht_size t - i))) (fun _ => calm t k).
Proof.
  intros Hk. induction m as [|m IH]; intros i turns Hm Ht; (destruct turns as [|turns]; [lia|]); cbn [loop].
  - unfold resize_slot_p. apply sim_assoc, sim_read_ht. rewrite (proj2 (Z.ltb_ge _ _)) by lia.
    rewrite seqZ_nil by lia. apply sim_ret.
  - unfold resize_slot_p at 1. apply sim_assoc, sim_read_ht. rewrite (proj2 (Z.ltb_lt _ _)) by lia.
    rewrite seqZ_cons by lia. cbn [foldM]. apply sim_assoc, sim_read_ht.
    eapply sim_ext; [intros w; apply st_bind_assoc|].
    apply sim_assoc. eapply sim_bind; [apply sim_load|intros curr]. apply sim_assoc.
    eapply sim_bind.
    { apply (sim_while _ fuel chain_fuel); [apply sim_resize_node|]. intros w. by apply chain_fuel_calm. }
    intros []. cbn [mbind prog_bind mret prog_ret].
    replace (Z.pred (ht_size t - i)) with (ht_size t - (i + 1)) by lia. apply IH; lia.
Qed.

Lemma sim_htable_resize t k :
  (S k < fuel)%nat -> (Z.to_nat (ht_size t) < fuel)%nat ->
  sim (calm t k) htable_resize_p htable_resize (fun _ _ => True).
Proof.
  intros Hk Hsize. unfold htable_resize_p, htable_resize. apply sim_gets, sim_read_ht.
  eapply sim_bind; [apply sim_calc|intros n]. eapply sim_bind; [apply sim_calc|intros new_size].
  eapply sim_bind; [apply sim_access; intros w a w'; apply malloc_calm|intros ns].
  eapply sim_bind; [apply sim_calc|intros []].
  eapply (sim_bind _ (fun _ => calm t (S k))); [apply sim_action|intros []].
  { intros w a w' Hw. unfold bzero, bzero_words, block_of. st_unfold. destruct (ns =? 0); [done|].
    destruct (heap w !! ns) as [l|] eqn:Hl; [|done]. simpl. destruct (guard_ _); [|done]. simpl.
    intros [= <- <-]. destruct Hw as (? & ? & Hw). split_and!; [done|done|]. simpl.
    rewrite map_size_insert_Some; [done|by eexists]. }
  eapply sim_bind.
  { pose proof (sim_resize_slots t (S k) ns new_size Hk _ 0 fuel eq_refl) as Hs.
    rewrite Z.sub_0_r in Hs. by apply Hs. }
  intros [] w (Hs & Ht & Hh). right. split; [|done].
  rewrite exec_bind. st_unfold. rewrite exec_action. unfold set_size. st_unfold. simpl.
  unfold free. st_unfold. simpl. rewrite Ht. destruct (free_words _ _); done.
Qed.

Lemma sim_htable_insert t k key val :
  (S (S k) < fuel)%nat -> (Z.to_nat (ht_size t) < fuel)%nat ->
  sim (calm t k) (htable_insert_p key val) (htable_insert key val) (fun _ _ => True).
Proof.
  intros Hk Hsize. unfold htable_insert_p, insert_front_p, htable_insert.
  apply sim_assoc. eapply sim_bind; [apply sim_string|intros s]. apply sim_assoc.
  eapply sim_bind; [apply sim_calc|intros hcode]. apply sim_gets, sim_assoc, sim_read_ht, sim_assoc.
  eapply sim_bind; [apply sim_calc|intros slot]. apply sim_assoc, sim_read_ht, sim_assoc.
  eapply sim_bind; [apply sim_load|intros curr]. apply sim_assoc.
  eapply sim_ext; [intros w; symmetry; apply st_bind_assoc|]. eapply sim_bind.
  { apply (sim_while _ fuel chain_fuel); [apply sim_insert_walk|]. intros w. apply chain_fuel_calm. lia. }
  intros [[prev coll]|]; [|apply (sim_post _ _ _ (fun _ => calm t k)); [done|apply sim_ret]].
  apply sim_assoc. eapply sim_bind; [apply sim_new_node|intros n]. cbn [mbind prog_bind mret prog_ret].
  unfold insert_back_p. eapply (sim_bind _ (fun _ => calm t (S k))).
  { destruct (prev =? 0); [|apply sim_store]. apply sim_read_ht, sim_store. }
  intros []. apply sim_read_ht. eapply (sim_bind _ (fun _ _ => True)); [|intros []; apply sim_ret].
  destruct (_ && _); [apply sim_htable_resize; lia|].
  apply (sim_post _ _ _ (fun _ => calm t (S k))); [done|apply sim_ret].
Qed.

Lemma sim_htable_lookup t k key :
  (k < fuel)%nat -> sim (calm t k) (htable_lookup_p key) (htable_lookup key) (fun _ => calm t k).
Proof.
  intros Hk. unfold htable_lookup_p, htable_lookup. eapply sim_bind; [apply sim_string|intros s].
  eapply sim_bind; [apply sim_calc|intros hcode]. apply sim_gets, sim_read_ht.
  eapply sim_bind; [apply sim_calc|intros slot]. apply sim_read_ht. eapply sim_bind; [apply sim_load|intros curr].
  apply (sim_while _ fuel chain_fuel); [apply sim_lookup_walk|]. intros w. by apply chain_fuel_calm.
Qed.
End steps.
