(* ===== verification/HtableRace.v ===== *)
(** * Threads on the hash table as handed out

    [htable.c] takes no lock.  Threads that only look up do not disturb each
    other; two insertions into one list can lose a key, and a lookup that runs
    while the table grows can read freed memory. *)

From S2P Require Import Prelude Words Primes Htable HtableChains HtableResize HtableInv Interleave HtableSteps.

(** ** Lookups only read *)

Section lookups.
Context `{Malloc} (strs : gmap Z (list Z)) (fuel : nat).

Lemma read_only_load p i : read_only (load_p p i).
Proof. split; [|done]. intros w r w'. unfold load. st_unfold. destruct (load_word _ _ _); [|done]. by intros [= <- <-]. Qed.

Lemma read_only_ht f : read_only (read_ht f).
Proof. split; [|done]. by intros w r w' [= <- <-]. Qed.

Lemma read_only_lookup key : read_only (htable_lookup_p strs fuel key).
Proof.
  repeat (apply read_only_bind; [apply read_only_calc || apply read_only_ht || apply read_only_load|intros ?]).
  apply read_only_loop. intros curr. unfold lookup_walk_p. destruct (curr =? 0); [done|].
  apply read_only_bind.
  - apply read_only_bind; [apply read_only_load|intros hc]. destruct (hc =? _); [|done].
    repeat (apply read_only_bind; [apply read_only_calc || apply read_only_load|intros ?]). done.
  - intros []; (apply read_only_bind; [apply read_only_load|done]).
Qed.
End lookups.

(** The answer to a lookup in the map [m]. *)
Definition answer (strs : gmap Z (list Z)) (m : gmap (list Z) Z) (key : Z) : Z :=
  default 0 (m !! default [] (strs !! key)).

Definition known_key (strs : gmap Z (list Z)) (key : Z) : Prop :=
  exists s, strs !! key = Some s /\ good_key s.

Section readers.
Context `{MallocLaws} (w : world) (m : gmap (list Z) Z) (own : list Z) (fuel : nat).
Context (Htable : table w m own) (Hfuel : (size (heap w) < fuel)%nat).

Lemma answer_run key :
  known_key (strings w) key -> htable_lookup key w = Ok (answer (strings w) m key, w).
Proof.
  intros (s & Hs & Hg). destruct Htable as (chs & Hinv & -> & _).
  rewrite (htable_lookup_run w chs key s Hinv Hs Hg). unfold answer. by rewrite Hs.
Qed.

Lemma lookup_reads key :
  known_key (strings w) key ->
  exists n, reads w n (htable_lookup_p (strings w) fuel key) (answer (strings w) m key).
Proof.
  intros Hkey. pose proof (answer_run key Hkey) as Hrun.
  apply (read_only_reads _ w _ w); [apply read_only_lookup|].
  rewrite (sim_exec (calm (strings w) (ht w) (size (heap w))) _ (htable_lookup key) (fun _ => calm (strings w) (ht w) (size (heap w)))).
  - done.
  - by apply sim_htable_lookup.
  - done.
  - by rewrite Hrun.
Qed.

Lemma lookups_reads keys :
  Forall (known_key (strings w)) keys ->
  exists n, reads w n (lookups_p (strings w) fuel keys) (answer (strings w) m <$> keys).
Proof.
  intros Hkeys. unfold lookups_p.
  assert (Hall : forall vals, exists n,
    reads w n (foldM (fun vals key => v ← htable_lookup_p (strings w) fuel key; mret (vals ++ [v])) vals keys)
      (vals ++ (answer (strings w) m <$> keys))).
  { induction Hkeys as [|key keys Hkey Hkeys IH]; intros vals.
    - exists 0%nat. simpl. by rewrite app_nil_r.
    - destruct (lookup_reads key Hkey) as [n1 H1]. destruct (IH (vals ++ [answer (strings w) m key])) as [n2 H2].
      exists (n1 + 0 + n2)%nat. cbn [foldM]. eapply reads_bind; [eapply reads_bind; [exact H1|done]|].
      by rewrite <- app_assoc in H2. }
  apply (Hall []).
Qed.
End readers.

(** ** Two insertions *)

Section inserts.
Context `{MallocLaws}.

(** The block of a node that no list has yet. *)
Lemma table_inv_block w chs p b :
  heap w !! p = None -> table_inv w chs -> table_inv (set_heap (<[p := b]> (heap w)) w) chs.
Proof.
  intros Hp [Hly Hok Hnd Hsl]. split; [|done..].
  pose proof (fresh_loc w chs p Hly Hp) as Hnew. apply not_elem_of_cons in Hnew as [Hst Hin].
  destruct Hly as [H1 (heads & Hh & Hc) H3 H4 H5]. split; [done| |done..].
  exists heads. simpl. split; [by rewrite lookup_insert_ne|]. by apply chains_insert.
Qed.

(** The first part of an insertion of a new key. *)
Lemma insert_front_run w chs key val s l p :
  table_inv w chs -> strings w !! key = Some s -> good_key s -> Z.of_nat (length (concat chs)) < 2 ^ 31 ->
  chs !! Z.to_nat (hash_of s mod ht_size (ht w)) = Some l -> find_key (strings w) s l = None ->
  malloc_pick (heap w) sizeof_node = Some p ->
  insert_front key val w =
    Ok (Some (hash_of s mod ht_size (ht w), last_loc l, Z.of_nat (length l), p),
        set_heap (<[p := [Some (hash_of s); Some key; Some val; Some 0]]> (heap w)) w).
Proof.
  intros Hinv Hkey [Ha Hlen] Hcount Hl Hfind Hp. pose proof (hash_of_range s Ha) as Hh.
  destruct (slot_lookup w chs s Hinv) as (heads & hd & l' & Hheads & Hhd & Hl' & _ & Hc).
  rewrite Hl in Hl'. injection Hl' as <-.
  destruct (chain_of_table _ _ _ _ Hinv Hl) as (Hnd & Hok & Hle).
  pose proof (ti_layout _ _ Hinv) as [Hst0 _ _ Hpos _].
  unfold insert_front.
  rewrite (bind_Ok _ _ _ s w) by (unfold c_string; st_unfold; by rewrite Hkey).
  rewrite (bind_Ok _ _ _ (hash_of s) w) by (unfold lift; by rewrite hashcode_run).
  rewrite (bind_Ok _ _ _ (ht w) w) by done.
  rewrite (bind_Ok _ _ _ (hash_of s mod ht_size (ht w)) w) by (unfold lift; by rewrite int_rem_ok by lia).
  rewrite (bind_Ok _ _ _ hd w); [|apply (load_head _ _ heads); [done|done|dlia|done]].
  erewrite bind_Ok; [|apply (insert_walk_run w key s Hkey (conj Ha Hlen) _ l); [done|done|done|lia]].
  rewrite Hfind. by erewrite bind_Ok; [|by rewrite new_node_run, Hp].
Qed.

Lemma insert_front_alone w chs fuel key val s l p :
  table_inv w chs -> strings w !! key = Some s -> good_key s -> Z.of_nat (length (concat chs)) < 2 ^ 31 ->
  chs !! Z.to_nat (hash_of s mod ht_size (ht w)) = Some l -> find_key (strings w) s l = None ->
  malloc_pick (heap w) sizeof_node = Some p -> (size (heap w) < fuel)%nat ->
  exec (insert_front_p (strings w) fuel key val) w =
    Ok (Some (hash_of s mod ht_size (ht w), last_loc l, Z.of_nat (length l), p),
        set_heap (<[p := [Some (hash_of s); Some key; Some val; Some 0]]> (heap w)) w).
Proof.
  intros Hinv Hkey Hs Hcount Hl Hfind Hp Hfuel.
  rewrite <- (insert_front_run w chs key val s l p) by done.
  apply (sim_exec (calm (strings w) (ht w) (size (heap w))) _ _ (fun _ => calm (strings w) (ht w) (S (size (heap w))))).
  - by apply sim_insert_front.
  - done.
  - by rewrite (insert_front_run w chs key val s l p).
Qed.

(** A word written twice. *)
Lemma store_twice (w w1 : world) p i u v :
  store_at p i u w = Ok (tt, w1) -> store_at p i v w1 = store_at p i v w.
Proof.
  unfold store_at, store_word, block_of. st_unfold. destruct (p =? 0); [done|].
  destruct (heap w !! p) as [l|]; [|done]. simpl. unfold arr_set.
  destruct ((0 <=? i) && (i <? Z.of_nat (length l))) eqn:Hi; [|done].
  intros [= <-]. simpl. rewrite lookup_insert_eq. simpl. rewrite length_insert, Hi.
  by rewrite !list_insert_insert_eq, insert_insert_eq.
Qed.

(** The second part of an insertion into a table that does not grow. *)
Definition link (t : htable) (slot prev n : Z) : ST world unit :=
  if prev =? 0 then store_at (store t) slot n else store_at prev node_next n.

Lemma store_at_ht (w w1 : world) p i v : store_at p i v w = Ok (tt, w1) -> ht w1 = ht w.
Proof.
  unfold store_at. st_unfold. destruct (store_word _ _ _ _); [|done]. by intros [= <-].
Qed.

Lemma insert_back_alone fuel w w1 slot prev coll n :
  allow_resize (ht w) = 0 -> link (ht w) slot prev n w = Ok (tt, w1) ->
  exec (insert_back_p fuel slot prev coll n) w = Ok (0, w1).
Proof.
  intros Hallow Hlink.
  assert (Hht : ht w1 = ht w) by (unfold link in Hlink; destruct (prev =? 0); by eapply store_at_ht).
  unfold insert_back_p. rewrite exec_bind. erewrite bind_Ok.
  2: { transitivity (link (ht w) slot prev n w); [|exact Hlink].
       unfold link. destruct (prev =? 0); [|apply exec_action].
       rewrite exec_bind, (bind_Ok _ _ _ (store (ht w)) w) by done. apply exec_action. }
  rewrite exec_bind. cbn [exec read_ht access]. unfold read_ht. rewrite (bind_Ok _ _ _ (allow_resize (ht w1)) w1) by done.
  by rewrite Hht, Hallow.
Qed.

(** Two nodes of one slot linked in the same place: the later one stays. *)
Lemma link_twice (w : world) chs l e1 e2 :
  table_inv w chs -> e_hash e1 mod ht_size (ht w) = e_hash e2 mod ht_size (ht w) ->
  chs !! Z.to_nat (e_hash e1 mod ht_size (ht w)) = Some l ->
  Forall (fun e => e_loc e <> 0 /\ e_loc e ∉ store (ht w) :: locs (concat chs) /\ heap w !! e_loc e = Some (node_words e 0)) [e1; e2] ->
  entry_ok (strings w) e1 -> find_key (strings w) (key_of (strings w) e1) l = None ->
  exists w1 w2, link (ht w) (e_hash e1 mod ht_size (ht w)) (last_loc l) (e_loc e2) w = Ok (tt, w1) /\
    link (ht w) (e_hash e1 mod ht_size (ht w)) (last_loc l) (e_loc e1) w1 = Ok (tt, w2) /\
    ht w1 = ht w /\ strings w2 = strings w /\
    table_inv w2 (with_node chs (Z.to_nat (e_hash e1 mod ht_size (ht w))) e1).
Proof.
  intros Hinv Hslot Hl Hes Hok Hfind. apply Forall_cons in Hes as [(Hp1 & Hnew1 & Hb1) Hes].
  apply Forall_cons in Hes as [(Hp2 & Hnew2 & Hb2) _].
  pose proof (ti_layout _ _ Hinv) as [Hst0 (heads & Hheads & Hc) Hsz Hpos Hnd].
  pose proof (Z.mod_pos_bound (e_hash e1) (ht_size (ht w)) ltac:(lia)) as Hi.
  destruct (link_run w (ht w) heads chs (e_hash e1 mod ht_size (ht w)) l e2) as (h2 & Hlink2 & _); try done; [lia|].
  destruct (link_run w (ht w) heads chs (e_hash e1 mod ht_size (ht w)) l e1) as (h1 & Hlink1 & Hly & _); try done; [lia|].
  exists (set_heap h2 w), (set_heap h1 w). split_and!; [done| |done|done|].
  - transitivity (link (ht w) (e_hash e1 mod ht_size (ht w)) (last_loc l) (e_loc e1) w); [|exact Hlink1].
    unfold link in *. destruct (last_loc l =? 0); by apply (store_twice w _ _ _ (e_loc e2)).
  - by apply (table_inv_with_node w chs l e1 (set_heap h1 w)).
Qed.

(** A whole insertion between the two parts of another. *)
Lemma interrupted strs fuel (w w1 w2 w3 : world) k1 v1 k2 v2 slot prev coll n r1 r2 :
  exec (insert_front_p strs fuel k1 v1) w = Ok (Some (slot, prev, coll, n), w1) ->
  exec (htable_insert_p strs fuel k2 v2) w1 = Ok (r2, w2) ->
  exec (insert_back_p fuel slot prev coll n) w2 = Ok (r1, w3) ->
  exists sched, interleave sched [htable_insert_p strs fuel k1 v1; htable_insert_p strs fuel k2 v2] w =
    Ok ([Done r1; Done r2], w3).
Proof.
  intros H1 H2 H3. destruct (interleave_alone (B := Z) _ _ _ _ H1) as [n1 Hn1].
  destruct (interleave_alone_done _ _ _ _ H2) as [n2 Hn2]. destruct (interleave_alone_done _ _ _ _ H3) as [n3 Hn3].
  exists (replicate n1 0%nat ++ replicate n2 1%nat ++ replicate n3 0%nat).
  rewrite interleave_app. erewrite bind_Ok; [|by eapply Hn1]. rewrite interleave_app.
  erewrite bind_Ok; [|by apply Hn2]. by rewrite (Hn3 0%nat).
Qed.

(** A key that the map does not have is in no list. *)
Lemma find_key_new w m chs s l :
  table_inv w chs -> m = contents (strings w) (concat chs) -> m !! s = None ->
  chs !! Z.to_nat (hash_of s mod ht_size (ht w)) = Some l -> find_key (strings w) s l = None.
Proof.
  intros Hinv -> Hs Hl. rewrite <- (find_key_slot w chs s l Hinv Hl).
  rewrite contents_lookup in Hs. by destruct (find_key _ _ _).
Qed.

Context (w : world) (m : gmap (list Z) Z) (own : list Z) (fuel : nat) (k1 k2 v1 v2 : Z) (s1 s2 : list Z).
Context (Htable : table w m own) (Hcount : Z.of_nat (size m) < 2 ^ 31) (Hfuel : (S (S (size (heap w))) < fuel)%nat).
Context (Hk1 : strings w !! k1 = Some s1) (Hk2 : strings w !! k2 = Some s2) (Hs1 : good_key s1) (Hs2 : good_key s2).
Context (Hm1 : m !! s1 = None) (Hm2 : m !! s2 = None).
Context (Hslot : hash_of s1 mod ht_size (ht w) = hash_of s2 mod ht_size (ht w)).
Context (Hallow : allow_resize (ht w) = 0).
Context (Hserves : forall h, (size h <= S (size (heap w)))%nat -> is_Some (malloc_pick h sizeof_node)).

(** Both threads find the same end of the list; the later assignment to its
    [next] field, or to the slot, overwrites the earlier one. *)
Lemma race_run : exists sched w' own',
  interleave sched [htable_insert_p (strings w) fuel k1 v1; htable_insert_p (strings w) fuel k2 v2] w =
    Ok ([Done 0; Done 0], w') /\
  table w' (<[s1 := v1]> m) own' /\ strings w' = strings w.
Proof.
  destruct Htable as (chs & Hinv & Hm & Hown).
  rewrite Hm, size_contents in Hcount by apply Hinv.
  pose proof (slot_lookup w chs s1 Hinv) as (_ & _ & l & _ & _ & Hl & _ & _).
  pose proof (find_key_new w m chs s1 l Hinv Hm Hm1 Hl) as Hf1.
  pose proof (find_key_new w m chs s2 l Hinv Hm Hm2 ltac:(by rewrite <- Hslot)) as Hf2.
  destruct (Hserves (heap w)) as [p1 Hp1]; [lia|].
  pose proof (malloc_fresh _ _ _ Hp1) as [Hp1r Hp1f].
  set (e1 := {| e_loc := p1; e_hash := hash_of s1; e_key := k1; e_val := v1 |}).
  set (w1 := set_heap (<[p1 := node_words e1 0]> (heap w)) w).
  destruct (Hserves (heap w1)) as [p2 Hp2]; [simpl; rewrite map_size_insert_None; [lia|done]|].
  pose proof (malloc_fresh _ _ _ Hp2) as [Hp2r Hp2f].
  set (e2 := {| e_loc := p2; e_hash := hash_of s2; e_key := k2; e_val := v2 |}).
  set (w2 := set_heap (<[p2 := node_words e2 0]> (heap w1)) w1).
  pose proof (table_inv_block w chs p1 (node_words e1 0) Hp1f Hinv) as Hinv1. fold w1 in Hinv1.
  pose proof (table_inv_block w1 chs p2 (node_words e2 0) Hp2f Hinv1) as Hinv2. fold w2 in Hinv2.
  assert (Hnew1 : p1 ∉ store (ht w) :: locs (concat chs)) by (eapply fresh_loc; [apply Hinv|done]).
  assert (Hnew2 : p2 ∉ store (ht w) :: locs (concat chs)) by (eapply (fresh_loc w1 chs); [apply Hinv1|done]).
  assert (Hp12 : p1 <> p2) by (intros ->; simpl in Hp2f; by rewrite lookup_insert_eq in Hp2f).
  destruct (link_twice w2 chs l e1 e2) as (w3 & w4 & Hlink2 & Hlink1 & Hht3 & Hstr4 & Hinv4); try done.
  { repeat constructor; try done; simpl; try lia; [|by rewrite lookup_insert_eq].
    rewrite lookup_insert_ne by done. by rewrite lookup_insert_eq. }
  { by exists s1. }
  { unfold key_of. simpl. by rewrite Hk1. }
  set (i := hash_of s1 mod ht_size (ht w)) in *. set (prev := last_loc l) in *. set (coll := Z.of_nat (length l)).
  assert (Hfront1 : exec (insert_front_p (strings w) fuel k1 v1) w = Ok (Some (i, prev, coll, p1), w1))
    by (eapply insert_front_alone; [done|done|done|lia|exact Hl|done|done|lia]).
  assert (Hfront2 : exec (insert_front_p (strings w) fuel k2 v2) w1 = Ok (Some (i, prev, coll, p2), w2)).
  { rewrite Hslot. eapply (insert_front_alone w1 chs); [done|done|done|lia|simpl; by rewrite <- Hslot|done|done|].
    simpl. rewrite map_size_insert_None by done. lia. }
  assert (Hinsert2 : exec (htable_insert_p (strings w) fuel k2 v2) w1 = Ok (0, w3)).
  { unfold htable_insert_p. rewrite exec_bind, (bind_Ok _ _ _ _ _ Hfront2). by apply insert_back_alone. }
  assert (Hlast : exec (insert_back_p fuel i prev coll p1) w3 = Ok (0, w4)) by (apply insert_back_alone; by rewrite Hht3).
  destruct (interrupted _ _ _ _ _ _ _ _ _ _ _ _ _ _ _ _ Hfront1 Hinsert2 Hlast) as [sched Hsched].
  exists sched, w4, (store (ht w4) :: locs (concat (with_node chs (Z.to_nat i) e1))). split_and!; [exact Hsched| |done].
  exists (with_node chs (Z.to_nat i) e1). split_and!; [| |done].
  - exact Hinv4.
  - etransitivity; [|symmetry; apply (contents_perm _ _ _ (ti_keys _ _ Hinv4) (concat_with_node chs _ l e1 Hl))].
    rewrite Hstr4, Hm. unfold contents, key_of. simpl. by rewrite Hk1.
Qed.
End inserts.

(** ** A lookup while the table grows *)

(** An insertion that makes the table grow frees the old array. *)
Lemma insert_grows `{MallocLaws} w chs key val s w' :
  table_inv w chs -> strings w !! key = Some s -> good_key s -> Z.of_nat (length (concat chs)) < 2 ^ 31 ->
  htable_insert key val w = Ok (0, w') -> ht_size (ht w') <> ht_size (ht w) ->
  heap w' !! store (ht w) = None.
Proof.
  intros Hinv Hkey Hs Hcount Hrun Hgrows.
  pose proof (slot_lookup w chs s Hinv) as (_ & _ & l & _ & _ & Hl & _ & _).
  rewrite (insert_search_run w chs key val s l) in Hrun by done.
  destruct (find_key (strings w) s l) as [e|] eqn:Hfind; [done|].
  destruct (malloc_pick (heap w) sizeof_node) as [p|] eqn:Hp.
  2: { unfold insert_rest in Hrun. by rewrite (bind_Fault _ _ _ Undefined) in Hrun by (by rewrite new_node_run, Hp). }
  destruct (insert_link_run w chs key val s l p Hinv Hkey Hs Hl Hfind Hp)
    as (w1 & chs1 & Hrest & Hinv1 & HP & Hht & Hstr & _).
  rewrite Hrest in Hrun. destruct (_ && _).
  2: { injection Hrun as <-. by rewrite Hht in Hgrows. }
  apply bind_inv in Hrun as ([] & w2 & Hresize & [= <-]). rewrite <- Hht in *.
  destruct (Z.lt_ge_cases (ht_size (ht w1)) (2 ^ 30)) as [Hsmall|Hbig].
  - destruct (htable_resize_run w1 chs1 Hinv1 Hsmall) as (n & _ & Hout).
    destruct (malloc_pick (heap w1) (8 * n)) as [q|]; [|congruence].
    destruct Hout as (w3 & Hrun3 & _ & _ & _ & Hfreed & _). rewrite Hresize in Hrun3. by injection Hrun3 as <-.
  - unfold htable_resize in Hresize. rewrite (bind_Ok _ _ _ (ht w1) w1) in Hresize by done.
    rewrite (bind_Fault _ _ _ Undefined) in Hresize; [done|]. unfold lift. by rewrite int_overflow by lia.
Qed.

Lemma bind_read_ht {B} f (g : Z -> prog world B) : (read_ht f ≫= g) = Do (t ← gets ht; mret (f t)) g.
Proof. reflexivity. Qed.

Lemma lookup_begins strs fuel key s :
  strs !! key = Some s -> good_key s ->
  htable_lookup_p strs fuel key =
    (size ← read_ht ht_size;
     slot ← calc (int_rem (hash_of s) size);
     st ← read_ht store;
     curr ← load_p st slot;
     loop fuel (lookup_walk_p strs (hash_of s) key) curr).
Proof.
  intros Hkey [Ha Hlen]. unfold htable_lookup_p, string_p. rewrite Hkey. unfold need.
  rewrite bind_calc, hashcode_run by done. by rewrite bind_calc.
Qed.

(** The first two accesses of a lookup: the size and the array. *)
Lemma lookup_starts strs fuel key s t (ps : list (prog world Z)) i w :
  strs !! key = Some s -> good_key s -> ht w = t -> 0 < ht_size t ->
  ps !! i = Some (htable_lookup_p strs fuel key) ->
  interleave [i; i] ps w =
    Ok (<[i := curr ← load_p (store t) (hash_of s mod ht_size t); loop fuel (lookup_walk_p strs (hash_of s) key) curr]> ps, w).
Proof.
  intros Hkey [Ha Hlen] <- Hpos Hi. pose proof (hash_of_range s Ha) as Hh.
  pose proof (lookup_lt_Some _ _ _ Hi) as Hlt.
  rewrite (lookup_begins strs fuel key s) in Hi by done.
  cbn [interleave]. rewrite Hi, bind_read_ht. rewrite (bind_Ok _ _ _ (ht_size (ht w)) w) by done.
  rewrite list_lookup_insert_eq by done. rewrite int_rem_ok, bind_calc, bind_read_ht by lia.
  rewrite (bind_Ok _ _ _ (store (ht w)) w) by done. by rewrite list_insert_insert_eq.
Qed.

Lemma stale_lookup_run `{MallocLaws} w m own key val s key' s' w' fuel :
  table w m own -> Z.of_nat (size m) < 2 ^ 31 ->
  strings w !! key = Some s -> good_key s -> strings w !! key' = Some s' -> good_key s' ->
  htable_insert key val w = Ok (0, w') -> ht_size (ht w') <> ht_size (ht w) ->
  (S (S (size (heap w))) < fuel)%nat -> (Z.to_nat (ht_size (ht w)) < fuel)%nat ->
  exists sched, interleave sched
    [htable_insert_p (strings w) fuel key val; htable_lookup_p (strings w) fuel key'] w = Fault Undefined.
Proof.
  intros (chs & Hinv & Hm & _) Hcount Hkey Hs Hkey' Hs' Hrun Hgrows Hfuel Hfuel'.
  rewrite Hm, size_contents in Hcount by apply Hinv.
  pose proof (insert_grows w chs key val s w' Hinv Hkey Hs Hcount Hrun Hgrows) as Hfreed.
  pose proof (ti_layout _ _ Hinv) as [Hst0 _ _ Hpos _].
  assert (Hexec : exec (htable_insert_p (strings w) fuel key val) w = Ok (0, w')).
  { rewrite <- Hrun. apply (sim_exec (calm (strings w) (ht w) (size (heap w))) _ _ (fun _ _ => True)).
    - by apply sim_htable_insert.
    - done.
    - by rewrite Hrun. }
  destruct (interleave_alone_done _ _ _ _ Hexec) as [n Hn].
  exists ([1%nat; 1%nat] ++ replicate n 0%nat ++ [1%nat]).
  rewrite interleave_app. erewrite bind_Ok; [|apply (lookup_starts (strings w) fuel key' s' (ht w)); [done|done|done|lia|done]].
  rewrite interleave_app. erewrite bind_Ok; [|by apply Hn]. simpl.
  apply bind_Fault. unfold load. st_unfold. unfold load_word, block_of.
  rewrite (proj2 (Z.eqb_neq _ _)) by done. by rewrite Hfreed.
Qed.
