(* ===== verification/HtableThreads.v ===== *)
(** * What threads may do with the hash table as handed out

    The programs of [HtableSteps] under any schedule: alone, several that look
    up, and the races of insertions. *)

From S2P Require Import Prelude Words Primes Htable HtableChains HtableResize HtableInv HtableSpec Interleave HtableSteps HtableRace.

(** ** Worlds to run the threads in *)

(** Sixteen keys of two letters at the addresses from 1000 on. *)
Definition letters_at (i : Z) : list Z := [65 + i / 4; 65 + i mod 4].
Definition sixteen_strings : gmap Z (list Z) :=
  list_to_map ((fun i => (1000 + i, letters_at i)) <$> seqZ 0 16).

Definition bare_world : world := {|
  heap := ∅;
  strings := sixteen_strings;
  ht := {| allow_resize := 0; store := 0; ht_size := 0 |};
|}.

Lemma sixteen_known i : 0 <= i < 16 -> known_key sixteen_strings (1000 + i).
Proof.
  intros Hi. exists (letters_at i).
  assert (Hall : forallb (fun i => bool_decide (sixteen_strings !! (1000 + i) = Some (letters_at i)) &&
      (forallb (fun c => (0 <? c) && (c <? 128)) (letters_at i) && (Z.of_nat (length (letters_at i)) <? 2 ^ 31)))
    (seqZ 0 16) = true) by (vm_compute; reflexivity).
  rewrite forallb_forall in Hall. specialize (Hall i ltac:(apply list_elem_of_In, elem_of_seqZ; lia)).
  apply andb_prop in Hall as [H1 H2]. split; [by apply bool_decide_eq_true_1 in H1|by apply good_key_dec].
Qed.

(** A table of [sz] made in the bare world, with the first keys inserted. *)
Definition insert_some `{Malloc} (n : nat) : ST world unit :=
  foldM (fun _ i => htable_insert (1000 + i) (500 + i);; mret tt) tt (seqZ 0 (Z.of_nat n)).

Definition filled (sz allow : Z) (n : nat) : world :=
  match (@htable_init lowest_free sz allow;; @insert_some lowest_free n) bare_world with
  | Ok (_, w) => w
  | Fault _ => bare_world
  end.

Definition filled_ok (w : world) (m : gmap (list Z) Z) : Prop :=
  strings w = sixteen_strings /\ map_Forall (fun _ v => 500 <= v) m.

Lemma insert_some_run `{MallocLaws} n : forall a w m h0 w',
  table_over h0 w m -> filled_ok w m -> 0 <= a -> a + Z.of_nat n <= 16 -> Z.of_nat (size m) <= a ->
  foldM (fun _ i => htable_insert (1000 + i) (500 + i);; mret tt) tt (seqZ a (Z.of_nat n)) w = Ok (tt, w') ->
  exists m', table_over h0 w' m' /\ filled_ok w' m' /\ Z.of_nat (size m') <= 16.
Proof.
  induction n as [|n IH]; intros a w m h0 w' Hover [Hstr Hvals] Ha Hn Hm Hrun.
  - injection Hrun as <-. exists m. split_and!; [done|done|lia].
  - rewrite seqZ_cons in Hrun by lia. cbn [foldM] in Hrun.
    apply bind_inv in Hrun as ([] & w1 & Hins & Hrun). apply bind_inv in Hins as (c & w2 & Hins & [= <-]).
    destruct (sixteen_known a ltac:(lia)) as (s & Hs & Hg).
    pose proof (table_over_insert h0 w m (1000 + a) (500 + a) s Hover ltac:(by rewrite Hstr) Hg ltac:(lia)) as Hout.
    rewrite Hins in Hout.
    replace (Z.pred (Z.of_nat (S n))) with (Z.of_nat n) in Hrun by lia.
    assert (Hnext : exists m1, table_over h0 w2 m1 /\ filled_ok w2 m1 /\ Z.of_nat (size m1) <= Z.succ a).
    { destruct Hout as [(_ & _ & ->)|(_ & Hnone & Hover' & Hstr' & _)].
      - exists m. split_and!; [done|done|lia].
      - exists (<[s := 500 + a]> m). split_and!; [done| |rewrite map_size_insert_None by done; lia].
        split; [congruence|]. apply map_Forall_insert_2; [lia|done]. }
    destruct Hnext as (m1 & H1 & H2 & H3). by apply (IH (Z.succ a) w2 m1 h0 w'); try lia.
Qed.

(** The answers of a filled table, which are not NULL for a key it has. *)
Lemma filled_table sz allow n :
  0 <= sz < 1000 -> (n <= 16)%nat ->
  (exists w', (@htable_init lowest_free sz allow;; @insert_some lowest_free n) bare_world = Ok (tt, w')) ->
  exists m own, table (filled sz allow n) m own /\ strings (filled sz allow n) = sixteen_strings /\
    Z.of_nat (size m) < 2 ^ 31 /\
    forall key v, known_key sixteen_strings key -> htable_lookup key (filled sz allow n) = Ok (v, filled sz allow n) ->
      answer sixteen_strings m key = v /\ (v = 0 -> m !! default [] (sixteen_strings !! key) = None).
Proof.
  intros Hsz Hn [w' Hrun]. unfold filled. rewrite Hrun. apply bind_inv in Hrun as ([] & w1 & Hinit & Hrun).
  destruct (@table_over_init lowest_free lowest_free_laws bare_world sz allow) as (p & _ & Hout); [lia|].
  destruct (malloc_pick _ _) as [q|]; [|congruence].
  destruct Hout as (w2 & Hinit' & Hover & _ & Hstr). rewrite Hinit in Hinit'. injection Hinit' as <-.
  destruct (@insert_some_run lowest_free lowest_free_laws n 0 w1 ∅ _ w' Hover) as (m & (own & Hm & _) & [Hs Hvals] & Hsize);
    [by split|lia|lia|by rewrite map_size_empty|done|].
  exists m, own. split_and!; [done|done|lia|]. intros key v Hkey Hv.
  rewrite (answer_run w' m own Hm) in Hv by (by rewrite Hs). rewrite Hs in Hv. injection Hv as Hv.
  split; [done|]. intros ->. unfold answer in Hv. destruct (m !! _) as [v|] eqn:Hlook; [|done].
  apply Hvals in Hlook. simpl in Hv. lia.
Qed.

(** ** Properties *)



(** C16: any number of threads that only look up keys, however their accesses interleave, leave the
    table and the rest of memory alone; every thread that comes to its end has the answers of the
    map, and it comes to its end once it had its turns, of which it needs a
    number that does not depend on the schedule. *)
Theorem concurrent_lookups_correct `{MallocLaws} (w : world) (m : gmap (list Z) Z) (own : list Z)
    (threads : list (list Z)) (fuel : nat) :
  table w m own -> Forall (Forall (known_key (strings w))) threads -> (size (heap w) < fuel)%nat ->
  exists needed, forall sched, exists ps,
    interleave sched (lookups_p (strings w) fuel <$> threads) w = Ok (ps, w) /\ length ps = length threads /\
    forall i keys, threads !! i = Some keys ->
      (forall vals, ps !! i = Some (Done vals) -> vals = answer (strings w) m <$> keys) /\
      ((needed <= turns i sched)%nat -> ps !! i = Some (Done (answer (strings w) m <$> keys))).
Proof.
  intros Htable Hkeys Hfuel.
  assert (Hns : exists ns, Forall2 (fun n keys => reads w n (lookups_p (strings w) fuel keys) (answer (strings w) m <$> keys)) ns threads).
  { induction Hkeys as [|keys threads Hk Hks [ns IH]]; [by exists []|].
    destruct (lookups_reads w m own fuel Htable Hfuel keys Hk) as [n Hn]. exists (n :: ns). by constructor. }
  destruct Hns as [ns Hns]. exists (sum_list ns). intros sched.
  set (ps := (fun keys => lookups_p (strings w) fuel keys) <$> threads).
  set (rs := map (fun keys : list Z => (answer (strings w) m <$> keys) : list Z) threads).
  assert (Hrs : forall i keys, threads !! i = Some keys -> rs !! i = Some (answer (strings w) m <$> keys)).
  { intros i keys Hi. unfold rs. rewrite (list_lookup_fmap (fun keys : list Z => answer (strings w) m <$> keys) threads i). by rewrite Hi. }
  destruct (interleave_reads w sched ps ns rs) as (ps' & Hrun & Hlen & Hps).
  { unfold ps. by rewrite length_fmap, (Forall2_length _ _ _ Hns). }
  { intros i p Hp. apply list_lookup_fmap_Some in Hp as (keys & -> & Hi).
    destruct (Forall2_lookup_r _ _ _ _ _ Hns Hi) as (n & Hn & Hr).
    exists n, (answer (strings w) m <$> keys). by auto. }
  unfold ps in Hlen. rewrite length_fmap in Hlen.
  exists ps'. split_and!; [done|done|]. intros i keys Hi.
  destruct (Forall2_lookup_r _ _ _ _ _ Hns Hi) as (n & Hn & _).
  destruct (lookup_lt_is_Some_2 ps' i) as [p Hp]; [rewrite Hlen; by eapply lookup_lt_Some|].
  destruct (Hps i p n Hp Hn) as (a & Ha & Hr). rewrite (Hrs i keys Hi) in Ha. injection Ha as <-.
  rewrite Hp. split.
  - intros vals [= ->]. by destruct Hr as [_ ->].
  - intros Hturns. pose proof (sum_list_with_in n id ns (list_elem_of_lookup_2 _ _ _ Hn)) as Hle. simpl in Hle.
    replace (n - turns i sched)%nat with 0%nat in Hr by lia.
    destruct p as [vals|c k|e]; [by destruct Hr as [_ ->]|by destruct Hr as (? & ? & ? & _)|done].
Qed.

(** Two threads on a table of three keys; the first also looks for a key that
    is not there. *)
Lemma concurrent_lookups_correct_witness :
  exists needed, forall sched,
    (needed <= turns 0 sched)%nat -> (needed <= turns 1 sched)%nat ->
    @interleave _ _ sched (lookups_p sixteen_strings 10 <$> [[1000; 1005]; [1002]]) (filled 4 0 3) =
      Ok ([Done [500; 0]; Done [502]], filled 4 0 3).
Proof.
  destruct (filled_table 4 0 3) as (m & own & Htable & Hstr & _ & Hans);
    [lia|lia|vm_compute; by eexists|].
  destruct (@concurrent_lookups_correct lowest_free lowest_free_laws (filled 4 0 3) m own [[1000; 1005]; [1002]] 10 Htable)
    as [needed Hall].
  { rewrite Hstr. repeat constructor; apply (sixteen_known 0) || apply (sixteen_known 5) || apply (sixteen_known 2); lia. }
  { vm_compute. lia. }
  exists needed. intros sched H0 H1. destruct (Hall sched) as (ps & Hrun & Hlen & Hps). rewrite Hstr in Hrun.
  rewrite Hrun. f_equal. f_equal.
  destruct (Hps 0%nat [1000; 1005] eq_refl) as [_ Hp0]. destruct (Hps 1%nat [1002] eq_refl) as [_ Hp1].
  specialize (Hp0 H0). specialize (Hp1 H1). cbn [fmap list_fmap] in Hp0, Hp1. rewrite Hstr in Hp0, Hp1.
  rewrite (proj1 (Hans 1000 500 (sixteen_known 0 ltac:(lia)) ltac:(vm_compute; reflexivity))),
    (proj1 (Hans 1005 0 (sixteen_known 5 ltac:(lia)) ltac:(vm_compute; reflexivity))) in Hp0.
  rewrite (proj1 (Hans 1002 502 (sixteen_known 2 ltac:(lia)) ltac:(vm_compute; reflexivity))) in Hp1.
  destruct ps as [|p0 [|p1 [|p2 ps]]]; try discriminate Hlen. injection Hp0 as ->. injection Hp1 as ->. reflexivity.
Defined.

(** C27: two threads that insert keys of the same slot, both new, into a table that does not grow
    can both be told that the insertion succeeded while only one of the keys
    is in the table: a lookup of the other one returns NULL. *)
Theorem insertion_race_loses_key `{MallocLaws} (blocks : nat) `{!MallocServes blocks}
    (w : world) (m : gmap (list Z) Z) (own : list Z) (fuel : nat) (k1 k2 v1 v2 : Z) (s1 s2 : list Z) :
  table w m own -> Z.of_nat (size m) < 2 ^ 31 -> allow_resize (ht w) = 0 ->
  (S (size (heap w)) < blocks)%nat -> (S (S (size (heap w))) < fuel)%nat ->
  strings w !! k1 = Some s1 -> strings w !! k2 = Some s2 -> good_key s1 -> good_key s2 -> s1 <> s2 ->
  m !! s1 = None -> m !! s2 = None -> hash_of s1 mod ht_size (ht w) = hash_of s2 mod ht_size (ht w) ->
  exists sched w' own',
    interleave sched [htable_insert_p (strings w) fuel k1 v1; htable_insert_p (strings w) fuel k2 v2] w =
      Ok ([Done 0; Done 0], w') /\
    table w' (<[s1 := v1]> m) own' /\ htable_lookup k2 w' = Ok (0, w').
Proof.
  intros Htable Hcount Hallow Hblocks Hfuel Hk1 Hk2 Hs1 Hs2 Hne Hm1 Hm2 Hslot.
  destruct (race_run w m own fuel k1 k2 v1 v2 s1 s2) as (sched & w' & own' & Hrun & Htable' & Hstr); try done.
  { intros h Hh. apply malloc_serves; [lia|]. unfold sizeof_node. lia. }
  exists sched, w', own'. split_and!; [done|done|].
  rewrite (answer_run w' _ own' Htable') by (exists s2; by rewrite Hstr).
  unfold answer. rewrite Hstr, Hk2. simpl. by rewrite lookup_insert_ne, Hm2.
Qed.

(** Two keys for a table with one slot. *)
Lemma insertion_race_loses_key_witness :
  exists sched w',
    @interleave _ _ sched [@htable_insert_p lowest_free sixteen_strings 10 1003 7; @htable_insert_p lowest_free sixteen_strings 10 1004 8]
      (filled 0 0 3) = Ok ([Done 0; Done 0], w') /\
    @htable_lookup 1004 w' = Ok (0, w').
Proof.
  destruct (filled_table 0 0 3) as (m & own & Htable & Hstr & Hsize & Hans); [lia|lia|vm_compute; by eexists|].
  pose proof (sixteen_known 3 ltac:(lia)) as Hk1. pose proof (sixteen_known 4 ltac:(lia)) as Hk2.
  destruct (Hans 1003 0 Hk1 ltac:(vm_compute; reflexivity)) as [_ Hm1].
  destruct (Hans 1004 0 Hk2 ltac:(vm_compute; reflexivity)) as [_ Hm2].
  destruct (@insertion_race_loses_key lowest_free lowest_free_laws 100 (lowest_free_serves 100 ltac:(lia))
    (filled 0 0 3) m own 10 1003 1004 7 8 (letters_at 3) (letters_at 4)) as (sched & w' & own' & Hrun & _ & Hlook);
    [exact Htable|exact Hsize|vm_compute; reflexivity|vm_compute; lia|vm_compute; lia
    |vm_compute; reflexivity|vm_compute; reflexivity|by apply good_key_dec|by apply good_key_dec|done
    |by apply Hm1|by apply Hm2|vm_compute; reflexivity|].
  rewrite Hstr in Hrun. exists sched, w'. exact (conj Hrun Hlook).
Defined.

(** C28: an insertion that makes the table grow next to a lookup, of any key, is undefined behaviour: there is a
    schedule in which the lookup has fetched the address of the array, the
    insertion frees it, and the lookup reads it. *)
Theorem lookup_races_growth `{MallocLaws} (w w' : world) (m : gmap (list Z) Z) (own : list Z) (fuel : nat)
    (key val key' : Z) :
  table w m own -> Z.of_nat (size m) < 2 ^ 31 -> known_key (strings w) key -> known_key (strings w) key' ->
  htable_insert key val w = Ok (0, w') -> ht_size (ht w') <> ht_size (ht w) ->
  (S (S (size (heap w))) < fuel)%nat -> (Z.to_nat (ht_size (ht w)) < fuel)%nat ->
  exists sched, interleave sched
    [htable_insert_p (strings w) fuel key val; htable_lookup_p (strings w) fuel key'] w = Fault Undefined.
Proof.
  intros Htable Hcount (s & Hs & Hg) (s' & Hs' & Hg') Hrun Hgrows Hf1 Hf2.
  by apply (stale_lookup_run w m own key val s key' s' w' fuel).
Qed.

(** The eleventh key of a list, inserted while the first is looked up. *)
Lemma lookup_races_growth_witness :
  exists sched, @interleave _ _ sched
    [@htable_insert_p lowest_free sixteen_strings 40 1010 510; htable_lookup_p sixteen_strings 40 1000]
    (filled 0 1 10) = Fault Undefined.
Proof.
  destruct (filled_table 0 1 10) as (m & own & Htable & Hstr & Hsize & _); [lia|lia|vm_compute; by eexists|].
  assert (Hrun : exists w', @htable_insert lowest_free 1010 510 (filled 0 1 10) = Ok (0, w') /\ ht_size (ht w') = 2)
    by (vm_compute; eexists; split; reflexivity).
  destruct Hrun as (w' & Hrun & Hgrown).
  pose proof (sixteen_known 10 ltac:(lia)) as Hk1. pose proof (sixteen_known 0 ltac:(lia)) as Hk2.
  pose proof (@lookup_races_growth lowest_free lowest_free_laws (filled 0 1 10) w' m own 40 1010 510 1000) as Hrace.
  rewrite Hstr in Hrace.
  apply Hrace; [done|done|exact Hk1|exact Hk2|done|rewrite Hgrown; vm_compute; done|vm_compute; lia|vm_compute; lia].
Defined.
