(* ===== verification/HtableView.v ===== *)
(** * One thread's view of the hash table

    A thread knows the lists of the slots that no other thread inserts into,
    and the node it has not linked yet, whatever the others do.  From that the
    run of the programs of [HtableSteps] next to others follows. *)

From S2P Require Import Prelude Words Primes Htable HtableChains HtableResize HtableInv HtableSpec Interleave HtableSteps.

(** The lists that the thread knows, the slots that it may insert into, its
    blocks outside all lists, and the number of blocks it may still ask for. *)
Record view := {
  lists : gmap nat (list entry);
  writable : gset nat;
  own_blocks : words;
  credit : nat;
}.

(** ** Operations of a thread *)

Definition run_op_p `{Malloc} (strs : gmap Z (list Z)) (fuel : nat) (op : table_op) : prog world Z :=
  match op with
  | Insert key val => htable_insert_p strs fuel key val
  | Lookup key => htable_lookup_p strs fuel key
  end.

Fixpoint run_ops_p `{Malloc} (strs : gmap Z (list Z)) (fuel : nat) (ops : list table_op) : prog world (list Z) :=
  match ops with
  | [] => mret []
  | op :: ops => r ← run_op_p strs fuel op; rs ← run_ops_p strs fuel ops; mret (r :: rs)
  end.

(** The string of an operation's key, and the map after several of them. *)
Definition op_string (strs : gmap Z (list Z)) (op : table_op) : list Z := default [] (strs !! op_key op).

Definition spec_map (strs : gmap Z (list Z)) (ops : list table_op) (m : gmap (list Z) Z) : gmap (list Z) Z :=
  foldl (fun m op => snd (spec_op strs op m)) m ops.

(** The first node of a list. *)
Definition first_loc (l : list entry) : Z := default 0 (e_loc <$> head l).

Lemma chain_first h p l : chain h p l -> p = first_loc l.
Proof. destruct l as [|e l]; [done|]. by intros (-> & _). Qed.

Lemma chain_suffix h p l1 l2 : chain h p (l1 ++ l2) -> chain h (first_loc l2) l2.
Proof.
  revert p; induction l1 as [|e l1 IH]; intros p Hc.
  - pose proof (chain_first _ _ _ Hc) as ->. exact Hc.
  - destruct Hc as (_ & _ & nx & _ & Hc). by apply (IH nx).
Qed.

(** A block outside the table may change. *)
Lemma table_inv_outside w chs p b :
  p ∉ store (ht w) :: locs (concat chs) -> table_inv w chs -> table_inv (set_heap (<[p := b]> (heap w)) w) chs.
Proof.
  intros [Hst Hin]%not_elem_of_cons [[H1 (heads & Hh & Hc) H3 H4 H5] Hok Hnd Hsl]. split; [|done..].
  split; [done| |done..]. exists heads. simpl. split; [by rewrite lookup_insert_ne|]. by apply chains_insert.
Qed.

Section views.
(** What stays as it is: the strings and the table; and a bound on the
    number of blocks. *)
Context `{MallocLaws} (strs : gmap Z (list Z)) (t : htable) (bound : nat).
Context `{!MallocServes (S bound)} (Hbound : Z.of_nat bound < 2 ^ 31) (Hallow : allow_resize t = 0).

Definition owned (chs : list (list entry)) : list Z := store t :: locs (concat chs).

Record holds (w : world) (chs : list (list entry)) : Prop := {
  holds_inv : table_inv w chs;
  holds_ht : ht w = t;
  holds_strings : strings w = strs;
}.

Record sees (v : view) (w : world) (chs : list (list entry)) : Prop := {
  sees_lists i l : lists v !! i = Some l -> chs !! i = Some l;
  sees_blocks p b : own_blocks v !! p = Some b -> heap w !! p = Some b;
  sees_outside p b : own_blocks v !! p = Some b -> p ∉ owned chs;
}.

Record stands (v : view) (w : world) (chs : list (list entry)) : Prop := {
  stands_holds : holds w chs;
  stands_sees : sees v w chs;
  stands_room : (size (heap w) + credit v <= bound)%nat;
}.

(** What an access may do: the lists of slots that are not the thread's to
    change and the other blocks outside the table stay, and no block is taken
    that somebody has. *)
Record moves (v : view) (w : world) (chs : list (list entry)) (v' : view) (w' : world) (chs' : list (list entry)) : Prop := {
  moves_holds : holds w' chs';
  moves_sees : sees v' w' chs';
  moves_slots i : lists v' !! i = None <-> lists v !! i = None;
  moves_writable : writable v' = writable v;
  moves_lists i : i ∉ writable v -> chs' !! i = chs !! i;
  moves_blocks p b : own_blocks v !! p = None -> p ∉ owned chs -> heap w !! p = Some b ->
    heap w' !! p = Some b /\ p ∉ owned chs';
  moves_new p b : own_blocks v' !! p = Some b -> own_blocks v !! p = None -> heap w !! p = None;
  moves_room : (size (heap w') + credit v' <= size (heap w) + credit v)%nat;
}.

(** The program, of at most [n] accesses, runs next to others to a result
    with [Q]. *)
Fixpoint wp {A} (p : prog world A) (n : nat) (v : view) (Q : A -> view -> Prop) : Prop :=
  match p with
  | Done a => Q a v
  | Do c k =>
      match n with
      | O => False
      | S n => forall w chs, stands v w chs ->
          exists r w' v' chs', c w = Ok (r, w') /\ moves v w chs v' w' chs' /\ wp (k r) n v' Q
      end
  | Halt _ => False
  end.

Lemma wp_mono {A} (p : prog world A) n n' v (Q Q' : A -> view -> Prop) :
  wp p n v Q -> (n <= n')%nat -> (forall a v', Q a v' -> Q' a v') -> wp p n' v Q'.
Proof.
  revert n n' v; induction p as [a|c k IH|e]; intros n n' v Hp Hn HQ; [by apply HQ| |done].
  destruct n as [|n]; [done|]. destruct n' as [|n']; [lia|]. intros w chs Hw.
  destruct (Hp w chs Hw) as (r & w' & v' & chs' & Hc & Hm & Hk).
  exists r, w', v', chs'. split_and!; [done|done|]. by apply (IH r n); [|lia|].
Qed.

Lemma wp_bind {A B} (p : prog world A) (f : A -> prog world B) n m v Q :
  wp p n v (fun a v' => wp (f a) m v' Q) -> wp (p ≫= f) (n + m) v Q.
Proof.
  revert n v; induction p as [a|c k IH|e]; intros n v Hp; [|destruct n as [|n]; [done|]|done].
  - apply (wp_mono _ m (n + m) v Q); [exact Hp|lia|done].
  - intros w chs Hw. destruct (Hp w chs Hw) as (r & w' & v' & chs' & Hc & Hm & Hk).
    exists r, w', v', chs'. split_and!; [done|done|]. by apply IH.
Qed.

Lemma wp_assoc {A B C} (p : prog world A) (f : A -> prog world B) (g : B -> prog world C) n v Q :
  wp (p ≫= (fun a => f a ≫= g)) n v Q -> wp ((p ≫= f) ≫= g) n v Q.
Proof.
  revert n v; induction p as [a|c k IH|e]; intros n v Hp; [done| |done].
  destruct n as [|n]; [done|]. intros w chs Hw.
  destruct (Hp w chs Hw) as (r & w' & v' & chs' & Hc & Hm & Hk).
  exists r, w', v', chs'. split_and!; [done|done|]. by apply IH.
Qed.

Lemma moves_refl v w chs : stands v w chs -> moves v w chs v w chs.
Proof. intros [Hh Hs Hr]. split; [done|done|done|done|done|done|congruence|done]. Qed.

(** ** Rules *)

Lemma wp_load {A} p i (k : Z -> prog world A) n v Q :
  (forall w chs, stands v w chs -> exists a, load p i w = Ok (a, w) /\ wp (k a) n v Q) ->
  wp (load_p p i ≫= k) (S n) v Q.
Proof.
  intros Hl w chs Hw. destruct (Hl w chs Hw) as (a & Ha & Hk).
  exists a, w, v, chs. split_and!; [done|by apply moves_refl|done].
Qed.

Lemma wp_read_ht {A} f (k : Z -> prog world A) n v Q :
  wp (k (f t)) n v Q -> wp (read_ht f ≫= k) (S n) v Q.
Proof.
  intros Hk w chs Hw. exists (f t), w, v, chs. split_and!; [|by apply moves_refl|done].
  unfold read_ht. st_unfold. by rewrite (holds_ht _ _ (stands_holds _ _ _ Hw)).
Qed.

(** The list of a slot in memory. *)
Lemma stands_chain v w chs i l :
  stands v w chs -> lists v !! i = Some l ->
  exists heads, store t <> 0 /\ heap w !! store t = Some (Some <$> heads) /\ heads !! i = Some (first_loc l) /\
    chain (heap w) (first_loc l) l /\ Forall (entry_ok strs) l /\ (length l <= bound)%nat /\
    Forall (fun e => e_loc e <> 0) l.
Proof.
  intros [[Hinv Hht Hstr] Hsees Hroom] Hl. apply (sees_lists _ _ _ Hsees) in Hl.
  destruct (chain_of_table _ _ _ _ Hinv Hl) as (Hnd & Hok & _).
  destruct Hinv as [[Hst0 (heads & Hh & Hc) _ _ _] _ _ _]. rewrite Hht in Hh, Hst0. rewrite Hstr in Hok.
  destruct (Forall2_lookup_r _ _ _ _ _ Hc Hl) as (hd & Hhd & Hcl).
  pose proof (chain_first _ _ _ Hcl) as ->. exists heads. split_and!; try done.
  - pose proof (chain_length _ _ _ Hcl Hnd). lia.
  - apply Forall_forall. intros e He. by destruct (chain_in _ _ _ _ Hcl He) as (nx & _ & ?).
Qed.

Lemma wp_head {A} slot l (k : Z -> prog world A) n v Q :
  0 <= slot -> lists v !! Z.to_nat slot = Some l ->
  ((length l <= bound)%nat -> Forall (fun e => e_loc e <> 0) l -> wp (k (first_loc l)) n v Q) -> wp (load_p (store t) slot ≫= k) (S n) v Q.
Proof.
  intros Hs Hl Hk. apply wp_load. intros w chs Hw.
  destruct (stands_chain _ _ _ _ _ Hw Hl) as (heads & H1 & H2 & H3 & _ & _ & H6 & H7).
  exists (first_loc l). split; [by apply (load_head _ _ heads)|by apply Hk].
Qed.

(** A field of a node of a list. *)
Lemma wp_field {A} slot l1 e l2 i a (k : Z -> prog world A) n v Q :
  lists v !! slot = Some (l1 ++ e :: l2) -> 0 <= i ->
  node_words e (first_loc l2) !! Z.to_nat i = Some (Some a) ->
  (entry_ok strs e -> wp (k a) n v Q) -> wp (load_p (e_loc e) i ≫= k) (S n) v Q.
Proof.
  intros Hl Hi Ha Hk. apply wp_load. intros w chs Hw.
  destruct (stands_chain _ _ _ _ _ Hw Hl) as (_ & _ & _ & _ & Hc & Hok & _ & _).
  apply chain_suffix in Hc as (_ & Hne & nx & He & Hc). rewrite (chain_first _ _ _ Hc) in He.
  exists a. split; [by apply (load_node _ _ e (first_loc l2))|].
  apply Hk. apply Forall_app in Hok as [_ Hok]. by apply Forall_cons in Hok as [? _].
Qed.

Lemma wp_node_matches {A} slot l1 e l2 key s (k : bool -> prog world A) n v Q :
  lists v !! slot = Some (l1 ++ e :: l2) -> strs !! key = Some s -> good_key s ->
  wp (k (bool_decide (key_of strs e = s))) n v Q ->
  wp (node_matches_p strs (hash_of s) key (e_loc e) ≫= k) (2 + n) v Q.
Proof.
  intros Hl Hkey Hs Hk. apply wp_assoc. apply (wp_field slot l1 e l2 _ (e_hash e)); [done|done|done|].
  intros (s' & Hs' & Hg & Hh). assert (Hko : key_of strs e = s') by (unfold key_of; by rewrite Hs').
  rewrite Hko in Hk. rewrite Hh. destruct (Z.eqb_spec (hash_of s') (hash_of s)) as [Heq|Hneq].
  - apply wp_assoc. apply (wp_field slot l1 e l2 _ (e_key e)); [done|done|done|]. intros _.
    unfold string_p. rewrite Hs', Hkey. cbn [need calc mbind prog_bind mret prog_ret].
    by rewrite strcmp_eq by (by apply good_c_chars).
  - rewrite bool_decide_false in Hk by (by intros ->). eapply wp_mono; [exact Hk|lia|done].
Qed.

(** The search of [htable_lookup], from a node of the list on. *)
Lemma wp_lookup_walk slot key s v l2 : forall fuel l1,
  strs !! key = Some s -> good_key s -> lists v !! slot = Some (l1 ++ l2) -> Forall (fun e => e_loc e <> 0) l2 ->
  (length l2 < fuel)%nat ->
  wp (loop fuel (lookup_walk_p strs (hash_of s) key) (first_loc l2)) (3 * length l2) v
    (fun r v' => r = default 0 (e_val <$> find_key strs s l2) /\ v' = v).
Proof.
  induction l2 as [|e l2 IH]; intros fuel l1 Hkey Hs Hl Hne Hfuel;
    (destruct fuel as [|fuel]; [simpl in Hfuel; lia|]); [done|].
  apply Forall_cons in Hne as [He Hne]. simpl in Hfuel. cbn [loop]. unfold lookup_walk_p at 2.
  change (first_loc (e :: l2)) with (e_loc e). rewrite (proj2 (Z.eqb_neq _ _)) by done. cbn [find_key].
  replace (3 * length (e :: l2))%nat with (2 + (1 + 3 * length l2))%nat by (simpl; lia).
  apply wp_assoc, (wp_node_matches slot l1 e l2 key s); [done|done|done|]. case_bool_decide.
  - apply wp_assoc, (wp_field slot l1 e l2 _ (e_val e)); [done|done|done|]. by intros _.
  - apply wp_assoc, (wp_field slot l1 e l2 _ (first_loc l2)); [done|done|done|]. intros _.
    apply (IH fuel (l1 ++ [e])); [done|done|by rewrite <- app_assoc|done|lia].
Qed.

(** The search of [htable_insert]. *)
Lemma wp_insert_walk slot key s v l2 : forall fuel l1,
  strs !! key = Some s -> good_key s -> lists v !! slot = Some (l1 ++ l2) -> Forall (fun e => e_loc e <> 0) l2 ->
  (length l2 < fuel)%nat -> find_key strs s l1 = None -> (length (l1 ++ l2) <= bound)%nat ->
  wp (loop fuel (insert_walk_p strs (hash_of s) key) (last_loc l1, first_loc l2, Z.of_nat (length l1))) (3 * length l2) v
    (fun r v' => r = match find_key strs s (l1 ++ l2) with
       | Some _ => None | None => Some (last_loc (l1 ++ l2), Z.of_nat (length (l1 ++ l2))) end /\ v' = v).
Proof.
  induction l2 as [|e l2 IH]; intros fuel l1 Hkey Hs Hl Hne Hfuel Hno Hlen;
    (destruct fuel as [|fuel]; [simpl in Hfuel; lia|]).
  { rewrite app_nil_r, Hno. done. }
  apply Forall_cons in Hne as [He Hne]. simpl in Hfuel. cbn [loop]. unfold insert_walk_p at 2.
  change (first_loc (e :: l2)) with (e_loc e). cbv beta iota zeta. rewrite (proj2 (Z.eqb_neq _ _)) by done.
  replace (3 * length (e :: l2))%nat with (2 + (1 + 3 * length l2))%nat by (simpl; lia).
  apply wp_assoc, (wp_node_matches slot l1 e l2 key s); [done|done|done|]. case_bool_decide as Hk.
  - simpl. rewrite find_key_app, Hno. cbn [find_key]. by rewrite bool_decide_true.
  - apply wp_assoc, (wp_field slot l1 e l2 _ (first_loc l2)); [done|done|done|]. intros _.
    rewrite length_app in Hlen. simpl in Hlen. rewrite int_ok by lia. cbn [calc mbind prog_bind mret prog_ret].
    replace (l1 ++ e :: l2) with ((l1 ++ [e]) ++ l2) by (by rewrite <- app_assoc).
    replace (Z.of_nat (length l1) + 1) with (Z.of_nat (length (l1 ++ [e]))) by (rewrite length_app; simpl; lia).
    replace (e_loc e) with (last_loc (l1 ++ [e])) by (unfold last_loc; by rewrite last_snoc).
    apply (IH fuel (l1 ++ [e])); [done|done|by rewrite <- app_assoc|done|lia| |].
    + rewrite find_key_app, Hno. cbn [find_key]. by rewrite bool_decide_false.
    + rewrite !length_app. simpl. lia.
Qed.

(** ** Own blocks *)

Definition with_block (v : view) (p : Z) (b : list (option Z)) : view :=
  {| lists := lists v; writable := writable v; own_blocks := <[p := b]> (own_blocks v); credit := credit v |}.

Definition spent (v : view) (c : nat) : view :=
  {| lists := lists v; writable := writable v; own_blocks := own_blocks v; credit := c |}.

(** A block of the thread, or a fresh one, is written. *)
Lemma moves_block v w chs p b c :
  stands v w chs -> is_Some (own_blocks v !! p) \/ heap w !! p = None -> p ∉ owned chs ->
  (size (<[p := b]> (heap w)) + c <= size (heap w) + credit v)%nat ->
  moves v w chs (with_block (spent v c) p b) (set_heap (<[p := b]> (heap w)) w) chs.
Proof.
  intros [[Hinv Hht Hstr] [Hl Hb Ho] Hr] Hp Hnew Hsize. split.
  - split; [|done|done]. apply table_inv_outside; [by rewrite Hht|done].
  - split; [done| |]; simpl; intros q b' [[<- <-]|[Hne Hq]]%lookup_insert_Some.
    + by rewrite lookup_insert_eq.
    + rewrite lookup_insert_ne by done. by apply Hb.
    + done.
    + by apply (Ho q b').
  - done.
  - done.
  - done.
  - intros q b' Hq Hqo Hqb. split; [|done]. simpl. rewrite lookup_insert_ne; [done|].
    intros <-. destruct Hp as [[? ?]|?]; congruence.
  - simpl. intros q b' [[<- <-]|[Hne Hq]]%lookup_insert_Some Hnone; [|congruence].
    destruct Hp as [[? ?]|?]; congruence.
  - done.
Qed.

Lemma wp_store_own {A} p i x b (k : unit -> prog world A) n v Q :
  own_blocks v !! p = Some b -> p <> 0 -> 0 <= i < Z.of_nat (length b) ->
  wp (k tt) n (with_block v p (<[Z.to_nat i := Some x]> b)) Q ->
  wp (store_p p i x ≫= k) (S n) v Q.
Proof.
  intros Hp Hp0 Hi Hk w chs Hw. pose proof Hw as [_ [_ Hb Ho] Hr].
  exists 0, (set_heap (<[p := <[Z.to_nat i := Some x]> b]> (heap w)) w), (with_block v p (<[Z.to_nat i := Some x]> b)), chs.
  split_and!; [|apply (moves_block v w chs p _ (credit v)); [done|by left|by apply (Ho p b)|]|exact Hk].
  - by rewrite (bind_Ok _ _ _ _ _ (store_block w p b i x Hp0 (Hb _ _ Hp) Hi)).
  - rewrite map_size_insert_Some; [done|exists b; by apply Hb].
Qed.

Lemma with_block_twice v p b b' : with_block (with_block v p b) p b' = with_block v p b'.
Proof. unfold with_block. simpl. by rewrite insert_insert_eq. Qed.

Lemma wp_new_node {A} hcode key val c (k : Z -> prog world A) n v Q :
  credit v = S c ->
  (forall p, p <> 0 ->
     wp (k p) n (with_block (spent v c) p [Some hcode; Some key; Some val; Some 0]) Q) ->
  wp (new_node_p hcode key val ≫= k) (5 + n) v Q.
Proof.
  intros Hc Hk. unfold new_node_p. apply wp_assoc. intros w chs Hw.
  pose proof Hw as [[Hinv Hht Hstr] [_ Hb Ho] Hr].
  destruct (malloc_serves (heap w) sizeof_node) as [p Hp]; [lia|done|].
  pose proof (malloc_fresh _ _ _ Hp) as [Hpr Hpf]. assert (Hp0 : p <> 0) by lia.
  pose proof (fresh_loc w chs p (ti_layout _ _ Hinv) Hpf) as Hnew. rewrite Hht in Hnew.
  exists p, (set_heap (<[p := replicate 4 None]> (heap w)) w), (with_block (spent v c) p (replicate 4 None)), chs.
  split_and!.
  - by rewrite malloc_run, Hp.
  - apply moves_block; [done|by right|done|]. rewrite map_size_insert_None by done. lia.
  - do 4 (cbn [mbind prog_bind]; apply wp_assoc;
      (eapply wp_store_own; [apply lookup_insert_eq|done|simpl; unfold node_hashcode, node_key, node_val, node_next; lia|]);
      rewrite with_block_twice).
    cbn [mbind prog_bind mret prog_ret]. by apply Hk.
Qed.

(** ** Linking *)

Definition linked (v : view) (i : nat) (l : list entry) (e : entry) : view :=
  {| lists := <[i := l ++ [e]]> (lists v); writable := writable v;
     own_blocks := delete (e_loc e) (own_blocks v); credit := credit v |}.

Definition link_at (slot prev n : Z) : ST world unit :=
  if prev =? 0 then store_at (store t) slot n else store_at prev node_next n.

Lemma link_moves v w chs slot l e :
  stands v w chs -> lists v !! Z.to_nat slot = Some l -> Z.to_nat slot ∈ writable v -> slot = e_hash e mod ht_size t -> entry_ok strs e ->
  find_key strs (key_of strs e) l = None -> own_blocks v !! e_loc e = Some (node_words e 0) -> e_loc e <> 0 ->
  exists w' chs', link_at slot (last_loc l) (e_loc e) w = Ok (tt, w') /\
    moves v w chs (linked v (Z.to_nat slot) l e) w' chs'.
Proof.
  intros Hw Hl Hmine Hslot He Hfind Hb He0. pose proof Hw as [[Hinv Hht Hstr] [Hls Hbs Hos] Hr].
  pose proof (Hls _ _ Hl) as Hchs. pose proof (Hbs _ _ Hb) as Hheap. pose proof (Hos _ _ Hb) as Hnew.
  pose proof (ti_layout _ _ Hinv) as [Hst0 (heads & Hheads & Hc) Hsz Hpos Hnd]. rewrite Hht in *.
  pose proof (Z.mod_pos_bound (e_hash e) (ht_size t) ltac:(lia)) as Hslot'. rewrite <- Hslot in Hslot'.
  destruct (link_run w t heads chs slot l e) as (h' & Hlink & Hly & Hun); try done; [lia|].
  exists (set_heap h' w), (with_node chs (Z.to_nat slot) e). split; [exact Hlink|].
  assert (Hroom : (size h' <= size (heap w))%nat).
  { destruct (last_loc l =? 0); by eapply (store_calm strs t (size (heap w))) in Hlink as (_ & _ & ?); [|done]. }
  pose proof (concat_with_node chs _ l e Hchs) as HP.
  assert (Hown : forall q, q ∉ owned (with_node chs (Z.to_nat slot) e) <-> q <> e_loc e /\ q ∉ owned chs).
  { intros q. unfold owned. rewrite !not_elem_of_cons, (locs_perm _ _ HP). unfold locs. rewrite fmap_cons, not_elem_of_cons. naive_solver. }
  assert (Hinv' : table_inv (set_heap h' w) (with_node chs (Z.to_nat slot) e)).
  { pose proof (table_inv_with_node w chs l e (set_heap h' w) Hinv eq_refl eq_refl) as Hnext.
    rewrite Hht, Hstr, <- Hslot in Hnext. apply Hnext; try done. simpl. by rewrite Hht. }
  rewrite (with_node_insert chs _ l e Hchs) in *. split.
  - by split.
  - split; simpl.
    + intros i l' [[<- <-]|[Hne Hi]]%lookup_insert_Some.
      * apply list_lookup_insert_eq. by eapply lookup_lt_Some.
      * rewrite list_lookup_insert_ne by done. by apply Hls.
    + intros q b' [Hne Hq]%lookup_delete_Some. rewrite Hun; [by apply Hbs|by apply (Hos q b')].
    + intros q b' [Hne Hq]%lookup_delete_Some. apply Hown. split; [done|by apply (Hos q b')].
  - intros i. simpl. rewrite lookup_insert_None. split; [by intros [? _]|]. intros Hi. split; [done|]. intros <-. congruence.
  - done.
  - intros i Hi. apply list_lookup_insert_ne. by intros <-.
  - intros q b' Hq Hqo Hqb. split; [by rewrite Hun|]. apply Hown. split; [|done]. intros ->. congruence.
  - simpl. intros q b' [_ Hq]%lookup_delete_Some Hnone. congruence.
  - simpl. lia.
Qed.

Lemma wp_link {A} slot l e (k : unit -> prog world A) n v Q :
  lists v !! Z.to_nat slot = Some l -> Z.to_nat slot ∈ writable v -> slot = e_hash e mod ht_size t -> entry_ok strs e ->
  find_key strs (key_of strs e) l = None -> own_blocks v !! e_loc e = Some (node_words e 0) -> e_loc e <> 0 ->
  wp (k tt) n (linked v (Z.to_nat slot) l e) Q ->
  wp ((if last_loc l =? 0 then st ← read_ht store; store_p st slot (e_loc e)
       else store_p (last_loc l) node_next (e_loc e)) ≫= k) (2 + n) v Q.
Proof.
  intros Hl Hmine Hslot He Hfind Hb He0 Hk.
  assert (Hstep : forall p i, link_at slot (last_loc l) (e_loc e) = store_at p i (e_loc e) ->
    wp (store_p p i (e_loc e) ≫= k) (1 + n) v Q).
  { intros p i Hp w chs Hw. destruct (link_moves v w chs slot l e) as (w' & chs' & Hrun & Hm); try done.
    exists 0, w', (linked v (Z.to_nat slot) l e), chs'. split_and!; [|done|done].
    rewrite Hp in Hrun. by rewrite (bind_Ok _ _ _ _ _ Hrun). }
  unfold link_at in Hstep. destruct (last_loc l =? 0).
  - apply wp_assoc, wp_read_ht. by apply Hstep.
  - eapply wp_mono; [by apply Hstep|lia|done].
Qed.

(** ** Operations *)

Context (Hsize : 0 < ht_size t) (fuel : nat) (Hfuel : (bound < fuel)%nat).

Definition slot_of (s : list Z) : nat := Z.to_nat (hash_of s mod ht_size t).

(** The map [m] says what is in the lists of the thread. *)
Definition agrees (m : gmap (list Z) Z) (v : view) : Prop :=
  forall s l, lists v !! slot_of s = Some l -> m !! s = e_val <$> find_key strs s l.

Definition same_slots (v v' : view) : Prop :=
  (forall i, lists v' !! i = None <-> lists v !! i = None) /\ writable v' = writable v.

(** A bound on the accesses of one operation. *)
Definition op_steps : nat := 3 * bound + 11.

(** The beginning of both operations, up to the search. *)
Lemma wp_begin {A} key s l (k : Z -> Z -> Z -> prog world A) n v Q :
  strs !! key = Some s -> good_key s -> lists v !! slot_of s = Some l ->
  ((length l <= bound)%nat -> Forall (fun e => e_loc e <> 0) l ->
    wp (k (hash_of s) (hash_of s mod ht_size t) (first_loc l)) n v Q) ->
  wp (s ← string_p strs key; hcode ← calc (hashcode s); size ← read_ht ht_size; slot ← calc (int_rem hcode size);
      st ← read_ht store; curr ← load_p st slot; k hcode slot curr) (3 + n) v Q.
Proof.
  intros Hkey [Ha Hlen] Hl Hk. pose proof (hash_of_range s Ha) as Hh.
  unfold string_p. rewrite Hkey. unfold need. rewrite bind_calc, hashcode_run, bind_calc by done.
  apply (wp_read_ht ht_size). rewrite int_rem_ok, bind_calc by lia. apply (wp_read_ht store).
  apply (wp_head _ l); [apply Z.mod_pos_bound; lia|exact Hl|exact Hk].
Qed.

Lemma wp_lookup key s m v :
  strs !! key = Some s -> good_key s -> is_Some (lists v !! slot_of s) -> agrees m v ->
  wp (htable_lookup_p strs fuel key) op_steps v (fun r v' => r = default 0 (m !! s) /\ v' = v).
Proof.
  intros Hkey Hs [l Hl] Hm. apply (wp_mono _ (3 + 3 * bound) op_steps _ (fun r v' => r = default 0 (m !! s) /\ v' = v));
    [|unfold op_steps; lia|done].
  eapply wp_begin; [done|done|exact Hl|]. intros Hlen Hne.
  eapply wp_mono; [apply (wp_lookup_walk (slot_of s) key s v l fuel []); try done; lia|lia|].
  intros r v' [-> ->]. by rewrite (Hm s l Hl).
Qed.

Lemma agrees_linked m v s l e :
  agrees m v -> lists v !! slot_of s = Some l -> key_of strs e = s -> find_key strs s l = None ->
  agrees (<[s := e_val e]> m) (linked v (slot_of s) l e).
Proof.
  intros Hm Hl He Hno s' l'. simpl. intros [[Heq <-]|[Hne Hl']]%lookup_insert_Some.
  - rewrite find_key_app. cbn [find_key]. rewrite He. destruct (decide (s = s')) as [<-|Hss].
    + rewrite lookup_insert_eq, Hno, bool_decide_true by done. done.
    + rewrite lookup_insert_ne by done. rewrite (Hm s' l) by (by rewrite <- Heq).
      rewrite bool_decide_false by done. by destruct (find_key strs s' l).
  - rewrite lookup_insert_ne by (by intros <-). by apply Hm.
Qed.

(** The first part of an insertion ends with the answer, or with a node. *)
Lemma wp_insert_front key val s l c v :
  strs !! key = Some s -> good_key s -> lists v !! slot_of s = Some l -> credit v = S c ->
  wp (insert_front_p strs fuel key val) (3 + (3 * bound + 5)) v (fun r v' =>
    match find_key strs s l with
    | Some _ => r = None /\ v' = v
    | None => exists p, p <> 0 /\ r = Some (hash_of s mod ht_size t, last_loc l, Z.of_nat (length l), p) /\
        v' = with_block (spent v c) p [Some (hash_of s); Some key; Some val; Some 0]
    end).
Proof.
  intros Hkey Hs Hl Hc. unfold insert_front_p.
  apply (wp_begin key s l (fun hcode slot curr => r ← loop fuel (insert_walk_p strs hcode key) (0, curr, 0);
    match r with None => mret None | Some (prev, collision) => n ← new_node_p hcode key val; mret (Some (slot, prev, collision, n)) end));
    [done|done|done|].
  intros Hlen Hne. apply wp_bind.
  eapply wp_mono; [apply (wp_insert_walk (slot_of s) key s v l fuel []); try done; lia|lia|].
  intros r v' [-> ->]. cbn [app]. destruct (find_key strs s l) as [e|]; [done|].
  apply (wp_new_node _ _ _ c _ 0); [done|]. intros p Hp. by exists p.
Qed.

Lemma wp_insert key val s m v c :
  strs !! key = Some s -> good_key s -> is_Some (lists v !! slot_of s) -> slot_of s ∈ writable v ->
  agrees m v -> (c < credit v)%nat ->
  wp (htable_insert_p strs fuel key val) op_steps v
    (fun r v' => r = fst (spec_op strs (Insert key val) m) /\ agrees (snd (spec_op strs (Insert key val) m)) v' /\
       same_slots v v' /\ (c <= credit v')%nat).
Proof.
  intros Hkey Hs [l Hl] Hmine Hm Hc. cbn [spec_op]. rewrite Hkey. cbn [default from_option id].
  unfold htable_insert_p, op_steps. replace (3 * bound + 11)%nat with (3 + (3 * bound + 5) + 3)%nat by lia.
  destruct (credit v) as [|c'] eqn:Hcr; [lia|].
  apply wp_bind. eapply wp_mono; [by apply (wp_insert_front key val s l c')|done|].
  intros r v'. rewrite (Hm s l Hl). destruct (find_key strs s l) as [e|] eqn:Hfind.
  - intros [-> ->]. simpl. split_and!; [done|done|by split|lia].
  - intros (p & Hp & -> & ->). unfold insert_back_p.
    set (e := {| e_loc := p; e_hash := hash_of s; e_key := key; e_val := val |}).
    assert (Hko : key_of strs e = s) by (unfold key_of; simpl; by rewrite Hkey).
    apply (wp_link _ l e); [done|done|done|by exists s|by rewrite Hko|apply lookup_insert_eq|done|].
    apply (wp_read_ht allow_resize). rewrite Hallow. simpl. split_and!; [done| | |lia].
    + by apply (agrees_linked m (with_block (spent v c') p (node_words e 0)) s l e).
    + split; [|done]. intros i. simpl. rewrite lookup_insert_None. split; [by intros [? _]|].
      intros Hi. split; [done|]. intros <-.
      change (Z.to_nat (hash_of s mod ht_size t)) with (slot_of s) in Hi. congruence.
Qed.

(** The thread knows the list of the operation's slot, and may change it if
    need be. *)
Definition op_allowed (v : view) (op : table_op) : Prop :=
  is_Some (lists v !! slot_of (op_string strs op)) /\
  match op with Insert _ _ => slot_of (op_string strs op) ∈ writable v | Lookup _ => True end.

Lemma wp_op op m v c :
  op_ok strs op -> op_allowed v op -> agrees m v -> (c < credit v)%nat ->
  wp (run_op_p strs fuel op) op_steps v
    (fun r v' => r = fst (spec_op strs op m) /\ agrees (snd (spec_op strs op m)) v' /\
       same_slots v v' /\ (c <= credit v')%nat).
Proof.
  intros (s & Hkey & Hs) [Hl Hmine] Hm Hc. unfold op_string in Hl, Hmine. rewrite Hkey in Hl, Hmine.
  destruct op as [key val|key].
  - by apply (wp_insert key val s m v c).
  - cbn [run_op_p op_key spec_op] in *. rewrite Hkey. simpl.
    eapply wp_mono; [by apply (wp_lookup key s m v)|done|]. intros r v' [-> ->]. split_and!; [done|done|by split|lia].
Qed.

Lemma wp_ops ops : forall m v,
  Forall (op_ok strs) ops -> Forall (op_allowed v) ops ->
  agrees m v -> (length ops <= credit v)%nat ->
  wp (run_ops_p strs fuel ops) (length ops * op_steps) v
    (fun rs v' => rs = spec_ops strs ops m /\ agrees (spec_map strs ops m) v' /\
       same_slots v v').
Proof.
  induction ops as [|op ops IH]; intros m v Hok Hl Hm Hc; [done|].
  apply Forall_cons in Hok as [Hop Hok]. apply Forall_cons in Hl as [Hlop Hl]. simpl in Hc.
  cbn [run_ops_p]. change (length (op :: ops) * op_steps)%nat with (op_steps + length ops * op_steps)%nat. apply wp_bind.
  eapply wp_mono; [by apply (wp_op op m v (length ops))|done|].
  intros r v' (-> & Hm' & Hdom & Hc'). cbn [spec_ops].
  destruct (spec_op strs op m) as [r m'] eqn:Hspec. cbn [fst snd] in *.
  replace (length ops * op_steps)%nat with (length ops * op_steps + 0)%nat by lia. apply wp_bind.
  eapply wp_mono; [apply (IH m' v'); [done| |done|done]|done|].
  - eapply Forall_impl; [exact Hl|]. intros op' [Hop' Hmine']. destruct Hdom as [Hdom Hw]. split; [|by rewrite Hw].
    apply not_eq_None_Some. rewrite Hdom. by apply not_eq_None_Some.
  - intros rs v'' (-> & Hm'' & Hdom'). split_and!; [done| |].
    + unfold spec_map. cbn [foldl]. by rewrite Hspec.
    + destruct Hdom as [Hdom Hw], Hdom' as [Hdom' Hw']. split; [|congruence]. intros i. by rewrite Hdom'.
Qed.

End views.

(** ** Pools *)

Section pools.
Context (strs : gmap Z (list Z)) (t : htable) (bound : nat).
Local Notation holds := (holds strs t).
Local Notation sees := (sees t).
Local Notation owned := (owned t).
Local Notation stands := (stands strs t bound).
Local Notation moves := (moves strs t).
Local Notation wp := (wp strs t bound).

(** Threads that do not insert where others look, with blocks of their own. *)
Record pool (w : world) (chs : list (list entry)) (vs : list view) : Prop := {
  pool_holds : holds w chs;
  pool_sees i v : vs !! i = Some v -> sees v w chs;
  pool_lists i j v u k : vs !! i = Some v -> vs !! j = Some u -> i <> j ->
    k ∈ writable v -> lists u !! k = None;
  pool_blocks i j v u p : vs !! i = Some v -> vs !! j = Some u -> i <> j ->
    own_blocks v !! p = None \/ own_blocks u !! p = None;
  pool_room : (size (heap w) + sum_list_with credit vs <= bound)%nat;
}.

Lemma pool_stands w chs vs i v : pool w chs vs -> vs !! i = Some v -> stands v w chs.
Proof.
  intros [Hh Hs _ _ Hr] Hi. split; [done|by apply (Hs i)|].
  pose proof (sum_list_with_in v credit vs (list_elem_of_lookup_2 _ _ _ Hi)). lia.
Qed.

Lemma sum_list_with_insert {A} (f : A -> nat) l i x y :
  l !! i = Some x -> (sum_list_with f (<[i := y]> l) + f x = sum_list_with f l + f y)%nat.
Proof.
  revert i; induction l as [|z l IH]; intros i Hi; [done|]. destruct i as [|i]; simpl in *.
  - injection Hi as <-. lia.
  - specialize (IH i Hi). lia.
Qed.

(** An access of one thread, seen by the others. *)
Lemma pool_moves w chs vs i v w' chs' v' :
  pool w chs vs -> vs !! i = Some v -> moves v w chs v' w' chs' -> pool w' chs' (<[i := v']> vs).
Proof.
  intros Hpool Hi [Hh Hs Hdom Hmine Hkeep Hblk Hnew Hroom]. destruct Hpool as [Hh0 Hs0 Hls Hbs Hr].
  assert (Hother : forall j u, vs !! j = Some u -> i <> j -> sees u w' chs' /\
    (forall k, k ∈ writable v' -> lists u !! k = None) /\ (forall k, k ∈ writable u -> lists v' !! k = None) /\ (forall p, own_blocks v' !! p = None \/ own_blocks u !! p = None)).
  { intros j u Hj Hij. destruct (Hs0 j u Hj) as [Hl Hb Ho].
    assert (Hstays : forall p b, own_blocks u !! p = Some b -> heap w' !! p = Some b /\ p ∉ owned chs').
    { intros p b Hp. apply Hblk; [|by apply (Ho p b)|by apply Hb].
      destruct (Hbs i j v u p Hi Hj Hij) as [?|?]; [done|congruence]. }
    split_and!.
    - split; [|by intros p b Hp; apply Hstays|by intros p b Hp; apply (Hstays p b)].
      intros k l Hk. rewrite Hkeep; [by apply Hl|]. intros Hk'. by rewrite (Hls i j v u k Hi Hj Hij Hk') in Hk.
    - intros k. rewrite Hmine. by apply (Hls i j).
    - intros k. rewrite Hdom. by apply (Hls j i).
    - intros p. destruct (own_blocks v' !! p) as [b|] eqn:Hp; [|by left]. right.
      destruct (Hbs i j v u p Hi Hj Hij) as [Hv|?]; [|done]. specialize (Hnew p b Hp Hv).
      destruct (own_blocks u !! p) as [b'|] eqn:Hu; [|done]. apply Hb in Hu. congruence. }
  split; [done| | | |].
  - intros j u [(<- & <- & _)|[Hij Hj]]%list_lookup_insert_Some; [done|]. by apply (Hother j u).
  - intros j1 j2 u1 u2 k [(<- & <- & _)|[H1 Hj1]]%list_lookup_insert_Some
      [(<- & <- & _)|[H2 Hj2]]%list_lookup_insert_Some Hne; [done| | |by apply (Hls j1 j2)].
    + by apply (Hother j2 u2).
    + by apply (Hother j1 u1).
  - intros j1 j2 u1 u2 p [(<- & <- & _)|[H1 Hj1]]%list_lookup_insert_Some
      [(<- & <- & _)|[H2 Hj2]]%list_lookup_insert_Some Hne; [done| | |by apply (Hbs j1 j2)].
    + by apply (Hother j2 u2).
    + destruct (Hother j1 u1 Hj1 H1) as (_ & _ & _ & Hd). destruct (Hd p); [by right|by left].
  - pose proof (sum_list_with_insert credit vs i v v' Hi). lia.
Qed.

(** The threads [ps], of at most [ns] accesses each, with the results [Q]. *)
Lemma pool_run {A} (Q : nat -> A -> view -> Prop) sched : forall (ps : list (prog world A)) ns w chs vs,
  pool w chs vs -> length ps = length ns -> (length ps <= length vs)%nat ->
  (forall i p n v, ps !! i = Some p -> ns !! i = Some n -> vs !! i = Some v -> wp p n v (Q i)) ->
  exists ps' w' chs' vs', interleave sched ps w = Ok (ps', w') /\ pool w' chs' vs' /\
    length ps' = length ps /\ length vs' = length vs /\ (forall i, (length ps <= i)%nat -> vs' !! i = vs !! i) /\
    forall i p n v, ps' !! i = Some p -> ns !! i = Some n -> vs' !! i = Some v -> wp p (n - turns i sched) v (Q i).
Proof.
  induction sched as [|j sched IH]; intros ps ns w chs vs Hpool Hlen Hle Hwp.
  { exists ps, w, chs, vs. split_and!; try done. intros i p n v Hp Hn Hv. rewrite Nat.sub_0_r. by apply Hwp. }
  assert (Hnext : forall ps1 w1 chs1 vs1, pool w1 chs1 vs1 -> length ps1 = length ps -> length vs1 = length vs ->
    (forall i, (length ps <= i)%nat -> vs1 !! i = vs !! i) ->
    (forall i p n v, ps1 !! i = Some p -> alter pred j ns !! i = Some n -> vs1 !! i = Some v -> wp p n v (Q i)) ->
    exists ps' w' chs' vs', interleave sched ps1 w1 = Ok (ps', w') /\ pool w' chs' vs' /\
      length ps' = length ps /\ length vs' = length vs /\ (forall i, (length ps <= i)%nat -> vs' !! i = vs !! i) /\
      forall i p n v, ps' !! i = Some p -> ns !! i = Some n -> vs' !! i = Some v -> wp p (n - turns i (j :: sched)) v (Q i)).
  { intros ps1 w1 chs1 vs1 Hpool1 Hl1 Hv1 Hrest1 Hwp1.
    destruct (IH ps1 (alter pred j ns) w1 chs1 vs1) as (ps' & w' & chs' & vs' & Hrun & Hp' & Hl & Hl' & Hrest & Hwp');
      [done|rewrite length_alter; lia|lia|done|].
    exists ps', w', chs', vs'. split_and!; [done|done|lia|lia| |].
    - intros i Hi. by rewrite Hrest, Hrest1 by lia.
    - intros i p n v Hp Hn Hv. unfold turns. rewrite filter_cons. destruct (decide (j = i)) as [<-|Hne].
      + replace (n - length (j :: filter (fun j' => j' = j) sched))%nat with (pred n - turns j sched)%nat by (simpl; unfold turns; lia).
        apply Hwp'; [done| |done]. by rewrite list_lookup_alter_eq, Hn.
      + apply Hwp'; [done| |done]. by rewrite list_lookup_alter_ne. }
  assert (Hidle : (forall p, ps !! j = Some p -> exists a, p = Done a) -> forall i p n v, ps !! i = Some p ->
    alter pred j ns !! i = Some n -> vs !! i = Some v -> wp p n v (Q i)).
  { intros Hdone i p n v Hp Hn Hv. destruct (decide (j = i)) as [<-|Hne].
    - rewrite list_lookup_alter_eq in Hn. apply fmap_Some in Hn as (n' & Hn & ->).
      destruct (Hdone p Hp) as [a ->]. exact (Hwp j _ n' v Hp Hn Hv).
    - rewrite list_lookup_alter_ne in Hn by done. by apply (Hwp i). }
  cbn [interleave]. destruct (ps !! j) as [[a|c k|e]|] eqn:Hj.
  - apply (Hnext ps w chs vs); try done. apply Hidle. intros p [= <-]. by exists a.
  - pose proof (lookup_lt_Some _ _ _ Hj) as Hlt. destruct (lookup_lt_is_Some_2 ns j) as [n Hn]; [lia|].
    destruct (lookup_lt_is_Some_2 vs j) as [v Hv]; [lia|]. pose proof (Hwp j _ n v Hj Hn Hv) as Hstep.
    destruct n as [|n]; [done|].
    destruct (Hstep w chs (pool_stands _ _ _ _ _ Hpool Hv)) as (r & w1 & v1 & chs1 & Hc & Hm & Hk).
    rewrite (bind_Ok _ _ _ _ _ Hc). apply (Hnext _ w1 chs1 (<[j := v1]> vs)).
    + by apply (pool_moves w chs vs j v).
    + by rewrite length_insert.
    + by rewrite length_insert.
    + intros i Hi. rewrite list_lookup_insert_ne by lia. done.
    + intros i p n' v' [(<- & <- & _)|[Hne Hi]]%list_lookup_insert_Some Hn' Hv'.
      * rewrite list_lookup_insert_eq in Hv' by lia. injection Hv' as <-.
        rewrite list_lookup_alter_eq, Hn in Hn'. by injection Hn' as <-.
      * rewrite list_lookup_insert_ne in Hv' by done. rewrite list_lookup_alter_ne in Hn' by done. by apply (Hwp i).
  - pose proof (lookup_lt_Some _ _ _ Hj) as Hlt. destruct (lookup_lt_is_Some_2 ns j) as [n Hn]; [lia|].
    destruct (lookup_lt_is_Some_2 vs j) as [v Hv]; [lia|]. by destruct (Hwp j _ n v Hj Hn Hv).
  - apply (Hnext ps w chs vs); try done. by apply Hidle.
Qed.
End pools.
