(* ===== verification/HtableSlots.v ===== *)
(** * Threads without a data race

    Without a lock, threads do not disturb each other as long as a slot that
    one of them inserts into is used by no other: what a lock for each slot of
    the table is to achieve. *)

From S2P Require Import Prelude Words Primes Htable HtableChains HtableResize HtableInv HtableSpec Interleave HtableSteps HtableRace HtableThreads HtableView.

(** ** The map after the operations of several threads *)

Definition inserts (op : table_op) : Prop := match op with Insert _ _ => True | Lookup _ => False end.

#[export] Instance inserts_dec op : Decision (inserts op).
Proof. destruct op; [by left|right; by intros []]. Defined.

Lemma spec_op_other strs op m s : (inserts op -> op_string strs op <> s) -> snd (spec_op strs op m) !! s = m !! s.
Proof.
  intros Hne. destruct op as [key val|key]; [|done]. specialize (Hne I). cbn [spec_op]. unfold op_string in Hne. simpl in Hne.
  destruct (m !! default [] (strs !! key)); [done|]. simpl. by rewrite lookup_insert_ne.
Qed.

Lemma spec_op_ext strs op m m' s : m !! s = m' !! s -> snd (spec_op strs op m) !! s = snd (spec_op strs op m') !! s.
Proof.
  intros Heq. destruct (decide (op_string strs op = s)) as [<-|Hne]; [|by rewrite !spec_op_other].
  unfold op_string in Heq. destruct op as [key val|key]; [|done]. cbn [spec_op op_key] in *.
  unfold op_string. cbn [op_key].
  destruct (m !! default [] (strs !! key)) eqn:H1, (m' !! default [] (strs !! key)) eqn:H2; simpl; try done; try congruence.
  by rewrite !lookup_insert_eq.
Qed.

Lemma spec_map_ext strs ops : forall m m' s, m !! s = m' !! s -> spec_map strs ops m !! s = spec_map strs ops m' !! s.
Proof.
  induction ops as [|op ops IH]; intros m m' s Heq; [done|]. by apply IH, spec_op_ext.
Qed.

Lemma spec_map_other strs ops : forall m s,
  Forall (fun op => inserts op -> op_string strs op <> s) ops -> spec_map strs ops m !! s = m !! s.
Proof.
  induction ops as [|op ops IH]; intros m s Hne; [done|]. apply Forall_cons in Hne as [Hop Hne].
  etransitivity; [by apply (IH (snd (spec_op strs op m)))|]. by apply spec_op_other.
Qed.

(** Only the operations of the thread that has the key matter. *)
Lemma spec_map_thread strs threads i ops m s :
  threads !! i = Some ops ->
  (forall j ops', threads !! j = Some ops' -> j <> i -> Forall (fun op => inserts op -> op_string strs op <> s) ops') ->
  spec_map strs (concat threads) m !! s = spec_map strs ops m !! s.
Proof.
  intros Hi Hother. rewrite <- (take_drop_middle threads i ops Hi), concat_app. cbn [concat].
  unfold spec_map. rewrite !foldl_app. fold (spec_map strs).
  pose proof (lookup_lt_Some _ _ _ Hi) as Hlt.
  assert (Hnone : forall l, (forall ops', ops' ∈ l -> exists j, threads !! j = Some ops' /\ j <> i) ->
    forall m, spec_map strs (concat l) m !! s = m !! s).
  { intros l Hl m0. apply spec_map_other, Forall_concat, Forall_forall. intros ops' Hops.
    destruct (Hl ops' Hops) as (j & Hj & Hne). by apply (Hother j). }
  etransitivity; [apply Hnone|apply spec_map_ext, Hnone].
  - intros ops' (j & Hj)%list_elem_of_lookup_1. rewrite lookup_drop in Hj. exists (S i + j)%nat. split; [done|lia].
  - intros ops' (j & Hj)%list_elem_of_lookup_1. apply lookup_take_Some in Hj as [Hj Hji]. exists j. split; [done|lia].
Qed.

(** ** The views at the start *)

Section start.
Context (strs : gmap Z (list Z)) (t : htable) (chs : list (list entry)).

Definition op_slot (op : table_op) : nat := slot_of t (op_string strs op).

Definition insert_slots (ops : list table_op) : list nat := op_slot <$> filter inserts ops.

Definition start_view (ops : list table_op) : view := {|
  lists := filter (fun '(k, _) => k ∈ op_slot <$> ops) (map_seq 0 chs : gmap nat (list entry));
  writable := list_to_set (insert_slots ops);
  own_blocks := ∅;
  credit := length ops;
|}.

(** The slots that nobody inserts into. *)
Definition rest_view (threads : list (list table_op)) : view := {|
  lists := filter (fun '(k, _) => k ∉ insert_slots (concat threads)) (map_seq 0 chs : gmap nat (list entry));
  writable := ∅;
  own_blocks := ∅;
  credit := 0;
|}.

Definition start_views (threads : list (list table_op)) : list view :=
  (start_view <$> threads) ++ [rest_view threads].

(** A slot that one thread inserts into is used by no other. *)
Definition race_free (threads : list (list table_op)) : Prop :=
  forall i j ops ops' op op', threads !! i = Some ops -> threads !! j = Some ops' -> i <> j ->
    op ∈ ops -> op' ∈ ops' -> inserts op -> op_slot op <> op_slot op'.

Lemma start_lists ops k l :
  lists (start_view ops) !! k = Some l <-> chs !! k = Some l /\ k ∈ op_slot <$> ops.
Proof. simpl. rewrite map_lookup_filter_Some, lookup_map_seq_0. done. Qed.

Lemma rest_lists threads k l :
  lists (rest_view threads) !! k = Some l <-> chs !! k = Some l /\ k ∉ insert_slots (concat threads).
Proof. simpl. rewrite map_lookup_filter_Some, lookup_map_seq_0. done. Qed.

Lemma elem_of_insert_slots ops k : k ∈ insert_slots ops <-> exists op, op ∈ ops /\ inserts op /\ op_slot op = k.
Proof.
  unfold insert_slots. rewrite list_elem_of_fmap. split.
  - intros (op & -> & [Hi Hop]%list_elem_of_filter). by exists op.
  - intros (op & Hop & Hi & <-). exists op. split; [done|]. by apply list_elem_of_filter.
Qed.

Lemma elem_of_thread (threads : list (list table_op)) i ops op :
  threads !! i = Some ops -> op ∈ ops -> op ∈ concat threads.
Proof.
  intros Hi Hop. apply list_elem_of_In, in_concat. exists ops. rewrite <- !list_elem_of_In.
  split; [by eapply list_elem_of_lookup_2|done].
Qed.

Lemma start_views_lookup threads i v :
  start_views threads !! i = Some v ->
  (exists ops, threads !! i = Some ops /\ v = start_view ops) \/ (i = length threads /\ v = rest_view threads).
Proof.
  unfold start_views. intros [Hi|[Hle Hi]]%lookup_app_Some.
  - apply list_lookup_fmap_Some in Hi as (ops & -> & Hi). left. by exists ops.
  - rewrite length_fmap in Hle, Hi. apply list_lookup_singleton_Some in Hi as [? <-]. right. split; [lia|done].
Qed.
End start.

Section slots.
Context `{MallocLaws} (w : world) (m : gmap (list Z) Z) (chs : list (list entry)).
Context (Hinv : table_inv w chs) (Hm : m = contents (strings w) (concat chs)).
Context (threads : list (list table_op)) (Hrace : race_free (strings w) (ht w) threads).

Definition total : nat := size (heap w) + sum_list_with length threads.

Lemma start_race_free i j v u k :
  start_views (strings w) (ht w) chs threads !! i = Some v -> start_views (strings w) (ht w) chs threads !! j = Some u ->
  i <> j -> k ∈ writable v -> lists u !! k = None.
Proof.
  intros Hv Hu Hij Hk. destruct (lists u !! k) as [l|] eqn:Hl; [|done]. exfalso.
  apply start_views_lookup in Hv as [(ops & Hi & ->)|[-> ->]]; [|by apply not_elem_of_empty in Hk].
  cbn [writable start_view] in Hk. apply elem_of_list_to_set, elem_of_insert_slots in Hk as (op & Hop & Hins & <-).
  apply start_views_lookup in Hu as [(ops' & Hj & ->)|[-> ->]].
  - apply start_lists in Hl as [_ (op' & Heq & Hop')%list_elem_of_fmap]. by apply (Hrace i j ops ops' op op').
  - apply rest_lists in Hl as [_ Hno]. apply Hno, elem_of_insert_slots. exists op.
    split_and!; [by apply (elem_of_thread threads i ops)|done|done].
Qed.

Lemma start_own i v : start_views (strings w) (ht w) chs threads !! i = Some v ->
  own_blocks v = ∅ /\ forall k l, lists v !! k = Some l -> chs !! k = Some l.
Proof.
  intros [(ops & _ & ->)|[-> ->]]%start_views_lookup; split; try done; intros k l Hl;
    rewrite ?start_lists, ?rest_lists in Hl; by destruct Hl.
Qed.

Lemma sum_start (r : view) ts : credit r = 0%nat ->
  sum_list_with credit ((start_view (strings w) (ht w) chs <$> ts) ++ [r]) = sum_list_with length ts.
Proof. intros Hr. induction ts as [|ops ts IH]; simpl; [lia|]. f_equal. exact IH. Qed.

Lemma pool_start : pool (strings w) (ht w) total w chs (start_views (strings w) (ht w) chs threads).
Proof.
  split.
  - by split.
  - intros i v [Hown Hl]%start_own. split; [done| |]; intros p b; by rewrite Hown, lookup_empty.
  - apply start_race_free.
  - intros i j v u p [Hown _]%start_own _ _. left. by rewrite Hown.
  - unfold total. unfold start_views. by rewrite sum_start.
Qed.

Lemma start_agrees ops : agrees (strings w) (ht w) m (start_view (strings w) (ht w) chs ops).
Proof.
  intros s l [Hl _]%start_lists. rewrite Hm, contents_lookup. by rewrite (find_key_slot w chs s l).
Qed.

Context (blocks fuel : nat) `{!MallocServes blocks}.
Context (Hblocks : (total < blocks)%nat) (Htotal : Z.of_nat total < 2 ^ 31) (Hfuel : (total < fuel)%nat).
Context (Hallow : allow_resize (ht w) = 0) (Hok : Forall (Forall (op_ok (strings w))) threads).

Definition needed : nat := sum_list_with length threads * op_steps total.

(** What a thread leaves when it is done. *)
Definition thread_post (i : nat) (rs : list Z) (v : view) : Prop :=
  exists ops, threads !! i = Some ops /\ rs = spec_ops (strings w) ops m /\
    agrees (strings w) (ht w) (spec_map (strings w) ops m) v /\
    same_slots (start_view (strings w) (ht w) chs ops) v.

Lemma slots_run sched : exists ps w' chs' vs,
  interleave sched ((fun ops => run_ops_p (strings w) fuel ops) <$> threads) w = Ok (ps, w') /\
  length ps = length threads /\ pool (strings w) (ht w) total w' chs' vs /\
  vs !! length threads = Some (rest_view (strings w) (ht w) chs threads) /\
  forall i p, ps !! i = Some p -> exists v, vs !! i = Some v /\
    wp (strings w) (ht w) total p (needed - turns i sched) v (thread_post i).
Proof.
  assert (Hserves : MallocServes (S total)).
  { intros h n Hh Hn. by apply malloc_serves; [lia|]. }
  pose proof (ti_layout _ _ Hinv) as [_ _ Hsz Hpos _].
  destruct (pool_run (strings w) (ht w) total thread_post sched
    ((fun ops => run_ops_p (strings w) fuel ops) <$> threads) (replicate (length threads) needed)
    w chs (start_views (strings w) (ht w) chs threads)) as (ps & w' & chs' & vs & Hrun & Hpool & Hl & Hl' & Hrest & Hwp).
  - apply pool_start.
  - by rewrite length_fmap, length_replicate.
  - unfold start_views. rewrite length_app, !length_fmap. lia.
  - intros i p n v Hp Hn Hv. apply list_lookup_fmap_Some in Hp as (ops & -> & Hi).
    apply lookup_replicate in Hn as [-> _].
    apply start_views_lookup in Hv as [(ops' & Hi' & ->)|[-> _]]; [|by rewrite lookup_ge_None_2 in Hi].
    rewrite Hi in Hi'. injection Hi' as <-.
    eapply wp_mono; [apply (wp_ops (strings w) (ht w) total Htotal Hallow ltac:(lia) fuel Hfuel ops m)|..].
    + by eapply (Forall_lookup_1 _ _ _ _ Hok).
    + apply Forall_forall. intros op Hop.
      destruct (lookup_lt_is_Some_2 chs (op_slot (strings w) (ht w) op)) as [l Hlk].
      { unfold op_slot, slot_of. pose proof (Z.mod_pos_bound (hash_of (op_string (strings w) op)) (ht_size (ht w)) ltac:(lia)). lia. }
      split; [exists l; apply start_lists; split; [done|by apply (list_elem_of_fmap_2 (op_slot (strings w) (ht w)))]|].
      destruct op as [key val|key]; [|done]. apply elem_of_list_to_set, elem_of_insert_slots. by exists (Insert key val).
    + apply start_agrees.
    + done.
    + unfold needed. apply Nat.mul_le_mono_r. by apply sum_list_with_in, (list_elem_of_lookup_2 _ i).
    + intros rs v' (-> & Hag & Hdom). by exists ops.
  - rewrite length_fmap in Hl, Hrest. exists ps, w', chs', vs. split_and!; [done|done|done| |].
    + rewrite Hrest by lia. unfold start_views. rewrite lookup_app_r by (by rewrite length_fmap).
      by rewrite length_fmap, Nat.sub_diag.
    + intros i p Hp. pose proof (lookup_lt_Some _ _ _ Hp) as Hlt.
      destruct (lookup_lt_is_Some_2 vs i) as [v Hv].
      { rewrite Hl'. unfold start_views. rewrite length_app, length_fmap. lia. }
      exists v. split; [done|]. apply Hwp; [done| |done]. apply lookup_replicate_2. lia.
Qed.

(** The map when all threads are done. *)
Lemma slots_finished w' chs' vs :
  pool (strings w) (ht w) total w' chs' vs ->
  vs !! length threads = Some (rest_view (strings w) (ht w) chs threads) ->
  (forall i ops, threads !! i = Some ops -> exists v rs, vs !! i = Some v /\ thread_post i rs v) ->
  contents (strings w') (concat chs') = spec_map (strings w) (concat threads) m.
Proof.
  intros [[Hinv' Hht Hstr] Hsees _ _ _] Hrest Hpost.
  apply map_eq. intros s. rewrite Hstr, contents_lookup.
  assert (Hslot : forall l, chs' !! slot_of (ht w) s = Some l ->
    find_key (strings w) s (concat chs') = find_key (strings w) s l).
  { intros l Hl. rewrite <- Hstr. rewrite <- Hht in Hl. by apply (find_key_slot w' chs' s l). }
  pose proof (ti_layout _ _ Hinv) as [_ _ Hsz Hpos _].
  destruct (lookup_lt_is_Some_2 chs (slot_of (ht w) s)) as [l0 Hl0].
  { unfold slot_of. pose proof (Z.mod_pos_bound (hash_of s) (ht_size (ht w)) ltac:(lia)). lia. }
  destruct (decide (Exists (fun ops => slot_of (ht w) s ∈ insert_slots (strings w) (ht w) ops) threads)) as [Hex|Hno].
  - apply Exists_exists in Hex as (ops & (i & Hi)%list_elem_of_lookup & Hmine).
    apply elem_of_insert_slots in Hmine as (op' & Hop' & Hins & Heq).
    destruct (Hpost i ops Hi) as (v & rs & Hv & ops' & Hi' & _ & Hag & Hdom & _). rewrite Hi in Hi'. injection Hi' as <-.
    destruct (lists v !! slot_of (ht w) s) as [l|] eqn:Hl.
    2: { apply Hdom in Hl. rewrite (proj2 (start_lists (strings w) (ht w) chs ops _ l0)) in Hl; [done|]. split; [done|].
         rewrite <- Heq. by apply (list_elem_of_fmap_2 (op_slot (strings w) (ht w))). }
    rewrite (Hslot l) by (by apply (sees_lists _ _ _ _ (Hsees i v Hv))).
    rewrite <- (Hag s l Hl). symmetry. apply (spec_map_thread _ _ i); [done|].
    intros j ops' Hj Hne. apply Forall_forall. intros op Hop _ <-. by apply (Hrace i j ops ops' op' op).
  - assert (Hkeep : chs' !! slot_of (ht w) s = Some l0).
    { apply (sees_lists _ _ _ _ (Hsees _ _ Hrest)), rest_lists. split; [done|].
      intros (op & Hop & Hins & Heq)%elem_of_insert_slots. apply Hno, Exists_exists.
      apply list_elem_of_In, in_concat in Hop as (ops & Hops & Hop). rewrite <- !list_elem_of_In in *.
      exists ops. split; [done|]. apply elem_of_insert_slots. by exists op. }
    rewrite (Hslot l0 Hkeep), spec_map_other.
    + rewrite Hm, contents_lookup. by rewrite (find_key_slot w chs s l0).
    + apply Forall_concat, Forall_forall. intros ops Hops. apply Forall_forall. intros op Hop Hins <-.
      apply Hno, Exists_exists. exists ops. split; [done|]. apply elem_of_insert_slots. by exists op.
Qed.
End slots.

(** ** The property *)

(** C3: threads that insert and look up keys in a table that does not grow do not disturb each other when
    a slot that one of them inserts into is used by no other, however their
    accesses interleave: no access goes wrong, the memory holds a table at
    every moment, a thread that is done has the answers it would have got
    alone, it is done once it had its turns, and when all are done the table
    has what the threads would have left one after the other. *)
Theorem race_free_threads_correct `{MallocLaws} (blocks : nat) `{!MallocServes blocks} (w : world) (m : gmap (list Z) Z)
    (own : list Z) (threads : list (list table_op)) (fuel : nat) :
  table w m own -> allow_resize (ht w) = 0 -> Forall (Forall (op_ok (strings w))) threads ->
  race_free (strings w) (ht w) threads ->
  (total w threads < blocks)%nat -> Z.of_nat (total w threads) < 2 ^ 31 -> (total w threads < fuel)%nat ->
  exists enough, forall sched, exists ps w' m' own',
    interleave sched ((fun ops => run_ops_p (strings w) fuel ops) <$> threads) w = Ok (ps, w') /\
    table w' m' own' /\ length ps = length threads /\
    (forall i ops, threads !! i = Some ops ->
      (forall rs, ps !! i = Some (Done rs) -> rs = spec_ops (strings w) ops m) /\
      ((enough <= turns i sched)%nat -> ps !! i = Some (Done (spec_ops (strings w) ops m)))) /\
    ((forall i p, ps !! i = Some p -> exists rs, p = Done rs) -> m' = spec_map (strings w) (concat threads) m).
Proof.
  intros (chs & Hinv & Hm & _) Hallow Hok Hrace Hblocks Htotal Hfuel.
  exists (needed w threads). intros sched.
  destruct (slots_run w m chs Hinv Hm threads Hrace blocks fuel Hblocks Htotal Hfuel Hallow Hok sched)
    as (ps & w' & chs' & vs & Hrun & Hlen & Hpool & Hrest & Hwp).
  exists ps, w', (contents (strings w') (concat chs')). eexists.
  split_and!; [done|exists chs'; split_and!; [apply Hpool|done|done]|done| |].
  - intros i ops Hi. destruct (lookup_lt_is_Some_2 ps i) as [p Hp]; [rewrite Hlen; by eapply lookup_lt_Some|].
    destruct (Hwp i p Hp) as (v & Hv & Hpost). rewrite Hp. split.
    + intros rs [= ->]. destruct Hpost as (ops' & Hi' & -> & _). by rewrite Hi in Hi'; injection Hi' as <-.
    + intros Hturns. replace (needed w threads - turns i sched)%nat with 0%nat in Hpost by lia.
      destruct p as [rs|c k|e]; [|done..]. destruct Hpost as (ops' & Hi' & -> & _). by rewrite Hi in Hi'; injection Hi' as <-.
  - intros Hdone. eapply (slots_finished w m chs); try done. intros i ops Hi.
    destruct (lookup_lt_is_Some_2 ps i) as [p Hp]; [rewrite Hlen; by eapply lookup_lt_Some|].
    destruct (Hwp i p Hp) as (v & Hv & Hpost). destruct (Hdone i p Hp) as [rs ->]. by exists v, rs.
Qed.

(** Two threads on a table with five slots; both look up the same key. *)
Definition two_threads : list (list table_op) :=
  [[Insert 1003 7; Lookup 1003; Lookup 1000]; [Lookup 1000; Insert 1004 9; Lookup 1004]].

Lemma two_threads_race_free : race_free sixteen_strings (ht (filled 4 0 3)) two_threads.
Proof.
  assert (Hslots : op_slot sixteen_strings (ht (filled 4 0 3)) <$> concat two_threads = [3; 3; 0; 0; 1; 1]%nat)
    by (vm_compute; reflexivity).
  unfold race_free. generalize dependent (op_slot sixteen_strings (ht (filled 4 0 3))). intros slot [= E1 E2 E3 E4 E5 E6].
  intros [|[|i]] [|[|j]] ops ops' op op' [= <-] [= <-] Hij Hop Hop' Hins; try done;
    repeat (apply elem_of_cons in Hop as [->|Hop]); try by apply elem_of_nil in Hop; try done.
  all: repeat (apply elem_of_cons in Hop' as [->|Hop']); try by apply elem_of_nil in Hop'.
  all: try done; congruence.
Qed.

Lemma race_free_threads_correct_witness :
  exists enough, forall sched, (enough <= turns 0 sched)%nat -> (enough <= turns 1 sched)%nat -> exists w' m' own',
    @interleave _ _ sched ((fun ops => @run_ops_p lowest_free sixteen_strings 20 ops) <$> two_threads) (filled 4 0 3) =
      Ok ([Done [0; 7; 500]; Done [500; 0; 9]], w') /\ table w' m' own'.
Proof.
  destruct (filled_table 4 0 3) as (m & own & Htable & Hstr & _ & Hans); [lia|lia|vm_compute; by eexists|].
  destruct (@race_free_threads_correct lowest_free lowest_free_laws 100 (lowest_free_serves 100 ltac:(lia))
    (filled 4 0 3) m own two_threads 20 Htable) as [enough Hall];
    [vm_compute; reflexivity| |rewrite Hstr; apply two_threads_race_free|vm_compute; lia|vm_compute; reflexivity|vm_compute; lia|].
  { rewrite Hstr. repeat constructor;
      apply (sixteen_known 0) || apply (sixteen_known 3) || apply (sixteen_known 4); lia. }
  rewrite Hstr in Hall. exists enough. intros sched H0 H1.
  destruct (Hall sched) as (ps & w' & m' & own' & Hrun & Htable' & Hlen & Hps & _).
  exists w', m', own'. split; [|exact Htable']. rewrite Hrun.
  destruct (Hps 0%nat _ eq_refl) as [_ Hp0]. destruct (Hps 1%nat _ eq_refl) as [_ Hp1].
  specialize (Hp0 H0). specialize (Hp1 H1).
  assert (Hnone : forall i, 0 <= i < 16 -> @htable_lookup (1000 + i) (filled 4 0 3) = Ok (0, filled 4 0 3) ->
    m !! default [] (sixteen_strings !! (1000 + i)) = None).
  { intros i Hi Hrun'. by apply (Hans (1000 + i) 0 (sixteen_known i Hi)). }
  pose proof (Hnone 3 ltac:(lia) ltac:(vm_compute; reflexivity)) as H3.
  pose proof (Hnone 4 ltac:(lia) ltac:(vm_compute; reflexivity)) as H4.
  pose proof (proj1 (Hans 1000 500 (sixteen_known 0 ltac:(lia)) ltac:(vm_compute; reflexivity))) as H0'.
  unfold answer in H0'. unfold two_threads in Hp0, Hp1. cbn [spec_ops spec_op] in Hp0, Hp1.
  assert (Hne : default [] (sixteen_strings !! 1003) <> default [] (sixteen_strings !! 1000)) by (vm_compute; discriminate).
  change (1000 + 3) with 1003 in H3. change (1000 + 4) with 1004 in H4.
  rewrite H3, !lookup_insert_eq, (lookup_insert_ne _ _ _ _ Hne), H0' in Hp0.
  rewrite H4, !lookup_insert_eq, H0' in Hp1. cbn [default from_option id] in Hp0, Hp1.
  destruct ps as [|p0 [|p1 [|p2 ps]]]; try discriminate Hlen.
  injection Hp0 as ->. injection Hp1 as ->. reflexivity.
Defined.
