(* ===== verification/Rkgrep.v ===== *)
(** * rklab: modular arithmetic, bloom filter and matcher interface

    The helpers of rklab/rkgrep.c and rklab/bloom.c, the routines the lab
    leaves open as an interface with the contract its comments give, and the
    routines as shipped. *)

From S2P Require Import Prelude.

(** ** Modular arithmetic on [long long] (rkgrep.c) *)

Definition PRIME : Z := 961748941.

Definition madd (a b : Z) : result Z := s ← ll_ (a + b); Ok (Z.rem s PRIME).

Definition msub (a b : Z) : result Z :=
  if a >? b then ll_ (a - b)
  else s ← ll_ (a + PRIME); ll_ (s - b).

Definition mmul (a b : Z) : result Z := m ← ll_ (a * b); Ok (Z.rem m PRIME).

(** ** Bloom filter (bloom.c) *)

Definition H1PRIME : Z := 4189793.
Definition H2PRIME : Z := 3296731.
Definition BLOOM_HASH_NUM : Z := 10.

(** The sum is a [long long]; the return converts it to [int]. *)
Definition hash_i (i x : Z) : result Z :=
  m ← ll_ (i * Z.rem x H2PRIME);
  s ← ll_ (Z.rem x H1PRIME + m);
  s ← ll_ (s + 1);
  q ← int_ (i * i);
  s ← ll_ (s + q);
  Ok (s32 s).

(** The bytes of [buf] are signed characters; [None] is an indeterminate one. *)
Record bloom_filter := {
  bf_buf : list (option Z);
  bf_bsz : Z;
}.

(** [alloc_bf] and [alloc_buf] tell whether the two calls of [malloc]
    succeed.  A failure of the first is not tested: the next line writes
    through NULL. *)
Definition bloom_init (alloc_bf alloc_buf : bool) (bsz : Z) : result bloom_filter :=
  assert_ (Z.rem bsz 8 =? 0);;
  guard_ alloc_bf;;
  if negb alloc_buf then Fault (Exited 1)
  else
    let bytes := u64 (Z.shiftr bsz 3) in
    Ok {| bf_buf := replicate (Z.to_nat bytes) (Some 0); bf_bsz := bsz |}.

(** The byte is promoted to [int]; shifts of negative numbers are those of
    GCC, shift counts out of range are undefined. *)
Definition int_shl (a n : Z) : result Z :=
  guard_ ((0 <=? n) && (n <? 32));; Ok (s32 (Z.shiftl a n)).
Definition int_shr (a n : Z) : result Z :=
  guard_ ((0 <=? n) && (n <? 32));; Ok (Z.shiftr a n).

Definition bloom_bit_at_pos (bf : bloom_filter) (pos : Z) : result bool :=
  assert_ (pos <? bf_bsz bf);;
  let which_byte := Z.quot pos 8 in
  let which_bit := Z.rem pos 8 in
  byte ← cell_get (bf_buf bf) which_byte;
  s ← int_shl byte which_bit;
  s ← int_shr s (7 - which_bit);
  Ok (negb (s =? 0)).

(** As shipped, to be filled in by the student. *)
Definition bloom_add (bf : bloom_filter) (elm : Z) : bloom_filter := bf.
Definition bloom_query (bf : bloom_filter) (elm : Z) : bool := false.

(** ** Strings *)

(** The characters before the first NUL of a buffer; [None] when the buffer
    has none, or an indeterminate byte before it. *)
Fixpoint c_str (buf : list (option Z)) : option (list Z) :=
  match buf with
  | Some c :: buf => if c =? 0 then Some [] else s ← c_str buf; Some (c :: s)
  | _ => None
  end.

(** A buffer that holds a string and its NUL. *)
Definition as_buf (s : list Z) : list (option Z) := (Some <$> s) ++ [Some 0].

(** [strlen], undefined without a NUL. *)
Definition strlen (buf : list (option Z)) : result Z :=
  s ← need (c_str buf); Ok (Z.of_nat (length s)).

(** ** The routines of the lab (rkgrep.h)

    The matching routines return the number of matches and what they store
    through [first_match_ind], if anything. *)
Class Matcher := {
  naive_substring_match : list (option Z) -> list (option Z) -> result (Z * option Z);
  rk_substring_match : list (option Z) -> list (option Z) -> result (Z * option Z);
  rk_create_doc_bloom : Z -> list (option Z) -> Z -> result (option bloom_filter);
  rk_substring_match_using_bloom :
    list (option Z) -> list (option Z) -> option bloom_filter -> result (Z * option Z);
}.

(** The positions where the pattern [p] occurs in the document [d]. *)
Definition occurs_at (p d : list Z) (i : nat) : bool :=
  bool_decide (take (length p) (drop i d) = p).

Definition occurrences (p d : list Z) : list nat :=
  filter (fun i => Is_true (occurs_at p d i)) (seq 0 (length d)).

(** What a matching routine is to answer: the number of matches, and the
    first one, a negative number when there is none. *)
Definition match_answer (p d : list Z) (r : result (Z * option Z)) : Prop :=
  exists i, r = Ok (Z.of_nat (length (occurrences p d)), Some i) /\
    match occurrences p d with
    | [] => i < 0
    | k :: _ => i = Z.of_nat k
    end.

(** The contract in the comments of rkgrep.c. *)
Class MatcherSpec `{Matcher} := {
  naive_match_spec pb db p d :
    c_str pb = Some p -> c_str db = Some d -> p <> [] ->
    match_answer p d (naive_substring_match pb db);
  rk_match_spec pb db p d :
    c_str pb = Some p -> c_str db = Some d -> p <> [] ->
    match_answer p d (rk_substring_match pb db);
  (** what the filter of a document is for *)
  bloom_of : Z -> list Z -> option bloom_filter -> Prop;
  create_bloom_spec m db d bsz :
    c_str db = Some d -> 0 < m -> Z.rem bsz 8 = 0 -> 0 < bsz < 2 ^ 31 ->
    exists bf, rk_create_doc_bloom m db bsz = Ok bf /\ bloom_of m d bf;
  bloom_match_spec pb db p d bf :
    c_str pb = Some p -> c_str db = Some d -> p <> [] ->
    bloom_of (Z.of_nat (length p)) d bf ->
    match_answer p d (rk_substring_match_using_bloom pb db bf);
}.

(** As shipped: [naive_substring_match] returns -1, the others 0 or NULL, and
    none stores a position. *)
Definition shipped_matcher : Matcher := {|
  naive_substring_match _ _ := Ok (-1, None);
  rk_substring_match _ _ := Ok (0, None);
  rk_create_doc_bloom _ _ _ := Ok None;
  rk_substring_match_using_bloom _ _ _ := Ok (0, None);
|}.

(** ** Lemmas *)

Lemma madd_ok a b : 0 <= a < 2 ^ 62 -> 0 <= b < 2 ^ 62 -> madd a b = Ok ((a + b) mod PRIME).
Proof.
  intros. unfold madd. rewrite ll_ok by lia. unfold mbind, result_bind.
  by rewrite Z.rem_mod_nonneg by (done || lia).
Qed.

Lemma mmul_ok a b : 0 <= a < 2 ^ 31 -> 0 <= b < 2 ^ 31 -> mmul a b = Ok ((a * b) mod PRIME).
Proof.
  intros. unfold mmul. rewrite ll_ok by nia. unfold mbind, result_bind.
  by rewrite Z.rem_mod_nonneg by (done || nia).
Qed.

Lemma msub_ok a b :
  0 <= a < PRIME -> 0 <= b < PRIME ->
  msub a b = Ok (if a =? b then PRIME else (a - b) mod PRIME).
Proof.
  intros Ha Hb. unfold msub, PRIME in *. rewrite Z.gtb_ltb.
  destruct (Z.ltb_spec b a), (Z.eqb_spec a b); try lia.
  - rewrite ll_ok by lia. by rewrite Z.mod_small by lia.
  - subst b. rewrite ll_ok by lia. unfold mbind, result_bind. rewrite ll_ok by lia. f_equal. lia.
  - rewrite ll_ok by lia. unfold mbind, result_bind. rewrite ll_ok by lia. f_equal.
    rewrite <- (Z.mod_add _ 1) by done. rewrite Z.mod_small by lia. lia.
Qed.

Lemma msub_range a b :
  0 <= a < PRIME -> 0 <= b < PRIME ->
  exists c, msub a b = Ok c /\ 0 <= c <= PRIME /\ c mod PRIME = (a - b) mod PRIME.
Proof.
  intros Ha Hb. rewrite msub_ok by done. eexists. split; [done|].
  pose proof (Z.mod_pos_bound (a - b) PRIME ltac:(done)).
  destruct (Z.eqb_spec a b) as [->|]; [by rewrite Z.sub_diag|].
  split; [lia|]. by rewrite Z.mod_mod.
Qed.

(** The hash of rklab: the base-256 polynomial modulo [PRIME]. *)
Definition rk_value (s : list Z) : Z := foldl (fun h c => h * 256 + c) 0 s.
Definition rk_hash (s : list Z) : Z := rk_value s mod PRIME.

Lemma foldl_shift (s : list Z) a :
  foldl (fun h c => h * 256 + c) a s = a * 256 ^ Z.of_nat (length s) + rk_value s.
Proof.
  unfold rk_value. revert a; induction s as [|c s IH]; intros a; [simpl; lia|].
  cbn [foldl length]. rewrite (IH (a * 256 + c)), (IH (0 * 256 + c)).
  rewrite Nat2Z.inj_succ, Z.pow_succ_r by lia. ring.
Qed.

Lemma rk_value_cons c s : rk_value (c :: s) = c * 256 ^ Z.of_nat (length s) + rk_value s.
Proof. unfold rk_value at 1. cbn [foldl]. by rewrite foldl_shift. Qed.

Lemma rk_value_snoc s c : rk_value (s ++ [c]) = rk_value s * 256 + c.
Proof. unfold rk_value. by rewrite foldl_app. Qed.

(** Every byte and every bit: the code tests all bits from [7] down to
    [max 0 (7-2w)]. *)
Definition bits_tested (w : Z) : list Z := seqZ (Z.max 0 (7 - 2 * w)) (8 - Z.max 0 (7 - 2 * w)).

Definition shift_test (b w : Z) : result bool :=
  s ← int_shl b w; s ← int_shr s (7 - w); Ok (negb (s =? 0)).

Lemma shift_test_all :
  forallb (fun b => forallb (fun w =>
    match shift_test b w with
    | Ok r => eqb r (existsb (Z.testbit b) (bits_tested w))
    | Fault _ => false
    end) (seqZ 0 8)) (seqZ (-128) 256) = true.
Proof. vm_compute. reflexivity. Qed.

Lemma shift_test_ok b w :
  - 128 <= b < 128 -> 0 <= w < 8 ->
  shift_test b w = Ok (existsb (Z.testbit b) (bits_tested w)).
Proof.
  intros Hb Hw. pose proof shift_test_all as Hall.
  pose proof (proj1 (forallb_forall _ _) Hall b
    ltac:(apply list_elem_of_In, elem_of_seqZ; lia)) as Hall'.
  pose proof (proj1 (forallb_forall _ _) Hall' w
    ltac:(apply list_elem_of_In, elem_of_seqZ; lia)) as Hw'. cbv beta in Hw'.
  destruct (shift_test b w) as [r|]; [|done]. f_equal. by apply eqb_prop.
Qed.

(** The formula of [rkhash_next]. *)
Lemma rolling_formula_run (l r : Z) (s : list Z) (h : Z) :
  0 <= l < 128 -> 0 <= r < 128 -> h = 256 ^ Z.of_nat (S (length s)) mod PRIME ->
  (p ← mmul (rk_hash (l :: s)) 256; q ← mmul l h; d ← msub p q; madd d r)
    = Ok (rk_hash (s ++ [r])).
Proof.
  intros Hl Hr ->.
  pose proof (Z.mod_pos_bound (rk_value (l :: s)) PRIME ltac:(done)) as H1.
  pose proof (Z.mod_pos_bound (256 ^ Z.of_nat (S (length s))) PRIME ltac:(done)) as H2.
  assert (HP : PRIME < 2 ^ 31) by done. unfold rk_hash.
  rewrite (mmul_ok _ 256) by lia. unfold mbind at 1, result_bind at 1.
  rewrite (mmul_ok l) by lia. unfold mbind at 1, result_bind at 1.
  destruct (msub_range ((rk_value (l :: s) mod PRIME * 256) mod PRIME)
    ((l * (256 ^ Z.of_nat (S (length s)) mod PRIME)) mod PRIME)) as (d & -> & Hd & Hdm);
    [by apply Z.mod_pos_bound|by apply Z.mod_pos_bound|].
  unfold mbind, result_bind. rewrite madd_ok by lia. f_equal.
  rewrite <- Z.add_mod_idemp_l, Hdm by done.
  rewrite rk_value_snoc, rk_value_cons, Nat2Z.inj_succ, Z.pow_succ_r by lia.
  rewrite Z.add_mod_idemp_l, Z.mul_mod_idemp_l, Z.mul_mod_idemp_r by done.
  rewrite <- Z.add_mod_idemp_l, <- Zminus_mod, Z.add_mod_idemp_l by done. f_equal. ring.
Qed.

Lemma bloom_bit_at_pos_run (bf : bloom_filter) (pos b : Z) :
  0 <= pos < bf_bsz bf -> bf_buf bf !! Z.to_nat (pos / 8) = Some (Some b) -> - 128 <= b < 128 ->
  bloom_bit_at_pos bf pos = Ok (existsb (Z.testbit b) (bits_tested (pos mod 8))).
Proof.
  intros Hpos Hb Hrange. pose proof (Z.mod_pos_bound pos 8 ltac:(done)) as Hw.
  rewrite <- (shift_test_ok b (pos mod 8) Hrange Hw).
  unfold bloom_bit_at_pos, shift_test. rewrite (proj2 (Z.ltb_lt _ _)) by lia.
  unfold mbind at 1, result_bind at 1. simpl.
  rewrite Z.quot_div_nonneg, Z.rem_mod_nonneg by lia.
  unfold cell_get. rewrite (arr_get_ok _ _ (Some b)) by (try done; dlia). done.
Qed.

(** ** Properties *)

(** On reduced numbers [madd] and [mmul] are addition and multiplication
    modulo [PRIME] and nothing overflows; [msub] is subtraction modulo [PRIME]
    except that equal arguments give [PRIME] itself instead of 0. *)
Theorem modular_arithmetic_correct (a b : Z) :
  0 <= a < PRIME -> 0 <= b < PRIME ->
  madd a b = Ok ((a + b) mod PRIME) /\ mmul a b = Ok ((a * b) mod PRIME) /\
  msub a b = Ok (if a =? b then PRIME else (a - b) mod PRIME).
Proof.
  unfold PRIME. intros. split_and!; [apply madd_ok; lia|apply mmul_ok; lia|by apply msub_ok].
Qed.

Lemma modular_arithmetic_correct_witness : msub 5 5 = Ok PRIME /\ madd 961748940 1 = Ok 0.
Proof.
  destruct (modular_arithmetic_correct 5 5) as (_ & _ & H1); [done|done|].
  destruct (modular_arithmetic_correct 961748940 1) as (H2 & _ & _); [done|done|].
  split; [exact H1|exact H2].
Defined.

(** The formula the comments give for [rkhash_next], built from [mmul],
    [msub] and [madd], turns the hash of a window [l :: s] into the hash of
    the next window [s ++ [r]], fully reduced, although [msub] may answer
    [PRIME] on the way. *)
Theorem rolling_formula_correct (l r : Z) (s : list Z) (h : Z) :
  0 <= l < 128 -> 0 <= r < 128 -> h = 256 ^ Z.of_nat (S (length s)) mod PRIME ->
  (p ← mmul (rk_hash (l :: s)) 256; q ← mmul l h; d ← msub p q; madd d r)
    = Ok (rk_hash (s ++ [r])).
Proof. apply rolling_formula_run. Qed.

Lemma rolling_formula_correct_witness :
  (p ← mmul (rk_hash [97; 98; 99]) 256; q ← mmul 97 16777216; d ← msub p q; madd d 100)
    = Ok (rk_hash [98; 99; 100]).
Proof. apply (rolling_formula_correct 97 100 [98; 99] 16777216); [lia|lia|vm_compute; reflexivity]. Defined.

(** [bloom_init] of a positive multiple of 8 gives a filter of that many
    clear bits; a size that is no multiple of 8 fails the assertion, a refused
    bitmap exits with 1, and a refused header is written through NULL. *)
Theorem bloom_init_correct (alloc_bf alloc_buf : bool) (bsz : Z) :
  0 <= bsz < 2 ^ 31 ->
  bloom_init alloc_bf alloc_buf bsz =
    if negb (bsz mod 8 =? 0) then Fault AssertFailed
    else if negb alloc_bf then Fault Undefined
    else if negb alloc_buf then Fault (Exited 1)
    else Ok {| bf_buf := replicate (Z.to_nat (bsz / 8)) (Some 0); bf_bsz := bsz |}.
Proof.
  intros Hb. unfold bloom_init. rewrite Z.rem_mod_nonneg by lia.
  destruct (bsz mod 8 =? 0); [|done]. destruct alloc_bf; [|done]. destruct alloc_buf; [|done].
  simpl. rewrite Z.shiftr_div_pow2 by lia. by rewrite u64_id by dlia.
Qed.

Lemma bloom_init_correct_witness :
  bloom_init true true 16 = Ok {| bf_buf := [Some 0; Some 0]; bf_bsz := 16 |}.
Proof. rewrite (bloom_init_correct true true 16); [reflexivity|lia]. Defined.

(** C37: [bloom_bit_at_pos] does not isolate the bit it is asked for: counting
    from the left, for bit [w] of a byte it tells whether any of the bits 0 to
    [min 7 (2w)] is set.  It never misses a bit that is set, and for [w] = 0
    it is right, but a set neighbour makes it answer true for a clear bit. *)
Theorem bloom_bit_at_pos_tests (bf : bloom_filter) (pos b : Z) :
  0 <= pos < bf_bsz bf -> bf_buf bf !! Z.to_nat (pos / 8) = Some (Some b) -> - 128 <= b < 128 ->
  bloom_bit_at_pos bf pos = Ok (existsb (Z.testbit b) (bits_tested (pos mod 8))) /\
  (Z.testbit b (7 - pos mod 8) = true -> bloom_bit_at_pos bf pos = Ok true) /\
  (pos mod 8 = 0 -> bloom_bit_at_pos bf pos = Ok (Z.testbit b 7)).
Proof.
  intros Hpos Hb Hrange. pose proof (bloom_bit_at_pos_run bf pos b Hpos Hb Hrange) as Hrun.
  pose proof (Z.mod_pos_bound pos 8 ltac:(done)) as Hw.
  split; [done|]. rewrite Hrun. split.
  - intros Hset. f_equal. apply existsb_exists. exists (7 - pos mod 8). split; [|done].
    apply list_elem_of_In, elem_of_seqZ. lia.
  - intros ->. simpl. by rewrite orb_false_r.
Qed.

(** The byte 1000 0000: the code takes its second bit for set. *)
Lemma bloom_bit_at_pos_tests_witness :
  bloom_bit_at_pos {| bf_buf := [Some (-128)]; bf_bsz := 8 |} 1 = Ok true /\
  Z.testbit (-128) (7 - 1) = false.
Proof.
  split; [|reflexivity].
  destruct (bloom_bit_at_pos_tests {| bf_buf := [Some (-128)]; bf_bsz := 8 |} 1 (-128))
    as [H _]; [simpl; lia|reflexivity|lia|]. rewrite H. vm_compute. reflexivity.
Defined.
