(* ===== verification/RkgrepMain.v ===== *)
(** * The rkgrep program (rklab/rkgrep_main.c)

    Reading the document, splitting the patterns, printing a match in its
    line, and [main], over the matching routines of {!Rkgrep}.  Standard
    output is the list of the characters printed. *)

From Stdlib Require Import Ascii.
From stdpp Require Import pretty.
From S2P Require Import Prelude Rkgrep.

(** ** Output *)

Abbreviation out := (list Z).

Definition chars (s : string) : list Z :=
  (fun a => Z.of_nat (nat_of_ascii a)) <$> String.list_ascii_of_string s.

Definition print (s : list Z) : ST out unit := modify (fun o => o ++ s).
Definition putc (c : Z) : ST out unit := print [c].

Definition newline : Z := 10.
Definition NORMALCOLOR : list Z := 27 :: chars "[0m".
Definition REDCOLOR : list Z := 27 :: chars "[31m".
Definition MAX_PATTERNS : Z := 1000.

(** ** Printing a match *)

Definition back_step (doc : list (option Z)) (start : Z) : ST out (Z + Z) :=
  if 0 <? start then
    c ← lift (cell_get doc (start - 1));
    if c =? newline then mret (inr start) else mret (inl (start - 1))
  else mret (inr start).

Definition same_step (pos : Z) (pattern doc : list (option Z)) (i : Z) : ST out (Z + Z) :=
  k ← lift (int_ (i + pos));
  c ← lift (cell_get doc k);
  p ← lift (cell_get pattern i);
  if c =? p then putc c;; i ← lift (int_ (i + 1)); mret (inl i)
  else mret (inr i).

Definition rest_step (pos : Z) (doc : list (option Z)) (i : Z) : ST out (Z + unit) :=
  k ← lift (int_ (i + pos));
  c ← lift (cell_get doc k);
  if c =? newline then mret (inr tt)
  else if c =? 0 then mret (inr tt)
  else putc c;; i ← lift (int_ (i + 1)); mret (inl i).

(** Each loop makes at most one turn per character of the document, and one
    more to leave or to read past it. *)
Definition doc_fuel (doc : list (option Z)) : positive := Pos.of_succ_nat (length doc).

Definition print_matched_sentence (pos : Z) (pattern doc : list (option Z)) : ST out unit :=
  if pos <? 0 then mret tt
  else
    start ← while_st (doc_fuel doc) (back_step doc) pos;
    foldM (fun _ j => c ← lift (cell_get doc j); putc c) tt (seqZ start (pos - start));;
    print REDCOLOR;;
    i ← while_st (doc_fuel doc) (same_step pos pattern doc) 0;
    print NORMALCOLOR;;
    while_st (doc_fuel doc) (rest_step pos doc) i;;
    putc newline.

(** ** Reading the document *)

(** What the system answers for a file: [fd] of [open], success of [fstat]
    and the size it gives, success of [malloc], the number of bytes [read]
    returns and the bytes it stores.  [junk] is what the byte after them
    holds, which [malloc] leaves indeterminate: [None], or the value it
    happens to have. *)
Record file := {
  f_open : Z;
  f_fstat : bool;
  f_size : Z;
  f_malloc : bool;
  f_read : Z;
  f_bytes : list Z;
  f_junk : option Z;
}.

(** One turn of the test for ASCII; [None] stands for [doc == NULL]. *)
Definition ascii_step (doc : option (list (option Z))) (i : Z)
    : ST out (option (list (option Z))) :=
  buf ← lift (need doc);
  c ← lift (cell_get buf i);
  if c <=? 0 then mret None else mret (Some buf).

Definition read_ascii_file (f : file) : ST out (option (list (option Z))) :=
  if f_open f <? 0 then lift (Fault (Exited 1))
  else if negb (f_fstat f) then lift (Fault (Exited 1))
  else if negb (f_malloc f) then lift (Fault (Exited 1))
  else
    doc ←
      (let n := s32 (f_read f) in
       if n <? 0 then mret None
       else if negb (n =? f_size f) then mret None
       else
         foldM ascii_step (Some ((Some <$> f_bytes f) ++ [f_junk f])) (seqZ 0 (f_size f)));
    match doc with
    | None => lift (Fault Undefined) (* doc[st.st_size] = '\0' through NULL *)
    | Some buf => mret (Some buf)
    end.

(** ** Splitting the patterns *)

Definition bar : Z := 124.

(** [strtok_r(_, "|", _)] on the buffer, from the saved position: the start
    of the next token, the position saved, and the buffer with the delimiter
    overwritten. *)
Fixpoint skip_bars (l : list (option Z)) : nat :=
  match l with
  | Some c :: l => if c =? bar then S (skip_bars l) else O
  | _ => O
  end.

Fixpoint token_len (l : list (option Z)) : nat :=
  match l with
  | Some c :: l => if (c =? bar) || (c =? 0) then O else S (token_len l)
  | _ => O
  end.

Definition strtok_r (buf : list (option Z)) (save : nat)
    : result (option (nat * nat * list (option Z))) :=
  let start := (save + skip_bars (drop save buf))%nat in
  c ← cell_get buf (Z.of_nat start);
  if c =? 0 then Ok None
  else
    let stop := (start + token_len (drop start buf))%nat in
    c ← cell_get buf (Z.of_nat stop);
    if c =? 0 then Ok (Some (start, stop, buf))
    else
      buf ← arr_set buf (Z.of_nat stop) (Some 0);
      Ok (Some (start, S stop, buf)).

(** The loop of [main] that fills [patterns]; [MAX_PATTERNS] turns are enough,
    because the assertion fails at the last one. *)
Definition token_step (st : list (option Z) * nat * list nat)
    : result (list (option Z) * nat * list nat + list (option Z) * list nat) :=
  let '(buf, save, patterns) := st in
  o ← strtok_r buf save;
  match o with
  | None => Ok (inr (buf, patterns))
  | Some (start, save, buf) =>
      let patterns := patterns ++ [start] in
      assert_ (Z.of_nat (length patterns) <? MAX_PATTERNS);;
      Ok (inl (buf, save, patterns))
  end.

Definition split_patterns (arg : list Z) : result (list (option Z) * list nat) :=
  while 1000 token_step (as_buf arg, O, []).

(** ** [main] *)

Inductive algo_type := Naive | RK | Bloom | RKBloom | All.

Definition algo_number (a : algo_type) : Z :=
  match a with Naive => 0 | RK => 1 | Bloom => 2 | RKBloom => 3 | All => 4 end.

Definition usage : list Z :=
  chars "rkgrep -a <test type> pattern1|pattern2|pattern3 <filename>" ++ [newline].

(** The options [getopt] returns, a character and its argument each. *)
Definition option_step (which_algo : algo_type) (o : Z * list Z) : ST out algo_type :=
  let '(c, optarg) := o in
  if c =? 97 then
    if bool_decide (optarg = chars "naive") then mret Naive
    else if bool_decide (optarg = chars "rk") then mret RK
    else if bool_decide (optarg = chars "rkbloom") then mret RKBloom
    else print (chars "unknown test type " ++ optarg);; lift (Fault (Exited 1))
  else print usage;; lift (Fault (Exited 1)).

(** What is printed and returned after a pattern was searched. *)
Definition report_match (doc pattern : list (option Z)) (r : Z * option Z) : ST out unit :=
  let '(n_matches, first) := r in
  first_match_ind ← lift (need first);
  print_matched_sentence first_match_ind pattern doc;;
  if n_matches >? 1 then
    p ← lift (need (c_str pattern));
    print (chars "--  only 1 out " ++ chars (pretty n_matches) ++
           chars " matches for pattern " ++ p ++ chars " is displayed" ++ [newline])
  else mret tt.

Section main.
Context `{Matcher}.

Definition search_all (doc : list (option Z)) (buf : list (option Z)) (patterns : list nat)
    (matchf : list (option Z) -> list (option Z) -> result (Z * option Z)) : ST out unit :=
  foldM (fun _ off =>
    r ← lift (matchf (drop off buf) doc);
    report_match doc (drop off buf) r) tt patterns.

(** [opts] is what [getopt] returns in turn, [args] the arguments from
    [optind] on; [fopen] gives the system's answers for a file name, [None]
    being the NULL after the last argument. *)
Definition main (opts : list (Z * list Z)) (args : list (list Z))
    (fopen : option (list Z) -> file) : ST out Z :=
  which_algo ← foldM option_step RK opts;
  match args with
  | [] => print usage;; lift (Fault (Exited 1))
  | arg :: rest =>
      t ← lift (split_patterns arg);
      let '(buf, patterns) := t in
      match patterns with
      | [] => print usage;; lift (Fault (Exited 1))
      | p0 :: ps =>
          d ← read_ascii_file (fopen (head rest));
          match d with
          | None => lift (Fault (Exited 1))
          | Some doc =>
              match which_algo with
              | Naive => search_all doc buf patterns naive_substring_match
              | RK => search_all doc buf patterns rk_substring_match
              | RKBloom =>
                  m ← lift (strlen (drop p0 buf));
                  foldM (fun _ off =>
                    k ← lift (strlen (drop off buf)); lift (assert_ (m =? k))) tt ps;;
                  n ← lift (strlen doc);
                  bf ← lift (rk_create_doc_bloom m doc (s32 (u64 (n * 8))));
                  search_all doc buf patterns
                    (fun p d => rk_substring_match_using_bloom p d bf)
              | _ => print (chars "Unknown algo type " ++ chars (pretty (algo_number which_algo)) ++ [newline]);; lift (Fault (Exited 1))
              end;;
              mret 0
          end
      end
  end.
End main.
