(* ===== verification/RkgrepSpec.v ===== *)
(** * Properties of rkgrep

    The line a match is printed in, the splitting of the patterns, the
    document read from a file, and the output of the whole program over
    matching routines that meet their contract. *)

From stdpp Require Import pretty.
From S2P Require Import Prelude Rkgrep RkgrepMain.

(** ** Buffers *)

Section buffers.
Implicit Types (d s t : list Z) (buf : list (option Z)).

Lemma as_buf_get d i c : d !! i = Some c -> cell_get (as_buf d) (Z.of_nat i) = Ok c.
Proof.
  intros Hi. unfold cell_get, as_buf. rewrite (arr_get_ok _ _ (Some c)); [done|lia|].
  rewrite Nat2Z.id, lookup_app_l by (rewrite length_fmap; by eapply lookup_lt_Some).
  by rewrite list_lookup_fmap, Hi.
Qed.

Lemma as_buf_end d : cell_get (as_buf d) (Z.of_nat (length d)) = Ok 0.
Proof.
  unfold cell_get, as_buf. rewrite (arr_get_ok _ _ (Some 0)); [done|lia|].
  by rewrite Nat2Z.id, lookup_app_r, length_fmap, Nat.sub_diag by (by rewrite length_fmap).
Qed.

Lemma as_buf_past d i : Z.of_nat (length d) < i -> cell_get (as_buf d) i = Fault Undefined.
Proof.
  intros Hi. unfold cell_get, arr_get, as_buf. rewrite (proj2 (Z.leb_le _ _)) by lia.
  rewrite lookup_ge_None_2; [done|]. rewrite length_app, length_fmap. simpl. lia.
Qed.

Lemma length_as_buf d : length (as_buf d) = S (length d).
Proof. unfold as_buf. rewrite length_app, length_fmap. simpl. lia. Qed.

(** A string has no NUL. *)
Definition no_nul s : Prop := Forall (fun c => c <> 0) s.

Lemma c_str_as_buf s rest : no_nul s -> c_str (as_buf s ++ rest) = Some s.
Proof.
  intros Hs. induction Hs as [|c s Hc Hs IH]; [done|].
  change (as_buf (c :: s) ++ rest) with (Some c :: (as_buf s ++ rest)). cbn [c_str].
  rewrite (proj2 (Z.eqb_neq _ _)) by done. by rewrite IH.
Qed.

Lemma c_str_inv buf s : c_str buf = Some s -> no_nul s /\ exists rest, buf = as_buf s ++ rest.
Proof.
  revert s; induction buf as [|[c|] buf IH]; intros s Hs; [done| |done]. simpl in Hs.
  destruct (Z.eqb_spec c 0) as [->|Hc].
  - injection Hs as <-. split; [constructor|]. by exists buf.
  - destruct (c_str buf) as [s'|]; [|done]. injection Hs as <-.
    destruct (IH s' eq_refl) as (Hs' & rest & ->). split; [by constructor|]. by exists rest.
Qed.

Lemma c_str_get buf s i c : c_str buf = Some s -> s !! i = Some c -> cell_get buf (Z.of_nat i) = Ok c.
Proof.
  intros (_ & rest & ->)%c_str_inv Hi. pose proof (as_buf_get s i c Hi) as Hget.
  unfold cell_get, arr_get in *. destruct (0 <=? Z.of_nat i); [|done].
  rewrite lookup_app_l; [done|]. rewrite length_as_buf.
  pose proof (lookup_lt_Some _ _ _ Hi). lia.
Qed.

Lemma c_str_end buf s : c_str buf = Some s -> cell_get buf (Z.of_nat (length s)) = Ok 0.
Proof.
  intros (_ & rest & ->)%c_str_inv. pose proof (as_buf_end s) as Hget.
  unfold cell_get, arr_get in *. destruct (0 <=? Z.of_nat (length s)); [|done].
  rewrite lookup_app_l; [done|]. rewrite length_as_buf. lia.
Qed.
End buffers.

(** ** The line of a match *)

(** The characters before the first newline. *)
Fixpoint first_line (l : list Z) : list Z :=
  match l with
  | [] => []
  | c :: l => if c =? newline then [] else c :: first_line l
  end.

(** The characters after the last newline. *)
Definition last_line (l : list Z) : list Z := reverse (first_line (reverse l)).

(** What is printed for a match at [pos] of a pattern of [m] characters: its
    line, with the match in red. *)
Definition sentence (pos m : nat) (d : list Z) : list Z :=
  last_line (take pos d) ++ REDCOLOR ++ take m (drop pos d) ++ NORMALCOLOR ++
  first_line (drop (pos + m) d) ++ [newline].

Lemma last_line_snoc_newline l : last_line (l ++ [newline]) = [].
Proof. unfold last_line. by rewrite reverse_snoc. Qed.

Lemma last_line_snoc l c : c <> newline -> last_line (l ++ [c]) = last_line l ++ [c].
Proof.
  intros Hc. unfold last_line. rewrite reverse_snoc. simpl.
  rewrite (proj2 (Z.eqb_neq _ _)) by done. by rewrite reverse_cons.
Qed.

Section print.
Context (d : list Z) (Hlen : Z.of_nat (length d) < 2 ^ 31 - 1).

Lemma doc_fuel_as_buf : Pos.to_nat (doc_fuel (as_buf d)) = S (S (length d)).
Proof. unfold doc_fuel. by rewrite SuccNat2Pos.id_succ, length_as_buf. Qed.

(** The backward search stops at the start of the line. *)
Lemma back_run (pos : nat) (o : out) :
  (pos <= length d)%nat ->
  exists start : nat, (start <= pos)%nat /\
    while_st (doc_fuel (as_buf d)) (back_step (as_buf d)) (Z.of_nat pos) o = Ok (Z.of_nat start, o) /\
    drop start (take pos d) = last_line (take pos d).
Proof.
  intros Hpos.
  apply (while_st_rule
    (fun k a o' => exists s : nat, a = Z.of_nat s /\ (s <= pos)%nat /\ k = s /\ o' = o /\
       last_line (take pos d) = last_line (take s d) ++ drop s (take pos d))
    (fun r => exists start : nat, (start <= pos)%nat /\ r = Ok (Z.of_nat start, o) /\
       drop start (take pos d) = last_line (take pos d)) _ _ pos).
  - intros k a o' (s & -> & Hs & -> & -> & Hline). unfold back_step.
    destruct s as [|s].
    { change (0 <? Z.of_nat 0) with false. cbv iota. exists 0%nat. split_and!; [lia|done|].
      by rewrite Hline. }
    rewrite (proj2 (Z.ltb_lt _ _)) by lia.
    destruct (lookup_lt_is_Some_2 d s) as [c Hc]; [lia|].
    replace (Z.of_nat (S s) - 1) with (Z.of_nat s) by lia.
    unfold lift. rewrite (bind_Ok _ _ _ c o) by (by rewrite (as_buf_get _ _ c)).
    rewrite (take_S_r _ _ c) in Hline by done.
    destruct (Z.eqb_spec c newline) as [->|Hne].
    + exists (S s). split_and!; [done|done|]. rewrite Hline, last_line_snoc_newline. done.
    + exists s. split; [lia|]. exists s. split_and!; [done|lia|done|done|].
      rewrite Hline, last_line_snoc by done. rewrite <- app_assoc. f_equal.
      rewrite (drop_S _ c s); [done|]. by rewrite lookup_take_lt by lia.
  - exists pos. split_and!; [done|done|done|done|].
    rewrite drop_ge by (rewrite length_take; lia). by rewrite app_nil_r.
  - rewrite doc_fuel_as_buf. lia.
Qed.

(** Printing the characters from [start] up to [pos]. *)
Lemma print_range_run (n start : nat) (o : out) :
  (start + n <= length d)%nat ->
  foldM (fun _ j => c ← lift (cell_get (as_buf d) j); putc c) tt
    (seqZ (Z.of_nat start) (Z.of_nat n)) o = Ok (tt, o ++ take n (drop start d)).
Proof.
  revert start o; induction n as [|n IH]; intros start o Hn.
  { simpl. by rewrite app_nil_r. }
  rewrite seqZ_cons by lia. cbn [foldM].
  replace (Z.succ (Z.of_nat start)) with (Z.of_nat (S start)) by lia.
  replace (Z.pred (Z.of_nat (S n))) with (Z.of_nat n) by lia.
  destruct (lookup_lt_is_Some_2 d start) as [c Hc]; [lia|].
  rewrite (bind_Ok _ _ _ tt (o ++ [c])).
  2: { unfold lift. by rewrite (bind_Ok _ _ _ c o) by (by rewrite (as_buf_get _ _ c)). }
  rewrite IH by lia. rewrite <- app_assoc. rewrite (drop_S d c start) by done. done.
Qed.

(** The rest of the line. *)
Lemma rest_run (k : nat) (pos i : Z) (o : out) :
  0 <= pos -> 0 <= i -> i + pos = Z.of_nat k -> (k <= length d)%nat -> no_nul d ->
  while_st (doc_fuel (as_buf d)) (rest_step pos (as_buf d)) i o =
    Ok (tt, o ++ first_line (drop k d)).
Proof.
  intros Hpos Hi Hk Hkd Hnul.
  apply (while_st_rule
    (fun n a o' => exists j : nat, a + pos = Z.of_nat j /\ 0 <= a /\ (j <= length d)%nat /\
       n = (length d - j)%nat /\ o' ++ first_line (drop j d) = o ++ first_line (drop k d))
    (fun r => r = Ok (tt, o ++ first_line (drop k d))) _ _ (length d - k)%nat).
  - intros n a o' (j & Ha & Ha0 & Hj & -> & Ho). unfold rest_step.
    rewrite Ha. unfold lift. rewrite (bind_Ok _ _ _ (Z.of_nat j) o') by (by rewrite int_ok by lia).
    destruct (decide (j = length d)) as [->|Hlt].
    + rewrite (bind_Ok _ _ _ 0 o') by (by rewrite as_buf_end).
      change (0 =? newline) with false. change (0 =? 0) with true. cbv iota.
      rewrite drop_ge in Ho by done. simpl in Ho. rewrite app_nil_r in Ho. by rewrite <- Ho.
    + destruct (lookup_lt_is_Some_2 d j) as [c Hc]; [lia|].
      rewrite (bind_Ok _ _ _ c o') by (by rewrite (as_buf_get _ _ c)).
      rewrite (drop_S d c j) in Ho by done. cbn [first_line] in Ho. revert Ho.
      destruct (Z.eqb_spec c newline) as [Hnl|Hne]; intros Ho.
      { rewrite app_nil_r in Ho. by rewrite <- Ho. }
      assert (Hc0 : c <> 0) by (unfold no_nul in Hnul; rewrite Forall_lookup in Hnul; by apply (Hnul j)).
      rewrite (proj2 (Z.eqb_neq _ _)) by done.
      rewrite (bind_Ok _ _ _ tt (o' ++ [c])) by done.
      rewrite (bind_Ok _ _ _ (a + 1) (o' ++ [c])) by (by rewrite int_ok by lia).
      exists (length d - S j)%nat. split; [lia|]. exists (S j).
      split_and!; [lia|lia|lia|done|]. by rewrite <- app_assoc.
  - exists k. split_and!; [done|done|done|done|done].
  - rewrite doc_fuel_as_buf. lia.
Qed.

(** The comparison loop: it prints the pattern and stops at its NUL, unless
    the document ends there too. *)
Lemma same_run (pos : nat) pb p (o : out) :
  c_str pb = Some p -> take (length p) (drop pos d) = p -> (pos + length p <= length d)%nat ->
  no_nul d ->
  while_st (doc_fuel (as_buf d)) (same_step (Z.of_nat pos) pb (as_buf d)) 0 o =
    if decide (pos + length p < length d)%nat
    then Ok (Z.of_nat (length p), o ++ p)
    else Fault Undefined.
Proof.
  intros Hp Hocc Hfit Hnul. set (r0 := if decide _ then _ else _).
  apply (while_st_rule
    (fun n a o' => exists j : nat, a = Z.of_nat j /\ n = (S (length p) - j)%nat /\
       ((j <= length p)%nat /\ o' = o ++ take j p \/
        j = S (length p) /\ (pos + length p = length d)%nat))
    (fun r => r = r0) _ _ (S (length p))).
  - intros n a o' (j & -> & -> & Hj). unfold same_step, lift.
    rewrite (bind_Ok _ _ _ (Z.of_nat (pos + j)) o').
    2: { rewrite int_ok by lia. do 2 f_equal. lia. }
    destruct Hj as [[Hj ->]|[-> Hend]].
    2: { erewrite bind_Fault; [|by rewrite as_buf_past by lia]. subst r0. by rewrite decide_False by lia. }
    destruct (decide (j = length p)) as [->|Hjp].
    + rewrite take_ge by done. destruct (decide (pos + length p < length d)%nat) as [Hlt|Hge].
      * destruct (lookup_lt_is_Some_2 d (pos + length p)) as [c Hc]; [done|].
        rewrite (bind_Ok _ _ _ c (o ++ p)) by (by rewrite (as_buf_get _ _ c)).
        rewrite (bind_Ok _ _ _ 0 (o ++ p)) by (by rewrite (c_str_end _ p)).
        rewrite (proj2 (Z.eqb_neq _ _)); [done|].
        unfold no_nul in Hnul. rewrite Forall_lookup in Hnul. by eapply Hnul.
      * assert (pos + length p = length d)%nat as E by lia. rewrite E.
        rewrite (bind_Ok _ _ _ 0 (o ++ p)) by (by rewrite as_buf_end).
        rewrite (bind_Ok _ _ _ 0 (o ++ p)) by (by rewrite (c_str_end _ p)).
        rewrite Z.eqb_refl, (bind_Ok _ _ _ tt ((o ++ p) ++ [0])) by done.
        rewrite (bind_Ok _ _ _ (Z.of_nat (length p) + 1) ((o ++ p) ++ [0])) by (by rewrite int_ok by lia).
        exists 0%nat. split; [lia|]. exists (S (length p)). split_and!; [lia|lia|by right].
    + destruct (lookup_lt_is_Some_2 p j) as [c Hc]; [lia|].
      assert (Hcd : d !! (pos + j)%nat = Some c).
      { rewrite <- Hc, <- Hocc at 1. rewrite lookup_take_lt by lia. by rewrite lookup_drop. }
      rewrite (bind_Ok _ _ _ c (o ++ take j p)) by (by rewrite (as_buf_get _ _ c)).
      rewrite (bind_Ok _ _ _ c (o ++ take j p)) by (by rewrite (c_str_get _ p _ c)).
      rewrite Z.eqb_refl, (bind_Ok _ _ _ tt ((o ++ take j p) ++ [c])) by done.
      rewrite (bind_Ok _ _ _ (Z.of_nat j + 1) ((o ++ take j p) ++ [c])) by (by rewrite int_ok by lia).
      exists (length p - j)%nat. split; [lia|]. exists (S j). split_and!; [lia|lia|].
      left. split; [lia|]. by rewrite (take_S_r _ _ c), <- app_assoc.
  - exists 0%nat. split_and!; [done|lia|]. left. split; [lia|]. simpl. by rewrite app_nil_r.
  - rewrite doc_fuel_as_buf. lia.
Qed.

(** The whole line. *)
Lemma print_matched_run (pos : nat) pb p (o : out) :
  c_str pb = Some p -> take (length p) (drop pos d) = p -> (pos + length p <= length d)%nat ->
  no_nul d ->
  print_matched_sentence (Z.of_nat pos) pb (as_buf d) o =
    if decide (pos + length p < length d)%nat
    then Ok (tt, o ++ sentence pos (length p) d)
    else Fault Undefined.
Proof.
  intros Hp Hocc Hfit Hnul. unfold print_matched_sentence.
  rewrite (proj2 (Z.ltb_ge _ _)) by lia.
  destruct (back_run pos o ltac:(lia)) as (start & Hstart & Hback & Hline).
  rewrite (bind_Ok _ _ _ (Z.of_nat start) o) by done.
  set (o1 := o ++ last_line (take pos d)).
  rewrite (bind_Ok _ _ _ tt o1).
  2: { replace (Z.of_nat pos - Z.of_nat start) with (Z.of_nat (pos - start)) by lia.
       rewrite print_range_run by lia. unfold o1. rewrite <- Hline.
       by rewrite <- skipn_firstn_comm. }
  rewrite (bind_Ok _ _ _ tt (o1 ++ REDCOLOR)) by done.
  pose proof (same_run pos pb p (o1 ++ REDCOLOR) Hp Hocc Hfit Hnul) as Hsame.
  destruct (decide _) as [Hlt|Hge].
  2: { by rewrite (bind_Fault _ _ _ Undefined). }
  rewrite (bind_Ok _ _ _ _ _ Hsame).
  rewrite (bind_Ok _ _ _ tt (((o1 ++ REDCOLOR) ++ p) ++ NORMALCOLOR)) by done.
  erewrite bind_Ok; [|apply (rest_run (pos + length p)); [lia|lia|lia|lia|done]].
  unfold putc, print, modify. unfold sentence, o1. rewrite Hocc. by rewrite <- !app_assoc.
Qed.
End print.

(** ** Splitting at the bars *)

Fixpoint split_bars (s : list Z) : list (list Z) :=
  match s with
  | [] => [[]]
  | c :: s =>
      if c =? bar then [] :: split_bars s
      else match split_bars s with t :: ts => (c :: t) :: ts | [] => [[c]] end
  end.

(** The patterns of an argument: its non-empty parts. *)
Definition tokens (s : list Z) : list (list Z) := filter (fun t => t <> []) (split_bars s).

Definition no_bar (t : list Z) : Prop := Forall (fun c => c <> bar) t.

Lemma split_bars_token t : no_bar t -> split_bars t = [t].
Proof.
  intros Ht. induction Ht as [|c t Hc Ht IH]; [done|]. simpl.
  rewrite (proj2 (Z.eqb_neq _ _)) by done. by rewrite IH.
Qed.

Lemma split_bars_app t s : no_bar t -> split_bars (t ++ bar :: s) = t :: split_bars s.
Proof.
  intros Ht. induction Ht as [|c t Hc Ht IH]; [done|]. simpl.
  rewrite (proj2 (Z.eqb_neq _ _)) by done. by rewrite IH.
Qed.

Lemma tokens_bars k s : tokens (replicate k bar ++ s) = tokens s.
Proof. induction k as [|k IH]; [done|]. exact IH. Qed.

Lemma tokens_nil : tokens [] = [].
Proof. done. Qed.

Lemma tokens_last t : no_bar t -> t <> [] -> tokens t = [t].
Proof. intros Ht Hne. unfold tokens. rewrite split_bars_token by done. by rewrite filter_cons_True. Qed.

Lemma tokens_app t s : no_bar t -> t <> [] -> tokens (t ++ bar :: s) = t :: tokens s.
Proof. intros Ht Hne. unfold tokens. rewrite split_bars_app by done. by rewrite filter_cons_True. Qed.

Lemma as_buf_cons c s : as_buf (c :: s) = Some c :: as_buf s.
Proof. done. Qed.

Lemma skip_bars_run s :
  exists k s1, s = replicate k bar ++ s1 /\ skip_bars (as_buf s) = k /\
    (s1 = [] \/ exists c s', s1 = c :: s' /\ c <> bar).
Proof.
  induction s as [|c s (k & s1 & -> & Hk & Hs1)].
  - exists 0%nat, []. split_and!; [done|done|by left].
  - rewrite as_buf_cons. cbn [skip_bars]. destruct (Z.eqb_spec c bar) as [->|Hc].
    + exists (S k), s1. by rewrite Hk.
    + exists 0%nat, (c :: replicate k bar ++ s1). split_and!; [done|done|]. right. by eexists _, _.
Qed.

Lemma token_len_run s :
  no_nul s ->
  exists t s2, s = t ++ s2 /\ token_len (as_buf s) = length t /\ no_bar t /\
    (s2 = [] \/ exists s', s2 = bar :: s').
Proof.
  intros Hs. induction Hs as [|c s Hc Hs (t & s2 & -> & Hlen & Ht & Hs2)].
  - exists [], []. split_and!; [done|done|constructor|by left].
  - rewrite as_buf_cons. cbn [token_len]. destruct (Z.eqb_spec c bar) as [->|Hcb]; simpl.
    + exists [], (bar :: t ++ s2). split_and!; [done|done|constructor|]. right. by eexists.
    + rewrite (proj2 (Z.eqb_neq _ _)) by done. exists (c :: t), s2.
      split_and!; [done|by rewrite Hlen|by constructor|done].
Qed.

Lemma cell_get_drop (buf : list (option Z)) k i : cell_get buf (Z.of_nat (k + i)) = cell_get (drop k buf) (Z.of_nat i).
Proof.
  unfold cell_get, arr_get. rewrite !(proj2 (Z.leb_le _ _)) by lia.
  by rewrite !Nat2Z.id, lookup_drop.
Qed.

Lemma as_buf_app s t : as_buf (s ++ t) = (Some <$> s) ++ as_buf t.
Proof. unfold as_buf. by rewrite fmap_app, <- app_assoc. Qed.

Lemma drop_as_buf_app s t : drop (length s) (as_buf (s ++ t)) = as_buf t.
Proof. rewrite as_buf_app. apply drop_app_length'. by rewrite length_fmap. Qed.

Lemma c_str_insert buf t i x :
  c_str buf = Some t -> (length t < i)%nat -> c_str (<[i := x]> buf) = Some t.
Proof.
  intros (Ht & rest & ->)%c_str_inv Hi. rewrite insert_app_r_alt by (rewrite length_as_buf; lia).
  by apply c_str_as_buf.
Qed.

(** What a call of [strtok_r] that finds the token [t] leaves: the unread part
    [s'] from [save'] on in [buf']. *)
Definition token_found (buf : list (option Z)) (save : nat) (t s' : list Z)
    (start save' : nat) (buf' : list (option Z)) : Prop :=
  drop save' buf' = as_buf s' /\ no_nul s' /\ (save <= start)%nat /\
  c_str (drop start buf') = Some t /\ (s' <> [] -> start + length t < save')%nat /\
  (save < save')%nat /\
  (buf' = buf \/ exists stop, (save <= stop)%nat /\ buf' = <[stop := Some 0]> buf).

(** The token ends where the string ends. *)
Lemma token_at_end buf save k t :
  drop (save + k) buf = as_buf t -> no_nul t -> (0 < length t)%nat ->
  token_found buf save t [] (save + k) (save + k + length t) buf.
Proof.
  intros Hdrop Ht Hlen. pose proof (drop_as_buf_app t []) as Hd. rewrite app_nil_r in Hd.
  split_and!; [|constructor|lia| |done|lia|by left].
  - by rewrite <- drop_drop, Hdrop.
  - rewrite Hdrop, <- (app_nil_r (as_buf t)). by apply c_str_as_buf.
Qed.

(** The token ends at a bar, which is overwritten. *)
Lemma token_at_bar buf save k t s' :
  drop (save + k) buf = as_buf (t ++ bar :: s') -> no_nul (t ++ bar :: s') -> (0 < length t)%nat ->
  (save + k + length t < length buf)%nat /\
  token_found buf save t s' (save + k) (S (save + k + length t))
    (<[(save + k + length t)%nat := Some 0]> buf).
Proof.
  intros Hdrop Hs Hlen. apply Forall_app in Hs as [Ht Hs'].
  assert (Hstop : (save + k + length t < length buf)%nat).
  { assert (length (drop (save + k) buf) = length (as_buf (t ++ bar :: s'))) as Hl by (by rewrite Hdrop).
    rewrite length_drop, length_as_buf, length_app in Hl. simpl in Hl. lia. }
  split; [done|]. split_and!; [| |lia| |lia|lia|].
  - rewrite drop_insert_lt by lia.
    replace (S (save + k + length t)) with ((save + k) + S (length t))%nat by lia.
    rewrite <- drop_drop, Hdrop.
    replace (t ++ bar :: s') with ((t ++ [bar]) ++ s') by (by rewrite <- app_assoc).
    replace (S (length t)) with (length (t ++ [bar])) by (rewrite length_app; simpl; lia).
    apply drop_as_buf_app.
  - by apply Forall_cons in Hs' as [_ ?].
  - rewrite drop_insert_ge by lia. rewrite Hdrop.
    replace (save + k + length t - (save + k))%nat with (length t) by lia.
    rewrite as_buf_app. replace (length t) with (length (Some <$> t) + 0)%nat
      by (rewrite length_fmap; lia).
    rewrite insert_app_r, as_buf_cons. simpl.
    pose proof (c_str_as_buf t (as_buf s') Ht) as Hc'. unfold as_buf at 1 in Hc'.
    by rewrite <- app_assoc in Hc'.
  - right. exists (save + k + length t)%nat. split; [lia|done].
Qed.

(** One call of [strtok_r] on a buffer whose unread part is the string [s]. *)
Lemma strtok_run buf save s :
  drop save buf = as_buf s -> no_nul s ->
  (tokens s = [] /\ strtok_r buf save = Ok None) \/
  exists t s' start save' buf',
    tokens s = t :: tokens s' /\ strtok_r buf save = Ok (Some (start, save', buf')) /\
    token_found buf save t s' start save' buf'.
Proof.
  intros Hbuf Hs. unfold strtok_r. rewrite Hbuf.
  destruct (skip_bars_run s) as (k & s1 & Es & Hk & Hs1). rewrite Hk.
  assert (Hdrop : drop (save + k) buf = as_buf s1).
  { rewrite <- drop_drop, Hbuf, Es. rewrite <- (length_replicate k bar) at 1. apply drop_as_buf_app. }
  assert (Hget : forall i, cell_get buf (Z.of_nat (save + k + i)) = cell_get (as_buf s1) (Z.of_nat i)).
  { intros i. by rewrite cell_get_drop, Hdrop. }
  pose proof (Hget 0%nat) as Hget0. rewrite Nat.add_0_r in Hget0. rewrite Hget0.
  assert (Hs1n : no_nul s1) by (rewrite Es in Hs; by apply Forall_app in Hs as [_ ?]).
  rewrite Es, tokens_bars. destruct Hs1 as [->|(c & s1' & -> & Hc)].
  { left. split; [done|]. reflexivity. }
  right. rewrite (as_buf_get (c :: s1') 0 c) by done.
  unfold mbind at 1, result_bind at 1.
  rewrite (proj2 (Z.eqb_neq c 0)) by (by apply Forall_cons in Hs1n as [? _]).
  rewrite Hdrop.
  destruct (token_len_run (c :: s1') Hs1n) as (t & s2 & E1 & Hlen & Ht & Hs2).
  rewrite Hlen, Hget, E1. rewrite E1 in Hdrop, Hs1n.
  assert (Htne : t <> []).
  { intros ->. destruct Hs2 as [->|[s' ->]]; simpl in E1; [done|]. by injection E1 as -> _. }
  assert (Htlen : (0 < length t)%nat) by (destruct t; [done|simpl; lia]).
  destruct Hs2 as [->|[s' ->]].
  - rewrite app_nil_r in *. rewrite as_buf_end. unfold mbind, result_bind. rewrite Z.eqb_refl.
    eexists t, [], _, _, _. split_and!; [by rewrite tokens_last|done|]. by apply token_at_end.
  - rewrite (as_buf_get _ _ bar) by (rewrite lookup_app_r, Nat.sub_diag by lia; done).
    unfold mbind at 1, result_bind at 1. change (bar =? 0) with false. cbv iota.
    destruct (token_at_bar buf save k t s' Hdrop Hs1n Htlen) as [Hstop Hfound].
    rewrite arr_set_ok by lia. rewrite Nat2Z.id. unfold mbind, result_bind.
    eexists t, s', _, _, _. split_and!; [by rewrite tokens_app|done|done].
Qed.

(** The patterns [main] gets: those of the argument, unless there are 1000
    or more. *)
Lemma split_patterns_run arg :
  no_nul arg ->
  if decide (Z.of_nat (length (tokens arg)) < MAX_PATTERNS)
  then exists buf offs, split_patterns arg = Ok (buf, offs) /\
    Forall2 (fun off t => c_str (drop off buf) = Some t) offs (tokens arg)
  else split_patterns arg = Fault AssertFailed.
Proof.
  intros Harg. unfold split_patterns.
  apply (while_rule
    (fun n '(buf, save, offs) => exists s ts, drop save buf = as_buf s /\ no_nul s /\
       tokens arg = ts ++ tokens s /\
       Forall2 (fun off t => c_str (drop off buf) = Some t /\ (s <> [] -> off + length t < save)%nat) offs ts /\
       (length offs < 1000)%nat /\ n = (999 - length offs)%nat)
    (fun r => if decide (Z.of_nat (length (tokens arg)) < MAX_PATTERNS)
       then exists buf offs, r = Ok (buf, offs) /\
         Forall2 (fun off t => c_str (drop off buf) = Some t) offs (tokens arg)
       else r = Fault AssertFailed) _ _ 999%nat).
  - intros n [[buf save] offs] (s & ts & Hbuf & Hs & Htok & Hoffs & Hlt & ->).
    pose proof (Forall2_length _ _ _ Hoffs) as Hlen. unfold token_step, MAX_PATTERNS.
    destruct (strtok_run buf save s Hbuf Hs)
      as [[Hnil ->]|(t & s' & start & save' & buf' & Hcons & -> & Hbuf' & Hs' & Hst & Hc & Hend & Hsave & Hw)].
    + unfold mbind, result_bind. rewrite Htok, Hnil, app_nil_r, decide_True by lia.
      exists buf, offs. split; [done|]. eapply Forall2_impl; [exact Hoffs|]. by intros off t [? _].
    + unfold mbind, result_bind, assert_. rewrite length_app. simpl length.
      rewrite Htok, Hcons, length_app. simpl length.
      destruct (Z.ltb_spec (Z.of_nat (length offs + 1)) 1000) as [Hlt'|Hge].
      * exists (999 - (length offs + 1))%nat. split; [lia|].
        exists s', (ts ++ [t]). split_and!; [done|done|by rewrite <- app_assoc| | |].
        -- apply Forall2_app; [|by constructor].
           eapply Forall2_impl; [exact Hoffs|]. intros off t' [Hct Hpos].
           assert (Hsne : s <> []) by (intros ->; done). specialize (Hpos Hsne).
           split; [|intros; lia].
           destruct Hw as [->|(stop & Hstop & ->)]; [done|].
           rewrite drop_insert_ge by lia. apply c_str_insert; [done|lia].
        -- rewrite length_app. simpl. lia.
        -- rewrite length_app. simpl. lia.
      * rewrite decide_False by lia. done.
  - exists arg, []. split_and!; [done|done|done|constructor|simpl; lia|done].
  - simpl. lia.
Qed.

(** ** Reading the document *)

Definition all_positive (l : list Z) : bool := forallb (fun c => 0 <? c) l.

Lemma ascii_loop_run (bytes : list Z) junk (o : out) n k :
  (k + n = length bytes)%nat ->
  let buf := (Some <$> bytes) ++ [junk] in
  let r := foldM ascii_step (Some buf) (seqZ (Z.of_nat k) (Z.of_nat n)) o in
  if all_positive (drop k bytes) then r = Ok (Some buf, o)
  else r = Ok (None, o) \/ r = Fault Undefined.
Proof.
  revert k; induction n as [|n IH]; intros k Hk buf; cbv zeta.
  { rewrite drop_ge by lia. done. }
  rewrite seqZ_cons by lia. cbn [foldM].
  replace (Z.succ (Z.of_nat k)) with (Z.of_nat (S k)) by lia.
  replace (Z.pred (Z.of_nat (S n))) with (Z.of_nat n) by lia.
  destruct (lookup_lt_is_Some_2 bytes k) as [c Hc]; [lia|].
  rewrite (drop_S bytes c k) by done. cbn [all_positive forallb].
  assert (Hstep : ascii_step (Some buf) (Z.of_nat k) o = Ok (if 0 <? c then Some buf else None, o)).
  { unfold ascii_step, lift. erewrite bind_Ok; [|done].
    rewrite (bind_Ok _ _ _ c o).
    - rewrite Z.leb_antisym. by destruct (0 <? c).
    - unfold cell_get. rewrite (arr_get_ok _ _ (Some c)); [done|lia|].
      unfold buf. rewrite Nat2Z.id, lookup_app_l by (rewrite length_fmap; lia).
      by rewrite list_lookup_fmap, Hc. }
  rewrite (bind_Ok _ _ _ _ _ Hstep). destruct (0 <? c); simpl.
  - apply (IH (S k)). lia.
  - destruct n as [|n]; [by left|]. right. rewrite seqZ_cons by lia. cbn [foldM].
    by rewrite (bind_Fault _ _ _ Undefined).
Qed.

Lemma c_str_junk (bytes : list Z) junk :
  all_positive bytes = true -> junk <> Some 0 -> c_str ((Some <$> bytes) ++ [junk]) = None.
Proof.
  intros Hpos Hj. induction bytes as [|c bytes IH].
  - destruct junk as [c|]; [|done]. simpl. by destruct (Z.eqb_spec c 0) as [->|].
  - cbn [all_positive forallb] in Hpos. apply andb_prop in Hpos as [Hc Hpos].
    apply Z.ltb_lt in Hc. rewrite fmap_cons. cbn [c_str app].
    rewrite (proj2 (Z.eqb_neq _ _)) by lia. by rewrite IH.
Qed.

Lemma all_positive_no_nul l : all_positive l = true -> no_nul l.
Proof.
  intros Hpos. apply Forall_forall. intros c Hc ->.
  pose proof (proj1 (forallb_forall _ _) Hpos 0 (proj1 (list_elem_of_In _ _) Hc)) as H0. done.
Qed.

(** The system can open, stat and load the file. *)
Definition file_opens (f : file) : bool :=
  (0 <=? f_open f) && f_fstat f && f_malloc f.

(** It reads as many bytes as it should, all of them ASCII. *)
Definition file_ascii (f : file) : bool :=
  (s32 (f_read f) =? f_size f) && all_positive (f_bytes f).

Lemma read_ascii_file_run f (o : out) :
  0 <= f_size f -> f_size f = Z.of_nat (length (f_bytes f)) ->
  read_ascii_file f o =
    if negb (file_opens f) then Fault (Exited 1)
    else if file_ascii f then Ok (Some ((Some <$> f_bytes f) ++ [f_junk f]), o)
    else Fault Undefined.
Proof.
  intros Hsz Hlen. unfold read_ascii_file, file_opens, file_ascii. cbv zeta.
  rewrite (Z.leb_antisym (f_open f) 0).
  destruct (f_open f <? 0); [done|]. destruct (f_fstat f); [|done]. destruct (f_malloc f); [|done].
  simpl. destruct (Z.ltb_spec (s32 (f_read f)) 0) as [Hneg|Hnn].
  { rewrite (proj2 (Z.eqb_neq _ _)) by lia. by erewrite bind_Ok; [|reflexivity]. }
  destruct (s32 (f_read f) =? f_size f); simpl; [|by erewrite bind_Ok; [|reflexivity]].
  pose proof (ascii_loop_run (f_bytes f) (f_junk f) o (length (f_bytes f)) 0 eq_refl) as Hrun.
  cbv zeta in Hrun. rewrite <- Hlen, drop_0 in Hrun. change (Z.of_nat 0) with 0 in Hrun.
  destruct (all_positive (f_bytes f)).
  - by erewrite bind_Ok; [|exact Hrun].
  - destruct Hrun as [Hrun|Hrun]; [by erewrite bind_Ok; [|exact Hrun]|].
    by erewrite bind_Fault; [|exact Hrun].
Qed.

(** ** The report of a pattern *)

Definition note (n : Z) (p : list Z) : list Z :=
  chars "--  only 1 out " ++ chars (pretty n) ++ chars " matches for pattern " ++ p ++
  chars " is displayed" ++ [newline].

(** What is printed for a pattern: nothing, or the line of its first match
    and, if there are more, their number. *)
Definition report (d p : list Z) : list Z :=
  match occurrences p d with
  | [] => []
  | [k] => sentence k (length p) d
  | k :: ks => sentence k (length p) d ++ note (Z.of_nat (S (length ks))) p
  end.

(** The first match ends where the document ends. *)
Definition match_at_end (d p : list Z) : bool :=
  match occurrences p d with
  | [] => false
  | k :: _ => (k + length p =? length d)%nat
  end.

Lemma occurrences_fit p d k ks :
  occurrences p d = k :: ks -> p <> [] ->
  take (length p) (drop k d) = p /\ (k + length p <= length d)%nat.
Proof.
  intros Ho Hp.
  assert (Hk : k ∈ occurrences p d) by (rewrite Ho; by left).
  apply list_elem_of_filter in Hk as [Hk _]. apply bool_decide_unpack in Hk.
  split; [done|]. assert (Hl : length (take (length p) (drop k d)) = length p) by (by rewrite Hk).
  rewrite length_take, length_drop in Hl.
  assert (0 < length p)%nat by (destruct p; [done|simpl; lia]). lia.
Qed.

Lemma report_match_run d pb p r (o : out) :
  Z.of_nat (length d) < 2 ^ 31 - 1 -> no_nul d -> c_str pb = Some p -> p <> [] ->
  match_answer p d r ->
  (r ← lift r; report_match (as_buf d) pb r) o =
    if match_at_end d p then Fault Undefined else Ok (tt, o ++ report d p).
Proof.
  intros Hlen Hnul Hp Hne (i & -> & Hi). unfold match_at_end, report, report_match.
  unfold lift. erewrite bind_Ok; [|done]. cbv beta iota. rewrite (bind_Ok _ _ _ i o) by done.
  destruct (occurrences p d) as [|k ks] eqn:Ho.
  { rewrite (bind_Ok _ _ _ tt o).
    - by rewrite app_nil_r.
    - unfold print_matched_sentence. by rewrite (proj2 (Z.ltb_lt _ _)). }
  subst i. destruct (occurrences_fit p d k ks Ho Hne) as [Hocc Hfit].
  pose proof (print_matched_run d Hlen k pb p o Hp Hocc Hfit Hnul) as Hprint.
  destruct (Nat.eqb_spec (k + length p) (length d)) as [Hend|Hmid].
  { rewrite decide_False in Hprint by lia. by rewrite (bind_Fault _ _ _ Undefined). }
  rewrite decide_True in Hprint by lia. rewrite (bind_Ok _ _ _ _ _ Hprint).
  destruct ks as [|k' ks]; [done|].
  rewrite Z.gtb_ltb, (proj2 (Z.ltb_lt _ _)) by (simpl; lia).
  rewrite (bind_Ok _ _ _ p (o ++ sentence k (length p) d)) by (by rewrite Hp).
  unfold print, modify, note. simpl length. by rewrite <- !app_assoc.
Qed.

Lemma search_all_run `{Matcher} d buf offs ts matchf (o : out) :
  Z.of_nat (length d) < 2 ^ 31 - 1 -> no_nul d ->
  Forall2 (fun off t => c_str (drop off buf) = Some t) offs ts -> Forall (fun t => t <> []) ts ->
  (forall off t, t ∈ ts -> c_str (drop off buf) = Some t -> t <> [] ->
     match_answer t d (matchf (drop off buf) (as_buf d))) ->
  search_all (as_buf d) buf offs matchf o =
    if existsb (match_at_end d) ts then Fault Undefined
    else Ok (tt, o ++ concat (report d <$> ts)).
Proof.
  intros Hlen Hnul Hoffs Hne Hm. unfold search_all. revert o.
  induction Hoffs as [|off t offs ts Hoff Hoffs IH]; intros o.
  { simpl. by rewrite app_nil_r. }
  apply Forall_cons in Hne as [Ht Hne]. cbn [foldM existsb].
  pose proof (report_match_run d (drop off buf) t (matchf (drop off buf) (as_buf d)) o
    Hlen Hnul Hoff Ht (Hm off t ltac:(by left) Hoff Ht)) as Hrun.
  destruct (match_at_end d t); simpl.
  { by rewrite (bind_Fault _ _ _ Undefined). }
  rewrite (bind_Ok _ _ _ _ _ Hrun). rewrite IH.
  - destruct (existsb _ ts); [done|]. by rewrite <- app_assoc.
  - done.
  - intros off' t' Ht'. apply Hm. by right.
Qed.

Lemma tokens_ne s : Forall (fun t => t <> []) (tokens s).
Proof. apply Forall_forall. intros t Ht. by apply list_elem_of_filter in Ht as [? _]. Qed.

(** ** The options *)

Definition algorithm_names : list (list Z) := [chars "naive"; chars "rk"; chars "rkbloom"].

Definition named_algorithm (name : list Z) : algo_type :=
  if bool_decide (name = chars "naive") then Naive
  else if bool_decide (name = chars "rk") then RK else RKBloom.

(** The algorithm the last option names. *)
Definition chosen (opts : list (Z * list Z)) : algo_type :=
  foldl (fun _ o => named_algorithm o.2) RK opts.

Lemma options_run opts (o : out) a :
  Forall (fun opt => opt.1 = 97 /\ opt.2 ∈ algorithm_names) opts ->
  foldM option_step a opts o = Ok (foldl (fun _ o => named_algorithm o.2) a opts, o).
Proof.
  intros Ho. revert a. induction Ho as [|[c name] opts [Hc Hn] Ho IH]; intros a; [done|].
  cbn [foldM foldl]. simpl in Hc, Hn. subst c. rewrite (bind_Ok _ _ _ (named_algorithm name) o).
  - apply IH.
  - unfold option_step, named_algorithm. change (97 =? 97) with true. cbv iota.
    unfold algorithm_names in Hn. rewrite !elem_of_cons, elem_of_nil in Hn.
    destruct Hn as [->|[->|[->|[]]]]; reflexivity.
Qed.

Lemma chosen_cases opts : chosen opts = Naive \/ chosen opts = RK \/ chosen opts = RKBloom.
Proof.
  unfold chosen. destruct opts as [|o opts] using rev_ind; [by right; left|].
  rewrite foldl_app. simpl. unfold named_algorithm.
  destruct (bool_decide _); [by left|]. destruct (bool_decide _); tauto.
Qed.

Lemma lengths_equal_run buf offs ts (m : Z) (o : out) :
  Forall2 (fun off t => c_str (drop off buf) = Some t) offs ts ->
  Forall (fun t => Z.of_nat (length t) = m) ts ->
  foldM (fun _ off => k ← lift (strlen (drop off buf)); lift (assert_ (m =? k))) tt offs o
    = Ok (tt, o).
Proof.
  intros Hoffs Hlens. induction Hoffs as [|off t offs ts Hoff Hoffs IH]; [done|].
  apply Forall_cons in Hlens as [Ht Hlens]. cbn [foldM].
  rewrite (bind_Ok _ _ _ tt o); [by apply IH|].
  rewrite (bind_Ok _ _ _ m o); [by rewrite Z.eqb_refl|].
  unfold lift, strlen. rewrite Hoff. simpl. by rewrite Ht.
Qed.

(** ** Matching routines by definition

    An instance of the contract, to run the program with. *)

Definition match_by_definition (pb db : list (option Z)) : result (Z * option Z) :=
  p ← need (c_str pb);
  d ← need (c_str db);
  let l := occurrences p d in
  Ok (Z.of_nat (length l), Some (match l with [] => -1 | k :: _ => Z.of_nat k end)).

Definition definition_matcher : Matcher := {|
  naive_substring_match := match_by_definition;
  rk_substring_match := match_by_definition;
  rk_create_doc_bloom _ _ bsz := Ok (Some {| bf_buf := []; bf_bsz := bsz |});
  rk_substring_match_using_bloom pb db _ := match_by_definition pb db;
|}.

Lemma match_by_definition_spec pb db p d :
  c_str pb = Some p -> c_str db = Some d -> match_answer p d (match_by_definition pb db).
Proof.
  intros Hp Hd. unfold match_by_definition. rewrite Hp, Hd. simpl. eexists. split; [done|].
  by destruct (occurrences p d).
Qed.

Definition definition_matcher_spec : @MatcherSpec definition_matcher.
Proof.
  refine (@Build_MatcherSpec definition_matcher _ _ (fun _ _ _ => True) _ _).
  - intros pb db p d Hp Hd _. by apply match_by_definition_spec.
  - intros pb db p d Hp Hd _. by apply match_by_definition_spec.
  - intros m db d bsz _ _ _ _. eexists. by split.
  - intros pb db p d bf Hp Hd _ _. by apply match_by_definition_spec.
Defined.

(** ** Properties *)

(** For a match that does not end the document,
    [print_matched_sentence] prints exactly the line the match starts in,
    with the pattern between the codes for red and for the normal colour,
    and ends; a negative position prints nothing.  For a match at the very end of
    the document the loop that compares pattern and document goes on past
    both terminating NULs, which is undefined. *)
Theorem print_matched_sentence_correct (d : list Z) (pb : list (option Z)) (p : list Z)
    (pos : nat) (o : out) :
  Z.of_nat (length d) < 2 ^ 31 - 1 -> no_nul d -> c_str pb = Some p ->
  take (length p) (drop pos d) = p -> (pos + length p <= length d)%nat ->
  print_matched_sentence (Z.of_nat pos) pb (as_buf d) o =
    (if decide (pos + length p < length d)%nat then Ok (tt, o ++ sentence pos (length p) d)
     else Fault Undefined) /\
  (forall z, z < 0 -> print_matched_sentence z pb (as_buf d) o = Ok (tt, o)).
Proof.
  intros Hlen Hnul Hp Hocc Hfit. split; [by apply print_matched_run|].
  intros z Hz. unfold print_matched_sentence. by rewrite (proj2 (Z.ltb_lt _ _)).
Qed.

(** "one", "two three", "four" on three lines. *)
Definition example_doc : list Z :=
  chars "one" ++ [newline] ++ chars "two three" ++ [newline] ++ chars "four" ++ [newline].

Lemma print_matched_sentence_correct_witness :
  print_matched_sentence 8 (as_buf (chars "three")) (as_buf example_doc) [] =
    Ok (tt, chars "two " ++ REDCOLOR ++ chars "three" ++ NORMALCOLOR ++ [newline]).
Proof.
  destruct (print_matched_sentence_correct example_doc (as_buf (chars "three")) (chars "three") 8 [])
    as [H _].
  - vm_compute. reflexivity.
  - by apply all_positive_no_nul.
  - reflexivity.
  - reflexivity.
  - vm_compute. lia.
  - exact H.
Defined.

(** C34: [read_ascii_file] never returns NULL.  It exits with 1 when the file
    cannot be opened, inspected or held in memory; a short or failed read or
    a character outside ASCII ends in a write through NULL, because the
    test before the final assignment is the wrong way round.  When all is well
    that assignment is skipped: the buffer has the bytes of the file and no
    terminating NUL, unless the byte after them happens to be one. *)
Theorem read_ascii_file_correct (f : file) (o : out) :
  0 <= f_size f -> f_size f = Z.of_nat (length (f_bytes f)) ->
  match read_ascii_file f o with
  | Ok (Some buf, o') => file_opens f = true /\ file_ascii f = true /\ o' = o /\
      buf = (Some <$> f_bytes f) ++ [f_junk f] /\
      strlen buf = if decide (f_junk f = Some 0) then Ok (f_size f) else Fault Undefined
  | Ok (None, _) => False
  | Fault (Exited c) => c = 1 /\ file_opens f = false
  | Fault Undefined => file_opens f = true /\ file_ascii f = false
  | Fault _ => False
  end.
Proof.
  intros Hsz Hlen. rewrite read_ascii_file_run by done.
  destruct (file_opens f); simpl; [|done].
  destruct (file_ascii f) eqn:Ha; [|done]. split_and!; [done|done|done|done|].
  apply andb_prop in Ha as [_ Hpos]. unfold strlen.
  destruct (decide (f_junk f = Some 0)) as [E|Hne].
  - rewrite E. pose proof (c_str_as_buf (f_bytes f) [] (all_positive_no_nul _ Hpos)) as Hc.
    rewrite app_nil_r in Hc. unfold as_buf in Hc. rewrite Hc. simpl. by rewrite Hlen.
  - by rewrite (c_str_junk _ _ Hpos Hne).
Qed.

Definition example_file (junk : option Z) : file := {|
  f_open := 3; f_fstat := true; f_size := Z.of_nat (length example_doc); f_malloc := true;
  f_read := Z.of_nat (length example_doc); f_bytes := example_doc; f_junk := junk;
|}.

Lemma read_ascii_file_correct_witness :
  exists buf, read_ascii_file (example_file (Some 77)) [] = Ok (Some buf, []) /\
    strlen buf = Fault Undefined.
Proof.
  pose proof (read_ascii_file_correct (example_file (Some 77)) []
    ltac:(vm_compute; congruence) eq_refl) as H.
  assert (Hrun : exists buf, read_ascii_file (example_file (Some 77)) [] = Ok (Some buf, [])).
  { vm_compute. by eexists. }
  destruct Hrun as [buf Hrun]. rewrite Hrun in H. exists buf. split; [done|].
  destruct H as (_ & _ & _ & _ & H). exact H.
Defined.

(** The reports of all patterns, or the failure of one. *)
Definition reported (d : list Z) (ts : list (list Z)) (o : out) : result (Z * out) :=
  if existsb (match_at_end d) ts then Fault Undefined
  else Ok (0, o ++ concat (report d <$> ts)).

Lemma search_outcome `{Matcher} d buf offs ts matchf (o : out) :
  Z.of_nat (length d) < 2 ^ 31 - 1 -> no_nul d ->
  Forall2 (fun off t => c_str (drop off buf) = Some t) offs ts -> Forall (fun t => t <> []) ts ->
  (forall off t, t ∈ ts -> c_str (drop off buf) = Some t -> t <> [] ->
     match_answer t d (matchf (drop off buf) (as_buf d))) ->
  (search_all (as_buf d) buf offs matchf;; mret 0) o = reported d ts o.
Proof.
  intros Hlen Hnul Hoffs Hne Hm. unfold reported.
  pose proof (search_all_run d buf offs ts matchf o Hlen Hnul Hoffs Hne Hm) as Hs.
  destruct (existsb _ _); [by rewrite (bind_Fault _ _ _ Undefined)|].
  by rewrite (bind_Ok _ _ _ _ _ Hs).
Qed.

(** The branch of [main] that builds a bloom filter first. *)
Lemma bloom_outcome `{MatcherSpec} d buf p0 offs t0 ts m (o : out) :
  (0 < length d)%nat -> Z.of_nat (length d) < 2 ^ 27 -> no_nul d -> c_str (as_buf d) = Some d ->
  Forall2 (fun off t => c_str (drop off buf) = Some t) (p0 :: offs) (t0 :: ts) ->
  Forall (fun t => t <> []) (t0 :: ts) -> Forall (fun t => length t = m) (t0 :: ts) ->
  ((m ← lift (strlen (drop p0 buf));
    foldM (fun _ off =>
      k ← lift (strlen (drop off buf)); lift (assert_ (m =? k))) tt offs;;
    n ← lift (strlen (as_buf d));
    bf ← lift (rk_create_doc_bloom m (as_buf d) (s32 (u64 (n * 8))));
    search_all (as_buf d) buf (p0 :: offs)
      (fun p d => rk_substring_match_using_bloom p d bf));; mret 0) o = reported d (t0 :: ts) o.
Proof.
  intros Hd0 Hlen Hnul Hdb Hoffs Hne Hm. pose proof Hoffs as Hoffs'. pose proof Hm as Hm'.
  apply Forall2_cons in Hoffs' as [Hp0 Hoffs']. apply Forall_cons in Hm' as [Ht0 Hts].
  assert (Hm0 : 0 < Z.of_nat m).
  { apply Forall_cons in Hne as [Hn0 _]. destruct t0; [done|]. simpl in Ht0. lia. }
  destruct (create_bloom_spec (Z.of_nat m) (as_buf d) d (Z.of_nat (length d) * 8) Hdb)
    as (bf & Hbf & Hof).
  { done. } { by rewrite Z.rem_mul. } { lia. }
  rewrite <- (search_outcome d buf (p0 :: offs) (t0 :: ts)
    (fun p d => rk_substring_match_using_bloom p d bf) o ltac:(lia) Hnul Hoffs Hne).
  2: { intros off t Ht Hct Htne. rewrite Forall_forall in Hm.
       apply (bloom_match_spec _ _ _ _ _ Hct Hdb Htne). by rewrite (Hm t). }
  apply bind_cong. unfold strlen.
  rewrite (bind_Ok _ _ _ (Z.of_nat m) o) by (unfold lift; rewrite Hp0; simpl; by rewrite Ht0).
  erewrite bind_Ok; [|apply (lengths_equal_run buf offs ts); [done|]].
  2: { eapply Forall_impl; [exact Hts|]. by intros t ->. }
  rewrite (bind_Ok _ _ _ (Z.of_nat (length d)) o) by (unfold lift; by rewrite Hdb).
  rewrite u64_id, s32_id by lia.
  by rewrite (bind_Ok _ _ _ bf o) by (unfold lift; by rewrite Hbf).
Qed.


