(* ===== verification/Clock.v ===== *)
(** * Cycle counters (malloclab/clock.c)

    The counters of clock.c on the platforms it distinguishes, over a machine
    that supplies the hardware counter, the process times and the clock. *)

From S2P Require Import Prelude Doubles.

Inductive platform := I386 | Alpha | Other.

(** What the timing code asks of the machine: the cycle counter, the user
    time of the process, the wall clock in seconds and microseconds, sleeping,
    and a buffer of [int]s from [malloc] with whatever it contains. *)
Class Machine (W : Type) := {
  built_for : platform;
  cycles : W -> Z * W;
  tms_utime : W -> Z * W;
  gettimeofday : W -> Z * Z * W;
  sleep : Z -> W -> W;
  malloc_ints : Z -> W -> option (list Z) * W;
}.

(** The static variables of clock.c and fcyc.c that a measurement uses. *)
Record clock (W : Type) := {
  cyc_hi : Z;
  cyc_lo : Z;
  cyc_per_tick : double;
  start_tick : Z;
  cache_buf : option (list Z);
  sink : Z;
  hw : W;
}.
Arguments cyc_hi {W}.
Arguments cyc_lo {W}.
Arguments cyc_per_tick {W}.
Arguments start_tick {W}.
Arguments cache_buf {W}.
Arguments sink {W}.
Arguments hw {W}.

Section clock.
Context {W : Type} `{Machine W}.
Implicit Types (c : clock W).

Definition set_hw (w : W) c : clock W :=
  {| cyc_hi := cyc_hi c; cyc_lo := cyc_lo c; cyc_per_tick := cyc_per_tick c;
     start_tick := start_tick c; cache_buf := cache_buf c; sink := sink c; hw := w |}.
Definition set_cyc (hi lo : Z) c : clock W :=
  {| cyc_hi := hi; cyc_lo := lo; cyc_per_tick := cyc_per_tick c;
     start_tick := start_tick c; cache_buf := cache_buf c; sink := sink c; hw := hw c |}.
Definition set_cyc_per_tick (d : double) c : clock W :=
  {| cyc_hi := cyc_hi c; cyc_lo := cyc_lo c; cyc_per_tick := d;
     start_tick := start_tick c; cache_buf := cache_buf c; sink := sink c; hw := hw c |}.
Definition set_start_tick (t : Z) c : clock W :=
  {| cyc_hi := cyc_hi c; cyc_lo := cyc_lo c; cyc_per_tick := cyc_per_tick c;
     start_tick := t; cache_buf := cache_buf c; sink := sink c; hw := hw c |}.
Definition set_cache (b : option (list Z)) (s : Z) c : clock W :=
  {| cyc_hi := cyc_hi c; cyc_lo := cyc_lo c; cyc_per_tick := cyc_per_tick c;
     start_tick := start_tick c; cache_buf := b; sink := s; hw := hw c |}.

(** Runs a request to the machine. *)
Definition ask {A} (f : W -> A * W) : ST (clock W) A := fun c =>
  let '(a, w) := f (hw c) in Ok (a, set_hw w c).

(** The two halves of the 64-bit counter. *)
Definition access_counter : ST (clock W) (Z * Z) :=
  t ← ask cycles; mret (u32 (Z.shiftr t 32), u32 t).

(** The Alpha routine returns the low half. *)
Definition counter : ST (clock W) Z := t ← ask cycles; mret (u32 t).

Definition i386_start_counter : ST (clock W) unit :=
  hl ← access_counter; modify (set_cyc hl.1 hl.2).

Definition alpha_start_counter : ST (clock W) unit :=
  lo ← counter; modify (set_cyc 0 lo).

(** The other platforms print an error and exit. *)
Definition other_start_counter : ST (clock W) unit := lift (Fault (Exited 1)).

Definition start_counter : ST (clock W) unit :=
  match built_for with
  | I386 => i386_start_counter
  | Alpha => alpha_start_counter
  | Other => other_start_counter
  end.

(** [lo = ncyc_lo - cyc_lo; borrow = lo > ncyc_lo; hi = ncyc_hi - cyc_hi - borrow] *)
Definition counter_difference (c_hi c_lo n_hi n_lo : Z) : Z * Z :=
  let lo := u32 (n_lo - c_lo) in
  let borrow := if lo >? n_lo then 1 else 0 in
  let hi := u32 (u32 (n_hi - c_hi) - borrow) in
  (hi, lo).

(** [(double) hi * (1 << 30) * 4 + lo] *)
Definition double_of_halves (hi lo : Z) : double :=
  dadd (dmul (dmul (d_of_Z hi) (d_of_Z (2 ^ 30))) (d_of_Z 4)) (d_of_Z lo).

Definition i386_get_counter : ST (clock W) double :=
  n ← access_counter;
  c ← get;
  let '(hi, lo) := counter_difference (cyc_hi c) (cyc_lo c) n.1 n.2 in
  mret (double_of_halves hi lo).

Definition alpha_get_counter : ST (clock W) double :=
  n_lo ← counter;
  c ← get;
  let '(hi, lo) := counter_difference (cyc_hi c) (cyc_lo c) 0 n_lo in
  mret (double_of_halves hi lo).

Definition other_get_counter : ST (clock W) double := lift (Fault (Exited 1)).

Definition get_counter : ST (clock W) double :=
  match built_for with
  | I386 => i386_get_counter
  | Alpha => alpha_get_counter
  | Other => other_get_counter
  end.

(** ** Machine-independent functions *)

Definition ovhd : ST (clock W) double :=
  foldM (fun _ _ => start_counter;; get_counter) dzero [0; 1].

Definition mhz_full (verbose sleeptime : Z) : ST (clock W) double :=
  start_counter;;
  ask (fun w => (tt, sleep sleeptime w));;
  d ← get_counter;
  mret (ddiv d (dmul (d_of_Z 1000000) (d_of_Z sleeptime))).

Definition mhz (verbose : Z) : ST (clock W) double := mhz_full verbose 2.

Definition NEVENT : Z := 100.
Definition THRESHOLD : Z := 1000.
Definition RECORDTHRESH : Z := 3000.

(** One turn of the loop of [callibrate], on [e], [oldc] and [oldt].  How many
    turns it takes is up to the machine. *)
Definition callibrate_step (st : Z * Z * double) : ST (clock W) (Z * Z * double + unit) :=
  let '(e, oldc, oldt) := st in
  if e <? NEVENT then
    newt ← get_counter;
    if dle (d_of_Z THRESHOLD) (dsub newt oldt) then
      newc ← ask tms_utime;
      if newc >? oldc then
        ticks ← lift (ll_ (newc - oldc));
        let cpt := ddiv (dsub newt oldt) (d_of_Z ticks) in
        c ← get;
        (if (deq (cyc_per_tick c) dzero || dlt cpt (cyc_per_tick c)) &&
            dlt (d_of_Z RECORDTHRESH) cpt
         then modify (set_cyc_per_tick cpt) else mret tt);;
        mret (inl (e + 1, newc, newt))
      else mret (inl (e, oldc, newt))
    else mret (inl (e, oldc, oldt))
  else mret (inr tt).

Definition callibrate (fuel : positive) (verbose : Z) : ST (clock W) unit :=
  oldc ← ask tms_utime;
  start_counter;;
  oldt ← get_counter;
  while_st fuel callibrate_step (0, oldc, oldt).

Definition start_comp_counter (fuel : positive) : ST (clock W) unit :=
  c ← get;
  (if deq (cyc_per_tick c) dzero then callibrate fuel 0 else mret tt);;
  t ← ask tms_utime;
  modify (set_start_tick t);;
  start_counter.

Definition get_comp_counter : ST (clock W) double :=
  time ← get_counter;
  t ← ask tms_utime;
  c ← get;
  ticks ← lift (ll_ (t - start_tick c));
  mret (dsub time (dmul (d_of_Z ticks) (cyc_per_tick c))).
End clock.

(** ** The difference of two readings *)

Lemma counter_difference_borrow t0 t1 :
  0 <= t0 < 2 ^ 64 -> 0 <= t1 < 2 ^ 64 ->
  let '(hi, lo) := counter_difference (t0 / 2 ^ 32) (t0 mod 2 ^ 32) (t1 / 2 ^ 32) (t1 mod 2 ^ 32) in
  0 <= hi < 2 ^ 32 /\ 0 <= lo < 2 ^ 32 /\ hi * 2 ^ 32 + lo = (t1 - t0) mod 2 ^ 64.
Proof.
  intros H0 H1. unfold counter_difference, u32, wrap_u.
  rewrite Z.gtb_ltb. destruct (Z.ltb_spec (t1 mod 2 ^ 32) ((t1 mod 2 ^ 32 - t0 mod 2 ^ 32) mod 2 ^ 32)).
  - dlia.
  - dlia.
Qed.

Lemma counter_difference_alpha t0 t1 :
  0 <= t0 < 2 ^ 32 -> 0 <= t1 < 2 ^ 32 ->
  counter_difference 0 t0 0 t1 =
    if t0 <=? t1 then (0, t1 - t0) else (2 ^ 32 - 1, t1 - t0 + 2 ^ 32).
Proof.
  intros H0 H1. unfold counter_difference, u32, wrap_u. rewrite Z.gtb_ltb.
  destruct (Z.leb_spec t0 t1).
  - rewrite (Z.mod_small (t1 - t0)) by lia. rewrite (proj2 (Z.ltb_ge _ _)) by lia. done.
  - assert (E : (t1 - t0) mod 2 ^ 32 = t1 - t0 + 2 ^ 32) by dlia. rewrite E.
    rewrite (proj2 (Z.ltb_lt _ _)) by lia. done.
Qed.

(** ** Properties *)

Section readings.
Context {W : Type} `{Machine W}.

(** On i386 [get_counter] borrows correctly: after [start_counter] read
    the 64-bit cycle counter at [t0] it returns, as high and low halves turned
    into a double, the exact difference to the present reading [t1] modulo
    [2^64].  On other platforms both functions exit. *)
Theorem get_counter_difference (c : clock W) (t0 t1 : Z) (w1 w2 : W) :
  cycles (hw c) = (t0, w1) -> cycles w1 = (t1, w2) ->
  0 <= t0 < 2 ^ 64 -> 0 <= t1 < 2 ^ 64 ->
  match built_for with
  | I386 => exists hi lo c',
      (start_counter;; get_counter) c = Ok (double_of_halves hi lo, c') /\
      0 <= hi < 2 ^ 32 /\ 0 <= lo < 2 ^ 32 /\ hi * 2 ^ 32 + lo = (t1 - t0) mod 2 ^ 64
  | Alpha => True
  | Other => (start_counter;; get_counter) c = Fault (Exited 1)
  end.
Proof.
  intros E0 E1 H0 H1. unfold start_counter, get_counter.
  destruct built_for; [|done|done].
  unfold i386_start_counter, i386_get_counter, access_counter, ask. st_unfold. rewrite E0. simpl. rewrite E1. simpl.
  pose proof (counter_difference_borrow t0 t1 H0 H1) as Hd.
  assert (Hhi : forall t, 0 <= t < 2 ^ 64 -> u32 (Z.shiftr t 32) = t / 2 ^ 32).
  { intros t Ht. rewrite Z.shiftr_div_pow2 by lia. apply u32_id. dlia. }
  rewrite !Hhi by done. change (u32 t0) with (t0 mod 2 ^ 32). change (u32 t1) with (t1 mod 2 ^ 32).
  do 3 eexists. split; [reflexivity|exact Hd].
Qed.
End readings.

(** A machine that follows a script of counter readings. *)
Definition scripted (p : platform) : Machine (list Z) := {|
  built_for := p;
  cycles w := match w with t :: w => (t, w) | [] => (0, []) end;
  tms_utime w := (0, w);
  gettimeofday w := (0, 0, w);
  sleep _ w := w;
  malloc_ints n w := (Some (replicate (Z.to_nat (n / 4)) 0), w);
|}.

Definition clock_at (script : list Z) : clock (list Z) := {|
  cyc_hi := 0; cyc_lo := 0; cyc_per_tick := dzero; start_tick := 0;
  cache_buf := None; sink := 0; hw := script;
|}.

(** From [2^32 - 1] to [2^32 + 4]: 5 cycles across a carry. *)
Lemma get_counter_difference_witness :
  exists hi lo c', (@start_counter _ (scripted I386);; @get_counter _ (scripted I386))
      (clock_at [4294967295; 4294967300]) = Ok (double_of_halves hi lo, c') /\ hi = 0 /\ lo = 5.
Proof.
  destruct (@get_counter_difference _ (scripted I386) (clock_at [4294967295; 4294967300])
    4294967295 4294967300 [4294967300] []) as (hi & lo & c' & Hrun & Hhi & Hlo & Hd);
    [reflexivity|reflexivity|lia|lia|].
  exists hi, lo, c'. split; [exact Hrun|].
  change ((4294967300 - 4294967295) mod 2 ^ 64) with 5 in Hd. lia.
Defined.

(** On Alpha, where only the low half is read, the difference is right as
    long as the counter does not wrap around between the two readings; when it
    does, the borrow goes into a high half that should stay zero and the
    result is too large by almost [2^64] cycles. *)
Theorem alpha_counter_wraps {W} `{Machine W} (c : clock W) (t0 t1 : Z) (w1 w2 : W) :
  cycles (hw c) = (t0, w1) -> cycles w1 = (t1, w2) ->
  exists hi lo c', (alpha_start_counter;; alpha_get_counter) c = Ok (double_of_halves hi lo, c') /\
    if u32 t0 <=? u32 t1 then hi = 0 /\ lo = u32 t1 - u32 t0
    else hi = 2 ^ 32 - 1 /\ lo = u32 t1 - u32 t0 + 2 ^ 32.
Proof.
  intros E0 E1. unfold alpha_start_counter, alpha_get_counter, counter, ask. st_unfold.
  rewrite E0. simpl hw. rewrite E1. cbn [cyc_hi cyc_lo set_hw set_cyc].
  assert (Hr : forall x, 0 <= u32 x < 2 ^ 32) by (intros x; by apply (wrap_u_range 32)).
  rewrite counter_difference_alpha by apply Hr.
  destruct (u32 t0 <=? u32 t1); by do 3 eexists.
Qed.

Lemma alpha_counter_wraps_witness :
  exists hi lo c', (@alpha_start_counter _ (scripted Alpha);; @alpha_get_counter _ (scripted Alpha))
    (clock_at [4294967290; 4]) = Ok (double_of_halves hi lo, c') /\ hi = 2 ^ 32 - 1 /\ lo = 10.
Proof.
  apply (@alpha_counter_wraps _ (scripted Alpha) (clock_at [4294967290; 4]) 4294967290 4 [4] []);
    reflexivity.
Defined.
