(* ===== verification/Fcyc.v ===== *)
(** * K-best timing (malloclab/fcyc.c, ftimer.c, fsecs.c)

    The sampler that keeps the least measurements of a function and the
    timers built on it, over the machine of {!Clock}. *)

From stdpp Require Import sorting.
From S2P Require Import Prelude Doubles Clock.

(** ** The parameters *)

(** The static parameters of fcyc.c, which its [set_fcyc_] functions set. *)
Record params := {
  kbest : Z;
  maxsamples : Z;
  epsilon : double;
  compensate : Z;
  clear_cache : Z;
  cache_bytes : Z;
  cache_block : Z;
}.

Definition default_params : params := {|
  kbest := 3; maxsamples := 20; epsilon := d_lit 1 100; compensate := 0;
  clear_cache := 0; cache_bytes := 2 ^ 19; cache_block := 32;
|}.

Definition set_fcyc_clear_cache (clear : Z) (p : params) : params :=
  {| kbest := kbest p; maxsamples := maxsamples p; epsilon := epsilon p;
     compensate := compensate p; clear_cache := clear; cache_bytes := cache_bytes p;
     cache_block := cache_block p |}.
Definition set_fcyc_cache_block (bytes : Z) (p : params) : params :=
  {| kbest := kbest p; maxsamples := maxsamples p; epsilon := epsilon p;
     compensate := compensate p; clear_cache := clear_cache p; cache_bytes := cache_bytes p;
     cache_block := bytes |}.
Definition set_fcyc_compensate (compensate_arg : Z) (p : params) : params :=
  {| kbest := kbest p; maxsamples := maxsamples p; epsilon := epsilon p;
     compensate := compensate_arg; clear_cache := clear_cache p; cache_bytes := cache_bytes p;
     cache_block := cache_block p |}.
Definition set_fcyc_k (k : Z) (p : params) : params :=
  {| kbest := k; maxsamples := maxsamples p; epsilon := epsilon p;
     compensate := compensate p; clear_cache := clear_cache p; cache_bytes := cache_bytes p;
     cache_block := cache_block p |}.
Definition set_fcyc_maxsamples (maxsamples_arg : Z) (p : params) : params :=
  {| kbest := kbest p; maxsamples := maxsamples_arg; epsilon := epsilon p;
     compensate := compensate p; clear_cache := clear_cache p; cache_bytes := cache_bytes p;
     cache_block := cache_block p |}.
Definition set_fcyc_epsilon (epsilon_arg : double) (p : params) : params :=
  {| kbest := kbest p; maxsamples := maxsamples p; epsilon := epsilon_arg;
     compensate := compensate p; clear_cache := clear_cache p; cache_bytes := cache_bytes p;
     cache_block := cache_block p |}.

(** This one also drops the buffer of the old size. *)
Definition set_fcyc_cache_size {W} (bytes : Z) (st : params * clock W) : params * clock W :=
  let '(p, c) := st in
  if bytes =? cache_bytes p then (p, c)
  else
    ({| kbest := kbest p; maxsamples := maxsamples p; epsilon := epsilon p;
        compensate := compensate p; clear_cache := clear_cache p; cache_bytes := bytes;
        cache_block := cache_block p |}, set_cache None (sink c) c).

(** ** The sampler *)

(** [values] and [samplecount]; [None] is the null pointer. *)
Record sampler := {
  values : option (list double);
  samplecount : Z;
}.

(** [calloc_ok] tells whether [calloc] finds memory. *)
Definition init_sampler (p : params) (calloc_ok : bool) : sampler := {|
  values := if calloc_ok then Some (replicate (Z.to_nat (kbest p)) dzero) else None;
  samplecount := 0;
|}.

(** One turn of the insertion sort, on [values] and [pos]. *)
Definition sort_step (st : list double * Z) : result (list double * Z + list double) :=
  let '(l, pos) := st in
  if 0 <? pos then
    a ← arr_get l (pos - 1);
    b ← arr_get l pos;
    if dlt b a then
      l ← arr_set l (pos - 1) b;
      l ← arr_set l pos a;
      Ok (inl (l, pos - 1))
    else Ok (inr l)
  else Ok (inr l).

Definition add_sample (p : params) (val : double) (s : sampler) : result sampler :=
  l ← need (values s);
  t ← (if samplecount s <? kbest p then
         l ← arr_set l (samplecount s) val; Ok (l, samplecount s)
       else
         last ← arr_get l (kbest p - 1);
         if dlt val last then l ← arr_set l (kbest p - 1) val; Ok (l, kbest p - 1)
         else Ok (l, 0));
  n ← int_ (samplecount s + 1);
  l ← while (2 ^ 31) sort_step t;
  Ok {| values := Some l; samplecount := n |}.

Definition has_converged (p : params) (s : sampler) : result bool :=
  if samplecount s >=? kbest p then
    l ← need (values s);
    v0 ← arr_get l 0;
    vk ← arr_get l (kbest p - 1);
    Ok (dle vk (dmul (dadd (d_of_Z 1) (epsilon p)) v0))
  else Ok false.

Section fcyc.
Context {W : Type} `{Machine W}.

(** One turn of the loop of [clear], on [x] and the index of [cptr]. *)
Definition clear_step (buf : list Z) (cend incr : Z) (st : Z * Z) : result (Z * Z + Z) :=
  let '(x, cptr) := st in
  if cptr <? cend then
    v ← arr_get buf cptr;
    x ← int_ (x + v);
    Ok (inl (x, cptr + incr))
  else Ok (inr x).

(** Every turn advances by [incr], so [2^31] turns cover any buffer of [int]s
    whose size is an [int], unless [incr] is zero and the loop does not end. *)
Definition clear (p : params) : ST (clock W) unit :=
  c ← get;
  let incr := s32 (u64 (cache_block p) / 4) in
  buf ← match cache_buf c with
        | Some buf => mret buf
        | None =>
            o ← ask (malloc_ints (cache_bytes p));
            match o with Some buf => mret buf | None => lift (Fault (Exited 1)) end
        end;
  x ← lift (while (2 ^ 31) (clear_step buf (u64 (cache_bytes p) / 4) incr) (sink c, 0));
  modify (set_cache (Some buf) x).

(** One measurement of [f]; [fuel] bounds the turns of the calibration loop. *)
Definition measure (p : params) (fuel : positive) (f : W -> result W) : ST (clock W) double :=
  (if negb (clear_cache p =? 0) then clear p else mret tt);;
  (if negb (compensate p =? 0) then start_comp_counter fuel else start_counter);;
  c ← get;
  w ← lift (f (hw c));
  modify (set_hw w);;
  if negb (compensate p =? 0) then get_comp_counter else get_counter.

(** One turn of the do-while loop. *)
Definition fcyc_step (p : params) (m : ST (clock W) double) (_ : unit)
    : ST (clock W * sampler) (unit + unit) := fun '(c, s) =>
  match m c with
  | Fault e => Fault e
  | Ok (cyc, c) =>
      s ← add_sample p cyc s;
      b ← has_converged p s;
      Ok (if negb b && (samplecount s <? maxsamples p) then inl tt else inr tt, (c, s))
  end.

(** Each turn adds a sample, so [maxsamples] turns, or one, are enough. *)
Definition fcyc_with (p : params) (calloc_ok : bool) (m : ST (clock W) double)
    : ST (clock W) double := fun c =>
  match while_st (Z.to_pos (maxsamples p)) (fcyc_step p m) tt (c, init_sampler p calloc_ok) with
  | Fault e => Fault e
  | Ok (_, (c, s)) =>
      l ← need (values s);
      r ← arr_get l 0;
      Ok (r, c)
  end.

Definition fcyc (p : params) (calloc_ok : bool) (fuel : positive) (f : W -> result W)
    : ST (clock W) double :=
  fcyc_with p calloc_ok (measure p fuel f).

(** ** ftimer.c and fsecs.c *)

(** [for (i = 0; i < n; i++) f(argp);] *)
Definition repeat_f (f : W -> result W) (n : Z) (w : W) : result W :=
  foldM (fun w _ => f w) w (seqZ 0 n).

Definition ftimer_gettod (f : W -> result W) (n : Z) (w : W) : result (double * W) :=
  let '(s_sec, s_usec, w) := gettimeofday w in
  w ← repeat_f f n w;
  let '(e_sec, e_usec, w) := gettimeofday w in
  d_sec ← ll_ (e_sec - s_sec);
  d_usec ← ll_ (e_usec - s_usec);
  let diff := dadd (dmul (d_of_Z 1000) (d_of_Z d_sec))
                   (dmul (d_lit 1 1000) (d_of_Z d_usec)) in
  let diff := ddiv diff (d_of_Z n) in
  Ok (dmul (d_lit 1 1000) diff, w).

(** As config.h configures it ([USE_GETTOD]). *)
Definition fsecs (f : W -> result W) (w : W) : result (double * W) := ftimer_gettod f 10 w.

(** The alternative [USE_FCYC]: the parameters [init_fsecs] sets and the
    conversion of cycles to seconds. *)
Definition init_fsecs_params (p : params) : params :=
  set_fcyc_k 3 (set_fcyc_epsilon (d_lit 1 100) (set_fcyc_compensate 1
    (set_fcyc_clear_cache 1 (set_fcyc_maxsamples 20 p)))).

Definition init_fsecs_fcyc (p : params) (verbose : Z) : ST (clock W) (params * double) :=
  m ← mhz (if 0 <? verbose then 1 else 0);
  mret (init_fsecs_params p, m).

Definition fsecs_fcyc (p : params) (calloc_ok : bool) (fuel : positive) (Mhz : double)
    (f : W -> result W) : ST (clock W) double :=
  cycles ← fcyc p calloc_ok fuel f;
  mret (ddiv cycles (dmul Mhz (d_of_Z 1000000))).
End fcyc.

(** ** The K least samples *)

(** [l] are the [length l] least of the samples [xs], in order. *)
Definition least_of (l xs : list double) : Prop :=
  exists rest, xs ≡ₚ l ++ rest /\ StronglySorted dnlt l /\
    forall v r, v ∈ l -> r ∈ rest -> dnlt v r.

Definition numbers (l : list double) : Prop := Forall (fun d => is_nan d = false) l.

(** The state of the sampler after the samples [xs]. *)
Definition sampled (p : params) (xs : list double) (s : sampler) : Prop :=
  exists l, values s = Some l /\ Z.of_nat (length l) = kbest p /\
    samplecount s = Z.of_nat (length xs) /\
    least_of (take (length xs) l) xs.

Lemma numbers_in l d : numbers l -> d ∈ l -> is_nan d = false.
Proof. unfold numbers. rewrite Forall_forall. auto. Qed.

(** Moving [v] left over the greater elements keeps a list sorted. *)
Lemma sorted_middle a v b :
  numbers (a ++ v :: b) -> StronglySorted dnlt (a ++ b) ->
  (forall y, y ∈ b -> dlt v y = true) ->
  (forall x, last a = Some x -> dlt v x = false) ->
  StronglySorted dnlt (a ++ v :: b).
Proof.
  intros Hnum Hs Hb Ha.
  assert (Hv : is_nan v = false) by (eapply numbers_in; [exact Hnum|set_solver]).
  assert (Hav : forall x, x ∈ a -> dnlt x v).
  { destruct a as [|y a' _] using rev_ind; [set_solver|].
    specialize (Ha y ltac:(by rewrite last_snoc)).
    rewrite <- app_assoc in Hs. simpl in Hs.
    intros x [Hx|Hx]%elem_of_app.
    - apply (dnlt_trans x y v).
      + eapply numbers_in; [exact Hnum|set_solver].
      + eapply numbers_in; [exact Hnum|set_solver].
      + done.
      + apply StronglySorted_app in Hs as (Hs & _ & _). apply (Hs x y); set_solver.
      + done.
    - apply list_elem_of_singleton in Hx as ->. done. }
  apply StronglySorted_app in Hs as (Hab & Hsa & Hsb).
  apply StronglySorted_app. split_and!.
  - intros x y Hx [->|Hy]%elem_of_cons; [by apply Hav|by apply Hab].
  - done.
  - constructor; [done|]. apply Forall_forall. intros y Hy.
    apply dlt_dnlt; [done| |by apply Hb]. eapply numbers_in; [exact Hnum|set_solver].
Qed.

(** The insertion sort, from the position [length a] of the new value. *)
Lemma sort_run front v back :
  numbers (v :: front) -> StronglySorted dnlt front ->
  Z.of_nat (length front) < 2 ^ 31 ->
  exists l, while (2 ^ 31) sort_step (front ++ v :: back, Z.of_nat (length front)) = Ok (l ++ back) /\
    l ≡ₚ v :: front /\ StronglySorted dnlt l.
Proof.
  intros Hnum Hs Hlen.
  apply (while_rule
    (fun n '(l, pos) => exists a b, front = a ++ b /\ l = a ++ v :: b ++ back /\
       pos = Z.of_nat (length a) /\ n = length a /\ (forall y, y ∈ b -> dlt v y = true))
    (fun r => exists l, r = Ok (l ++ back) /\ l ≡ₚ v :: front /\ StronglySorted dnlt l)
    _ _ (length front)).
  - intros n [l pos] (a & b & -> & -> & -> & -> & Hb). unfold sort_step.
    assert (Hnum' : numbers (a ++ v :: b)).
    { unfold numbers in *. by rewrite <- Permutation_middle. }
    destruct a as [|y a' _] using rev_ind.
    + exists (v :: b). split_and!; [done|done|]. by apply (sorted_middle [] v b).
    + rewrite length_app. simpl length.
      rewrite (proj2 (Z.ltb_lt _ _)) by lia.
      replace (Z.of_nat (length a' + 1) - 1) with (Z.of_nat (length a')) by lia.
      rewrite <- app_assoc. simpl.
      rewrite (arr_get_ok _ (Z.of_nat (length a')) y).
      2: lia. 2: by rewrite Nat2Z.id, lookup_app_r, Nat.sub_diag by lia.
      unfold mbind at 1, result_bind at 1.
      rewrite (arr_get_ok _ (Z.of_nat (length a' + 1)) v).
      2: lia. 2: { rewrite Nat2Z.id, lookup_app_r by lia. by rewrite Nat.add_comm, Nat.add_sub. }
      unfold mbind at 1, result_bind at 1.
      destruct (dlt v y) eqn:Hvy.
      * rewrite arr_set_ok by (rewrite length_app; simpl; lia).
        unfold mbind at 1, result_bind at 1. rewrite Nat2Z.id.
        rewrite insert_app_r_alt, Nat.sub_diag by lia. simpl.
        rewrite arr_set_ok by (rewrite length_app; simpl; lia).
        unfold mbind, result_bind. rewrite Nat2Z.id.
        rewrite insert_app_r_alt by lia. rewrite Nat.add_comm, Nat.add_sub. simpl.
        exists (length a'). split; [lia|].
        exists a', (y :: b). split_and!; [by rewrite <- app_assoc|done|done|done|].
        intros z [->|Hz]%elem_of_cons; [done|by apply Hb].
      * exists ((a' ++ [y]) ++ v :: b). split_and!.
        -- by rewrite <- !app_assoc.
        -- by rewrite <- Permutation_middle.
        -- apply sorted_middle; [done|done|done|]. intros x. rewrite last_snoc. by intros [= <-].
  - exists front, []. split_and!; [by rewrite app_nil_r|done|done|done|].
    intros y Hy. by apply elem_of_nil in Hy.
  - lia.
Qed.

Lemma sort_stop l : while (2 ^ 31) sort_step (l, 0) = Ok l.
Proof.
  apply (while_rule (fun n st => st = (l, 0) /\ n = 0%nat) (fun r => r = Ok l) _ _ 0%nat).
  - intros n st [-> ->]. done.
  - done.
  - lia.
Qed.

Lemma numbers_perm l l' : l ≡ₚ l' -> numbers l -> numbers l'.
Proof. intros HP. unfold numbers. by rewrite HP. Qed.

(** While there is room every sample is kept. *)
Lemma least_of_room l xs val l' :
  least_of l xs -> length l = length xs -> l' ≡ₚ val :: l -> StronglySorted dnlt l' ->
  least_of l' (xs ++ [val]).
Proof.
  intros (rest & HP & _ & _) Hlen HP' Hs. pose proof (Permutation_length HP) as Hl.
  rewrite length_app in Hl. destruct rest; [|simpl in Hl; lia].
  rewrite app_nil_r in HP. exists []. split_and!; [|done|].
  - by rewrite app_nil_r, HP, HP', Permutation_app_comm.
  - intros v r _ Hr. by apply elem_of_nil in Hr.
Qed.

(** A sample below the greatest one kept replaces it. *)
Lemma least_of_replace front w xs val l' :
  least_of (front ++ [w]) xs -> numbers xs -> is_nan val = false -> dlt val w = true ->
  l' ≡ₚ val :: front -> StronglySorted dnlt l' -> least_of l' (xs ++ [val]).
Proof.
  intros (rest & HP & Hs & Hr) Hnum Hval Hlt HP' Hs'.
  pose proof (numbers_perm _ _ HP Hnum) as Hnum'.
  assert (Hin : forall d, d ∈ front ++ [w] \/ d ∈ rest -> is_nan d = false).
  { intros d Hd. apply (numbers_in _ _ Hnum'), elem_of_app. done. }
  assert (Hw : is_nan w = false) by (apply Hin; set_solver).
  apply StronglySorted_app in Hs as (Hfw & _ & _).
  exists (w :: rest). split_and!; [|done|].
  - rewrite HP, HP', (Permutation_app_comm _ [val]). simpl. by rewrite <- app_assoc.
  - intros v r Hv Hrr. rewrite HP' in Hv.
    assert (Hvw : dnlt v w).
    { apply elem_of_cons in Hv as [->|Hv]; [by apply dlt_dnlt|]. apply Hfw; set_solver. }
    apply elem_of_cons in Hrr as [->|Hrr]; [done|].
    apply elem_of_cons in Hv as [->|Hv].
    + apply (dnlt_trans val w r); [done|done|apply Hin; by right|done|]. apply Hr; set_solver.
    + apply Hr; set_solver.
Qed.

(** Any other sample is dropped. *)
Lemma least_of_drop front w xs val :
  least_of (front ++ [w]) xs -> numbers xs -> is_nan val = false -> dlt val w = false ->
  least_of (front ++ [w]) (xs ++ [val]).
Proof.
  intros (rest & HP & Hs & Hr) Hnum Hval Hge.
  pose proof (numbers_perm _ _ HP Hnum) as Hnum'.
  assert (Hin : forall d, d ∈ front ++ [w] -> is_nan d = false).
  { intros d Hd. apply (numbers_in _ _ Hnum'), elem_of_app. by left. }
  exists (rest ++ [val]). split_and!; [by rewrite HP, app_assoc|done|].
  intros v r Hv [Hrr|Hrr]%elem_of_app; [by apply Hr|].
  apply list_elem_of_singleton in Hrr as ->.
  apply StronglySorted_app in Hs as (Hfw & _ & _).
  apply elem_of_app in Hv as [Hv|Hv].
  - apply (dnlt_trans v w val); [apply Hin; set_solver|apply Hin; set_solver|done| |done].
    apply Hfw; set_solver.
  - by apply list_elem_of_singleton in Hv as ->.
Qed.

Lemma least_numbers l xs : least_of l xs -> numbers xs -> numbers l.
Proof.
  intros (rest & HP & _) Hnum. pose proof (numbers_perm _ _ HP Hnum) as H.
  by apply Forall_app in H as [? _].
Qed.

Lemma least_sorted l xs : least_of l xs -> StronglySorted dnlt l.
Proof. by intros (rest & _ & Hs & _). Qed.

Section sampling.
Context (p : params) (Hk : 0 < kbest p < 2 ^ 31).

Lemma add_sample_run xs val s :
  sampled p xs s -> numbers (xs ++ [val]) -> Z.of_nat (length xs) < 2 ^ 31 - 1 ->
  exists s', add_sample p val s = Ok s' /\ sampled p (xs ++ [val]) s'.
Proof.
  intros (l & Hv & Hlen & Hn & Hleast) Hnum Hroom.
  apply Forall_app in Hnum as [Hnx Hval]. apply Forall_cons in Hval as [Hval _].
  pose proof (least_numbers _ _ Hleast Hnx) as Hnl. pose proof (least_sorted _ _ Hleast) as Hsl.
  unfold add_sample. rewrite Hv, Hn. unfold mbind, result_bind. simpl need. cbv iota.
  rewrite (int_ok (Z.of_nat (length xs) + 1)) by lia.
  destruct (Z.ltb_spec (Z.of_nat (length xs)) (kbest p)) as [Hlt|Hge].
  - destruct (lookup_lt_is_Some_2 l (length xs)) as [x Hx]; [lia|].
    rewrite arr_set_ok, Nat2Z.id, insert_take_drop by lia.
    set (front := take (length xs) l) in *. set (back := drop (S (length xs)) l).
    assert (Hfl : length front = length xs) by (unfold front; rewrite length_take; lia).
    destruct (sort_run front val back) as (l' & Hsort & HP & Hs).
    { constructor; done. } { done. } { lia. }
    rewrite Hfl in Hsort. rewrite Hsort. eexists. split; [done|].
    pose proof (Permutation_length HP) as Hl'. simpl in Hl'.
    exists (l' ++ back). simpl. rewrite !length_app. simpl.
    split_and!; [done|unfold back; rewrite length_drop; lia|lia|].
    rewrite take_app_le, take_ge by lia. by apply (least_of_room front).
  - rewrite take_ge in Hleast, Hnl, Hsl by lia.
    destruct l as [|w front _] using rev_ind; [simpl in Hlen; lia|].
    rewrite length_app in Hlen. simpl in Hlen.
    rewrite (arr_get_ok _ (kbest p - 1) w).
    2: lia. 2: { replace (Z.to_nat (kbest p - 1)) with (length front) by lia.
                 by rewrite lookup_app_r, Nat.sub_diag. }
    destruct (dlt val w) eqn:Hvw.
    + rewrite arr_set_ok by (rewrite length_app; simpl; lia).
      replace (Z.to_nat (kbest p - 1)) with (length front) by lia.
      rewrite insert_app_r_alt, Nat.sub_diag by lia. simpl.
      replace (kbest p - 1) with (Z.of_nat (length front)) by lia.
      apply Forall_app in Hnl as [Hnf _]. apply StronglySorted_app in Hsl as (_ & Hsf & _).
      destruct (sort_run front val []) as (l' & Hsort & HP & Hs).
      { constructor; done. } { done. } { lia. }
      rewrite Hsort. eexists. split; [done|].
      pose proof (Permutation_length HP) as Hl'. simpl in Hl'.
      exists l'. simpl. rewrite app_nil_r, length_app. simpl.
      split_and!; [done|lia|lia|]. rewrite take_ge by lia. by apply (least_of_replace front w).
    + rewrite sort_stop. eexists. split; [done|]. exists (front ++ [w]). simpl.
      rewrite !length_app. simpl. split_and!; [done|lia|lia|].
      rewrite take_ge by (rewrite length_app; simpl; lia). by apply least_of_drop.
Qed.

Lemma sampled_init : sampled p [] (init_sampler p true).
Proof.
  exists (replicate (Z.to_nat (kbest p)) dzero). simpl. rewrite length_replicate.
  split_and!; [done|lia|done|]. exists []. split_and!; [done|constructor|].
  intros v r Hv. by apply elem_of_nil in Hv.
Qed.

(** The test for convergence, on the least samples in order. *)
Definition converged (xs : list double) (b : bool) : Prop :=
  if (kbest p <=? Z.of_nat (length xs))
  then exists l v0 vk, least_of l xs /\ Z.of_nat (length l) = kbest p /\
    l !! 0%nat = Some v0 /\ last l = Some vk /\ b = dle vk (dmul (dadd (d_of_Z 1) (epsilon p)) v0)
  else b = false.

Lemma has_converged_run xs s :
  sampled p xs s -> exists b, has_converged p s = Ok b /\ converged xs b.
Proof.
  intros (l & Hv & Hlen & Hn & Hleast). unfold has_converged, converged.
  rewrite Hn, Z.geb_leb. destruct (Z.leb_spec (kbest p) (Z.of_nat (length xs))) as [Hle|Hgt].
  2: by exists false.
  rewrite Hv. unfold mbind, result_bind. simpl need. cbv iota. rewrite take_ge in Hleast by lia.
  destruct (lookup_lt_is_Some_2 l 0) as [v0 Hv0]; [lia|].
  destruct (lookup_lt_is_Some_2 l (Z.to_nat (kbest p - 1))) as [vk Hvk]; [lia|].
  rewrite (arr_get_ok l 0 v0) by done. rewrite (arr_get_ok l (kbest p - 1) vk) by (done || lia).
  eexists. split; [done|]. exists l, v0, vk. split_and!; [done|lia|done| |done].
  rewrite last_lookup. rewrite <- Hvk. f_equal. lia.
Qed.

(** The least sample is first. *)
Lemma sampled_first xs s :
  sampled p xs s -> xs <> [] -> numbers xs ->
  exists l x, values s = Some l /\ arr_get l 0 = Ok x /\ x ∈ xs /\ forall y, y ∈ xs -> dnlt x y.
Proof.
  intros (l & Hv & Hlen & Hn & rest & HP & Hs & Hr) Hne Hnum.
  assert (Hlx : (0 < length xs)%nat) by (destruct xs; [done|simpl; lia]).
  destruct l as [|x l]; [simpl in Hlen; lia|].
  destruct (length xs) as [|n] eqn:En; [lia|]. simpl in HP, Hs, Hr.
  assert (Hx : x ∈ xs) by (rewrite HP; set_solver).
  exists (x :: l), x. split_and!; [done|done|done|]. intros y Hy.
  rewrite HP in Hy. apply StronglySorted_inv in Hs as [_ Hall]. rewrite Forall_forall in Hall.
  apply elem_of_cons in Hy as [->|Hy]; [apply dnlt_refl; by apply (numbers_in xs)|].
  apply elem_of_app in Hy as [Hy|Hy]; [by apply Hall|]. apply Hr; set_solver.
Qed.
End sampling.

(** ** The measurement loop *)

(** [n] measurements in a row. *)
Fixpoint measures {W} (m : ST (clock W) double) (n : nat) (c : clock W)
    : result (list double * clock W) :=
  match n with
  | O => Ok ([], c)
  | S n =>
      r ← measures m n c;
      r' ← m (snd r);
      Ok (fst r ++ [fst r'], snd r')
  end.

Lemma measures_prefix {W} (m : ST (clock W) double) c n k xs c' :
  measures m (n + k) c = Ok (xs, c') ->
  exists cn, measures m n c = Ok (take n xs, cn) /\ length xs = (n + k)%nat.
Proof.
  revert xs c'; induction k as [|k IH]; intros xs c'.
  - rewrite Nat.add_0_r. intros Hm.
    assert (Hlen : length xs = n).
    { clear - Hm. revert xs c' Hm; induction n as [|n IH]; intros xs c' Hm; [by injection Hm as <- _|].
      simpl in Hm. destruct (measures m n c) as [[ys cn]|] eqn:E; [|done]. simpl in Hm.
      destruct (m cn) as [[d c2]|]; [|done]. injection Hm as <- _.
      rewrite length_app, (IH _ _ eq_refl). simpl. lia. }
    exists c'. by rewrite take_ge by lia.
  - rewrite <- plus_n_Sm. simpl. intros Hm.
    destruct (measures m (n + k) c) as [[ys cn]|] eqn:E; [|done]. simpl in Hm.
    destruct (m cn) as [[d c2]|]; [|done]. injection Hm as <- _.
    destruct (IH _ _ eq_refl) as (cn' & Hn & Hlen). exists cn'.
    rewrite length_app, take_app_le by lia. split; [done|simpl; lia].
Qed.

Lemma measures_step {W} (m : ST (clock W) double) c n N xs c' :
  measures m N c = Ok (xs, c') -> (n < N)%nat ->
  exists cn d cn', measures m n c = Ok (take n xs, cn) /\ m cn = Ok (d, cn') /\
    measures m (S n) c = Ok (take n xs ++ [d], cn') /\ take (S n) xs = take n xs ++ [d].
Proof.
  intros Hm Hn.
  destruct (measures_prefix m c n (N - n) xs c') as (cn & H1 & Hlen).
  { by replace (n + (N - n))%nat with N by lia. }
  destruct (measures_prefix m c (S n) (N - S n) xs c') as (cn' & H2 & _).
  { by replace (S n + (N - S n))%nat with N by lia. }
  simpl in H2. rewrite H1 in H2. simpl in H2. destruct (m cn) as [[d c2]|] eqn:E; [|done].
  simpl in H2. injection H2 as H2 ->. exists cn, d, cn'. split_and!; [done|done| |].
  - simpl. rewrite H1. simpl. by rewrite E.
  - by rewrite <- H2.
Qed.

(** The number of measurements after which [fcyc] gives up. *)
Definition sample_limit (p : params) : nat := Pos.to_nat (Z.to_pos (maxsamples p)).

Lemma sample_limit_max p : sample_limit p = Z.to_nat (Z.max 1 (maxsamples p)).
Proof. unfold sample_limit. destruct (maxsamples p); simpl; lia. Qed.

(** The state in which the loop stops, after [n] measurements. *)
Definition loop_stopped {W} (p : params) (m : ST (clock W) double) (c : clock W)
    (xs : list double) (n : nat) (cn : clock W) (s : sampler) : Prop :=
  (1 <= n <= sample_limit p)%nat /\ measures m n c = Ok (take n xs, cn) /\
  sampled p (take n xs) s /\ length (take n xs) = n /\
  (n = sample_limit p \/ converged p (take n xs) true) /\
  (forall k, (1 <= k < n)%nat -> converged p (take k xs) false).

Section loop.
Context {W : Type} (p : params) (m : ST (clock W) double) (c c' : clock W) (xs : list double).
Context (Hk : 0 < kbest p < 2 ^ 31) (Hlimit : Z.of_nat (sample_limit p) < 2 ^ 31).
Context (Hm : measures m (sample_limit p) c = Ok (xs, c')) (Hnum : numbers xs).

Lemma fcyc_step_run n cn s :
  (n < sample_limit p)%nat -> measures m n c = Ok (take n xs, cn) -> sampled p (take n xs) s ->
  (forall k, (1 <= k <= n)%nat -> converged p (take k xs) false) ->
  exists cn' s', measures m (S n) c = Ok (take (S n) xs, cn') /\ sampled p (take (S n) xs) s' /\
    (fcyc_step p m tt (cn, s) = Ok (inl tt, (cn', s')) /\ (S n < sample_limit p)%nat /\
       converged p (take (S n) xs) false \/
     fcyc_step p m tt (cn, s) = Ok (inr tt, (cn', s')) /\ loop_stopped p m c xs (S n) cn' s').
Proof.
  intros Hn Hms Hs Hno. unfold fcyc_step.
  destruct (measures_step m c n _ xs c' Hm Hn) as (cn0 & d & cn' & E1 & E2 & E3 & E4).
  rewrite Hms in E1. injection E1 as <-. rewrite E2.
  destruct (measures_prefix m c n (sample_limit p - n) xs c') as (_ & _ & Hlen).
  { by replace (n + (sample_limit p - n))%nat with (sample_limit p) by lia. }
  assert (Hln : forall k, (k <= sample_limit p)%nat -> length (take k xs) = k)
    by (intros k Hkn; rewrite length_take; lia).
  destruct (add_sample_run p Hk (take n xs) d s Hs) as (s' & -> & Hs').
  { rewrite <- E4. by apply Forall_take. } { rewrite Hln by lia. lia. }
  unfold mbind, result_bind. rewrite <- E4 in Hs', E3.
  destruct (has_converged_run p Hk _ _ Hs') as (b & -> & Hb).
  exists cn', s'. split; [done|]. split; [done|].
  assert (Hcount : samplecount s' = Z.of_nat (S n)).
  { destruct Hs' as (l & _ & _ & -> & _). by rewrite Hln. }
  rewrite Hcount. destruct b; simpl negb; simpl andb.
  - right. split; [done|]. split_and!; [lia|lia|done|done|by apply Hln|by right|].
    intros k Hkn. apply Hno. lia.
  - destruct (Z.ltb_spec (Z.of_nat (S n)) (maxsamples p)) as [Hlt|Hge].
    + left. split_and!; [done|rewrite sample_limit_max; lia|done].
    + right. split; [done|]. assert (S n = sample_limit p) by (rewrite sample_limit_max in *; lia).
      split_and!; [lia|lia|done|done|by apply Hln|by left|]. intros k Hkn. apply Hno. lia.
Qed.

Lemma fcyc_loop_run :
  exists n cn s, while_st (Z.to_pos (maxsamples p)) (fcyc_step p m) tt
    (c, init_sampler p true) = Ok (tt, (cn, s)) /\ loop_stopped p m c xs n cn s.
Proof.
  apply (while_st_rule
    (fun i _ '(cn, s) => exists n, (n < sample_limit p)%nat /\ i = (sample_limit p - 1 - n)%nat /\
       measures m n c = Ok (take n xs, cn) /\ sampled p (take n xs) s /\
       (forall k, (1 <= k <= n)%nat -> converged p (take k xs) false))
    (fun r => exists n cn s, r = Ok (tt, (cn, s)) /\ loop_stopped p m c xs n cn s)
    _ _ (sample_limit p - 1)%nat).
  - intros i [] [cn s] (n & Hn & -> & Hms & Hs & Hno).
    destruct (fcyc_step_run n cn s Hn Hms Hs Hno) as (cn' & s' & Hms' & Hs' & [(-> & Hlt & Hc)|[-> Hst]]).
    + exists (sample_limit p - 1 - S n)%nat. split; [lia|]. exists (S n).
      split_and!; [lia|done|done|done|]. intros k Hkn.
      destruct (decide (k = S n)) as [->|]; [done|]. apply Hno. lia.
    + by exists (S n), cn', s'.
  - exists 0%nat. split_and!; [unfold sample_limit; lia|lia|done|by apply sampled_init|]. lia.
  - unfold sample_limit. lia.
Qed.
End loop.

(** C9: if the machine delivers as many measurements as [fcyc] may take, none
    of them NaN, then [fcyc] ends, after at least one and at most
    [maxsamples] of them (or one), and returns the least of those it took; it
    stops at the first at which the [kbest] least are within [epsilon] of one
    another. *)
Theorem fcyc_returns_least {W} (p : params) (m : ST (clock W) double) (c c' : clock W)
    (xs : list double) :
  0 < kbest p < 2 ^ 31 -> maxsamples p < 2 ^ 31 ->
  measures m (sample_limit p) c = Ok (xs, c') -> numbers xs ->
  exists n x cn,
    (1 <= n <= sample_limit p)%nat /\ measures m n c = Ok (take n xs, cn) /\
    fcyc_with p true m c = Ok (x, cn) /\
    x ∈ take n xs /\ (forall y, y ∈ take n xs -> dnlt x y) /\
    (n = sample_limit p \/ converged p (take n xs) true) /\
    (forall k, (1 <= k < n)%nat -> converged p (take k xs) false).
Proof.
  intros Hk Hmax Hm Hnum. unfold fcyc_with.
  assert (Hlimit : Z.of_nat (sample_limit p) < 2 ^ 31) by (rewrite sample_limit_max; lia).
  destruct (fcyc_loop_run p m c c' xs Hk Hlimit Hm Hnum)
    as (n & cn & s & -> & Hn & Hms & Hs & Hln & Hstop & Hfirst).
  destruct (sampled_first p Hk _ _ Hs) as (l & x & Hv & Hx & Hin & Hle).
  { intros E. rewrite E in Hln. simpl in Hln. lia. } { by apply Forall_take. }
  exists n, x, cn. rewrite Hv. unfold mbind, result_bind. simpl need. cbv iota. by rewrite Hx.
Qed.

(** Cycle counts 90, 70 and 71 with three samples: the least is 70. *)
Lemma fcyc_returns_least_witness :
  exists n c', @fcyc _ (scripted I386) (set_fcyc_maxsamples 3 default_params) true 1 Ok
      (clock_at [0; 90; 100; 170; 200; 271]) = Ok (d_of_Z 70, c') /\ (1 <= n <= 3)%nat /\
    forall y, y ∈ take n [d_of_Z 90; d_of_Z 70; d_of_Z 71] -> dnlt (d_of_Z 70) y.
Proof.
  destruct (fcyc_returns_least (set_fcyc_maxsamples 3 default_params)
    (@measure _ (scripted I386) (set_fcyc_maxsamples 3 default_params) 1 Ok)
    (clock_at [0; 90; 100; 170; 200; 271])
    (set_cyc 0 200 (clock_at [])) [d_of_Z 90; d_of_Z 70; d_of_Z 71])
    as (n & x & cn & Hn & _ & Hrun & _ & Hle & _).
  - simpl. lia.
  - simpl. lia.
  - vm_compute. reflexivity.
  - repeat constructor.
  - assert (E : match @fcyc_with _ (set_fcyc_maxsamples 3 default_params) true
        (@measure _ (scripted I386) (set_fcyc_maxsamples 3 default_params) 1 Ok)
        (clock_at [0; 90; 100; 170; 200; 271]) with Ok (x, _) => x | Fault _ => dzero end = d_of_Z 70).
    { vm_compute. reflexivity. }
    rewrite Hrun in E. subst x. exists n, cn. split; [exact Hrun|]. split; [exact Hn|exact Hle].
Defined.
