(* ===== verification/TraceFile.v ===== *)
(** * Trace files ([read_trace] of malloclab/mdriver.c)

    The conversions of [fscanf] that the reader uses, on the characters of
    the file that are still to be read, and the reader. *)

From S2P Require Import Prelude Mdriver.

(** ** [fscanf] *)

Definition is_space (c : Z) : bool := (c =? 32) || ((9 <=? c) && (c <=? 13)).
Definition is_digit (c : Z) : bool := (48 <=? c) && (c <=? 57).

Fixpoint skip_space (s : list Z) : list Z :=
  match s with
  | c :: t => if is_space c then skip_space t else s
  | [] => []
  end.

(** The longest prefix of characters that satisfy [f], and the rest. *)
Fixpoint span (f : Z -> bool) (s : list Z) : list Z * list Z :=
  match s with
  | c :: t => if f c then let '(a, b) := span f t in (c :: a, b) else ([], s)
  | [] => ([], [])
  end.

Definition digits_value (ds : list Z) : Z := foldl (fun v c => 10 * v + (c - 48)) 0 ds.

(** What a conversion yields: the end of the input, no match, or a value. *)
Inductive scanned :=
  | AtEof
  | NoMatch
  | Matched (v : Z).

Definition scan_sign (s : list Z) : bool * list Z :=
  match s with
  | c :: t => if c =? 45 then (true, t) else if c =? 43 then (false, t) else (false, s)
  | [] => (false, [])
  end.

(** [%d] and [%u]; a number out of the range of the type is undefined. *)
Definition scan_d (s : list Z) : result (scanned * list Z) :=
  match skip_space s with
  | [] => Ok (AtEof, [])
  | s =>
      let '(neg, s) := scan_sign s in
      match span is_digit s with
      | ([], s) => Ok (NoMatch, s)
      | (ds, s) =>
          v ← int_ (if neg then - digits_value ds else digits_value ds);
          Ok (Matched v, s)
      end
  end.

(** [atoi]: a number that does not fit an [int] is undefined. *)
Definition atoi (s : list Z) : result Z :=
  r ← scan_d s; Ok match r.1 with Matched v => v | _ => 0 end.

Definition scan_u (s : list Z) : result (scanned * list Z) :=
  match skip_space s with
  | [] => Ok (AtEof, [])
  | s =>
      let '(neg, s) := scan_sign s in
      match span is_digit s with
      | ([], s) => Ok (NoMatch, s)
      | (ds, s) =>
          let v := digits_value ds in
          guard_ (v <? 2 ^ 32);;
          Ok (Matched (if neg then u32 (- v) else v), s)
      end
  end.

Definition MAXLINE : Z := 1024.

(** [%s] into a buffer of [MAXLINE] characters; [None] at the end of input. *)
Definition scan_s (s : list Z) : result (option (list Z) * list Z) :=
  match skip_space s with
  | [] => Ok (None, [])
  | s =>
      let '(w, s) := span (fun c => negb (is_space c)) s in
      guard_ (Z.of_nat (length w) <? MAXLINE);;
      Ok (Some w, s)
  end.

(** A variable keeps its value when nothing matches. *)
Definition keep (old : Z) (o : scanned) : Z :=
  match o with Matched v => v | _ => old end.

(** [fscanf("%u %u", &index, &size)] *)
Definition scan_index_size (s : list Z) (index size : Z) : result (Z * Z * list Z) :=
  t ← scan_u s;
  let '(o, s) := t in
  match o with
  | Matched i =>
      t ← scan_u s;
      let '(o, s) := t in
      Ok (i, keep size o, s)
  | _ => Ok (index, size, s)
  end.

(** [fscanf("%ud", &index)]: a [d] that follows the number is consumed. *)
Definition scan_index_d (s : list Z) (index : Z) : result (Z * list Z) :=
  t ← scan_u s;
  let '(o, s) := t in
  match o, s with
  | Matched i, c :: s' => Ok (i, if c =? 100 then s' else s)
  | _, _ => Ok (keep index o, s)
  end.

(** ** [read_trace] *)

Section read_trace.
(** [junk] is what uninitialised [int]s hold. *)
Context (junk : Z).

(** The requests read so far, and the variables of the loop. *)
Record reader := Reader {
  rd_input : list Z;
  rd_ops : list traceop_t;
  rd_index : Z;
  rd_size : Z;
  rd_max : Z;
}.

(** Stores the next request; [num_ops] is the length of the array. *)
Definition store_op (num_ops : Z) (op : traceop_t) (l : list traceop_t)
    : result (list traceop_t) :=
  guard_ (Z.of_nat (length l) <? num_ops);; Ok (l ++ [op]).

Definition read_op (num_ops : Z) (r : reader) : result (reader + reader) :=
  t ← scan_s (rd_input r);
  match t with
  | (None, _) => Ok (inr r)
  | (Some w, s) =>
      c ← arr_get w 0;
      if (c =? 97) || (c =? 114) then
        t ← scan_index_size s (rd_index r) (rd_size r);
        let '(index, size, s) := t in
        l ← store_op num_ops
              (TraceOp (if c =? 97 then ALLOC else REALLOC) (s32 index) (s32 size)) (rd_ops r);
        let max_index := if index >? rd_max r then index else rd_max r in
        Ok (inl (Reader s l index size max_index))
      else if c =? 102 then
        t ← scan_index_d s (rd_index r);
        let '(index, s) := t in
        l ← store_op num_ops (TraceOp FREE (s32 index) junk) (rd_ops r);
        Ok (inl (Reader s l index (rd_size r) (rd_max r)))
      else Fault (Exited 1)
  end.

(** [fscanf("%d", &x)] on a field of the fresh trace record. *)
Definition scan_field (s : list Z) : result (Z * list Z) :=
  t ← scan_d s; Ok (keep junk (fst t), snd t).

(** [file] is [None] when the file cannot be opened; [alloc_ok] tells whether
    [malloc] serves the record and its three arrays.  Every turn of the loop
    consumes a character, so their number is fuel enough. *)
Definition read_trace (alloc_ok : bool) (file : option (list Z)) : result trace_t :=
  if negb alloc_ok then Fault (Exited 1)
  else
    match file with
    | None => Fault (Exited 1)
    | Some s =>
        t ← scan_field s; let '(sugg, s) := t in
        t ← scan_field s; let '(ids, s) := t in
        t ← scan_field s; let '(nops, s) := t in
        t ← scan_field s; let '(wt, s) := t in
        r ← while (Pos.of_succ_nat (length s)) (read_op nops) (Reader s [] 0 (u32 junk) 0);
        last ← int_ (ids - 1);
        assert_ (rd_max r =? u32 last);;
        assert_ (u32 nops =? Z.of_nat (length (rd_ops r)));;
        Ok (Trace sugg ids nops wt (rd_ops r)
              (replicate (Z.to_nat ids) None) (replicate (Z.to_nat ids) None))
    end.
End read_trace.

(** ** The text of a trace *)

Fixpoint dec_digits (fuel : nat) (n : Z) (acc : list Z) : list Z :=
  match fuel with
  | O => acc
  | S fuel =>
      if n <? 10 then (48 + n) :: acc
      else dec_digits fuel (n / 10) ((48 + n mod 10) :: acc)
  end.

(** Ten digits are enough for any [int]. *)
Definition dec (n : Z) : list Z := dec_digits 10 n [].

Definition op_text (op : traceop_t) : list Z :=
  match op_type_of op with
  | ALLOC => [97; 32] ++ dec (op_index op) ++ [32] ++ dec (op_size op) ++ [10]
  | REALLOC => [114; 32] ++ dec (op_index op) ++ [32] ++ dec (op_size op) ++ [10]
  | FREE => [102; 32] ++ dec (op_index op) ++ [10]
  end.

Definition trace_text (t : trace_t) : list Z :=
  dec (sugg_heapsize t) ++ [10] ++ dec (num_ids t) ++ [10] ++ dec (num_ops t) ++ [10] ++
  dec (weight t) ++ [10] ++ concat (op_text <$> ops t).

Definition nat_int (n : Z) : Prop := 0 <= n < 2 ^ 31.

(** The largest index that an allocation or reallocation uses. *)
Definition max_index_of (l : list traceop_t) : Z :=
  foldl (fun m op => match op_type_of op with FREE => m | _ => Z.max m (op_index op) end) 0 l.

(** A trace as its text can give it: numbers that fit an [int], the right
    counts, arrays not yet written; the size of a [FREE] is whatever memory
    holds. *)
Record readable (junk : Z) (t : trace_t) : Prop := {
  rd_header : nat_int (sugg_heapsize t) /\ nat_int (num_ids t) /\ nat_int (num_ops t) /\
    nat_int (weight t);
  rd_requests : Forall (fun op => nat_int (op_index op) /\
    match op_type_of op with FREE => op_size op = junk | _ => nat_int (op_size op) end) (ops t);
  rd_count : num_ops t = Z.of_nat (length (ops t));
  rd_ids : num_ids t = max_index_of (ops t) + 1;
  rd_arrays : blocks t = replicate (Z.to_nat (num_ids t)) None /\
    block_sizes t = replicate (Z.to_nat (num_ids t)) None;
}.

(** ** Numbers *)

Lemma dec_digits_spec fuel n acc :
  0 <= n < 10 ^ Z.of_nat fuel -> (0 < fuel)%nat ->
  exists ds, dec_digits fuel n acc = ds ++ acc /\ ds <> [] /\
    Forall (fun c => is_digit c = true) ds /\ digits_value ds = n.
Proof.
  revert n acc; induction fuel as [|fuel IH]; intros n acc Hn Hf; [lia|]. simpl.
  rewrite Nat2Z.inj_succ, Z.pow_succ_r in Hn by lia.
  assert (Hd : forall k, 0 <= k < 10 -> is_digit (48 + k) = true).
  { intros k Hk. unfold is_digit. by rewrite !(proj2 (Z.leb_le _ _)) by lia. }
  destruct (Z.ltb_spec n 10).
  - exists [48 + n]. split_and!; [done|done|constructor; [apply Hd; lia|constructor]|].
    unfold digits_value. simpl. lia.
  - destruct fuel as [|fuel]; [simpl in Hn; lia|].
    destruct (IH (n / 10) ((48 + n mod 10) :: acc)) as (ds & -> & Hne & Hds & Hv); [dlia|lia|].
    exists (ds ++ [48 + n mod 10]). split_and!.
    + by rewrite <- app_assoc.
    + by destruct ds.
    + apply Forall_app. split; [done|]. constructor; [apply Hd; dlia|constructor].
    + unfold digits_value in *. rewrite foldl_app. simpl. rewrite Hv. dlia.
Qed.

Lemma dec_spec n :
  nat_int n ->
  dec n <> [] /\ Forall (fun c => is_digit c = true) (dec n) /\ digits_value (dec n) = n.
Proof.
  intros Hn. unfold nat_int in Hn.
  destruct (dec_digits_spec 10 n []) as (ds & E & H); [simpl; lia|lia|].
  unfold dec. by rewrite E, app_nil_r.
Qed.

Lemma span_app f a b :
  Forall (fun c => f c = true) a -> (forall c t, b = c :: t -> f c = false) ->
  span f (a ++ b) = (a, b).
Proof.
  intros Ha Hb. induction Ha as [|c a Hc Ha IH]; simpl.
  - destruct b as [|c t]; [done|]. simpl. by rewrite (Hb c t).
  - by rewrite Hc, IH.
Qed.

Lemma digit_not_space c : is_digit c = true -> is_space c = false.
Proof.
  unfold is_digit, is_space. intros [H1%Z.leb_le H2%Z.leb_le]%andb_prop.
  rewrite (proj2 (Z.eqb_neq _ _)) by lia. rewrite (proj2 (Z.leb_gt c 13)) by lia.
  by rewrite andb_false_r.
Qed.

Lemma digit_not_sign c t : is_digit c = true -> scan_sign (c :: t) = (false, c :: t).
Proof.
  unfold is_digit, scan_sign. intros [H1%Z.leb_le H2%Z.leb_le]%andb_prop.
  by rewrite !(proj2 (Z.eqb_neq _ _)) by lia.
Qed.

(** A number, after at most one space and before a character that is none of
    its digits, is read back. *)
Lemma scan_dec n pre rest :
  nat_int n -> (pre = [] \/ pre = [32] \/ pre = [10]) ->
  (forall c t, rest = c :: t -> is_digit c = false) ->
  scan_d (pre ++ dec n ++ rest) = Ok (Matched n, rest) /\
  scan_u (pre ++ dec n ++ rest) = Ok (Matched n, rest).
Proof.
  intros Hn Hpre Hrest. destruct (dec_spec n Hn) as (Hne & Hd & Hv).
  destruct (dec n) as [|c ds] eqn:E; [done|]. apply Forall_cons in Hd as [Hc Hds].
  assert (Hskip : skip_space (pre ++ (c :: ds) ++ rest) = c :: (ds ++ rest)).
  { destruct Hpre as [->|[->| ->]]; simpl; by rewrite (digit_not_space c Hc). }
  unfold scan_d, scan_u. rewrite Hskip. cbv iota.
  rewrite (digit_not_sign c _ Hc). cbv beta iota.
  change (c :: ds ++ rest) with ((c :: ds) ++ rest).
  rewrite (span_app is_digit (c :: ds) rest) by (done || by constructor).
  rewrite Hv. unfold nat_int in Hn. rewrite int_ok by lia. unfold guard_.
  by rewrite (proj2 (Z.ltb_lt n (2 ^ 32))) by lia.
Qed.

(** ** Requests *)

Section reading.
Context (junk : Z).

Definition request_ok (op : traceop_t) : Prop :=
  nat_int (op_index op) /\
  match op_type_of op with FREE => op_size op = junk | _ => nat_int (op_size op) end.

Definition max_step (m : Z) (op : traceop_t) : Z :=
  match op_type_of op with FREE => m | _ => Z.max m (op_index op) end.

Lemma max_index_nonneg l : 0 <= max_index_of l.
Proof.
  cut (forall m, 0 <= m -> 0 <= foldl max_step m l); [by intros H; apply H|].
  induction l as [|op l IH]; intros m Hm; [done|]. apply IH. unfold max_step.
  destruct (op_type_of op); lia.
Qed.

Lemma scan_letter c t :
  is_space c = false -> scan_s ([10] ++ c :: 32 :: t) = Ok (Some [c], 32 :: t).
Proof. intros Hc. unfold scan_s. simpl. rewrite Hc. simpl. by rewrite Hc. Qed.

Lemma not_digit_after sep t : sep = 32 \/ sep = 10 ->
  forall c u, sep :: t = c :: u -> is_digit c = false.
Proof. by intros [-> | ->] c u [= <- <-]. Qed.

Lemma scan_index_size_run i n t x y :
  nat_int i -> nat_int n ->
  scan_index_size (32 :: dec i ++ [32] ++ dec n ++ 10 :: t) x y = Ok (i, n, 10 :: t).
Proof.
  intros Hi Hn. unfold scan_index_size.
  destruct (scan_dec i [32] (32 :: dec n ++ 10 :: t) Hi) as [_ Hu]; [tauto|apply not_digit_after; by left|].
  simpl app in Hu |- *. rewrite Hu. unfold mbind, result_bind.
  destruct (scan_dec n [32] (10 :: t) Hn) as [_ Hu2]; [tauto|apply not_digit_after; by right|].
  simpl app in Hu2. by rewrite Hu2.
Qed.

Lemma scan_index_d_run i t x :
  nat_int i -> scan_index_d (32 :: dec i ++ 10 :: t) x = Ok (i, 10 :: t).
Proof.
  intros Hi. unfold scan_index_d.
  destruct (scan_dec i [32] (10 :: t) Hi) as [_ Hu]; [tauto|apply not_digit_after; by right|].
  simpl app in Hu. by rewrite Hu.
Qed.

Lemma op_text_app op t :
  op_text op ++ t =
    match op_type_of op with
    | ALLOC => 97 :: 32 :: dec (op_index op) ++ [32] ++ dec (op_size op) ++ 10 :: t
    | REALLOC => 114 :: 32 :: dec (op_index op) ++ [32] ++ dec (op_size op) ++ 10 :: t
    | FREE => 102 :: 32 :: dec (op_index op) ++ 10 :: t
    end.
Proof. unfold op_text. destruct (op_type_of op); by rewrite <- !app_assoc. Qed.

(** One turn reads one request. *)
Lemma read_op_run nops op t l x y m :
  request_ok op -> Z.of_nat (length l) < nops ->
  exists x' y', read_op junk nops (Reader ([10] ++ op_text op ++ t) l x y m) =
    Ok (inl (Reader ([10] ++ t) (l ++ [op]) x' y' (max_step m op))).
Proof.
  intros [Hi Hs] Hroom. unfold read_op, max_step, store_op. cbn [rd_input rd_ops rd_index rd_size rd_max].
  rewrite op_text_app. destruct op as [ty i n]. cbn [op_type_of op_index op_size] in *.
  assert (Hmax : (if i >? m then i else m) = Z.max m i).
  { rewrite Z.gtb_ltb. destruct (Z.ltb_spec m i); lia. }
  assert (Hid : s32 i = i) by (apply s32_id; unfold nat_int in Hi; lia).
  destruct ty; rewrite scan_letter by done; unfold mbind, result_bind;
    cbn [arr_get Z.leb Z.compare Z.to_nat lookup list_lookup need].
  - assert (Hnd : s32 n = n) by (apply s32_id; unfold nat_int in Hs; lia).
    exists i, n. change ((97 =? 97) || (97 =? 114)) with true. cbv iota.
    rewrite (scan_index_size_run i n t) by done.
    rewrite (proj2 (Z.ltb_lt _ _)) by done. simpl. by rewrite Hid, Hnd, Hmax.
  - exists i, y.
    change ((102 =? 97) || (102 =? 114)) with false. change (102 =? 102) with true. cbv iota.
    rewrite (scan_index_d_run i t) by done.
    rewrite (proj2 (Z.ltb_lt _ _)) by done. simpl. by rewrite Hid, Hs.
  - assert (Hnd : s32 n = n) by (apply s32_id; unfold nat_int in Hs; lia).
    exists i, n.
    change ((114 =? 97) || (114 =? 114)) with true. change (114 =? 97) with false. cbv iota.
    rewrite (scan_index_size_run i n t) by done.
    rewrite (proj2 (Z.ltb_lt _ _)) by done. simpl. by rewrite Hid, Hnd, Hmax.
Qed.

Lemma length_op_text op : (1 <= length (op_text op))%nat.
Proof. unfold op_text. destruct (op_type_of op); simpl; lia. Qed.

Lemma length_ops_text (l : list traceop_t) : (length l <= length (concat (op_text <$> l)))%nat.
Proof.
  induction l as [|op l IH]; [done|].
  rewrite fmap_cons. cbn [concat length]. rewrite length_app.
  pose proof (length_op_text op). lia.
Qed.

Lemma read_ops_run nops l x y :
  Forall request_ok l -> Z.of_nat (length l) <= nops ->
  exists x' y', while (Pos.of_succ_nat (length ([10] ++ concat (op_text <$> l)))) (read_op junk nops)
      (Reader ([10] ++ concat (op_text <$> l)) [] x y 0) =
    Ok (Reader [10] l x' y' (max_index_of l)).
Proof.
  intros Hok Hroom.
  apply (while_rule
    (fun n r => exists dn rest x y, l = dn ++ rest /\ n = length rest /\
       r = Reader ([10] ++ concat (op_text <$> rest)) dn x y (max_index_of dn))
    (fun r => exists x' y', r = Ok (Reader [10] l x' y' (max_index_of l))) _ _ (length l)).
  - intros n r (dn & rest & x0 & y0 & El & -> & ->). destruct rest as [|op rest].
    + rewrite app_nil_r in El. subst dn. by exists x0, y0.
    + rewrite El, length_app in Hroom. cbn [length] in Hroom.
      rewrite El in Hok. apply Forall_app in Hok as [_ Hok]. apply Forall_cons in Hok as [Hop Hok].
      destruct (read_op_run nops op (concat (op_text <$> rest)) dn x0 y0 (max_index_of dn) Hop ltac:(lia))
        as (x1 & y1 & Hrun).
      rewrite fmap_cons. simpl concat. rewrite Hrun.
      exists (length rest). split; [simpl; lia|]. exists (dn ++ [op]), rest, x1, y1.
      split_and!; [by rewrite <- app_assoc|done|].
      unfold max_index_of. by rewrite foldl_app.
  - by exists [], l, x, y.
  - rewrite SuccNat2Pos.id_succ, length_app. pose proof (length_ops_text l). simpl. lia.
Qed.

Lemma scan_field_first n rest :
  nat_int n -> scan_field junk (dec n ++ [10] ++ rest) = Ok (n, [10] ++ rest).
Proof.
  intros Hn. unfold scan_field.
  destruct (scan_dec n [] (10 :: rest) Hn) as [E _]; [tauto|apply not_digit_after; by right|].
  cbn [app] in E |- *. by rewrite E.
Qed.

Lemma scan_field_next n rest :
  nat_int n -> scan_field junk ([10] ++ dec n ++ [10] ++ rest) = Ok (n, [10] ++ rest).
Proof.
  intros Hn. unfold scan_field.
  destruct (scan_dec n [10] (10 :: rest) Hn) as [E _]; [tauto|apply not_digit_after; by right|].
  cbn [app] in E |- *. by rewrite E.
Qed.
End reading.

(** The reader on the text of a trace. *)
Lemma read_trace_run (junk : Z) (t : trace_t) :
  readable junk t -> read_trace junk true (Some (trace_text t)) = Ok t.
Proof.
  intros [(Hs & Hi & Hn & Hw) Hreq Hcount Hids [Hb Hbs]].
  unfold read_trace, trace_text. simpl negb. cbv iota.
  rewrite scan_field_first by done. unfold mbind at 1, result_bind at 1.
  rewrite scan_field_next by done. unfold mbind at 1, result_bind at 1.
  rewrite scan_field_next by done. unfold mbind at 1, result_bind at 1.
  rewrite scan_field_next by done. unfold mbind at 1, result_bind at 1.
  destruct (read_ops_run junk (num_ops t) (ops t) 0 (u32 junk) Hreq ltac:(lia)) as (x & y & Hrun).
  rewrite Hrun. unfold mbind, result_bind. cbn [rd_max rd_ops].
  pose proof (max_index_nonneg (ops t)). unfold nat_int in *. rewrite int_ok by lia. rewrite !u32_id by lia.
  rewrite (proj2 (Z.eqb_eq _ _)) by lia. simpl assert_. cbv iota.
  rewrite (proj2 (Z.eqb_eq _ _)) by lia. simpl assert_. cbv iota.
  destruct t; simpl in *; subst. done.
Qed.

(** ** Property *)

(** C10: [read_trace] reads back every trace from its text: the four numbers of
    the header, then the requests in order, with the arrays of blocks
    unwritten; both final assertions hold. *)
Theorem read_trace_roundtrip (junk : Z) (t : trace_t) :
  readable junk t -> read_trace junk true (Some (trace_text t)) = Ok t.
Proof. apply read_trace_run. Qed.

Definition example_trace : trace_t := {|
  sugg_heapsize := 20000; num_ids := 2; num_ops := 4; weight := 1;
  ops := [TraceOp ALLOC 0 512; TraceOp ALLOC 1 128; TraceOp REALLOC 0 640; TraceOp FREE 1 77];
  blocks := [None; None]; block_sizes := [None; None];
|}.

Lemma example_readable : readable 77 example_trace.
Proof.
  split; simpl.
  - unfold nat_int. lia.
  - repeat constructor; simpl; unfold nat_int; lia.
  - reflexivity.
  - reflexivity.
  - split; reflexivity.
Defined.

Lemma read_trace_roundtrip_witness :
  read_trace 77 true (Some (trace_text example_trace)) = Ok example_trace.
Proof. apply (read_trace_roundtrip 77 example_trace). apply example_readable. Defined.
