(* ===== verification/TraceTypes.v ===== *)
(** * What any trace file can be read as

    [read_trace] on an arbitrary file: it ends, and a trace that it returns
    is well typed. *)

From S2P Require Import Prelude Mdriver TraceFile.

Definition is_int (x : Z) : Prop := - 2 ^ 31 <= x < 2 ^ 31.
Definition is_unsigned (x : Z) : Prop := 0 <= x < 2 ^ 32.

(** A request whose index, unless it is a [FREE], is at most [max]. *)
Definition op_typed (max : Z) (op : traceop_t) : Prop :=
  is_int (op_index op) /\ is_int (op_size op) /\ (op_type_of op = FREE \/ u32 (op_index op) <= max).

Definition uses_index (i : Z) (op : traceop_t) : Prop := op_type_of op <> FREE /\ u32 (op_index op) = i.

Record trace_typed (t : trace_t) : Prop := {
  ty_header : is_int (sugg_heapsize t) /\ is_int (num_ids t) /\ is_int (weight t);
  ty_count : num_ops t = Z.of_nat (length (ops t));
  ty_requests : Forall (op_typed (u32 (num_ids t - 1))) (ops t);
  ty_max : num_ids t = 1 \/ Exists (uses_index (u32 (num_ids t - 1))) (ops t);
  ty_arrays : blocks t = replicate (Z.to_nat (num_ids t)) None /\
    block_sizes t = replicate (Z.to_nat (num_ids t)) None;
}.

(** ** The conversions *)

Lemma skip_space_length s : (length (skip_space s) <= length s)%nat.
Proof. induction s as [|c s IH]; simpl; [lia|]. destruct (is_space c); simpl; lia. Qed.

Lemma skip_space_head s c t : skip_space s = c :: t -> is_space c = false.
Proof. induction s as [|c' s IH]; simpl; [done|]. destruct (is_space c') eqn:E; [done|]. by intros [= <- _]. Qed.

Lemma span_length f s a b : span f s = (a, b) -> (length a + length b = length s)%nat.
Proof.
  revert a b; induction s as [|c s IH]; intros a b; simpl; [by intros [= <- <-]|].
  destruct (f c); [|by intros [= <- <-]]. destruct (span f s) as [a' b'] eqn:E.
  intros [= <- <-]. simpl. by rewrite (IH a' b').
Qed.

Lemma scan_sign_length s b s' : scan_sign s = (b, s') -> (length s' <= length s)%nat.
Proof.
  unfold scan_sign. destruct s as [|c s]; [by intros [= _ <-]|].
  destruct (c =? 45); [intros [= _ <-]; simpl; lia|]. destruct (c =? 43); intros [= _ <-]; simpl; lia.
Qed.

Lemma digits_value_nonneg ds : Forall (fun c => is_digit c = true) ds -> 0 <= digits_value ds.
Proof.
  intros Hds. unfold digits_value. cut (forall v, 0 <= v -> 0 <= foldl (fun v c => 10 * v + (c - 48)) v ds); [by intros H; apply H|].
  induction Hds as [|c ds Hc _ IH]; intros v Hv; [done|]. apply IH.
  unfold is_digit in Hc. apply andb_prop in Hc as [Hc%Z.leb_le _]. lia.
Qed.

Lemma span_all f s a b : span f s = (a, b) -> Forall (fun c => f c = true) a.
Proof.
  revert a b; induction s as [|c s IH]; intros a b; simpl; [by intros [= <- _]|].
  destruct (f c) eqn:Hc; [|by intros [= <- _]]. destruct (span f s) as [a' b'] eqn:E.
  intros [= <- _]. constructor; [done|by eapply IH].
Qed.

(** [%u] gives an [unsigned], or overflows, and only moves forward. *)
Lemma scan_u_spec s :
  match scan_u s with
  | Ok (o, s') => (length s' <= length s)%nat /\ forall v, o = Matched v -> is_unsigned v
  | Fault e => e = Undefined
  end.
Proof.
  unfold scan_u. pose proof (skip_space_length s) as Hskip. destruct (skip_space s) as [|c t]; [simpl; split; [lia|done]|].
  destruct (scan_sign (c :: t)) as [neg s1] eqn:Hs1. apply scan_sign_length in Hs1.
  destruct (span is_digit s1) as [ds s2] eqn:Hspan. pose proof (span_length _ _ _ _ Hspan) as Hlen.
  pose proof (digits_value_nonneg _ (span_all _ _ _ _ Hspan)) as Hpos.
  destruct ds as [|d ds]; [split; [lia|done]|]. unfold guard_.
  destruct (Z.ltb_spec (digits_value (d :: ds)) (2 ^ 32)) as [Hlt|]; [|done]. simpl.
  split; [simpl in *; lia|]. intros v [= <-]. unfold is_unsigned. destruct neg; [|lia].
  unfold u32. apply Z.mod_pos_bound. lia.
Qed.

Lemma scan_d_spec s :
  match scan_d s with
  | Ok (o, _) => forall v, o = Matched v -> is_int v
  | Fault e => e = Undefined
  end.
Proof.
  unfold scan_d. destruct (skip_space s) as [|c t]; [done|].
  destruct (scan_sign (c :: t)) as [neg s1]. destruct (span is_digit s1) as [[|d ds] s2]; [done|].
  set (n := if neg then _ else _). unfold int_, fits_int.
  destruct ((- 2 ^ 31 <=? n) && (n <? 2 ^ 31)) eqn:Hn; [|done]. simpl. intros v [= <-].
  apply andb_prop in Hn as [H1%Z.leb_le H2%Z.ltb_lt]. done.
Qed.

(** [%s] takes at least a character. *)
Lemma scan_s_spec s :
  match scan_s s with
  | Ok (Some w, s') => w <> [] /\ (length s' < length s)%nat
  | Ok (None, _) => True
  | Fault e => e = Undefined
  end.
Proof.
  unfold scan_s. pose proof (skip_space_length s) as Hskip. pose proof (skip_space_head s) as Hhead.
  destruct (skip_space s) as [|c t]; [done|]. simpl span. rewrite (Hhead c t eq_refl). simpl negb. cbv iota.
  destruct (span _ t) as [a b] eqn:Hspan. apply span_length in Hspan. unfold guard_.
  destruct (_ <? MAXLINE); [|done]. simpl in *. split; [done|lia].
Qed.

Lemma scan_index_size_spec s i n :
  is_unsigned i -> is_unsigned n ->
  match scan_index_size s i n with
  | Ok (i', n', s') => is_unsigned i' /\ is_unsigned n' /\ (length s' <= length s)%nat
  | Fault e => e = Undefined
  end.
Proof.
  intros Hi Hn. unfold scan_index_size, mbind, result_bind. pose proof (scan_u_spec s) as H1.
  destruct (scan_u s) as [[[| |v] s1]|e]; [tauto|tauto| |done]. destruct H1 as [H1 Hv].
  pose proof (scan_u_spec s1) as H2. destruct (scan_u s1) as [[o s2]|e]; [|done]. destruct H2 as [H2 Ho].
  split_and!; [by apply Hv| |lia]. destruct o; simpl; auto.
Qed.

Lemma scan_index_d_spec s i :
  is_unsigned i ->
  match scan_index_d s i with
  | Ok (i', s') => is_unsigned i' /\ (length s' <= length s)%nat
  | Fault e => e = Undefined
  end.
Proof.
  intros Hi. unfold scan_index_d, mbind, result_bind. pose proof (scan_u_spec s) as H1.
  destruct (scan_u s) as [[[| |v] s1]|e]; [tauto|tauto| |done]. destruct H1 as [H1 Hv]. specialize (Hv v eq_refl).
  destruct s1 as [|c s1]; [done|]. simpl in H1. destruct (c =? 100); simpl; split; try done; lia.
Qed.

(** ** The reader *)

Record reader_typed (num_ops : Z) (r : reader) : Prop := {
  ry_index : is_unsigned (rd_index r) /\ is_unsigned (rd_size r) /\ is_unsigned (rd_max r);
  ry_ops : Forall (op_typed (rd_max r)) (rd_ops r);
  ry_max : rd_max r = 0 \/ Exists (uses_index (rd_max r)) (rd_ops r);
  ry_room : rd_ops r = [] \/ Z.of_nat (length (rd_ops r)) <= num_ops;
}.

Lemma u32_s32 x : is_unsigned x -> u32 (s32 x) = x.
Proof. unfold is_unsigned, u32, s32, wrap_u, wrap_s. intros Hx. change (32 - 1) with 31. dlia. Qed.

Lemma s32_int x : is_int (s32 x).
Proof. apply s32_range. Qed.

Lemma op_typed_mono m m' l : m <= m' -> Forall (op_typed m) l -> Forall (op_typed m') l.
Proof.
  intros Hm Hl. eapply Forall_impl; [exact Hl|]. intros op (H1 & H2 & [?|?]); split_and!; auto. right. lia.
Qed.

(** A request is stored where the array has room for it. *)
Lemma store_op_spec nops op l :
  match store_op nops op l with
  | Ok l' => l' = l ++ [op] /\ Z.of_nat (length l') <= nops
  | Fault e => e = Undefined
  end.
Proof.
  unfold store_op, guard_. destruct (Z.ltb_spec (Z.of_nat (length l)) nops) as [Hlt|]; [|done].
  simpl. split; [done|]. rewrite length_app. simpl. lia.
Qed.

Lemma reader_typed_stored nops r s l' index size m ty n :
  reader_typed nops r -> l' = rd_ops r ++ [TraceOp ty (s32 index) n] -> Z.of_nat (length l') <= nops ->
  is_unsigned index -> is_unsigned size -> is_int n ->
  m = match ty with FREE => rd_max r | _ => Z.max (rd_max r) index end ->
  reader_typed nops (Reader s l' index size m).
Proof.
  intros [(Hi & Hs & Hm) Hops Hmax _] -> Hroom Hindex Hsize Hn ->.
  assert (Hmax' : Z.max (rd_max r) index = rd_max r \/ Z.max (rd_max r) index = index) by lia.
  split; simpl.
  - unfold is_unsigned in *. destruct ty; lia.
  - apply Forall_app. split; [eapply op_typed_mono; [|exact Hops]; destruct ty; lia|]. constructor; [|done].
    split_and!; [apply s32_int|done|]. simpl. rewrite u32_s32 by done. destruct ty; [right; lia|by left|right; lia].
  - assert (Huse : ty <> FREE -> uses_index index (TraceOp ty (s32 index) n)).
    { intros Hty. split; [done|]. simpl. by rewrite u32_s32. }
    rewrite Exists_app, Exists_cons.
    destruct ty; [|tauto|]; (destruct Hmax' as [->| ->]; [tauto|right; right; left; by apply Huse]).
  - by right.
Qed.

(** One turn. *)
Lemma read_op_spec junk nops r :
  is_int junk -> reader_typed nops r ->
  match read_op junk nops r with
  | Ok (inl r') => reader_typed nops r' /\ (length (rd_input r') < length (rd_input r))%nat
  | Ok (inr r') => r' = r
  | Fault e => e = Undefined \/ e = Exited 1
  end.
Proof.
  intros Hjunk Hr. pose proof (ry_index _ _ Hr) as (Hi & Hs & Hm). unfold read_op, mbind, result_bind.
  pose proof (scan_s_spec (rd_input r)) as Hscan. destruct (scan_s (rd_input r)) as [[[w|] s]|e]; [|done|by left].
  destruct Hscan as [Hw Hlen]. destruct w as [|c w]; [done|].
  change (arr_get (c :: w) 0) with (Ok c : result Z). cbv iota beta.
  destruct ((c =? 97) || (c =? 114)) eqn:Hc; [|destruct (c =? 102); [|by right]].
  - pose proof (scan_index_size_spec s (rd_index r) (rd_size r) Hi Hs) as H1.
    destruct (scan_index_size s (rd_index r) (rd_size r)) as [[[i n] s1]|e]; [|by left]. destruct H1 as (Hi1 & Hn1 & Hl1).
    set (op := TraceOp _ _ _). pose proof (store_op_spec nops op (rd_ops r)) as H2.
    destruct (store_op nops op (rd_ops r)) as [l|e]; [|by left]. destruct H2 as [-> Hroom].
    split; [|simpl; lia]. eapply reader_typed_stored; try done; [apply s32_int|].
    rewrite Z.gtb_ltb. destruct (c =? 97); destruct (Z.ltb_spec (rd_max r) i); lia.
  - pose proof (scan_index_d_spec s (rd_index r) Hi) as H1.
    destruct (scan_index_d s (rd_index r)) as [[i s1]|e]; [|by left]. destruct H1 as (Hi1 & Hl1).
    set (op := TraceOp _ _ _). pose proof (store_op_spec nops op (rd_ops r)) as H2.
    destruct (store_op nops op (rd_ops r)) as [l|e]; [|by left]. destruct H2 as [-> Hroom].
    split; [|simpl; lia]. by eapply reader_typed_stored.
Qed.

(** All turns: the characters that remain are a measure. *)
Lemma read_ops_spec junk nops s :
  is_int junk ->
  match while (Pos.of_succ_nat (length s)) (read_op junk nops) (Reader s [] 0 (u32 junk) 0) with
  | Ok r => reader_typed nops r
  | Fault e => e = Undefined \/ e = Exited 1
  end.
Proof.
  intros Hjunk. apply (while_rule (fun n r => n = length (rd_input r) /\ reader_typed nops r)
    (fun o => match o with Ok r => reader_typed nops r | Fault e => e = Undefined \/ e = Exited 1 end) _ _ (length s)).
  - intros n r [-> Hr]. pose proof (read_op_spec junk nops r Hjunk Hr) as Hop.
    destruct (read_op junk nops r) as [[r'|r']|e]; [|by subst|done]. destruct Hop as [Hr' Hlt]. by exists (length (rd_input r')).
  - split; [done|]. split; simpl.
    + unfold is_unsigned. split_and!; try lia; unfold u32; apply Z.mod_pos_bound; lia.
    + done.
    + by left.
    + by left.
  - rewrite SuccNat2Pos.id_succ. lia.
Qed.

Lemma scan_field_spec junk s :
  is_int junk ->
  match scan_field junk s with
  | Ok (v, _) => is_int v
  | Fault e => e = Undefined
  end.
Proof.
  intros Hjunk. unfold scan_field, mbind, result_bind. pose proof (scan_d_spec s) as H.
  destruct (scan_d s) as [[o s']|e]; [|done]. destruct o; simpl; [done|done|by apply H].
Qed.

(** ** Property *)



(** The index of a [FREE] may be outside the arrays. *)
Lemma free_index_unchecked :
  exists t, read_trace 77 true (Some [48; 10; 49; 10; 49; 10; 49; 10; 102; 32; 55; 10]) = Ok t /\
    num_ids t = 1 /\ ops t = [TraceOp FREE 7 77].
Proof. eexists. vm_compute. by split_and!. Qed.
