(* ===== verification/DriverMain.v ===== *)
(** * The driver program ([main] of malloclab/mdriver.c)

    The options, the evaluation of libc's allocator, the evaluation of the
    allocator under test, the scores and the final report, over the system
    the program runs on. *)

From Stdlib Require Import String.
From stdpp Require Import strings.
From S2P Require Import Prelude Bytes Memlib Doubles Allocator Mdriver TraceFile Clock Fcyc.

(** ** The system *)

(** What the driver asks of the C library besides the time: its allocator, on
    pointers of its own; whether an allocation for the driver's own records is
    served; the block that backs the simulated memory, null if there is none. *)
Class Host (W : Type) := {
  host_machine :: Machine W;
  libc_malloc : Z -> W -> result (Z * W);
  libc_realloc : Z -> Z -> W -> result (Z * W);
  libc_free : Z -> W -> result W;
  grant : W -> bool * W;
  region : W -> Z * W;
}.

(** ** Data *)

(** What is printed on standard output, up to the layout of numbers. *)
Inductive line :=
  | Text (s : string)
  | Text_name (s : string) (name : list Z)
  | Table_head (perfindex : bool)
  | Table_row (i : Z) (perfindex : bool) (st : stats_t)
  | Weights (util thru : double)
  | Passed (numcorrect num_tracefiles : Z) (perfindex : double)
  | Terminated (errors : Z)
  | Correct (numcorrect : Z)
  | Perfidx (perfindex : double).

(** The variables the options set; a cell of [tracefiles] is null when
    [strdup] failed. *)
Record options := Options {
  verbose : Z;
  autograder : bool;
  tracedir : list Z;
  tracefiles : option (list (option (list Z)));
  num_tracefiles : Z;
}.

(** The system, the driver's state and the output so far. *)
Record prog (W : Type) := Prog {
  p_sys : W * driver;
  p_out : list line;
}.
Arguments Prog {W} p_sys p_out.
Arguments p_sys {W} _.
Arguments p_out {W} _.

Definition chars (s : string) : list Z := Z.of_nat ∘ Ascii.nat_of_ascii <$> list_ascii_of_string s.

Definition TRACEDIR : list Z := chars "./traces/".

Definition DEFAULT_TRACEFILES : list string :=
  ["amptjp-bal.rep"; "cccp-bal.rep"; "cp-decl-bal.rep"; "expr-bal.rep";
   "coalescing-bal.rep"; "random-bal.rep"; "random2-bal.rep"; "binary-bal.rep";
   "binary2-bal.rep"; "realloc-bal.rep"; "realloc2-bal.rep"]%string.

Definition default_tracefiles : list (option (list Z)) := Some ∘ chars <$> DEFAULT_TRACEFILES.

Definition default_options : options := Options 0 false TRACEDIR None 0.

Definition UTIL_WEIGHT : double := d_lit 60 100.

(** What [calloc] leaves in an array of [stats_t]. *)
Definition zero_stats : stats_t := Stats dzero 0 dzero dzero dzero 0.

(** ** Scores *)

(** [calculate_perfindex] on one trace: [perfindex] and [thru_ratio]. *)
Definition score (libc st : stats_t) : result stats_t :=
  if negb (st_valid st =? 0) then
    let avg_mm_throughput := ddiv (st_ops st) (st_secs st) in
    let avg_libc_throughput := ddiv (st_ops libc) (st_secs libc) in
    let p1 := dmul UTIL_WEIGHT (st_util st) in
    let p2 :=
      if dlt avg_libc_throughput avg_mm_throughput then dsub (d_of_Z 1) UTIL_WEIGHT
      else dmul (dsub (d_of_Z 1) UTIL_WEIGHT) (ddiv avg_mm_throughput avg_libc_throughput) in
    perfindex ← int_of_double (dmul (dadd p1 p2) (d_of_Z 100));
    Ok (Stats (st_ops st) (st_valid st) (st_secs st) (st_util st)
          (ddiv avg_mm_throughput avg_libc_throughput) perfindex)
  else Ok (Stats (st_ops st) (st_valid st) (st_secs st) (st_util st) dzero 0).

(** One turn of its loop. *)
Definition perf_step (libc_stats stats : list stats_t) (i : Z) : result (list stats_t) :=
  st ← arr_get stats i;
  libc ← (if negb (st_valid st =? 0) then arr_get libc_stats i else Ok zero_stats);
  st ← score libc st;
  arr_set stats i st.

Definition calculate_perfindex (n : Z) (libc_stats stats : list stats_t)
    : result (list stats_t) :=
  foldM (perf_step libc_stats) stats (seqZ 0 n).

(** The loop of [main] that counts the traces passed and adds up the scores. *)
Definition tally_step (stats : list stats_t) (acc : Z * double) (i : Z) : result (Z * double) :=
  let '(numcorrect, perfindex) := acc in
  st ← arr_get stats i;
  if negb (st_valid st =? 0) then
    numcorrect ← int_ (numcorrect + 1);
    Ok (numcorrect, dadd perfindex (d_of_Z (st_perfindex st)))
  else Ok (numcorrect, perfindex).

Section driver.
Context {W : Type} `{Host W} {A : Allocator}.
Context (range_malloc : list range_t -> bool).
(** What uninitialised memory holds, and the text of a file by its path. *)
Context (junk : Z) (fopen : list Z -> option (list Z)).

(** ** Parts of the state *)

Definition on_sys {B} (c : ST (W * driver) B) : ST (prog W) B := fun s =>
  match c (p_sys s) with
  | Ok (b, sys) => Ok (b, Prog sys (p_out s))
  | Fault e => Fault e
  end.

Definition on_driver {B} (c : ST driver B) : ST (W * driver) B := fun '(w, d) =>
  match c d with
  | Ok (b, d) => Ok (b, (w, d))
  | Fault e => Fault e
  end.

Definition on_host {B} (c : W -> result (B * W)) : ST (W * driver) B := fun '(w, d) =>
  match c w with
  | Ok (b, w) => Ok (b, (w, d))
  | Fault e => Fault e
  end.

(** The timers run a function on the whole state. *)
#[export] Instance sys_machine : Machine (W * driver) := {
  built_for := built_for;
  cycles := fun '(w, d) => let '(v, w) := cycles w in (v, (w, d));
  tms_utime := fun '(w, d) => let '(v, w) := tms_utime w in (v, (w, d));
  gettimeofday := fun '(w, d) => let '(s, us, w) := gettimeofday w in (s, us, (w, d));
  sleep := fun t '(w, d) => (sleep t w, d);
  malloc_ints := fun n '(w, d) => let '(v, w) := malloc_ints n w in (v, (w, d));
}.

Definition grants : ST (prog W) bool := on_sys (on_host (fun w => Ok (grant w))).

Definition emit (l : line) : ST (prog W) unit := fun s => Ok (tt, Prog (p_sys s) (p_out s ++ [l])).

Definition emit_if (b : bool) (l : line) : ST (prog W) unit := if b then emit l else mret tt.

(** ** libc's allocator *)

Definition libc_op (trace : trace_t) (tracenum : Z) (_ : unit) (i : Z) : ST (W * driver) unit :=
  op ← lift (arr_get (ops trace) i);
  match op_type_of op with
  | ALLOC =>
      p ← on_host (libc_malloc (u64 (op_size op)));
      if p =? NULL then
        on_driver (malloc_error tracenum i Err_malloc_failed);; unix_error
      else on_driver (set_block (op_index op) p)
  | REALLOC =>
      oldp ← on_driver (get_block (op_index op));
      newp ← on_host (libc_realloc oldp (u64 (op_size op)));
      if newp =? NULL then
        on_driver (malloc_error tracenum i Err_realloc_failed);; unix_error
      else on_driver (set_block (op_index op) newp)
  | FREE =>
      p ← on_driver (get_block (op_index op));
      on_host (fun w => w ← libc_free p w; Ok (tt, w))
  end.

Definition eval_libc_valid (trace : trace_t) (tracenum : Z) : ST (W * driver) Z :=
  foldM (libc_op trace tracenum) tt (seqZ 0 (num_ops trace));; mret 1.

Definition libc_speed_op (trace : trace_t) (_ : unit) (i : Z) : ST (W * driver) unit :=
  op ← lift (arr_get (ops trace) i);
  match op_type_of op with
  | ALLOC =>
      p ← on_host (libc_malloc (u64 (op_size op)));
      if p =? NULL then unix_error else on_driver (set_block (op_index op) p)
  | REALLOC =>
      oldp ← on_driver (get_block (op_index op));
      newp ← on_host (libc_realloc oldp (u64 (op_size op)));
      if newp =? NULL then unix_error else on_driver (set_block (op_index op) newp)
  | FREE =>
      block ← on_driver (get_block (op_index op));
      on_host (fun w => w ← libc_free block w; Ok (tt, w))
  end.

Definition eval_libc_speed (trace : trace_t) : ST (W * driver) unit :=
  foldM (libc_speed_op trace) tt (seqZ 0 (num_ops trace)).

(** A function as the timers take it. *)
Definition timed (f : ST (W * driver) unit) (s : W * driver) : result (W * driver) :=
  r ← f s; Ok (snd r).

(** ** Options *)

(** [strcpy] and [strcat] into buffers of [MAXLINE] characters. *)
Definition fits_line (s : list Z) : result unit := guard_ (Z.of_nat (length s) <? MAXLINE).

Definition slash : Z := 47.

Definition set_tracedir (optarg : list Z) : result (list Z) :=
  fits_line optarg;;
  c ← arr_get optarg (Z.of_nat (length optarg) - 1);
  let dir := if negb (c =? slash) then optarg ++ [slash] else optarg in
  fits_line dir;; Ok dir.

(** One turn of the loop over the options that [getopt] returns; [usage]
    prints on standard error. *)
Definition getopt_step (o : options) (opt : Z * list Z) : ST (prog W) options :=
  let '(c, optarg) := opt in
  if c =? 103 then
    mret (Options (verbose o) true (tracedir o) (tracefiles o) (num_tracefiles o))
  else if c =? 102 then
    ok ← grants;
    if negb ok then unix_error
    else
      ok ← grants;
      mret (Options (verbose o) (autograder o) (chars "./")
              (Some [if ok : bool then Some optarg else None]) 1)
  else if c =? 116 then
    if num_tracefiles o =? 1 then mret o
    else
      dir ← lift (set_tracedir optarg);
      mret (Options (verbose o) (autograder o) dir (tracefiles o) (num_tracefiles o))
  else if c =? 118 then
    mret (Options 1 (autograder o) (tracedir o) (tracefiles o) (num_tracefiles o))
  else if c =? 86 then
    mret (Options 2 (autograder o) (tracedir o) (tracefiles o) (num_tracefiles o))
  else if c =? 104 then lift (Fault (Exited 0))
  else lift (Fault (Exited 1)).

(** ** Traces *)

(** [read_trace(tracedir, tracefiles[i])]; the trace's arrays become the
    driver's. *)
Definition load_trace (o : options) (files : list (option (list Z))) (i : Z)
    : ST (prog W) trace_t :=
  name ← lift (arr_get files i);
  emit_if (1 <? verbose o) (Text_name "Reading tracefile: " (default [] name));;
  ok ← grants;
  name ← lift (need name);
  lift (fits_line (tracedir o ++ name));;
  trace ← lift (read_trace junk ok (fopen (tracedir o ++ name)));
  on_sys (on_driver (modify (fun d =>
    with_blocks (blocks trace) (with_sizes (block_sizes trace) d))));;
  mret trace.

Definition free_trace : ST (prog W) unit :=
  on_sys (on_driver (modify (fun d => with_blocks [] (with_sizes [] d)))).

(** One turn of the loop that evaluates libc. *)
Definition libc_trace (o : options) (files : list (option (list Z)))
    (libc_stats : list stats_t) (i : Z) : ST (prog W) (list stats_t) :=
  trace ← load_trace o files i;
  emit_if (1 <? verbose o) (Text "Checking libc malloc for correctness, ");;
  valid ← on_sys (eval_libc_valid trace i);
  secs ← (if negb (valid =? 0) then
            emit_if (1 <? verbose o) (Text "and performance.");;
            on_sys (fsecs (timed (eval_libc_speed trace)))
          else mret dzero);
  libc_stats ← lift (arr_set libc_stats i
                       (Stats (d_of_Z (num_ops trace)) valid secs dzero dzero 0));
  free_trace;;
  mret libc_stats.

(** One turn of the loop that evaluates the allocator. *)
Definition mm_trace (o : options) (files : list (option (list Z)))
    (mm_stats : list stats_t) (i : Z) : ST (prog W) (list stats_t) :=
  trace ← load_trace o files i;
  emit_if (1 <? verbose o) (Text "Checking mm_malloc for correctness, ");;
  valid ← on_sys (on_driver (eval_mm_valid range_malloc trace i));
  st ← (if negb (valid =? 0) then
          emit_if (1 <? verbose o) (Text "efficiency, ");;
          util ← on_sys (on_driver (eval_mm_util trace));
          emit_if (1 <? verbose o) (Text "and performance.");;
          secs ← on_sys (fsecs (timed (on_driver (eval_mm_speed trace))));
          mret (Stats (d_of_Z (num_ops trace)) valid secs util dzero 0)
        else mret (Stats (d_of_Z (num_ops trace)) valid dzero dzero dzero 0));
  mm_stats ← lift (arr_set mm_stats i st);
  free_trace;;
  mret mm_stats.

(** ** The report *)

(** The sums that [printresults] also computes are not used. *)
Definition printresults (n : Z) (stats : list stats_t) (perfindex : bool) : ST (prog W) unit :=
  emit (Table_head perfindex);;
  foldM (fun _ i => st ← lift (arr_get stats i); emit (Table_row i perfindex st)) tt (seqZ 0 n).

(** [main] from the scores on. *)
Definition final_report (o : options) (n : Z) (libc_stats mm_stats : list stats_t) : ST (prog W) Z :=
  mm_stats ← lift (calculate_perfindex n libc_stats mm_stats);
  (if negb (verbose o =? 0) then
     emit (Text "Results for mm malloc:");;
     printresults n mm_stats true
   else mret tt);;
  '(numcorrect, perfindex) ← lift (foldM (tally_step mm_stats) (0, dzero) (seqZ 0 n));
  let perfindex := ddiv perfindex (d_of_Z n) in
  emit (Weights (dmul UTIL_WEIGHT (d_of_Z 100))
                (dmul (dsub (d_of_Z 1) UTIL_WEIGHT) (d_of_Z 100)));;
  emit (Passed numcorrect n perfindex);;
  s ← get;
  let errors := d_errors (snd (p_sys s)) in
  emit_if (negb (errors =? 0)) (Terminated errors);;
  (if autograder o then emit (Correct numcorrect);; emit (Perfidx perfindex) else mret tt);;
  on_sys (on_driver (on_mem mem_deinit));;
  on_sys (on_driver clear_ranges);;
  mret 0.

(** ** [main]

    [opts] is what [getopt] returns in turn.  The result is the exit code. *)
(** [init_fsecs] as config.h sets it: [gettimeofday] needs no preparation. *)
Definition init_fsecs (verbose : Z) : ST (prog W) unit :=
  emit_if (negb (verbose =? 0)) (Text "Measuring performance with gettimeofday().").

Definition main (opts : list (Z * list Z)) : ST (prog W) Z :=
  o ← foldM getopt_step default_options opts;
  '(files, n) ← (match tracefiles o with
                 | None =>
                     emit (Text_name "Using default tracefiles in " (tracedir o));;
                     mret (default_tracefiles, Z.of_nat (length default_tracefiles))
                 | Some files => mret (files, num_tracefiles o)
                 end);
  init_fsecs (verbose o);;
  emit_if (1 <? verbose o) (Text "Testing libc malloc");;
  ok ← grants;
  if negb ok then unix_error
  else
    libc_stats ← foldM (libc_trace o files) (replicate (Z.to_nat n) zero_stats) (seqZ 0 n);
    (if negb (verbose o =? 0) then
       emit (Text "Results for libc malloc:");;
       printresults n libc_stats false
     else mret tt);;
    emit_if (1 <? verbose o) (Text "Testing mm malloc");;
    ok ← grants;
    if negb ok then unix_error
    else
      r ← on_sys (on_host (fun w => Ok (region w)));
      on_sys (on_driver (on_mem (mem_init r)));;
      mm_stats ← foldM (mm_trace o files) (replicate (Z.to_nat n) zero_stats) (seqZ 0 n);
      final_report o n libc_stats mm_stats.
End driver.
