(* ===== verification/DriverSpec.v ===== *)
(** * Properties of the driver program *)

From Stdlib Require Import String SpecFloat.
From S2P Require Import Prelude Bytes Memlib Doubles Allocator MmNaive Mdriver.
From S2P Require Import TraceFile Clock Fcyc DriverMain.

(** ** Scores *)

(** The scores of all traces, in order. *)
Fixpoint rate_all (libc_stats stats : list stats_t) : result (list stats_t) :=
  match libc_stats, stats with
  | l :: libc_stats, st :: stats =>
      st ← score l st; stats ← rate_all libc_stats stats; Ok (st :: stats)
  | _, _ => Ok []
  end.

Lemma score_invalid l l' st : st_valid st = 0 -> score l st = score l' st.
Proof. intros Hv. unfold score. by rewrite Hv. Qed.

(** The next value of an array whose first cells are known. *)
Lemma arr_get_middle {B} (a : list B) x b i :
  i = Z.of_nat (length a) -> arr_get (a ++ x :: b) i = Ok x.
Proof. intros ->. apply arr_get_ok; [lia|]. rewrite Nat2Z.id. by rewrite list_lookup_middle. Qed.

Lemma arr_set_middle {B} (a : list B) x y b i :
  i = Z.of_nat (length a) -> arr_set (a ++ x :: b) i y = Ok (a ++ y :: b).
Proof.
  intros ->. rewrite arr_set_ok by (rewrite length_app; simpl; lia). rewrite Nat2Z.id.
  by rewrite insert_app_r_alt, Nat.sub_diag by lia.
Qed.

Lemma result_bind_ret {B} (m : result B) : (x ← m; Ok x) = m.
Proof. by destruct m. Qed.

Lemma perf_step_run lpre l libc_stats pre st stats :
  length lpre = length pre ->
  perf_step (lpre ++ l :: libc_stats) (pre ++ st :: stats) (Z.of_nat (length pre)) =
  (st ← score l st; Ok (pre ++ st :: stats)).
Proof.
  intros Hpre. unfold perf_step.
  rewrite (arr_get_middle pre) by done. cbn [mbind result_bind].
  destruct (Z.eqb_spec (st_valid st) 0) as [Hv|Hv]; simpl negb; cbv iota; cbn [mbind result_bind].
  - rewrite (score_invalid _ l) by done. destruct (score l st); [|done].
    cbn [mbind result_bind]. by rewrite arr_set_middle.
  - rewrite arr_get_middle by (by rewrite Hpre). cbn [mbind result_bind].
    destruct (score l st); [|done]. cbn [mbind result_bind]. by rewrite arr_set_middle.
Qed.

Lemma perfindex_run lpre libc_stats pre stats :
  length lpre = length pre -> length libc_stats = length stats ->
  foldM (perf_step (lpre ++ libc_stats)) (pre ++ stats)
    (seqZ (Z.of_nat (length pre)) (Z.of_nat (length stats))) =
  (l ← rate_all libc_stats stats; Ok (pre ++ l)).
Proof.
  revert lpre pre libc_stats; induction stats as [|st stats IH];
    intros lpre pre [|l libc_stats] Hpre Hlen; try done.
  simpl length. rewrite seqZ_cons by lia. cbn [foldM rate_all].
  rewrite perf_step_run by done.
  destruct (score l st) as [st'|]; [|done]. cbn [mbind result_bind].
  replace (Z.succ (Z.of_nat (length pre))) with (Z.of_nat (length (pre ++ [st'])))
    by (rewrite length_app; simpl; lia).
  replace (Z.pred (Z.of_nat (S (length stats)))) with (Z.of_nat (length stats)) by lia.
  specialize (IH (lpre ++ [l]) (pre ++ [st']) libc_stats).
  rewrite <- !app_assoc, !length_app in IH. cbn [app length] in IH.
  rewrite length_app. cbn [length]. rewrite IH by (simpl in Hlen; lia).
  destruct (rate_all libc_stats stats) as [stats'|]; [|done]. cbn [mbind result_bind].
  by rewrite <- app_assoc.
Qed.

Lemma calculate_run libc_stats stats :
  length libc_stats = length stats ->
  calculate_perfindex (Z.of_nat (length stats)) libc_stats stats = rate_all libc_stats stats.
Proof.
  intros Hlen. pose proof (perfindex_run [] libc_stats [] stats eq_refl Hlen) as H.
  cbn [app length] in H. unfold calculate_perfindex. change (Z.of_nat 0) with 0 in H. rewrite H.
  by destruct (rate_all libc_stats stats).
Qed.

(** What a score depends on. *)
Definition rated (l st st' : stats_t) : Prop :=
  st_ops st' = st_ops st /\ st_valid st' = st_valid st /\
  st_secs st' = st_secs st /\ st_util st' = st_util st /\
  (st_valid st = 0 -> st_perfindex st' = 0 /\ st_thru_ratio st' = dzero) /\
  (st_valid st <> 0 ->
     st_thru_ratio st' =
       ddiv (ddiv (st_ops st) (st_secs st)) (ddiv (st_ops l) (st_secs l)) /\
     int_of_double (dmul (dadd (dmul UTIL_WEIGHT (st_util st))
       (if dlt (ddiv (st_ops l) (st_secs l)) (ddiv (st_ops st) (st_secs st))
        then dsub (d_of_Z 1) UTIL_WEIGHT
        else dmul (dsub (d_of_Z 1) UTIL_WEIGHT) (st_thru_ratio st'))) (d_of_Z 100)) =
     Ok (st_perfindex st')).

Lemma score_rated l st st' : score l st = Ok st' -> rated l st st'.
Proof.
  unfold score, rated. destruct (Z.eqb_spec (st_valid st) 0) as [Hv|Hv]; simpl negb; cbv iota.
  - intros [= <-]. repeat (split; [reflexivity|]). split; [by split|]. intros H. contradiction.
  - unfold mbind, result_bind. destruct (int_of_double _) as [k|] eqn:E; [|done].
    intros [= <-]. repeat (split; [reflexivity|]). split; [intros H; contradiction|].
    split; [reflexivity|exact E].
Qed.

Lemma int_of_double_fault d e : int_of_double d = Fault e -> e = Undefined.
Proof.
  unfold int_of_double, int_. destruct d; try congruence. case_match; congruence.
Qed.

Lemma score_fault l st e : score l st = Fault e -> e = Undefined.
Proof.
  unfold score. destruct (negb _); [|done]. unfold mbind, result_bind.
  destruct (int_of_double _) eqn:E; [done|]. intros [= <-]. by eapply int_of_double_fault.
Qed.

Lemma rate_all_ok libc_stats stats l :
  length libc_stats = length stats -> rate_all libc_stats stats = Ok l ->
  length l = length stats /\
  forall i lb st, libc_stats !! i = Some lb -> stats !! i = Some st ->
    exists st', l !! i = Some st' /\ rated lb st st'.
Proof.
  revert libc_stats l; induction stats as [|st stats IH]; intros [|lb libc_stats] l Hlen; try done.
  { intros [= <-]. split; [done|]. intros i ? ? H. by rewrite lookup_nil in H. }
  cbn [rate_all]. unfold mbind, result_bind.
  destruct (score lb st) as [st'|] eqn:Hs; [|done].
  destruct (rate_all libc_stats stats) as [l'|] eqn:Hr; [|done]. intros [= <-].
  destruct (IH libc_stats l' ltac:(simpl in Hlen; lia) Hr) as [Hl IHr].
  split; [simpl; lia|]. intros [|i]; simpl; [|apply IHr].
  intros ? ? [= <-] [= <-]. exists st'. split; [done|by apply score_rated].
Qed.

Lemma rate_all_fault libc_stats stats e : rate_all libc_stats stats = Fault e -> e = Undefined.
Proof.
  revert libc_stats; induction stats as [|st stats IH]; intros [|lb libc_stats]; try done.
  cbn [rate_all]. unfold mbind, result_bind.
  destruct (score lb st) eqn:Hs; [|intros [= <-]; by eapply score_fault].
  destruct (rate_all libc_stats stats) eqn:Hr; [done|]. intros [= <-]. by eapply IH.
Qed.

(** Zero seconds give an infinite throughput, and two of them no score. *)
Lemma score_no_time l st :
  st_valid st <> 0 -> st_secs st = dzero -> st_secs l = dzero ->
  (exists m e, st_ops st = S754_finite false m e) ->
  (exists m e, st_ops l = S754_finite false m e) ->
  score l st = Fault Undefined.
Proof.
  intros Hv Hs Hl (m & e & Ho) (m' & e' & Ho'). unfold score.
  rewrite (proj2 (Z.eqb_neq _ _)), Ho, Ho', Hs, Hl by done. simpl negb. cbv iota.
  change (ddiv (S754_finite false m e) dzero) with (S754_infinity false).
  change (ddiv (S754_finite false m' e') dzero) with (S754_infinity false).
  set (p1 := dmul UTIL_WEIGHT (st_util st)).
  assert (E : dmul (dadd p1 (if dlt (S754_infinity false) (S754_infinity false)
      then dsub (d_of_Z 1) UTIL_WEIGHT
      else dmul (dsub (d_of_Z 1) UTIL_WEIGHT)
        (ddiv (S754_infinity false) (S754_infinity false)))) (d_of_Z 100) = S754_nan).
  { replace (if dlt _ _ then _ else _) with S754_nan by (by vm_compute).
    by destruct p1. }
  by rewrite E.
Qed.

Lemma rate_all_no_score libc_stats stats i lb st :
  libc_stats !! i = Some lb -> stats !! i = Some st -> score lb st = Fault Undefined ->
  rate_all libc_stats stats = Fault Undefined.
Proof.
  revert libc_stats i; induction stats as [|st0 stats IH]; intros [|lb0 libc_stats] i Hl Hst Hs;
    try (by rewrite lookup_nil in Hl); try (by rewrite lookup_nil in Hst).
  cbn [rate_all]. unfold mbind, result_bind. destruct i as [|i]; simpl in Hl, Hst.
  - injection Hl as ->. injection Hst as ->. by rewrite Hs.
  - destruct (score lb0 st0) as [?|e] eqn:Hs0.
    + by rewrite (IH libc_stats i Hl Hst Hs).
    + by rewrite (score_fault _ _ _ Hs0).
Qed.


Definition example_row (secs quarters valid : Z) : stats_t :=
  Stats (d_of_Z 12) valid (d_of_Z secs) (d_lit quarters 4) dzero 0.

