(* ===== verification/DriverRun.v ===== *)
(** * Runs of the driver program

    The contract of the system, and what every part of [main] does on it with
    an allocator that meets the contract of [mm.h]: the program passes every
    trace. *)

From Stdlib Require Import String.
From S2P Require Import Prelude Bytes Memlib Doubles Allocator MmNaive Mdriver.
From S2P Require Import TraceFile Clock Fcyc DriverMain DriverSpec.

(** A system that does not run out of memory: libc serves requests with
    pointers that are not in use, takes back what it gave, and the clock gives
    times in range. *)
Class HostSpec (W : Type) `{Host W} := {
  host_inv : W -> gset Z -> Prop;
  host_malloc_spec w L n :
    host_inv w L -> 0 < n < 2 ^ 31 ->
    exists p w', libc_malloc n w = Ok (p, w') /\ p <> NULL /\ p ∉ L /\ host_inv w' ({[p]} ∪ L);
  host_realloc_spec w L p n :
    host_inv w L -> p ∈ L -> 0 < n < 2 ^ 31 ->
    exists q w', libc_realloc p n w = Ok (q, w') /\ q <> NULL /\ q ∉ L ∖ {[p]} /\
      host_inv w' ({[q]} ∪ L ∖ {[p]});
  host_free_spec w L p :
    host_inv w L -> p ∈ L -> exists w', libc_free p w = Ok w' /\ host_inv w' (L ∖ {[p]});
  host_grant_spec w L : host_inv w L -> exists w', grant w = (true, w') /\ host_inv w' L;
  host_region_spec w L :
    host_inv w L ->
    exists r w', region w = (r, w') /\ host_inv w' L /\
      0 < r /\ r mod 16 = 0 /\ r + MAX_HEAP < 2 ^ 47;
  host_time_spec w L :
    host_inv w L ->
    exists s us w', gettimeofday w = (s, us, w') /\ host_inv w' L /\
      0 <= s < 2 ^ 62 /\ 0 <= us < 2 ^ 62;
}.

Lemma trace_ok_weaken cost nids live avail l :
  trace_ok true cost nids live avail l = true -> trace_ok false cost nids live avail l = true.
Proof.
  revert live avail; induction l as [|op l IH]; intros live avail; [done|]. cbn [trace_ok].
  rewrite !andb_true_iff. intros [Hi H]. split; [exact Hi|].
  destruct (op_type_of op); rewrite !andb_true_iff in H |- *.
  - destruct H as [H Hl]. split; [exact H|by apply IH].
  - destruct H as [H Hl]. split; [exact H|by apply IH].
  - destruct H as [[H [Hin _]] Hl]. split; [split; [exact H|by split]|by apply IH].
Qed.

Section runs.
Context {W : Type} `{HostSpec W}.

(** ** libc's allocator *)

(** The timed run makes the calls of the checking run. *)
Lemma libc_speed_agrees trace tracenum i s s' :
  libc_op trace tracenum tt i s = Ok (tt, s') -> libc_speed_op trace tt i s = Ok (tt, s').
Proof.
  unfold libc_op, libc_speed_op. intros Hrun.
  run_inv Hrun op s0 Hop. rewrite (bind_Ok _ _ _ _ _ Hop). destruct (op_type_of op).
  - run_inv Hrun p s1 Hp. rewrite (bind_Ok _ _ _ _ _ Hp).
    destruct (p =? NULL); [|done]. by run_inv Hrun u s2 Hu.
  - done.
  - run_inv Hrun p s1 Hp. rewrite (bind_Ok _ _ _ _ _ Hp).
    run_inv Hrun q s2 Hq. rewrite (bind_Ok _ _ _ _ _ Hq).
    destruct (q =? NULL); [|done]. by run_inv Hrun u s3 Hu.
Qed.

Lemma libc_speed_loop trace tracenum l s s' :
  foldM (libc_op trace tracenum) tt l s = Ok (tt, s') ->
  foldM (libc_speed_op trace) tt l s = Ok (tt, s').
Proof.
  revert s; induction l as [|i l IH]; intros s Hrun; [done|]. cbn [foldM] in *.
  run_inv Hrun u s1 Hop. destruct u. apply libc_speed_agrees in Hop.
  rewrite (bind_Ok _ _ _ _ _ Hop). by apply IH.
Qed.

(** The block of every live index is libc's, and no two indices share one. *)
Record libc_inv (nids : Z) (live : gmap Z Z) (L : gset Z) (w : W) (bs : list (option Z)) : Prop := {
  li_host : host_inv w L;
  li_blocks : Z.of_nat (length bs) = nids;
  li_live i : is_Some (live !! i) ->
    0 <= i < nids /\ exists p, bs !! Z.to_nat i = Some (Some p) /\ p ∈ L;
  li_inj i j p : is_Some (live !! i) -> is_Some (live !! j) ->
    bs !! Z.to_nat i = Some (Some p) -> bs !! Z.to_nat j = Some (Some p) -> i = j;
}.

(** [blocks[i] = q] *)
Lemma libc_inv_set nids live L w bs i n q :
  host_inv w ({[q]} ∪ L) -> Z.of_nat (length bs) = nids -> 0 <= i < nids -> q ∉ L ->
  (forall j, j <> i -> is_Some (live !! j) ->
     0 <= j < nids /\ exists p, bs !! Z.to_nat j = Some (Some p) /\ p ∈ L) ->
  (forall j k p, j <> i -> k <> i -> is_Some (live !! j) -> is_Some (live !! k) ->
     bs !! Z.to_nat j = Some (Some p) -> bs !! Z.to_nat k = Some (Some p) -> j = k) ->
  libc_inv nids (<[i := n]> live) ({[q]} ∪ L) w (<[Z.to_nat i := Some q]> bs).
Proof.
  intros Hh Hl Hi Hq Hlive Hinj.
  assert (Hown : <[Z.to_nat i := Some q]> bs !! Z.to_nat i = Some (Some q))
    by (apply list_lookup_insert_eq; lia).
  assert (Hcell : forall j, j <> i -> is_Some (<[i := n]> live !! j) ->
    is_Some (live !! j) /\ <[Z.to_nat i := Some q]> bs !! Z.to_nat j = bs !! Z.to_nat j /\
    bs !! Z.to_nat j <> Some (Some q)).
  { intros j Hj Hs. rewrite lookup_insert_ne in Hs by done. split; [done|].
    destruct (Hlive j Hj Hs) as (Hr & p & Hp & HpL).
    rewrite list_lookup_insert_ne by lia. split; [done|]. rewrite Hp. congruence. }
  split; [done|by rewrite length_insert| |].
  - intros j Hs. destruct (decide (j = i)) as [->|Hj].
    + split; [done|]. exists q. split; [done|set_solver].
    + destruct (Hcell j Hj Hs) as (Hs' & -> & _).
      destruct (Hlive j Hj Hs') as (Hr & p & Hp & HpL). split; [done|]. exists p. set_solver.
  - intros j k p Hs Hk. destruct (decide (j = i)) as [->|Hj], (decide (k = i)) as [->|Hk'];
      [done| | |].
    + destruct (Hcell k Hk' Hk) as (_ & -> & Hne). rewrite Hown. intros [= <-]. done.
    + destruct (Hcell j Hj Hs) as (_ & -> & Hne). rewrite Hown. intros Hp [= <-]. done.
    + destruct (Hcell k Hk' Hk) as (Hs1 & -> & _), (Hcell j Hj Hs) as (Hs2 & -> & _).
      by apply Hinj.
Qed.

(** One request, on [block]s of the driver. *)
Lemma libc_op_run nids live L w d trace tracenum i op cost avail l :
  libc_inv nids live L w (d_blocks d) -> arr_get (ops trace) i = Ok op ->
  trace_ok false cost nids live avail (op :: l) = true ->
  exists avail' L' w' bs,
    libc_op trace tracenum tt i (w, d) = Ok (tt, (w', with_blocks bs d)) /\
    libc_inv nids (live_after live op) L' w' bs /\
    trace_ok false cost nids (live_after live op) avail' l = true.
Proof.
  intros Hinv Hop Hok. pose proof (li_host _ _ _ _ _ Hinv) as Hh.
  pose proof (li_blocks _ _ _ _ _ Hinv) as Hlen. cbn [trace_ok] in Hok.
  apply andb_true_iff in Hok as [Hidx Hok].
  unfold libc_op. rewrite Hop. st_step. unfold live_after in *.
  destruct (op_type_of op).
  - rewrite !andb_true_iff in Hok. destruct Hok as [[[[Hpos Hmax] _] _] Hok].
    destruct (host_malloc_spec w L (op_size op) Hh ltac:(lia)) as (p & w' & Hrun & Hnull & Hfresh & Hh').
    rewrite u64_id by lia.
    erewrite bind_Ok; [|unfold on_host; by rewrite Hrun]. rewrite (proj2 (Z.eqb_neq _ _)) by done.
    exists (avail - cost (op_size op)), ({[p]} ∪ L), w', (<[Z.to_nat (op_index op) := Some p]> (d_blocks d)).
    unfold on_driver, set_block. rewrite arr_set_ok by lia. split; [done|]. split; [|done].
    apply libc_inv_set; [done|done|lia|done| |].
    + intros j _ Hs. by apply (li_live _ _ _ _ _ Hinv).
    + intros j k q _ _. apply (li_inj _ _ _ _ _ Hinv).
  - apply andb_true_iff in Hok as [Hs Hok]. apply bool_decide_eq_true in Hs.
    destruct (li_live _ _ _ _ _ Hinv _ Hs) as (Hr & p & Hp & HpL).
    destruct (host_free_spec w L p Hh HpL) as (w' & Hrun & Hh').
    erewrite bind_Ok; [|unfold on_driver; by rewrite (get_block_ok d _ _ (proj1 Hr) Hp)].
    exists avail, (L ∖ {[p]}), w', (d_blocks d). split.
    { unfold on_host. rewrite Hrun. by destruct d. }
    split; [|done]. split; [done|done| |].
    + intros j Hj. assert (op_index op <> j) by (intros <-; rewrite lookup_delete_eq in Hj; by destruct Hj).
      rewrite lookup_delete_ne in Hj by done.
      destruct (li_live _ _ _ _ _ Hinv _ Hj) as (Hjr & q & Hq & HqL).
      split; [done|]. exists q. split; [done|].
      assert (q <> p); [|set_solver]. intros ->.
      assert (op_index op = j) by (by apply (li_inj _ _ _ _ _ Hinv _ _ p)). done.
    + intros j k q [a [_ Ha]%lookup_delete_Some] [b [_ Hb]%lookup_delete_Some].
      apply (li_inj _ _ _ _ _ Hinv); [by exists a|by exists b].
  - rewrite !andb_true_iff in Hok. destruct Hok as [[[[Hpos Hmax] _] [Hs _]] Hok].
    apply bool_decide_eq_true in Hs.
    destruct (li_live _ _ _ _ _ Hinv _ Hs) as (Hr & p & Hp & HpL).
    erewrite bind_Ok; [|unfold on_driver; by rewrite (get_block_ok d _ _ (proj1 Hr) Hp)].
    destruct (host_realloc_spec w L p (op_size op) Hh HpL ltac:(lia))
      as (q & w' & Hrun & Hnull & Hfresh & Hh').
    rewrite u64_id by lia.
    erewrite bind_Ok; [|unfold on_host; by rewrite Hrun]. rewrite (proj2 (Z.eqb_neq _ _)) by done.
    exists (avail - cost (op_size op)), ({[q]} ∪ L ∖ {[p]}), w',
      (<[Z.to_nat (op_index op) := Some q]> (d_blocks d)).
    unfold on_driver, set_block. rewrite arr_set_ok by lia. split; [done|]. split; [|done].
    apply libc_inv_set; [done|done|lia|done| |].
    + intros j Hj Hsj. destruct (li_live _ _ _ _ _ Hinv _ Hsj) as (Hjr & z & Hz & HzL).
      split; [done|]. exists z. split; [done|]. assert (z <> p); [|set_solver]. intros ->.
      apply Hj. by apply (li_inj _ _ _ _ _ Hinv _ _ p).
    + intros j k z _ _. apply (li_inj _ _ _ _ _ Hinv).
Qed.

Lemma libc_loop_run nids trace tracenum cost l i live L w d avail :
  libc_inv nids live L w (d_blocks d) -> 0 <= i ->
  (forall k op, l !! k = Some op -> ops trace !! Z.to_nat (i + Z.of_nat k) = Some op) ->
  trace_ok false cost nids live avail l = true ->
  exists L' w' bs,
    foldM (libc_op trace tracenum) tt (seqZ i (Z.of_nat (length l))) (w, d) =
      Ok (tt, (w', with_blocks bs d)) /\
    host_inv w' L' /\ length bs = length (d_blocks d).
Proof.
  revert i live L w d avail; induction l as [|op l IH]; intros i live L w d avail Hinv Hi Hops Hok.
  { exists L, w, (d_blocks d). split; [by destruct d|]. split; [apply Hinv|done]. }
  pose proof (Hops 0%nat op eq_refl) as Hop. rewrite Z.add_0_r in Hop.
  destruct (libc_op_run nids live L w d trace tracenum i op cost avail l Hinv
    (arr_get_ok _ _ _ Hi Hop) Hok) as (avail1 & L1 & w1 & bs1 & Hrun & Hinv1 & Hok1).
  destruct (IH (i + 1) _ L1 w1 (with_blocks bs1 d) avail1 Hinv1 ltac:(lia))
    as (L2 & w2 & bs2 & Hrest & Hh & Hlen); [|done|].
  { intros k op' Hk. specialize (Hops (S k) op' Hk).
    by replace (i + 1 + Z.of_nat k) with (i + Z.of_nat (S k)) by lia. }
  exists L2, w2, bs2. simpl length. rewrite seqZ_cons by lia.
  replace (Z.succ i) with (i + 1) by lia.
  replace (Z.pred (Z.of_nat (S (length l)))) with (Z.of_nat (length l)) by lia.
  cbn [foldM]. rewrite (bind_Ok _ _ _ _ _ Hrun). split; [exact Hrest|]. split; [done|].
  pose proof (li_blocks _ _ _ _ _ Hinv). pose proof (li_blocks _ _ _ _ _ Hinv1).
  simpl in *. lia.
Qed.

(** ** The state of the program between two steps *)

(** The trace fits the driver's arrays. *)
Definition loaded (trace : trace_t) (d : driver) : Prop :=
  num_ops trace = Z.of_nat (length (ops trace)) /\
  Z.of_nat (length (d_blocks d)) = num_ids trace /\
  Z.of_nat (length (d_sizes d)) = num_ids trace.

(** Nothing was reported; after [mem_init] ([ready]), the simulated memory
    can be used. *)
Definition sys_ok (ready : bool) (s : W * driver) : Prop :=
  (exists L, host_inv s.1 L) /\ d_errors s.2 = 0 /\ d_log s.2 = [] /\
  (ready = true -> mem_ok (d_mem s.2)).

Lemma sys_ok_log ready w d d' :
  sys_ok ready (w, d) -> same_log d d' -> mem_ok (d_mem d') -> sys_ok ready (w, d').
Proof. intros (Hh & He & Hl & _) [He' Hl'] Hm. split_and!; [done|simpl in *; congruence..|done]. Qed.

Lemma libc_run ready trace tracenum s :
  sys_ok ready s -> loaded trace s.2 ->
  (exists cost avail, trace_ok false cost (num_ids trace) ∅ avail (ops trace) = true) ->
  exists s', foldM (libc_op trace tracenum) tt (seqZ 0 (num_ops trace)) s = Ok (tt, s') /\
    sys_ok ready s' /\ loaded trace s'.2.
Proof.
  destruct s as [w d]. intros ((L & Hh) & He & Hl & Hm) (Hn & Hb & Hs) (cost & avail & Hok).
  assert (Hinv : libc_inv (num_ids trace) ∅ L w (d_blocks d)).
  { split; [done|done|by intros i []|by intros i j p []]. }
  destruct (libc_loop_run _ trace tracenum cost (ops trace) 0 _ _ _ d avail Hinv)
    as (L' & w' & bs & Hrun & Hh' & Hlen); [lia| |done|].
  { intros k op Hk. by rewrite Z.add_0_l, Nat2Z.id. }
  rewrite Hn. exists (w', with_blocks bs d). split; [exact Hrun|].
  split; [split; [by exists L'|done]|]. simpl in *. split_and!; simpl; lia.
Qed.

(** ** Timing *)

Lemma repeat_run (I : W * driver -> Prop) f l s :
  I s -> (forall s, I s -> exists s', f s = Ok s' /\ I s') ->
  exists s', foldM (fun s (_ : Z) => f s) s l = Ok s' /\ I s'.
Proof.
  intros HI Hf. revert s HI; induction l as [|i l IH]; intros s HI; [by exists s|].
  cbn [foldM]. destruct (Hf s HI) as (s1 & Hrun & HI1). rewrite Hrun. cbn [mbind result_bind].
  by apply IH.
Qed.

(** A run of the timer calls [f] ten times between two looks at the clock. *)
Lemma fsecs_run (I : W * driver -> Prop) f s :
  I s -> (forall s, I s -> exists s', f s = Ok s' /\ I s') ->
  (forall w d, I (w, d) -> exists L, host_inv w L) ->
  (forall w w' L d, I (w, d) -> host_inv w' L -> I (w', d)) ->
  exists t s', fsecs f s = Ok (t, s') /\ I s'.
Proof.
  intros HI Hf Hin Hout. destruct s as [w d]. unfold fsecs, ftimer_gettod, repeat_f.
  destruct (Hin w d HI) as [L Hh].
  destruct (host_time_spec w L Hh) as (s0 & us0 & w0 & Ht0 & Hh0 & Hs0 & Hus0).
  simpl gettimeofday. rewrite Ht0.
  destruct (repeat_run I f (seqZ 0 10) (w0, d)) as ([w1 d1] & Hrun & HI1); [by eapply Hout|done|].
  rewrite Hrun. cbn [mbind result_bind].
  destruct (Hin w1 d1 HI1) as [L1 Hh1].
  destruct (host_time_spec w1 L1 Hh1) as (s2 & us2 & w2 & Ht2 & Hh2 & Hs2 & Hus2).
  rewrite Ht2.
  assert (Hll : forall a b, 0 <= a < 2 ^ 62 -> 0 <= b < 2 ^ 62 -> ll_ (a - b) = Ok (a - b)).
  { intros a b Ha Hb. unfold ll_, fits_ll.
    by rewrite (proj2 (Z.leb_le _ _)), (proj2 (Z.ltb_lt _ _)) by lia. }
  rewrite !Hll by done. cbn [mbind result_bind].
  do 2 eexists. split; [reflexivity|]. by eapply Hout.
Qed.

Lemma fsecs_sys_run ready trace f s :
  sys_ok ready s -> loaded trace s.2 ->
  (forall s, sys_ok ready s -> loaded trace s.2 ->
     exists s', f s = Ok (tt, s') /\ sys_ok ready s' /\ loaded trace s'.2) ->
  exists t s', fsecs (timed f) s = Ok (t, s') /\ sys_ok ready s'.
Proof.
  intros Hs Hl Hf.
  destruct (fsecs_run (fun s => sys_ok ready s /\ loaded trace s.2) (timed f) s)
    as (t & s' & Hrun & Hs' & _); [done| | | |by exists t, s'].
  - intros s0 [Hs0 Hl0]. destruct (Hf s0 Hs0 Hl0) as (s' & Hrun & Hs').
    exists s'. unfold timed. by rewrite Hrun.
  - by intros w d [[HL _] _].
  - intros w w' L d [(_ & Hd) Hl0] Hh. split; [|done]. split; [by exists L|done].
Qed.

Lemma libc_speed_run ready trace s :
  sys_ok ready s -> loaded trace s.2 ->
  (exists cost avail, trace_ok false cost (num_ids trace) ∅ avail (ops trace) = true) ->
  exists s', eval_libc_speed trace s = Ok (tt, s') /\ sys_ok ready s' /\ loaded trace s'.2.
Proof.
  intros Hs Hl Hok. destruct (libc_run ready trace 0 s Hs Hl Hok) as (s' & Hrun & Hs').
  exists s'. split; [|done]. by eapply libc_speed_loop.
Qed.
End runs.

(** ** The allocator under test *)

Section evaluation.
Context {W : Type} `{HostSpec W} {A : Allocator} {AS : AllocatorSpec A}.
Context (range_malloc : list range_t -> bool) (range_malloc_ok : forall l, range_malloc l = true).

Definition fits_heap (trace : trace_t) : Prop :=
  trace_ok true heap_cost (num_ids trace) ∅ MAX_HEAP (ops trace) = true.

Lemma sys_ok_start trace (s : W * driver) :
  sys_ok true s -> loaded trace s.2 -> driver_start trace s.2.
Proof. intros (_ & _ & _ & Hm) Hl. split; [by apply Hm|exact Hl]. Qed.

Lemma sys_ok_end trace (w : W) d d' :
  sys_ok true (w, d) -> same_log d d' -> driver_start trace d' ->
  sys_ok true (w, d') /\ loaded trace d'.
Proof. intros Hs Hlog [Hm Hl]. split; [by eapply sys_ok_log|exact Hl]. Qed.

Lemma mm_valid_run trace tracenum (s : W * driver) :
  sys_ok true s -> loaded trace s.2 -> fits_heap trace ->
  exists s', on_driver (eval_mm_valid range_malloc trace tracenum) s = Ok (1, s') /\
    sys_ok true s' /\ loaded trace s'.2.
Proof.
  intros Hs Hl Hok. destruct s as [w d].
  destruct (eval_mm_valid_run range_malloc range_malloc_ok trace tracenum d) as (d' & Hrun & Hlog & Hst);
    [by apply (sys_ok_start trace (w, d))|done|].
  exists (w, d'). unfold on_driver. rewrite Hrun. split; [done|]. by eapply sys_ok_end.
Qed.

Lemma mm_util_run trace (s : W * driver) :
  sys_ok true s -> loaded trace s.2 -> fits_heap trace ->
  exists u s', on_driver (eval_mm_util trace) s = Ok (u, s') /\
    sys_ok true s' /\ loaded trace s'.2.
Proof.
  intros Hs Hl Hok. destruct s as [w d].
  destruct (util_run_ok trace d) as (d' & Hrun & Hlog & Hst);
    [by apply (sys_ok_start trace (w, d))|by apply trace_ok_weaken|].
  eexists _, (w, d'). unfold on_driver, eval_mm_util. rewrite (bind_Ok _ _ _ _ _ Hrun).
  split; [done|]. by eapply sys_ok_end.
Qed.

Lemma mm_speed_run trace (s : W * driver) :
  sys_ok true s -> loaded trace s.2 -> fits_heap trace ->
  exists s', on_driver (eval_mm_speed trace) s = Ok (tt, s') /\
    sys_ok true s' /\ loaded trace s'.2.
Proof.
  intros Hs Hl Hok. destruct s as [w d].
  destruct (util_run_ok trace d) as (d' & Hrun & Hlog & Hst);
    [by apply (sys_ok_start trace (w, d))|by apply trace_ok_weaken|].
  apply util_run_agrees in Hrun as [_ Hrun]. specialize (Hrun (d_sizes d)).
  replace (with_sizes (d_sizes d) d) with d in Hrun by (by destruct d).
  exists (w, with_sizes (d_sizes d) d'). unfold on_driver. rewrite Hrun. split; [done|].
  eapply sys_ok_end; [exact Hs|exact Hlog|].
  destruct Hst as (Hm & Hn & Hb & _), Hl as (_ & _ & Hz). by split_and!.
Qed.

(** ** The program's steps *)

Lemma on_sys_run {B} (c : ST (W * driver) B) s b sys :
  c (p_sys s) = Ok (b, sys) -> on_sys c s = Ok (b, Prog sys (p_out s)).
Proof. intros Hc. unfold on_sys. by rewrite Hc. Qed.

Lemma emit_if_run b l (s : prog W) : exists out, emit_if b l s = Ok (tt, Prog (p_sys s) out).
Proof. unfold emit_if. destruct b; [by eexists|]. exists (p_out s). by destruct s. Qed.

Lemma grants_run ready s :
  sys_ok ready (p_sys s) ->
  exists sys, grants s = Ok (true, Prog sys (p_out s)) /\ sys_ok ready sys /\
    sys.2 = (p_sys s).2.
Proof.
  destruct s as [[w d] out]. intros ((L & Hh) & Hd).
  destruct (host_grant_spec w L Hh) as (w' & Hg & Hh').
  exists (w', d). unfold grants, on_sys, on_host. simpl. rewrite Hg.
  split; [done|]. split; [|done]. split; [by exists L|done].
Qed.

Context (junk : Z) (fopen : list Z -> option (list Z)).

(** A file whose path fits and whose text is that of a trace. *)
Definition good_file (dir : list Z) (name : option (list Z)) (trace : trace_t) : Prop :=
  exists n, name = Some n /\ Z.of_nat (length (dir ++ n)) < MAXLINE /\
    fopen (dir ++ n) = Some (trace_text trace) /\ readable junk trace /\ fits_heap trace.

Lemma load_run ready o files i name trace s :
  sys_ok ready (p_sys s) -> 0 <= i -> files !! Z.to_nat i = Some name ->
  good_file (tracedir o) name trace ->
  exists s', load_trace junk fopen o files i s = Ok (trace, s') /\
    sys_ok ready (p_sys s') /\ loaded trace (p_sys s').2.
Proof.
  intros Hs Hi Hname (n & -> & Hlen & Hopen & Hread & Hok). unfold load_trace.
  rewrite (arr_get_ok _ _ _ Hi Hname). st_step.
  destruct (emit_if_run (1 <? verbose o) (Text_name "Reading tracefile: " n) s) as [out He].
  change (default [] (Some n)) with n. rewrite (bind_Ok _ _ _ _ _ He).
  destruct (grants_run ready (Prog (p_sys s) out) Hs) as ([w d] & Hg & Hs' & _).
  rewrite (bind_Ok _ _ _ _ _ Hg). st_step.
  unfold fits_line. rewrite guard_true by (by apply Z.ltb_lt). st_step.
  rewrite Hopen, (read_trace_run junk trace Hread). st_step.
  eexists. split; [reflexivity|]. split; [exact Hs'|].
  destruct Hread as [_ _ Hn Hids [Hb Hbs]]. simpl. unfold loaded. simpl.
  rewrite Hb, Hbs, !length_replicate. pose proof (max_index_nonneg (ops trace)). lia.
Qed.

Lemma free_trace_run ready s :
  sys_ok ready (p_sys s) -> exists s', free_trace s = Ok (tt, s') /\ sys_ok ready (p_sys s').
Proof. destruct s as [[w d] out]. intros Hs. by eexists. Qed.

(** A step of one of the two loops: it stores the result of a valid trace. *)
Definition stores_valid (ready : bool) (f : list stats_t -> Z -> ST (prog W) (list stats_t))
    (i : Z) : Prop :=
  forall stats s, sys_ok ready (p_sys s) -> 0 <= i < Z.of_nat (length stats) ->
    exists st s', f stats i s = Ok (<[Z.to_nat i := st]> stats, s') /\ st_valid st = 1 /\
      sys_ok ready (p_sys s').

Lemma libc_trace_run ready o files i name trace :
  files !! Z.to_nat i = Some name -> good_file (tracedir o) name trace ->
  stores_valid ready (libc_trace junk fopen o files) i.
Proof.
  intros Hname Hgood stats s Hs Hi. unfold libc_trace.
  destruct (load_run ready o files i name trace s Hs ltac:(lia) Hname Hgood)
    as (s1 & Hload & Hs1 & Hl1). rewrite (bind_Ok _ _ _ _ _ Hload).
  destruct (emit_if_run (1 <? verbose o) (Text "Checking libc malloc for correctness, ") s1)
    as [out1 He1]. rewrite (bind_Ok _ _ _ _ _ He1).
  destruct Hgood as (_ & _ & _ & _ & _ & Hok).
  assert (Hok' : exists cost avail, trace_ok false cost (num_ids trace) ∅ avail (ops trace) = true)
    by (do 2 eexists; by apply trace_ok_weaken).
  destruct (libc_run ready trace i (p_sys s1) Hs1 Hl1 Hok') as (sys2 & Hv & Hs2 & Hl2).
  assert (Hvalid : eval_libc_valid trace i (p_sys s1) = Ok (1, sys2))
    by (unfold eval_libc_valid; by rewrite (bind_Ok _ _ _ _ _ Hv)).
  rewrite (bind_Ok _ _ _ _ _ (on_sys_run _ (Prog (p_sys s1) out1) _ _ Hvalid)).
  change (negb (1 =? 0)) with true. cbv iota.
  destruct (emit_if_run (1 <? verbose o) (Text "and performance.") (Prog sys2 out1)) as [out2 He2].
  destruct (fsecs_sys_run ready trace (eval_libc_speed trace) sys2 Hs2 Hl2) as (t & sys3 & Ht & Hs3).
  { intros s0 Hs0 Hl0. by apply libc_speed_run. }
  erewrite bind_Ok; [|rewrite (bind_Ok _ _ _ _ _ He2); by apply on_sys_run].
  rewrite arr_set_ok by done. st_step. simpl p_out.
  destruct (free_trace_run ready (Prog sys3 out2) Hs3) as (s4 & Hf & Hs4).
  rewrite (bind_Ok _ _ _ _ _ Hf). eexists _, s4. by split_and!.
Qed.

Lemma mm_trace_run o files i name trace :
  files !! Z.to_nat i = Some name -> good_file (tracedir o) name trace ->
  stores_valid true (mm_trace range_malloc junk fopen o files) i.
Proof.
  intros Hname Hgood stats s Hs Hi. unfold mm_trace.
  destruct (load_run true o files i name trace s Hs ltac:(lia) Hname Hgood)
    as (s1 & Hload & Hs1 & Hl1). rewrite (bind_Ok _ _ _ _ _ Hload).
  destruct (emit_if_run (1 <? verbose o) (Text "Checking mm_malloc for correctness, ") s1)
    as [out1 He1]. rewrite (bind_Ok _ _ _ _ _ He1).
  destruct Hgood as (_ & _ & _ & _ & _ & Hok).
  destruct (mm_valid_run trace i (p_sys s1) Hs1 Hl1 Hok) as (sys2 & Hv & Hs2 & Hl2).
  rewrite (bind_Ok _ _ _ _ _ (on_sys_run _ (Prog (p_sys s1) out1) _ _ Hv)).
  change (negb (1 =? 0)) with true. cbv iota.
  destruct (emit_if_run (1 <? verbose o) (Text "efficiency, ") (Prog sys2 out1)) as [out2 He2].
  destruct (mm_util_run trace sys2 Hs2 Hl2 Hok) as (u & sys3 & Hu & Hs3 & Hl3).
  destruct (emit_if_run (1 <? verbose o) (Text "and performance.") (Prog sys3 out2)) as [out3 He3].
  destruct (fsecs_sys_run true trace (on_driver (eval_mm_speed trace)) sys3 Hs3 Hl3)
    as (t & sys4 & Ht & Hs4).
  { intros s0 Hs0 Hl0. by apply mm_speed_run. }
  erewrite bind_Ok.
  2: { rewrite (bind_Ok _ _ _ _ _ He2).
       rewrite (bind_Ok _ _ _ _ _ (on_sys_run _ (Prog sys2 out2) _ _ Hu)).
       rewrite (bind_Ok _ _ _ _ _ He3).
       by rewrite (bind_Ok _ _ _ _ _ (on_sys_run _ (Prog sys3 out3) _ _ Ht)). }
  rewrite arr_set_ok by done. st_step. simpl p_out.
  destruct (free_trace_run true (Prog sys4 out3) Hs4) as (s5 & Hf & Hs5).
  rewrite (bind_Ok _ _ _ _ _ Hf). eexists _, s5. by split_and!.
Qed.

(** ** The loops over the traces *)

Lemma stats_loop_run ready f n :
  (forall i, 0 <= i < Z.of_nat n -> stores_valid ready f i) ->
  forall k i stats s, length stats = n -> (i + k = n)%nat ->
  (forall j st, (j < i)%nat -> stats !! j = Some st -> st_valid st = 1) ->
  sys_ok ready (p_sys s) ->
  exists stats' s', foldM f stats (seqZ (Z.of_nat i) (Z.of_nat k)) s = Ok (stats', s') /\
    length stats' = n /\ Forall (fun st => st_valid st = 1) stats' /\ sys_ok ready (p_sys s').
Proof.
  intros Hf k; induction k as [|k IH]; intros i stats s Hlen Hik Hval Hs.
  { exists stats, s. split_and!; [done..| |done]. apply Forall_lookup. intros j st Hj.
    apply (Hval j); [|done]. apply lookup_lt_Some in Hj. lia. }
  rewrite seqZ_cons by lia. cbn [foldM].
  destruct (Hf (Z.of_nat i) ltac:(lia) stats s Hs ltac:(lia)) as (st & s1 & Hrun & Hv & Hs1).
  rewrite (bind_Ok _ _ _ _ _ Hrun), Nat2Z.id.
  replace (Z.succ (Z.of_nat i)) with (Z.of_nat (S i)) by lia.
  replace (Z.pred (Z.of_nat (S k))) with (Z.of_nat k) by lia.
  apply IH; [by rewrite length_insert|lia| |done]. intros j st' Hj.
  destruct (decide (j = i)) as [->|Hne].
  - rewrite list_lookup_insert_eq by lia. by intros [= <-].
  - rewrite list_lookup_insert_ne by done. apply Hval. lia.
Qed.

Lemma all_traces_run ready f n s :
  (forall i, 0 <= i < Z.of_nat n -> stores_valid ready f i) -> sys_ok ready (p_sys s) ->
  exists stats s', foldM f (replicate n zero_stats) (seqZ 0 (Z.of_nat n)) s = Ok (stats, s') /\
    length stats = n /\ Forall (fun st => st_valid st = 1) stats /\ sys_ok ready (p_sys s').
Proof.
  intros Hf Hs. apply (stats_loop_run ready f n Hf n 0); [apply length_replicate|done| |done].
  intros j st Hj. lia.
Qed.

(** ** The report *)

Lemma printresults_run n stats perfindex (s : prog W) :
  n = Z.of_nat (length stats) ->
  exists out, printresults n stats perfindex s = Ok (tt, Prog (p_sys s) out).
Proof.
  intros ->. unfold printresults. st_step.
  set (s1 := Prog (p_sys s) _). change (p_sys s) with (p_sys s1). clearbody s1.
  assert (Hl : forall i, i ∈ seqZ 0 (Z.of_nat (length stats)) -> exists st, arr_get stats i = Ok st).
  { intros i Hi%elem_of_seqZ. destruct (lookup_lt_is_Some_2 stats (Z.to_nat i)) as [st Hst]; [lia|].
    exists st. apply arr_get_ok; [lia|done]. }
  revert s1 Hl; induction (seqZ 0 (Z.of_nat (length stats))) as [|i l IH]; intros s1 Hl.
  { exists (p_out s1). by destruct s1. }
  destruct (Hl i) as [st Hst]; [by left|]. cbn [foldM].
  rewrite Hst. erewrite bind_Ok; [|reflexivity].
  apply (IH (Prog (p_sys s1) _)). intros j Hj. apply Hl. by right.
Qed.

Lemma tally_run stats k m acc :
  Forall (fun st => st_valid st <> 0) stats -> (k + m = length stats)%nat ->
  Z.of_nat (length stats) < 2 ^ 31 ->
  exists p, foldM (tally_step stats) (Z.of_nat k, acc) (seqZ (Z.of_nat k) (Z.of_nat m)) =
    Ok (Z.of_nat (length stats), p).
Proof.
  intros Hval Hkm Hlen. revert k acc Hkm; induction m as [|m IH]; intros k acc Hkm.
  { exists acc. simpl. repeat f_equal. lia. }
  rewrite seqZ_cons by lia. cbn [foldM].
  destruct (lookup_lt_is_Some_2 stats k) as [st Hst]; [lia|].
  assert (Hstep : exists p, tally_step stats (Z.of_nat k, acc) (Z.of_nat k) =
    Ok (Z.of_nat (S k), p)).
  { unfold tally_step. rewrite (arr_get_ok _ _ st) by (rewrite ?Nat2Z.id; (done || lia)).
    cbn [mbind result_bind].
    rewrite Forall_lookup in Hval. rewrite (proj2 (Z.eqb_neq _ _) (Hval k st Hst)).
    simpl negb. cbv iota. rewrite int_ok by lia. cbn [mbind result_bind]. eexists.
    do 2 f_equal. lia. }
  destruct Hstep as [p ->]. cbn [mbind result_bind].
  replace (Z.succ (Z.of_nat k)) with (Z.of_nat (S k)) by lia.
  replace (Z.pred (Z.of_nat (S m))) with (Z.of_nat m) by lia.
  apply IH. lia.
Qed.

(** What the program is to report: all traces passed, no error; the only
    other outcome is a score that is no [int]. *)
Definition all_passed (n : Z) (r : result (Z * prog W)) : Prop :=
  match r with
  | Ok (code, s) =>
      code = 0 /\ d_errors (p_sys s).2 = 0 /\ d_log (p_sys s).2 = [] /\
      exists perfindex, Passed n n perfindex ∈ p_out s
  | Fault e =>
      e = Undefined /\ exists libc_stats mm_stats,
        Forall (fun st => st_valid st = 1) mm_stats /\
        calculate_perfindex n libc_stats mm_stats = Fault Undefined
  end.

(** Finds a line in the output. *)
Ltac in_output :=
  cbn [p_out]; repeat (apply elem_of_app; first [right; by apply elem_of_cons; left | left]).

Lemma report_run o n libc_stats mm_stats (s : prog W) :
  n = Z.of_nat (length mm_stats) -> length libc_stats = length mm_stats -> n < 2 ^ 31 ->
  Forall (fun st => st_valid st = 1) mm_stats -> sys_ok true (p_sys s) ->
  all_passed n (final_report o n libc_stats mm_stats s).
Proof.
  intros -> Hlen Hn Hval Hs. unfold final_report.
  destruct (calculate_perfindex (Z.of_nat (length mm_stats)) libc_stats mm_stats)
    as [stats'|e] eqn:Hcalc.
  2: { rewrite (bind_Fault _ _ _ e) by done. pose proof Hcalc as Hf.
       rewrite calculate_run in Hf by done. apply rate_all_fault in Hf as ->.
       split; [done|]. by exists libc_stats, mm_stats. }
  st_step. rewrite calculate_run in Hcalc by done.
  apply rate_all_ok in Hcalc as [Hl Hrated]; [|done].
  assert (Hp : exists out, (if negb (verbose o =? 0) then
     emit (Text "Results for mm malloc:");;
     printresults (Z.of_nat (length mm_stats)) stats' true else mret tt) s =
     Ok (tt, Prog (p_sys s) out)).
  { destruct (negb (verbose o =? 0)); [|exists (p_out s); by destruct s]. st_step.
    apply (printresults_run _ stats' true (Prog (p_sys s) _)). by rewrite Hl. }
  destruct Hp as [out Hp]. rewrite (bind_Ok _ _ _ _ _ Hp).
  destruct (tally_run stats' 0 (length mm_stats) dzero) as [p Ht]; [|by rewrite Hl|by rewrite Hl|].
  { apply Forall_lookup. intros i st' Hi.
    destruct (lookup_lt_is_Some_2 mm_stats i) as [st Hst];
      [rewrite <- Hl; by eapply lookup_lt_Some|].
    destruct (lookup_lt_is_Some_2 libc_stats i) as [lb Hlb];
      [rewrite Hlen; by eapply lookup_lt_Some|].
    destruct (Hrated i lb st Hlb Hst) as (st'' & Hi' & Hr). destruct Hr as (_ & Hv & _).
    rewrite Hi in Hi'. injection Hi' as <-. rewrite Forall_lookup in Hval.
    rewrite Hv, (Hval i st Hst). done. }
  change (Z.of_nat 0) with 0 in Ht. rewrite Ht, Hl. st_step. cbv beta iota.
  st_step. st_step. st_step. destruct s as [[w d] out0]. destruct Hs as (_ & He & Hlog & _).
  simpl in He, Hlog. cbn [p_sys snd]. rewrite He. simpl negb. cbv iota.
  unfold emit_if. st_step.
  assert (Hend : forall out', Passed (Z.of_nat (length mm_stats)) (Z.of_nat (length mm_stats))
      (ddiv p (d_of_Z (Z.of_nat (length mm_stats)))) ∈ out' ->
    all_passed (Z.of_nat (length mm_stats))
      ((on_sys (on_driver (on_mem mem_deinit));; on_sys (on_driver clear_ranges);; mret 0)
        (Prog (w, d) out'))).
  { intros out' Hin. do 2 st_step. split_and!; [done..|]. by eexists. }
  destruct (autograder o).
  - erewrite bind_Ok; [|reflexivity]. apply Hend. in_output.
  - st_step. apply Hend. in_output.
Qed.

(** ** The options *)

(** The documented options but [-h] and [-l], with directories that fit. *)
Definition option_ok (opt : Z * list Z) : Prop :=
  opt.1 ∈ [103; 102; 118; 86] \/
  (opt.1 = 116 /\ opt.2 <> [] /\ Z.of_nat (length opt.2) < MAXLINE - 1).

(** What an option sets when memory is there. *)
Definition setting (o : options) (opt : Z * list Z) : options :=
  let '(c, optarg) := opt in
  if c =? 103 then Options (verbose o) true (tracedir o) (tracefiles o) (num_tracefiles o)
  else if c =? 102 then Options (verbose o) (autograder o) (chars "./") (Some [Some optarg]) 1
  else if c =? 116 then
    if num_tracefiles o =? 1 then o
    else Options (verbose o) (autograder o)
           (if bool_decide (last optarg = Some slash) then optarg else optarg ++ [slash])
           (tracefiles o) (num_tracefiles o)
  else Options (if c =? 118 then 1 else 2) (autograder o) (tracedir o) (tracefiles o)
         (num_tracefiles o).

Definition settings : list (Z * list Z) -> options := foldl setting default_options.

Lemma set_tracedir_run optarg :
  optarg <> [] -> Z.of_nat (length optarg) < MAXLINE - 1 ->
  set_tracedir optarg =
    Ok (if bool_decide (last optarg = Some slash) then optarg else optarg ++ [slash]).
Proof.
  unfold MAXLINE. intros Hne Hlen. destruct optarg as [|c l _] using rev_ind; [done|].
  rewrite length_app in Hlen. simpl in Hlen. unfold set_tracedir, fits_line.
  rewrite guard_true by (apply Z.ltb_lt; unfold MAXLINE; rewrite length_app; simpl; lia).
  cbn [mbind result_bind].
  rewrite (arr_get_ok _ _ c).
  2: { rewrite length_app. simpl. lia. }
  2: { rewrite length_app. simpl. replace (Z.to_nat _) with (length l) by lia.
       by rewrite list_lookup_middle. }
  cbn [mbind result_bind]. rewrite last_snoc.
  destruct (Z.eqb_spec c slash) as [->|Hc]; simpl negb; cbv iota.
  - rewrite bool_decide_true by done.
    by rewrite guard_true by (apply Z.ltb_lt; unfold MAXLINE; rewrite length_app; simpl; lia).
  - rewrite bool_decide_false by congruence.
    by rewrite guard_true by (apply Z.ltb_lt; unfold MAXLINE; rewrite !length_app; simpl; lia).
Qed.

Lemma option_run ready o opt (s : prog W) :
  option_ok opt -> sys_ok ready (p_sys s) ->
  exists s', getopt_step o opt s = Ok (setting o opt, s') /\ sys_ok ready (p_sys s').
Proof.
  destruct opt as [c optarg]. unfold option_ok. cbn [fst snd]. intros Hopt Hs.
  unfold getopt_step, setting.
  destruct Hopt as [Hin|(-> & Hne & Hlen)].
  - rewrite !elem_of_cons in Hin. destruct Hin as [->|[->|[->|[->|Hin]]]]; simpl.
    + by exists s.
    + destruct (grants_run ready s Hs) as (sys & Hg & Hs1 & _).
      rewrite (bind_Ok _ _ _ _ _ Hg). simpl.
      destruct (grants_run ready (Prog sys (p_out s)) Hs1) as (sys2 & Hg2 & Hs2 & _).
      rewrite (bind_Ok _ _ _ _ _ Hg2). by eexists.
    + by exists s.
    + by exists s.
    + by apply elem_of_nil in Hin.
  - simpl. destruct (num_tracefiles o =? 1); [by exists s|].
    rewrite set_tracedir_run by done. st_step. by eexists.
Qed.

Lemma settings_run ready opts o (s : prog W) :
  Forall option_ok opts -> sys_ok ready (p_sys s) ->
  exists s', foldM getopt_step o opts s = Ok (foldl setting o opts, s') /\
    sys_ok ready (p_sys s').
Proof.
  intros Hopts. revert o s; induction Hopts as [|opt opts Hopt _ IH]; intros o s Hs; [by exists s|].
  destruct (option_run ready o opt s Hopt Hs) as (s1 & Hrun & Hs1).
  cbn [foldM foldl]. rewrite (bind_Ok _ _ _ _ _ Hrun). by apply IH.
Qed.

Lemma settings_files opts :
  match tracefiles (settings opts) with
  | None => True
  | Some files => Z.of_nat (length files) = num_tracefiles (settings opts) /\
                  num_tracefiles (settings opts) = 1
  end.
Proof.
  unfold settings. induction opts as [|[c optarg] opts IH] using rev_ind; [done|].
  rewrite foldl_app. cbn [foldl]. revert IH.
  generalize (foldl setting default_options opts) as o. intros o IH. unfold setting.
  destruct (c =? 103); [exact IH|]. destruct (c =? 102); [done|].
  destruct (c =? 116); [destruct (num_tracefiles o =? 1); exact IH|exact IH].
Qed.

(** ** [main] *)

Lemma mem_init_run (w : W) d r out :
  sys_ok false (w, d) -> 0 < r -> r mod 16 = 0 -> r + MAX_HEAP < 2 ^ 47 ->
  exists s', on_sys (on_driver (on_mem (mem_init r))) (Prog (w, d) out) = Ok (tt, s') /\
    sys_ok true (p_sys s').
Proof.
  intros (Hh & He & Hl & _) Hr Ha Hhi. unfold on_sys, on_driver, on_mem, mem_init. simpl.
  rewrite (proj2 (Z.eqb_neq r NULL)) by (unfold NULL; lia).
  eexists. split; [reflexivity|]. split_and!; [done..|]. intros _. pose proof MAX_HEAP_val.
  split; simpl; (done || lia).
Qed.

(** The files the options choose. *)
Definition chosen_files (o : options) : list (option (list Z)) :=
  default default_tracefiles (tracefiles o).

(** From the traces on. *)
Lemma evaluate_run o files traces (s : prog W) :
  Forall2 (good_file (tracedir o)) files traces -> Z.of_nat (length files) < 2 ^ 31 ->
  sys_ok false (p_sys s) ->
  let n := Z.of_nat (length files) in
  all_passed n
    ((ok ← grants;
      if negb ok then unix_error
      else
        libc_stats ← foldM (libc_trace junk fopen o files)
          (replicate (Z.to_nat n) zero_stats) (seqZ 0 n);
        (if negb (verbose o =? 0) then
           emit (Text "Results for libc malloc:");;
           printresults n libc_stats false
         else mret tt);;
        emit_if (1 <? verbose o) (Text "Testing mm malloc");;
        ok ← grants;
        if negb ok then unix_error
        else
          r ← on_sys (on_host (fun w => Ok (region w)));
          on_sys (on_driver (on_mem (mem_init r)));;
          mm_stats ← foldM (mm_trace range_malloc junk fopen o files)
            (replicate (Z.to_nat n) zero_stats) (seqZ 0 n);
          final_report o n libc_stats mm_stats) s).
Proof.
  intros Hfiles Hn Hs n. unfold n. rewrite Nat2Z.id.
  assert (Hgood : forall i, 0 <= i < Z.of_nat (length files) -> exists name trace,
    files !! Z.to_nat i = Some name /\ good_file (tracedir o) name trace).
  { intros i Hi. destruct (lookup_lt_is_Some_2 files (Z.to_nat i)) as [name Hname]; [lia|].
    destruct (Forall2_lookup_l _ _ _ _ _ Hfiles Hname) as (trace & _ & Hg). by exists name, trace. }
  destruct (grants_run false s Hs) as (sys1 & Hg1 & Hs1 & _). rewrite (bind_Ok _ _ _ _ _ Hg1).
  destruct (all_traces_run false (libc_trace junk fopen o files) (length files)
    (Prog sys1 (p_out s))) as (libc_stats & s2 & Hlibc & Hlen2 & _ & Hs2); [|done|].
  { intros i Hi. destruct (Hgood i Hi) as (name & trace & Hname & Hg).
    by eapply libc_trace_run. }
  change (negb true) with false. cbv iota. rewrite (bind_Ok _ _ _ _ _ Hlibc).
  assert (Hp : exists out, (if negb (verbose o =? 0) then
     emit (Text "Results for libc malloc:");;
     printresults (Z.of_nat (length files)) libc_stats false else mret tt) s2 =
     Ok (tt, Prog (p_sys s2) out)).
  { destruct (negb (verbose o =? 0)); [|exists (p_out s2); by destruct s2]. st_step.
    apply (printresults_run _ libc_stats false (Prog (p_sys s2) _)). by rewrite Hlen2. }
  destruct Hp as [out3 Hp]. rewrite (bind_Ok _ _ _ _ _ Hp).
  destruct (emit_if_run (1 <? verbose o) (Text "Testing mm malloc") (Prog (p_sys s2) out3))
    as [out4 He4]. rewrite (bind_Ok _ _ _ _ _ He4).
  destruct (grants_run false (Prog (p_sys s2) out4) Hs2) as ([w5 d5] & Hg5 & Hs5 & _).
  rewrite (bind_Ok _ _ _ _ _ Hg5). change (negb true) with false. cbv iota.
  pose proof Hs5 as ((L & Hh) & Hd5).
  destruct (host_region_spec w5 L Hh) as (r & w6 & Hr & Hh6 & Hr0 & Hra & Hrh).
  rewrite (bind_Ok _ _ _ r (Prog (w6, d5) out4)) by (unfold on_sys, on_host; simpl; by rewrite Hr).
  destruct (mem_init_run w6 d5 r out4) as (s7 & Hinit & Hs7); [|done..|].
  { split; [by exists L|exact Hd5]. }
  rewrite (bind_Ok _ _ _ _ _ Hinit).
  destruct (all_traces_run true (mm_trace range_malloc junk fopen o files) (length files) s7)
    as (mm_stats & s8 & Hmm & Hlen8 & Hval & Hs8); [|done|].
  { intros i Hi. destruct (Hgood i Hi) as (name & trace & Hname & Hg).
    by eapply mm_trace_run. }
  rewrite (bind_Ok _ _ _ _ _ Hmm).
  apply report_run; [by rewrite Hlen8|congruence|done..].
Qed.
End evaluation.


(** ** A concrete system

    Pointers are handed out in increasing order and never reused; the clock
    advances at every look. *)
#[local] Instance counting_machine : Machine (Z * Z) := {
  built_for := Other;
  cycles w := (0, w);
  tms_utime w := (0, w);
  gettimeofday w := ((w.2 + 1) mod 2 ^ 40, 0, (w.1, w.2 + 1));
  sleep _ w := w;
  malloc_ints _ w := (None, w);
}.

#[local] Instance counting_host : Host (Z * Z) := {
  libc_malloc n w := Ok (w.1, (w.1 + n, w.2));
  libc_realloc _ n w := Ok (w.1, (w.1 + n, w.2));
  libc_free _ w := Ok w;
  grant w := (true, w);
  region w := (4096, w);
}.

#[local] Instance counting_host_spec : HostSpec (Z * Z).
Proof.
  refine {| host_inv w L := 0 < w.1 /\ forall p, p ∈ L -> p < w.1 |}.
  - intros w L n [Hw HL] Hn. exists w.1, (w.1 + n, w.2). simpl. split_and!; [done|unfold NULL; lia| |lia|].
    + intros Hin. specialize (HL _ Hin). lia.
    + intros p [->%elem_of_singleton|Hp]%elem_of_union; [lia|]. specialize (HL _ Hp). lia.
  - intros w L p n [Hw HL] Hp Hn. exists w.1, (w.1 + n, w.2). simpl.
    split_and!; [done|unfold NULL; lia| |lia|].
    + intros [Hin _]%elem_of_difference. specialize (HL _ Hin). lia.
    + intros q [->%elem_of_singleton|[Hq _]%elem_of_difference]%elem_of_union; [lia|].
      specialize (HL _ Hq). lia.
  - intros w L p [Hw HL] Hp. exists w. split; [done|]. split; [done|].
    intros q [Hq _]%elem_of_difference. by apply HL.
  - intros w L HL. by exists w.
  - intros w L HL. exists 4096, w. pose proof MAX_HEAP_val. split_and!; (done || lia || apply HL).
  - intros w L HL. eexists _, _, _. split; [reflexivity|]. split; [exact HL|].
    pose proof (Z.mod_pos_bound (w.2 + 1) (2 ^ 40) ltac:(lia)). lia.
Defined.

Definition fresh_driver : driver := Driver example_mem [] 0 [] [] [].

Definition score_of (r : result (Z * prog (Z * Z))) : option (list line) :=
  match r with Ok (_, s) => Some (p_out s) | Fault _ => None end.

