(* ===== verification/RwLock.v ===== *)
(** * The reader-writer lock of the thread lab ([threadlab/rwlock.c])

    The interface of [rwlock.h], the contract of its comments for a lock that
    one thread uses at a time, the bodies handed out, and the contract for
    threads that wait: which of them may be granted the lock. *)

From S2P Require Import Prelude.

(** ** Time *)

Record timespec := Timespec { tv_sec : Z; tv_nsec : Z }.

Definition ETIMEDOUT : Z := 110.
Definition EINVAL : Z := 22.

(** What POSIX asks of an absolute time. *)
Definition valid_time (t : timespec) : bool := (0 <=? tv_nsec t) && (tv_nsec t <? 10 ^ 9).

(** The helper of rwlock.c; [wait] and [timedwait] are the answers of
    [pthread_cond_wait] and [pthread_cond_timedwait]. *)
Definition cond_timedwait (wait : Z) (timedwait : timespec -> Z) (expire : option timespec)
    : result Z :=
  let r := match expire with Some t => timedwait t | None => wait end in
  assert_ ((r =? 0) || (r =? ETIMEDOUT));; Ok r.

(** [pthread_cond_timedwait] when nobody signals. *)
Definition nobody_signals (t : timespec) : Z := if valid_time t then ETIMEDOUT else EINVAL.

(** ** The interface *)

Class RwLock (L : Type) := {
  rwl_init : L -> result L;
  rwl_nwaiters : ST L Z;
  rwl_rlock : option timespec -> ST L Z;
  rwl_runlock : ST L unit;
  rwl_wlock : option timespec -> ST L Z;
  rwl_wunlock : ST L unit;
}.

(** The contract for one thread: [rwl_at l n w] says that the lock is held
    [n] times for reading and, if [w], for writing.  A request that cannot be
    granted waits with [cond_timedwait]; since nobody releases the lock
    meanwhile, it fails when the time has come. *)
Class RwLockSpec (L : Type) `{RwLock L} := {
  rwl_at : L -> nat -> bool -> Prop;
  rwl_init_spec l : exists l', rwl_init l = Ok l' /\ rwl_at l' 0 false;
  rwl_nwaiters_spec l n w : rwl_at l n w -> exists l', rwl_nwaiters l = Ok (0, l') /\ rwl_at l' n w;
  rwl_rlock_spec l n expire :
    rwl_at l n false -> exists l', rwl_rlock expire l = Ok (0, l') /\ rwl_at l' (S n) false;
  rwl_rlock_wait l t :
    rwl_at l 0 true -> exists l', rwl_at l' 0 true /\
      rwl_rlock (Some t) l = (r ← cond_timedwait 0 nobody_signals (Some t); Ok (r, l'));
  rwl_runlock_spec l n :
    rwl_at l (S n) false -> exists l', rwl_runlock l = Ok (tt, l') /\ rwl_at l' n false;
  rwl_wlock_spec l expire :
    rwl_at l 0 false -> exists l', rwl_wlock expire l = Ok (0, l') /\ rwl_at l' 0 true;
  rwl_wlock_wait l n w t :
    rwl_at l n w -> (0 < n)%nat \/ w = true -> exists l', rwl_at l' n w /\
      rwl_wlock (Some t) l = (r ← cond_timedwait 0 nobody_signals (Some t); Ok (r, l'));
  rwl_wunlock_spec l :
    rwl_at l 0 true -> exists l', rwl_wunlock l = Ok (tt, l') /\ rwl_at l' 0 false;
}.

(** The bodies handed out: an empty structure, functions that do nothing. *)
Definition shipped_rwlock : RwLock unit := {|
  rwl_init l := Ok l;
  rwl_nwaiters l := Ok (0, l);
  rwl_rlock _ l := Ok (0, l);
  rwl_runlock l := Ok (tt, l);
  rwl_wlock _ l := Ok (0, l);
  rwl_wunlock l := Ok (tt, l);
|}.

(** A lock that counts, to show that the contract can be met. *)
Definition counting_lock : RwLock (nat * bool) := {|
  rwl_init _ := Ok (0%nat, false);
  rwl_nwaiters l := Ok (0, l);
  rwl_rlock expire l :=
    if l.2 : bool then r ← cond_timedwait 0 nobody_signals expire; Ok (r, l)
    else Ok (0, (S l.1, false));
  rwl_runlock l := Ok (tt, (pred l.1, l.2));
  rwl_wlock expire l :=
    if (l.2 : bool) || (0 <? Z.of_nat l.1) then
      r ← cond_timedwait 0 nobody_signals expire; Ok (r, l)
    else Ok (0, (l.1, true));
  rwl_wunlock l := Ok (tt, (l.1, false));
|}.

Lemma counting_lock_spec : @RwLockSpec _ counting_lock.
Proof.
  refine {| rwl_at l n w := l = (n, w) |}; simpl.
  - intros l. by eexists.
  - intros l n w ->. by eexists.
  - intros l n expire ->. by eexists.
  - intros l t ->. by eexists.
  - intros l n ->. by eexists.
  - intros l expire ->. by eexists.
  - intros l n w t -> Hheld. exists (n, w). split; [done|]. simpl.
    assert (w || (0 <? Z.of_nat n) = true) as ->; [|done].
    destruct Hheld as [Hn| ->]; [|done]. rewrite (proj2 (Z.ltb_lt _ _)) by lia. by rewrite orb_true_r.
  - intros l ->. by eexists.
Defined.

(** ** Threads that wait

    The threads that asked for the lock, each with the mode it asked for
    ([true] for writing) and whether it has been granted. *)
Abbreviation requests := (gmap Z (bool * bool)).

(** [rwl_nwaiters] *)
Definition waiting (l : requests) : Z := Z.of_nat (size (filter (fun kv => kv.2.2 = false) l)).

(** Which waiting thread an implementation may grant the lock next. *)
Class GrantPolicy := may_grant : requests -> Z -> bool.

(** The lock's promise: a writer holds it alone; a waiting writer goes before
    the readers. *)
Class WriterPriority `{GrantPolicy} : Prop := {
  grant_waiting l t : may_grant l t = true -> exists w, l !! t = Some (w, false);
  grant_excludes l t u w w' :
    may_grant l t = true -> l !! t = Some (w, false) -> l !! u = Some (w', true) ->
    w = false /\ w' = false;
  grant_priority l t u :
    may_grant l t = true -> l !! t = Some (false, false) -> l !! u <> Some (true, false);
}.

(** The policies: exclusion with writers first, and without. *)
Definition holders_allow (l : requests) (w : bool) : bool :=
  forallb (fun e => negb e.2.2 || (negb w && negb e.2.1)) (map_to_list l).

Definition writers_first : GrantPolicy := fun l t =>
  match l !! t with
  | Some (w, false) =>
      holders_allow l w && (w || forallb (fun e => negb e.2.1 || e.2.2) (map_to_list l))
  | _ => false
  end.

Definition no_priority : GrantPolicy := fun l t =>
  match l !! t with Some (w, false) => holders_allow l w | _ => false end.

Lemma map_forallb {B} (f : Z * B -> bool) (l : gmap Z B) u x :
  forallb f (map_to_list l) = true -> l !! u = Some x -> f (u, x) = true.
Proof.
  rewrite forallb_forall. intros Hall Hu. apply Hall, list_elem_of_In.
  by apply elem_of_map_to_list.
Qed.

Lemma holders_allow_spec l w u w' :
  holders_allow l w = true -> l !! u = Some (w', true) -> w = false /\ w' = false.
Proof.
  intros Hall Hu. pose proof (map_forallb _ _ _ _ Hall Hu) as H. by destruct w, w'.
Qed.

Lemma writers_first_priority : @WriterPriority writers_first.
Proof.
  split; unfold may_grant, writers_first; intros l t.
  - destruct (l !! t) as [[w []]|]; [done| |done]. by exists w.
  - intros u w w' Hg Ht Hu. rewrite Ht in Hg. apply andb_prop in Hg as [Hg _]. by eapply holders_allow_spec.
  - intros u Hg Ht Hu. rewrite Ht in Hg. apply andb_prop in Hg as [_ Hg].
    pose proof (map_forallb _ _ _ _ Hg Hu) as H. done.
Qed.

(** What the lock must grant: a writer that waits alone among the writers when
    nobody holds the lock; a reader when no writer holds it or waits. *)
Class GrantLive `{GrantPolicy} : Prop := {
  grant_writer l t :
    l !! t = Some (true, false) -> (forall u w, l !! u <> Some (w, true)) ->
    may_grant l t = true;
  grant_reader l t :
    l !! t = Some (false, false) -> (forall u b, l !! u <> Some (true, b)) ->
    may_grant l t = true;
}.

Lemma map_forallb_true {B} (f : Z * B -> bool) (l : gmap Z B) :
  (forall u x, l !! u = Some x -> f (u, x) = true) -> forallb f (map_to_list l) = true.
Proof.
  intros Hf. apply forallb_forall. intros [u x] Hin. apply Hf.
  by apply elem_of_map_to_list, list_elem_of_In.
Qed.

Lemma writers_first_live : @GrantLive writers_first.
Proof.
  split; unfold may_grant, writers_first, holders_allow; intros l t Ht Hnone; rewrite Ht.
  - rewrite map_forallb_true; [done|]. intros u [w []] Hu; [by destruct (Hnone u w)|done].
  - rewrite !map_forallb_true; [done|..]; intros u [[] []] Hu;
      done || by destruct (Hnone u _ Hu).
Qed.
