(* ===== verification/TestRwlock.v ===== *)
(** * The tests of the reader-writer lock ([threadlab/testrwlock.c])

    [test_rwl_basic] as a program over any [RwLock], and [test_rwl_priority]
    as a transition system: the main thread and the ten threads it creates,
    interleaved at every access to what they share. *)

From Stdlib Require Import String.
From S2P Require Import Prelude RwLock.

(** ** [test_rwl_basic] *)

Section basic.
(** [now k] is the [k]-th reading of the clock. *)
Context {L : Type} `{RwLock L} (now : nat -> timespec).

(** The lock, the number of readings so far and the lines printed. *)
Record basic := Basic { b_lock : L; b_ticks : nat; b_out : list string }.

Definition on_lock {B} (c : ST L B) : ST basic B := fun s =>
  match c (b_lock s) with
  | Ok (b, l) => Ok (b, Basic l (b_ticks s) (b_out s))
  | Fault e => Fault e
  end.

Definition say (msg : string) : ST basic unit := fun s =>
  Ok (tt, Basic (b_lock s) (b_ticks s) (b_out s ++ [msg])).

Definition get_expiretime : ST basic timespec := fun s =>
  let t := now (b_ticks s) in
  nsec ← ll_ (tv_nsec t + 100);
  Ok (Timespec (tv_sec t) nsec, Basic (b_lock s) (S (b_ticks s)) (b_out s)).

(** Prints the message and exits. *)
Definition test_fatal {B} : ST basic B := lift (Fault (Exited 1)).

Definition expect (b : bool) : ST basic unit := if b then mret tt else test_fatal.

Definition test_rwl_basic : ST basic unit :=
  on_lock (fun l => l ← rwl_init l; Ok (tt, l));;
  r ← on_lock (rwl_rlock None);
  expect (r =? 0);;
  say "Reader grabbed the lock";;
  expire ← get_expiretime;
  r ← on_lock (rwl_wlock (Some expire));
  expect (r =? ETIMEDOUT);;
  expire ← get_expiretime;
  r ← on_lock (rwl_rlock (Some expire));
  expect (r =? 0);;
  say "Another reader grabbed the lock";;
  on_lock rwl_runlock;;
  say "One reader unlocked";;
  on_lock rwl_runlock;;
  say "Another reader unlocked";;
  r ← on_lock (rwl_wlock None);
  expect (r =? 0);;
  say "Writer grabbed the lock";;
  expire ← get_expiretime;
  r ← on_lock (rwl_wlock (Some expire));
  expect (r =? ETIMEDOUT);;
  expire ← get_expiretime;
  r ← on_lock (rwl_rlock (Some expire));
  expect (r =? ETIMEDOUT);;
  on_lock rwl_wunlock;;
  say "Writer unlocked";;
  say "PASSED basic correctness".
End basic.
Arguments basic L : clear implicits.
Arguments Basic {L} b_lock b_ticks b_out.
Arguments b_lock {L} _.
Arguments b_ticks {L} _.
Arguments b_out {L} _.

(** ** [test_rwl_priority] *)

(** Where a created thread is in [linger_reader], [competing_writer] or
    [competing_reader]: before its request; waiting for the lock; at
    [pthread_mutex_lock]; in the critical section; at the test of its loop;
    in [pthread_cond_wait]; woken there; at [pthread_mutex_unlock]; at the
    release; returned. *)
Inductive wpc :=
  | Not_created | At_lock | Waiting | At_mutex | In_cs | Checking | Sleeping | Woken
  | Leaving | Unlocking | Finished.

(** Where the main thread is. *)
Inductive mpc :=
  | M_create_linger
  | M_poll_lock | M_poll_read | M_poll_unlock
  | M_create_writer | M_wait_writer
  | M_create_reader (i : Z)
  | M_check_lock | M_check_read | M_check_unlock
  | M_wait_all
  | M_out_lock | M_out_set | M_out_broadcast | M_out_unlock
  | M_who | M_who_lock | M_who_read | M_who_unlock
  | M_decide
  | M_peers_lock | M_peers_set | M_peers_broadcast | M_peers_unlock
  | M_join (i : Z)
  | M_passed
  | M_fatal.

Record state := State {
  main_pc : mpc;
  reader_in : Z;
  who : Z;
  pcs : gmap Z wpc;
  l2 : requests;
  test_m : option Z;
  reader_in_cs : Z;
  who_is_in_cs : Z;
  reader_getout : Z;
  peers_getout : Z;
}.

Definition pc (s : state) (t : Z) : wpc := default Not_created (pcs s !! t).

Definition set_main (m : mpc) (s : state) : state :=
  State m (reader_in s) (who s) (pcs s) (l2 s) (test_m s) (reader_in_cs s) (who_is_in_cs s)
    (reader_getout s) (peers_getout s).
Definition set_locals (r w : Z) (s : state) : state :=
  State (main_pc s) r w (pcs s) (l2 s) (test_m s) (reader_in_cs s) (who_is_in_cs s)
    (reader_getout s) (peers_getout s).
Definition set_pc (t : Z) (p : wpc) (s : state) : state :=
  State (main_pc s) (reader_in s) (who s) (<[t := p]> (pcs s)) (l2 s) (test_m s)
    (reader_in_cs s) (who_is_in_cs s) (reader_getout s) (peers_getout s).
Definition set_l2 (l : requests) (s : state) : state :=
  State (main_pc s) (reader_in s) (who s) (pcs s) l (test_m s) (reader_in_cs s)
    (who_is_in_cs s) (reader_getout s) (peers_getout s).
Definition set_m (o : option Z) (s : state) : state :=
  State (main_pc s) (reader_in s) (who s) (pcs s) (l2 s) o (reader_in_cs s) (who_is_in_cs s)
    (reader_getout s) (peers_getout s).
Definition set_cs (r w : Z) (s : state) : state :=
  State (main_pc s) (reader_in s) (who s) (pcs s) (l2 s) (test_m s) r w (reader_getout s)
    (peers_getout s).
Definition set_getout (r p : Z) (s : state) : state :=
  State (main_pc s) (reader_in s) (who s) (pcs s) (l2 s) (test_m s) (reader_in_cs s)
    (who_is_in_cs s) r p.

(** [threads[0]] lingers, [threads[1]] writes, the others read. *)
Definition is_writer (t : Z) : bool := t =? 1.
Definition getout (t : Z) (s : state) : Z := if t =? 0 then reader_getout s else peers_getout s.

(** The main thread's name as the holder of [test_m]. *)
Definition main_thread : Z := -1.

(** [pthread_mutex_lock] by [t], when the mutex is free. *)
Definition take_m (t : Z) (s : state) : option state :=
  match test_m s with None => Some (set_m (Some t) s) | Some _ => None end.

(** [pthread_cond_broadcast]: every thread that [sel]ects and sleeps wakes. *)
Definition wake (p : wpc) : wpc := match p with Sleeping => Woken | p => p end.

Definition broadcast (sel : Z -> bool) (s : state) : state :=
  State (main_pc s) (reader_in s) (who s)
    (map_imap (fun t p => Some (if sel t then wake p else p)) (pcs s))
    (l2 s) (test_m s) (reader_in_cs s) (who_is_in_cs s) (reader_getout s) (peers_getout s).

(** One step of a created thread on its own. *)
Definition thread_step (t : Z) (s : state) : option state :=
  match pc s t with
  | At_lock => Some (set_pc t Waiting (set_l2 (<[t := (is_writer t, false)]> (l2 s)) s))
  | At_mutex => set_pc t In_cs <$> take_m t s
  | In_cs =>
      Some (set_pc t Checking
        (if t =? 0 then set_cs 1 (who_is_in_cs s) s
         else set_cs (reader_in_cs s) (if is_writer t then 1 else 2) s))
  | Checking =>
      if getout t s =? 0 then Some (set_pc t Sleeping (set_m None s))
      else Some (set_pc t Leaving s)
  | Woken => set_pc t Checking <$> take_m t s
  | Leaving => Some (set_pc t Unlocking (set_m None s))
  | Unlocking => Some (set_pc t Finished (set_l2 (delete t (l2 s)) s))
  | _ => None
  end.

(** One step of the main thread.  A busy loop steps to itself. *)
Definition main_step (s : state) : option state :=
  match main_pc s with
  | M_create_linger => Some (set_main M_poll_lock (set_pc 0 At_lock s))
  | M_poll_lock => set_main M_poll_read <$> take_m main_thread s
  | M_poll_read => Some (set_main M_poll_unlock (set_locals (reader_in_cs s) (who s) s))
  | M_poll_unlock =>
      Some (set_main (if reader_in s =? 0 then M_poll_lock else M_create_writer) (set_m None s))
  | M_create_writer => Some (set_main M_wait_writer (set_pc 1 At_lock s))
  | M_wait_writer =>
      Some (set_main (if waiting (l2 s) =? 1 then M_create_reader 2 else M_wait_writer) s)
  | M_create_reader i =>
      if i <? 10 then Some (set_main (M_create_reader (i + 1)) (set_pc i At_lock s))
      else Some (set_main M_check_lock s)
  | M_check_lock => set_main M_check_read <$> take_m main_thread s
  | M_check_read => Some (set_main M_check_unlock (set_locals (reader_in s) (who_is_in_cs s) s))
  | M_check_unlock =>
      Some (set_main (if (who s =? 1) || (who s =? 2) then M_fatal else M_wait_all) (set_m None s))
  | M_wait_all => Some (set_main (if waiting (l2 s) =? 9 then M_out_lock else M_wait_all) s)
  | M_out_lock => set_main M_out_set <$> take_m main_thread s
  | M_out_set => Some (set_main M_out_broadcast (set_getout 1 (peers_getout s) s))
  | M_out_broadcast => Some (set_main M_out_unlock (broadcast (fun t => t =? 0) s))
  | M_out_unlock => Some (set_main M_who (set_m None s))
  | M_who => Some (set_main (if who s =? 0 then M_who_lock else M_decide) s)
  | M_who_lock => set_main M_who_read <$> take_m main_thread s
  | M_who_read => Some (set_main M_who_unlock (set_locals (reader_in s) (who_is_in_cs s) s))
  | M_who_unlock => Some (set_main M_who (set_m None s))
  | M_decide => Some (set_main (if who s =? 1 then M_peers_lock else M_fatal) s)
  | M_peers_lock => set_main M_peers_set <$> take_m main_thread s
  | M_peers_set => Some (set_main M_peers_broadcast (set_getout (reader_getout s) 1 s))
  | M_peers_broadcast => Some (set_main M_peers_unlock (broadcast (fun t => negb (t =? 0)) s))
  | M_peers_unlock => Some (set_main (M_join 0) (set_m None s))
  | M_join i =>
      if i <? 10 then
        match pc s i with Finished => Some (set_main (M_join (i + 1)) s) | _ => None end
      else Some (set_main M_passed s)
  | M_passed | M_fatal => None
  end.

(** What happens next: a step of a thread, the lock's grant of a request, or
    a spurious wake-up, which [pthread_cond_wait] allows. *)
Inductive choice := Main | Thread (t : Z) | Grant (t : Z) | Spurious (t : Z).

Section priority.
Context `{GrantPolicy}.

Definition step (c : choice) (s : state) : option state :=
  match c with
  | Main => main_step s
  | Thread t => thread_step t s
  | Grant t =>
      match pc s t with
      | Waiting =>
          if may_grant (l2 s) t then
            Some (set_pc t At_mutex (set_l2 (<[t := (is_writer t, true)]> (l2 s)) s))
          else None
      | _ => None
      end
  | Spurious t => match pc s t with Sleeping => Some (set_pc t Woken s) | _ => None end
  end.

Definition start : state := State M_create_linger 0 0 ∅ ∅ None 0 0 0 0.

(** The state after a sequence of choices, all of which must be possible. *)
Fixpoint run (cs : list choice) (s : state) : option state :=
  match cs with
  | [] => Some s
  | c :: cs => s ← step c s; run cs s
  end.
End priority.

(** ** Invariant of the priority test *)

(** How far a thread has come: it asked for the lock (2), holds or held it
    (3), was told to get out (6), gave the lock back (8). *)
Definition rank (p : wpc) : Z :=
  match p with
  | Not_created => 0 | At_lock => 1 | Waiting => 2 | At_mutex => 3 | In_cs => 4
  | Checking | Sleeping | Woken => 5 | Leaving => 6 | Unlocking => 7 | Finished => 8
  end.

(** How far the main thread has come: the lingering reader is in (2), the
    writer waits (4), the lingering reader (6) and the others (7) were told
    to get out. *)
Definition phase (m : mpc) : Z :=
  match m with
  | M_create_linger => 0
  | M_poll_lock | M_poll_read | M_poll_unlock => 1
  | M_create_writer => 2
  | M_wait_writer => 3
  | M_create_reader _ | M_check_lock | M_check_read | M_check_unlock | M_wait_all => 4
  | M_out_lock | M_out_set => 5
  | M_out_broadcast | M_out_unlock | M_who | M_who_lock | M_who_read | M_who_unlock
  | M_decide | M_peers_lock | M_peers_set => 6
  | M_peers_broadcast | M_peers_unlock | M_join _ | M_passed | M_fatal => 7
  end.

(** What the lock knows of a thread. *)
Definition request_of (t : Z) (p : wpc) : option (bool * bool) :=
  if rank p <? 2 then None
  else if rank p <? 3 then Some (is_writer t, false)
  else if rank p <? 8 then Some (is_writer t, true)
  else None.

Record inv (s : state) : Prop := {
  (** The lock's table is that of the threads' positions. *)
  inv_lock t : l2 s !! t = request_of t (pc s t);
  (** Who exists when. *)
  inv_first : phase (main_pc s) < 1 -> pc s 0 = Not_created;
  inv_second : phase (main_pc s) < 3 -> pc s 1 = Not_created;
  inv_others t : t <> 0 -> t <> 1 -> pc s t <> Not_created -> 4 <= phase (main_pc s);
  inv_fresh i : main_pc s = M_create_reader i ->
    2 <= i /\ forall t, i <= t -> pc s t = Not_created;
  (** The lingering reader is in before the writer comes, the writer asks
      before the other readers come. *)
  inv_linger : reader_in_cs s <> 0 \/ reader_in s <> 0 \/ 2 <= phase (main_pc s) -> 3 <= rank (pc s 0);
  inv_asked : 4 <= phase (main_pc s) -> 2 <= rank (pc s 1);
  (** The main thread decides when they get out. *)
  inv_stay : phase (main_pc s) < 6 -> reader_getout s = 0;
  inv_stay_peers : phase (main_pc s) < 7 -> peers_getout s = 0;
  inv_out : 6 <= rank (pc s 0) -> reader_getout s <> 0;
  inv_out_peers t : t <> 0 -> 6 <= rank (pc s t) -> peers_getout s <> 0;
  (** The writer enters after the lingering reader left, the other readers
      after the writer left. *)
  inv_writer : 3 <= rank (pc s 1) -> reader_getout s <> 0;
  inv_readers t : t <> 0 -> t <> 1 -> 3 <= rank (pc s t) -> peers_getout s <> 0;
  (** Hence what the main thread may see. *)
  inv_seen w : w = who_is_in_cs s \/ w = who s ->
    w = 0 \/ (w = 1 /\ reader_getout s <> 0) \/ (w = 2 /\ peers_getout s <> 0);
  inv_decide : main_pc s = M_decide -> who s <> 0;
  inv_safe : main_pc s <> M_fatal;
}.

Lemma pc_set_pc t p s u : pc (set_pc t p s) u = if decide (u = t) then p else pc s u.
Proof.
  unfold pc, set_pc. simpl. case_decide as H.
  - subst. by rewrite lookup_insert_eq.
  - by rewrite lookup_insert_ne.
Qed.

Lemma pc_broadcast sel s u : pc (broadcast sel s) u = if sel u then wake (pc s u) else pc s u.
Proof.
  unfold pc, broadcast. simpl. rewrite map_lookup_imap.
  destruct (pcs s !! u); simpl; by destruct (sel u).
Qed.

Lemma rank_wake p : rank (wake p) = rank p.
Proof. by destruct p. Qed.

Lemma request_of_wake t p : request_of t (wake p) = request_of t p.
Proof. unfold request_of. by rewrite rank_wake. Qed.

Lemma start_inv : inv start.
Proof.
  split; simpl; try done; try lia; tauto.
Qed.

(** A thread moves on; what it changes besides its position. *)
Lemma inv_move s s' t p :
  inv s -> pc s t <> Not_created -> rank (pc s t) <= rank p ->
  main_pc s' = main_pc s -> who s' = who s -> reader_in s' = reader_in s ->
  reader_getout s' = reader_getout s -> peers_getout s' = peers_getout s ->
  (forall u, pc s' u = if decide (u = t) then p else pc s u) ->
  (forall u, l2 s' !! u = if decide (u = t) then request_of t p else l2 s !! u) ->
  reader_in_cs s' = reader_in_cs s \/ t = 0 /\ 3 <= rank p ->
  who_is_in_cs s' = who_is_in_cs s \/
    t = 1 /\ who_is_in_cs s' = 1 /\ 3 <= rank (pc s t) \/
    t <> 0 /\ t <> 1 /\ who_is_in_cs s' = 2 /\ 3 <= rank (pc s t) ->
  (6 <= rank p -> getout t s <> 0) ->
  (3 <= rank p -> t = 1 -> reader_getout s <> 0) ->
  (3 <= rank p -> t <> 0 -> t <> 1 -> peers_getout s <> 0) -> inv s'.
Proof.
  intros [] Ht Hrank Hm Hw Hr Hg Hp Hpc Hl Hcs Hseen Hout H1 H2. unfold getout in Hout.
  assert (Hp0 : p <> Not_created) by (intros ->; by destruct (pc s t)).
  split; rewrite ?Hm, ?Hw, ?Hr, ?Hg, ?Hp; try done.
  - intros u. rewrite Hl, Hpc. case_decide; [by subst|done].
  - intros Hph. rewrite Hpc. case_decide; [subst; by destruct Ht; auto|auto].
  - intros Hph. rewrite Hpc. case_decide; [subst; by destruct Ht; auto|auto].
  - intros u Hu0 Hu1. rewrite Hpc. case_decide; [subst; eauto|eauto].
  - intros i Hi. destruct (inv_fresh0 i Hi) as [? Hf]. split; [done|]. intros u Hu.
    rewrite Hpc. case_decide; [subst; by destruct Ht; auto|auto].
  - intros Hc. rewrite Hpc. case_decide as E.
    + subst t. destruct Hcs as [Hcs|[_ ?]]; [|done]. rewrite Hcs in Hc. specialize (inv_linger0 Hc). lia.
    + destruct Hcs as [Hcs|[? _]]; [|done]. rewrite Hcs in Hc. auto.
  - intros Hph. rewrite Hpc. case_decide as E; [subst t; specialize (inv_asked0 Hph); lia|auto].
  - rewrite Hpc. case_decide; [subst t; auto|auto].
  - intros u Hu. rewrite Hpc. case_decide as E; [|eauto]. subst u. intros H6.
    specialize (Hout H6). by destruct (Z.eqb_spec t 0).
  - rewrite Hpc. case_decide; [auto|auto].
  - intros u Hu0 Hu1. rewrite Hpc. case_decide; [subst; auto|eauto].
  - intros w Hcase.
    assert (Hc : w = who_is_in_cs s' \/ w = who s) by (destruct Hcase; [by left|right; congruence]).
    destruct Hseen as [Hs|[(-> & Hs & Hk)|(Ht0 & Ht1 & Hs & Hk)]]; rewrite Hs in Hc.
    + by apply inv_seen0.
    + destruct Hc as [->|Hc]; [right; left; eauto|by apply inv_seen0; right].
    + destruct Hc as [->|Hc]; [right; right; eauto|by apply inv_seen0; right].
Qed.

Lemma request_of_held t p : 3 <= rank p < 8 -> request_of t p = Some (is_writer t, true).
Proof.
  intros Hp. unfold request_of. rewrite !(proj2 (Z.ltb_ge _ _)) by lia.
  by rewrite (proj2 (Z.ltb_lt _ _)) by lia.
Qed.

Lemma rank_le p : 0 <= rank p <= 8.
Proof. destruct p; simpl; lia. Qed.

Lemma request_of_wait t : request_of t Waiting = Some (is_writer t, false).
Proof. done. Qed.

(** The states that differ only in [test_m] and the two variables that tell
    who is in the critical section. *)
Definition same_threads (s s0 : state) : Prop :=
  pcs s0 = pcs s /\ l2 s0 = l2 s /\ main_pc s0 = main_pc s /\ who s0 = who s /\
  reader_in s0 = reader_in s /\ reader_getout s0 = reader_getout s /\
  peers_getout s0 = peers_getout s.

(** A thread that holds the lock moves on and keeps it. *)
Lemma inv_held s s0 t p :
  inv s -> same_threads s s0 -> 3 <= rank (pc s t) <= rank p -> rank p < 8 ->
  reader_in_cs s0 = reader_in_cs s \/ t = 0 ->
  who_is_in_cs s0 = who_is_in_cs s \/ t = 1 /\ who_is_in_cs s0 = 1 \/
    t <> 0 /\ t <> 1 /\ who_is_in_cs s0 = 2 ->
  (6 <= rank p -> getout t s <> 0) -> inv (set_pc t p s0).
Proof.
  intros Hinv (Hp & Hl & Hm & Hw & Hr & Hg & Hg') Hk Hlt Hcs Hwho Hout.
  assert (Hpc : forall u, pc s0 u = pc s u) by (intros u; unfold pc; by rewrite Hp).
  apply (inv_move s _ t p Hinv); try done.
  - intros E. rewrite E in Hk. simpl in Hk. lia.
  - lia.
  - intros u. rewrite pc_set_pc, Hpc. done.
  - intros u. simpl. rewrite Hl. case_decide as E; [subst u|done].
    rewrite (inv_lock s Hinv), !request_of_held by lia. done.
  - destruct Hcs as [|]; [by left|right; lia].
  - simpl. destruct Hwho as [|[[]|(?&?&?)]]; [by left|right; left; lia|right; right; lia].
  - intros _ ->. apply (inv_writer s Hinv). lia.
  - intros _ H0 H1. apply (inv_readers s Hinv t H0 H1). lia.
Qed.

(** Once told to get out, a thread was told so. *)
Lemma inv_getout s t : inv s -> 6 <= rank (pc s t) -> getout t s <> 0.
Proof.
  intros Hinv Hk. unfold getout. destruct (Z.eqb_spec t 0) as [->|Ht].
  - by apply (inv_out s Hinv).
  - by apply (inv_out_peers s Hinv t Ht).
Qed.

Lemma thread_step_inv s t s' : inv s -> thread_step t s = Some s' -> inv s'.
Proof.
  intros Hinv. unfold thread_step, take_m. destruct (pc s t) eqn:Hpc; try done.
  - intros [= <-]. apply (inv_move s _ t Waiting Hinv); rewrite ?Hpc; try done; try (by left).
    + intros u. by rewrite pc_set_pc.
    + intros u. simpl. rewrite lookup_insert. by repeat case_decide.
  - destruct (test_m s); [done|]. intros [= <-].
    apply (inv_held s); rewrite ?Hpc; simpl; (done || lia || by left).
  - intros [= <-]. apply (inv_held s); rewrite ?Hpc; simpl; try (done || lia).
    + by destruct (t =? 0).
    + destruct (Z.eqb_spec t 0); [by right|by left].
    + unfold is_writer. destruct (Z.eqb_spec t 0); [by left|]. destruct (Z.eqb_spec t 1); simpl; tauto.
  - destruct (Z.eqb_spec (getout t s) 0) as [Hg|Hg]; intros [= <-];
      apply (inv_held s); rewrite ?Hpc; simpl; (done || lia || by left).
  - destruct (test_m s); [done|]. intros [= <-].
    apply (inv_held s); rewrite ?Hpc; simpl; (done || lia || by left).
  - intros [= <-]. pose proof (inv_getout s t Hinv) as Hg. rewrite Hpc in Hg.
    apply (inv_held s); rewrite ?Hpc; simpl; try (done || lia || by left).
    intros _. by apply Hg.
  - intros [= <-]. pose proof (inv_getout s t Hinv) as Hg. rewrite Hpc in Hg. simpl in Hg.
    apply (inv_move s _ t Finished Hinv); rewrite ?Hpc; simpl; try (done || lia || by left).
    + intros u. by rewrite pc_set_pc.
    + intros u. rewrite lookup_delete. by repeat case_decide.
    + intros _ ->. apply (inv_writer s Hinv). rewrite Hpc. simpl. lia.
    + intros _ H0 H1. apply (inv_readers s Hinv t H0 H1). rewrite Hpc. simpl. lia.
Qed.

(** *** Steps of the main thread *)

(** The clauses of the invariant that a step with the same threads and no new
    variable keeps, for a phase that does not decrease. *)
Lemma inv_main s s0 m :
  inv s -> (forall u, rank (pc s0 u) = rank (pc s u)) -> l2 s0 = l2 s ->
  reader_in_cs s0 = reader_in_cs s -> who_is_in_cs s0 = who_is_in_cs s ->
  reader_in s0 = reader_in s \/ reader_in s0 = reader_in_cs s ->
  who s0 = who s \/ who s0 = who_is_in_cs s ->
  (reader_getout s0 = reader_getout s \/ reader_getout s0 <> 0 /\ 6 <= phase m) ->
  (peers_getout s0 = peers_getout s \/ peers_getout s0 <> 0 /\ 7 <= phase m) ->
  phase (main_pc s) <= phase m ->
  (2 <= phase m -> 3 <= rank (pc s 0)) -> (4 <= phase m -> 2 <= rank (pc s 1)) ->
  (forall i, m = M_create_reader i -> 2 <= i /\ forall t, i <= t -> pc s t = Not_created) ->
  (m = M_decide -> who s0 <> 0) -> m <> M_fatal -> inv (set_main m s0).
Proof.
  intros [] Hpc Hl Hcs Hw Hr Hwho Hg Hg' Hph Hin Hasked Hfr Hdec Hsafe.
  assert (Hnot : forall u, pc s0 u = Not_created <-> pc s u = Not_created).
  { intros u. specialize (Hpc u). split; intros E; rewrite E in Hpc;
      [by destruct (pc s u)|by destruct (pc s0 u)]. }
  assert (Hpc' : forall u, pc (set_main m s0) u = pc s0 u) by done.
  split; simpl; rewrite ?Hcs, ?Hw, ?Hl; try done.
  - intros u. rewrite Hpc', inv_lock0. unfold request_of. by rewrite Hpc.
  - intros Hlt. rewrite Hpc', Hnot. apply inv_first0. lia.
  - intros Hlt. rewrite Hpc', Hnot. apply inv_second0. lia.
  - intros u Hu0 Hu1. rewrite Hpc', Hnot. intros Hu. specialize (inv_others0 u Hu0 Hu1 Hu). lia.
  - intros i Hi. destruct (Hfr i Hi) as [? Hf]. split; [done|]. intros u Hu.
    rewrite Hpc', Hnot. auto.
  - intros Hc. rewrite Hpc', Hpc. destruct Hc as [Hc|[Hc|Hc]]; [auto| |auto].
    destruct Hr as [Hr|Hr]; rewrite Hr in Hc; auto.
  - intros Hlt. rewrite Hpc', Hpc. auto.
  - intros Hlt. destruct Hg as [->|[_ ?]]; [apply inv_stay0; lia|lia].
  - intros Hlt. destruct Hg' as [->|[_ ?]]; [apply inv_stay_peers0; lia|lia].
  - rewrite Hpc', Hpc. destruct Hg as [->|[? _]]; [auto|done].
  - intros u Hu. rewrite Hpc', Hpc. destruct Hg' as [->|[? _]]; [eauto|done].
  - rewrite Hpc', Hpc. destruct Hg as [->|[? _]]; [auto|done].
  - intros u Hu0 Hu1. rewrite Hpc', Hpc. destruct Hg' as [->|[? _]]; [eauto|done].
  - intros w Hc. assert (Hc' : w = who_is_in_cs s \/ w = who s).
    { destruct Hc as [->| ->]; [by left|]. destruct Hwho; [by right|by left]. }
    destruct (inv_seen0 w Hc') as [?|[[-> ?]|[-> ?]]]; [by left|right; left|right; right].
    + split; [done|]. destruct Hg as [->|[? _]]; done.
    + split; [done|]. destruct Hg' as [->|[? _]]; done.
Qed.

(** A new thread starts before its request. *)
Lemma inv_create s t m :
  inv s -> pc s t = Not_created -> phase (main_pc s) <= phase m -> phase m < 6 ->
  (t = 0 -> 1 <= phase m) -> (t = 1 -> 3 <= phase m) -> (t <> 0 -> t <> 1 -> 4 <= phase m) ->
  (2 <= phase m -> 3 <= rank (pc s 0)) -> (4 <= phase m -> 2 <= rank (pc s 1)) ->
  (forall i, m = M_create_reader i -> 2 <= i /\ t < i /\ forall u, i <= u -> pc s u = Not_created) ->
  inv (set_main m (set_pc t At_lock s)).
Proof.
  intros [] Ht Hph Hlt6 H0 H1 H4 Hin Hasked Hfr.
  assert (Hpc : forall u, pc (set_main m (set_pc t At_lock s)) u =
    if decide (u = t) then At_lock else pc s u) by (intros u; apply (pc_set_pc t At_lock s u)).
  assert (Hk : forall u k, 2 <= k -> k <= rank (pc s u) ->
    k <= rank (if decide (u = t) then At_lock else pc s u)).
  { intros u k Hk2 Hu. case_decide; [|done]. subst. rewrite Ht in Hu. simpl in Hu. lia. }
  assert (Hk' : forall u k, 2 <= k -> k <= rank (if decide (u = t) then At_lock else pc s u) ->
    k <= rank (pc s u)).
  { intros u k Hk2. case_decide; simpl; [lia|done]. }
  split; intros *; rewrite ?Hpc; simpl; try done.
  - rewrite inv_lock0. case_decide; [subst; by rewrite Ht|done].
  - intros Hlt. case_decide; [lia|apply inv_first0; lia].
  - intros Hlt. case_decide; [lia|apply inv_second0; lia].
  - intros Hu0 Hu1. case_decide; [subst; auto|].
    intros Hu. specialize (inv_others0 _ Hu0 Hu1 Hu). lia.
  - intros Hi. destruct (Hfr _ Hi) as (? & ? & Hf). split; [done|]. intros u Hu.
    rewrite Hpc. case_decide; [lia|auto].
  - intros Hc. apply Hk; [lia|]. destruct Hc as [|[|]]; auto.
  - intros Hc. apply Hk; [lia|auto].
  - intros _. apply inv_stay0. lia.
  - intros Hlt. apply inv_stay_peers0. lia.
  - intros Hu%Hk'; [auto|lia].
  - intros Hne Hu%Hk'; [eauto|lia].
  - intros Hu%Hk'; [auto|lia].
  - intros Hu0 Hu1 Hu%Hk'; [eauto|lia].
  - apply inv_seen0.
  - intros ->. simpl in *. lia.
  - intros ->. simpl in *. lia.
Qed.

(** The first waiting thread that [rwl_nwaiters] counts. *)
Lemma waiting_thread s :
  inv s -> waiting (l2 s) <> 0 -> exists t, pc s t = Waiting.
Proof.
  intros Hinv Hw. unfold waiting in Hw.
  destruct (map_choose (filter (fun kv : Z * (bool * bool) => kv.2.2 = false) (l2 s))) as (t & [w b] & Ht).
  { intros E. rewrite E in Hw. by rewrite map_size_empty in Hw. }
  apply map_lookup_filter_Some in Ht as [Ht Hb]. simpl in Hb. subst b. exists t.
  rewrite (inv_lock s Hinv) in Ht. unfold request_of in Ht. by destruct (pc s t).
Qed.

(** While only the writer can be waiting, a waiting thread is the writer. *)
Lemma writer_asked s :
  inv s -> main_pc s = M_wait_writer -> waiting (l2 s) = 1 ->
  2 <= rank (pc s 1) /\ forall t, 2 <= t -> pc s t = Not_created.
Proof.
  intros Hinv Hm Hw.
  assert (Hnone : forall t, t <> 0 -> t <> 1 -> pc s t = Not_created).
  { intros t H0 H1. destruct (pc s t) eqn:E; try done; exfalso;
      pose proof (inv_others s Hinv t H0 H1) as Hph; rewrite E, Hm in Hph; by apply Hph. }
  split; [|intros t Ht; apply Hnone; lia].
  destruct (waiting_thread s Hinv ltac:(lia)) as [t Ht].
  destruct (decide (t = 0)) as [->|H0].
  { pose proof (inv_linger s Hinv) as Hl. rewrite Hm, Ht in Hl. simpl in Hl. lia. }
  destruct (decide (t = 1)) as [->|H1]; [by rewrite Ht|]. by rewrite (Hnone t) in Ht.
Qed.

Lemma main_step_inv s s' : inv s -> main_step s = Some s' -> inv s'.
Proof.
  intros Hinv. unfold main_step, take_m.
  pose proof (inv_linger s Hinv) as Hl. pose proof (inv_asked s Hinv) as Ha.
  destruct (main_pc s) eqn:Hm; simpl in Hl, Ha; repeat (case_match; try done); intros [= <-].
  all: try (apply (inv_main s); rewrite ?Hm; simpl;
            solve [done | lia | auto | by left | by right | intros _; auto with lia]).
  - apply (inv_create s); rewrite ?Hm; simpl; try (done || lia).
    apply (inv_first s Hinv). rewrite Hm. simpl. lia.
  - apply (inv_create s); rewrite ?Hm; simpl; try (done || lia).
    apply (inv_second s Hinv). rewrite Hm. simpl. lia.
  - destruct (writer_asked s Hinv Hm) as [Hw Hf]; [by apply Z.eqb_eq|].
    apply (inv_main s); rewrite ?Hm; simpl; try (done || lia); try (by left).
    by intros i [= <-].
  - destruct (inv_fresh s Hinv i Hm) as [Hi Hf].
    apply (inv_create s); rewrite ?Hm; simpl; try (done || lia).
    + apply Hf. lia.
    + intros j [= <-]. split_and!; [lia..|]. intros u Hu. apply Hf. lia.
  - exfalso. pose proof (inv_seen s Hinv (who s) (or_intror eq_refl)) as Hw.
    pose proof (inv_stay s Hinv) as Hs. pose proof (inv_stay_peers s Hinv) as Hs'.
    rewrite Hm in Hs, Hs'. simpl in Hs, Hs'. rewrite orb_true_iff, !Z.eqb_eq in *. lia.
  - apply (inv_main s); rewrite ?Hm; simpl; try (done || lia); try (by left).
    intros u. rewrite pc_broadcast. destruct (u =? 0); [apply rank_wake|done].
  - exfalso. pose proof (inv_seen s Hinv (who s) (or_intror eq_refl)) as Hw.
    pose proof (inv_decide s Hinv Hm) as Hd. pose proof (inv_stay_peers s Hinv) as Hs.
    rewrite Hm in Hs. simpl in Hs. rewrite Z.eqb_neq in *. lia.
  - apply (inv_main s); rewrite ?Hm; simpl; try (done || lia); try (by left).
    intros u. rewrite pc_broadcast. destruct (negb (u =? 0)); [apply rank_wake|done].
Qed.

Section priority_inv.
Context `{WriterPriority}.

(** A thread that is there and does not hold the lock when another may be
    granted it, the writer among them, has not asked yet or has left. *)
Lemma granted_alone s t u :
  inv s -> may_grant (l2 s) t = true -> pc s t = Waiting -> (is_writer t || is_writer u) = true ->
  3 <= rank (pc s u) -> 6 <= rank (pc s u).
Proof.
  intros Hinv Hg Ht Hwr Hu. destruct (Z.le_gt_cases 8 (rank (pc s u))); [lia|].
  pose proof (inv_lock s Hinv u) as Hlu. rewrite request_of_held in Hlu by lia.
  pose proof (inv_lock s Hinv t) as Hlt. rewrite Ht in Hlt.
  destruct (grant_excludes _ _ _ _ _ Hg Hlt Hlu) as [E1 E2]. by rewrite E1, E2 in Hwr.
Qed.

Lemma grant_inv s t s' : inv s -> step (Grant t) s = Some s' -> inv s'.
Proof.
  intros Hinv. simpl. destruct (pc s t) eqn:Hpc; try done.
  destruct (may_grant (l2 s) t) eqn:Hg; [|done]. intros [= <-].
  apply (inv_move s _ t At_mutex Hinv); rewrite ?Hpc; simpl; try (done || lia || by left).
  - intros u. by rewrite pc_set_pc.
  - intros u. rewrite lookup_insert. by repeat case_decide.
  - intros _ ->. apply (inv_out s Hinv).
    apply (granted_alone s 1); [done..|]. apply (inv_linger s Hinv). right. right.
    destruct (Z.le_gt_cases 3 (phase (main_pc s))) as [?|Hph]; [lia|].
    by rewrite (inv_second s Hinv Hph) in Hpc.
  - intros _ Ht0 Ht1. apply (inv_out_peers s Hinv 1 ltac:(done)).
    assert (Hw : 2 <= rank (pc s 1)).
    { apply (inv_asked s Hinv), (inv_others s Hinv t); [done..|]. by rewrite Hpc. }
    apply (granted_alone s t); [done..|by rewrite orb_true_r|].
    destruct (Z.le_gt_cases 3 (rank (pc s 1))) as [?|Hk]; [done|exfalso].
    assert (Hpc1 : pc s 1 = Waiting) by (destruct (pc s 1); simpl in *; (done || lia)).
    pose proof (inv_lock s Hinv t) as Hlt. rewrite Hpc in Hlt.
    pose proof (inv_lock s Hinv 1) as Hl1. rewrite Hpc1 in Hl1.
    rewrite request_of_wait in Hlt, Hl1. unfold is_writer in Hlt.
    rewrite (proj2 (Z.eqb_neq t 1)) in Hlt by done.
    by apply (grant_priority _ _ 1 Hg Hlt).
Qed.
End priority_inv.

Section reachability.
Context `{WriterPriority}.

Lemma spurious_inv s t s' : inv s -> step (Spurious t) s = Some s' -> inv s'.
Proof.
  intros Hinv. simpl. destruct (pc s t) eqn:Hpc; try done. intros [= <-].
  apply (inv_held s); rewrite ?Hpc; simpl; (done || lia || by left).
Qed.

Lemma step_inv c s s' : inv s -> step c s = Some s' -> inv s'.
Proof.
  intros Hinv Hstep. destruct c as [|t|t|t].
  - by eapply main_step_inv.
  - by eapply thread_step_inv.
  - by eapply grant_inv.
  - by eapply spurious_inv.
Qed.

Lemma run_inv_from cs s s' : inv s -> run cs s = Some s' -> inv s'.
Proof.
  revert s; induction cs as [|c cs IH]; intros s Hinv; simpl; [by intros [= <-]|].
  destruct (step c s) as [s1|] eqn:E; [|done]. simpl. apply IH. by eapply step_inv.
Qed.
End reachability.

(** ** Schedules *)

(** The threads one after the other, as far as each can come. *)
Definition enter (t : Z) : list choice := [Thread t; Grant t; Thread t; Thread t; Thread t].
Definition all_ask : list choice := Thread <$> seqZ 2 8.

(** Up to the check that no competing thread has entered. *)
Definition until_spawned : list choice :=
  [Main] ++ enter 0 ++ replicate 4 Main ++ [Thread 1; Main] ++ replicate 9 Main.

(** A run that passes. *)
Definition passing : list choice :=
  until_spawned ++ all_ask ++ replicate 9 Main ++ replicate 4 (Thread 0) ++
  [Grant 1; Thread 1; Thread 1; Thread 1] ++ replicate 10 Main ++ replicate 4 (Thread 1) ++
  (seqZ 2 8 ≫= fun t => [Grant t] ++ replicate 5 (Thread t)) ++ replicate 10 Main.

(** A run in which a competing reader enters beside the lingering one. *)
Definition overtaking : list choice :=
  until_spawned ++ enter 2 ++ replicate 3 Main.

Example passing_run : main_pc <$> @run writers_first passing start = Some M_passed.
Proof. vm_compute. reflexivity. Qed.
Example overtaking_run : main_pc <$> @run no_priority overtaking start = Some M_fatal.
Proof. vm_compute. reflexivity. Qed.

(** ** Properties *)

(** C19: [test_rwl_priority] never fails a lock that excludes and puts writers
    first: whatever the interleaving of the main thread and the ten threads,
    the grants of the lock and the spurious wake-ups, no sequence of steps
    leads to [test_fatal].  It can fail a lock that only excludes. *)
Theorem priority_test_sound `{WriterPriority} (cs : list choice) (s : state) :
  run cs start = Some s ->
  main_pc s <> M_fatal /\
  exists cs' s', @run no_priority cs' start = Some s' /\ main_pc s' = M_fatal.
Proof.
  intros Hrun. split.
  - eapply inv_safe, run_inv_from; [apply start_inv|exact Hrun].
  - exists overtaking. pose proof overtaking_run as Ho.
    destruct (@run no_priority overtaking start) as [s'|]; [|done].
    exists s'. by injection Ho.
Qed.

Lemma priority_test_sound_witness :
  exists s, @run writers_first passing start = Some s /\ main_pc s = M_passed /\
    main_pc s <> M_fatal.
Proof.
  pose proof passing_run as Hp.
  destruct (@run writers_first passing start) as [s|] eqn:E; [|discriminate].
  exists s. injection Hp as Hp. split; [reflexivity|]. split; [exact Hp|].
  apply (@priority_test_sound writers_first writers_first_priority passing s E).
Defined.

Section basic_run.
Context {L : Type} `{RwLockSpec L} (now : nat -> timespec).

(** The three requests that cannot be granted read a time that leaves room
    for the 100 nanoseconds. *)
Definition time_left (k : nat) : bool := tv_nsec (now k) + 100 <? 10 ^ 9.

Lemma get_expiretime_run (s : basic L) :
  valid_time (now (b_ticks s)) = true ->
  get_expiretime now s =
    Ok (Timespec (tv_sec (now (b_ticks s))) (tv_nsec (now (b_ticks s)) + 100),
        Basic (b_lock s) (S (b_ticks s)) (b_out s)).
Proof.
  unfold valid_time. intros [H1%Z.leb_le H2%Z.ltb_lt]%andb_prop. unfold get_expiretime.
  assert (Hll : ll_ (tv_nsec (now (b_ticks s)) + 100) = Ok (tv_nsec (now (b_ticks s)) + 100)).
  { unfold ll_, fits_ll. by rewrite (proj2 (Z.leb_le _ _)), (proj2 (Z.ltb_lt _ _)) by lia. }
  by rewrite Hll.
Qed.

(** A wait that nobody ends. *)
Lemma wait_run k :
  valid_time (now k) = true ->
  cond_timedwait 0 nobody_signals (Some (Timespec (tv_sec (now k)) (tv_nsec (now k) + 100))) =
    if time_left k then Ok ETIMEDOUT else Fault AssertFailed.
Proof.
  unfold valid_time. intros [H1%Z.leb_le H2%Z.ltb_lt]%andb_prop.
  unfold cond_timedwait, nobody_signals, valid_time, time_left. simpl tv_nsec.
  rewrite (proj2 (Z.leb_le 0 (tv_nsec (now k) + 100))) by lia. simpl andb.
  by destruct (tv_nsec (now k) + 100 <? 10 ^ 9).
Qed.

Lemma on_lock_run {B} (c : ST L B) s b l :
  c (b_lock s) = Ok (b, l) -> on_lock c s = Ok (b, Basic l (b_ticks s) (b_out s)).
Proof. intros Hc. unfold on_lock. by rewrite Hc. Qed.

(** A request that has to wait: a time-out, or a failed assertion. *)
Lemma waits_run {B} (c : option timespec -> ST L Z) (k : Z -> ST (basic L) B) l l' ticks out :
  valid_time (now ticks) = true ->
  (let t := Timespec (tv_sec (now ticks)) (tv_nsec (now ticks) + 100) in
   c (Some t) l = (r ← cond_timedwait 0 nobody_signals (Some t); Ok (r, l'))) ->
  (expire ← get_expiretime now; r ← on_lock (c (Some expire)); k r) (Basic l ticks out) =
    if time_left ticks then k ETIMEDOUT (Basic l' (S ticks) out) else Fault AssertFailed.
Proof.
  intros Hv Hc. rewrite (bind_Ok _ _ _ _ _ (get_expiretime_run (Basic l ticks out) Hv)).
  cbn [b_lock b_ticks b_out]. unfold mbind at 1, st_bind at 1. unfold on_lock at 1. cbn [b_lock].
  rewrite Hc, wait_run by done. by destruct (time_left ticks).
Qed.

(** The test, on a lock that meets its contract. *)
Lemma basic_run (s : basic L) :
  (forall k, (k < 4)%nat -> valid_time (now (b_ticks s + k)) = true) ->
  let n := b_ticks s in
  exists s', test_rwl_basic now s =
    if time_left n && time_left (n + 2) && time_left (n + 3) then Ok (tt, s')
    else Fault AssertFailed.
Proof.
  intros Hv n. destruct s as [l0 ticks out]. simpl in n, Hv. subst n.
  assert (Hv0 : valid_time (now ticks) = true) by (rewrite <- (Nat.add_0_r ticks); apply Hv; lia).
  pose proof (Hv 1%nat ltac:(lia)) as Hv1. pose proof (Hv 2%nat ltac:(lia)) as Hv2.
  pose proof (Hv 3%nat ltac:(lia)) as Hv3. rewrite Nat.add_1_r in Hv1.
  rewrite Nat.add_succ_r, Nat.add_1_r in Hv2. rewrite !Nat.add_succ_r, Nat.add_0_r in Hv3.
  replace (ticks + 2)%nat with (S (S ticks)) by lia.
  replace (ticks + 3)%nat with (S (S (S ticks))) by lia.
  destruct (rwl_init_spec l0) as (l1 & Hi & H1).
  destruct (rwl_rlock_spec l1 0 None H1) as (l2 & Hr1 & H2).
  unfold test_rwl_basic.
  rewrite (bind_Ok _ _ _ tt (Basic l1 ticks out)) by (unfold on_lock; simpl; by rewrite Hi).
  rewrite (bind_Ok _ _ _ _ _ (on_lock_run (rwl_rlock None) (Basic l1 ticks out) _ _ Hr1)).
  do 2 st_step. cbn [b_lock b_ticks b_out].
  destruct (rwl_wlock_wait l2 1 false (Timespec (tv_sec (now ticks)) (tv_nsec (now ticks) + 100))
    H2 ltac:(lia)) as (l3 & H3 & Hw1).
  rewrite (waits_run rwl_wlock _ l2 l3 ticks _ Hv0 Hw1).
  destruct (time_left ticks); [|by exists (Basic l0 ticks out)]. st_step.
  rewrite (bind_Ok _ _ _ _ _ (get_expiretime_run (Basic l3 (S ticks) _) Hv1)).
  cbn [b_lock b_ticks b_out].
  destruct (rwl_rlock_spec l3 1 (Some (Timespec (tv_sec (now (S ticks))) (tv_nsec (now (S ticks)) + 100))) H3)
    as (l4 & Hr2 & H4).
  rewrite (bind_Ok _ _ _ _ _ (on_lock_run (rwl_rlock _) (Basic l3 _ _) _ _ Hr2)). do 2 st_step.
  destruct (rwl_runlock_spec l4 1 H4) as (l5 & Hu1 & H5).
  rewrite (bind_Ok _ _ _ _ _ (on_lock_run rwl_runlock (Basic l4 _ _) _ _ Hu1)). st_step.
  destruct (rwl_runlock_spec l5 0 H5) as (l6 & Hu2 & H6).
  rewrite (bind_Ok _ _ _ _ _ (on_lock_run rwl_runlock (Basic l5 _ _) _ _ Hu2)). st_step.
  destruct (rwl_wlock_spec l6 None H6) as (l7 & Hw2 & H7).
  rewrite (bind_Ok _ _ _ _ _ (on_lock_run (rwl_wlock None) (Basic l6 _ _) _ _ Hw2)). do 2 st_step.
  cbn [b_lock b_ticks b_out].
  destruct (rwl_wlock_wait l7 0 true (Timespec (tv_sec (now (S (S ticks)))) (tv_nsec (now (S (S ticks))) + 100))
    H7 ltac:(by right)) as (l8 & H8 & Hw3).
  rewrite (waits_run rwl_wlock _ l7 l8 (S (S ticks)) _ Hv2 Hw3).
  destruct (time_left (S (S ticks))); [|by exists (Basic l0 ticks out)]. st_step.
  destruct (rwl_rlock_wait l8 (Timespec (tv_sec (now (S (S (S ticks))))) (tv_nsec (now (S (S (S ticks)))) + 100))
    H8) as (l9 & H9 & Hr3).
  rewrite (waits_run rwl_rlock _ l8 l9 (S (S (S ticks))) _ Hv3 Hr3).
  destruct (time_left (S (S (S ticks)))); [|by exists (Basic l0 ticks out)]. st_step.
  destruct (rwl_wunlock_spec l9 H9) as (l10 & Hw4 & H10).
  rewrite (bind_Ok _ _ _ _ _ (on_lock_run rwl_wunlock (Basic l9 _ _) _ _ Hw4)). st_step.
  by eexists.
Qed.
End basic_run.

(** C26: [test_rwl_basic] passes every lock that meets its contract, provided
    the clock leaves room: when one of the three readings that precede a
    request that must time out is within 100 nanoseconds of the next second,
    [tv_nsec] becomes no valid time, [pthread_cond_timedwait] refuses it and
    the assertion of [cond_timedwait] fails, although the lock is right.  The
    lock handed out is rejected. *)
Theorem test_rwl_basic_correct {L} `{RwLockSpec L} (now : nat -> timespec) (l : L) :
  (forall k, valid_time (now k) = true) ->
  (exists s, test_rwl_basic now (Basic l 0 []) =
    if time_left now 0 && time_left now 2 && time_left now 3 then Ok (tt, s)
    else Fault AssertFailed) /\
  @test_rwl_basic unit shipped_rwlock now (Basic tt 0 []) = Fault (Exited 1).
Proof.
  intros Hv. split.
  - destruct (basic_run now (Basic l 0 [])) as [s Hs]; [by intros k _|]. by exists s.
  - pose proof (@get_expiretime_run unit now (Basic tt 0 ["Reader grabbed the lock"%string]) (Hv 0%nat)) as Hg.
    unfold test_rwl_basic. do 3 (erewrite bind_Ok; [|reflexivity]).
    erewrite bind_Ok; [|reflexivity]. erewrite bind_Ok; [|exact Hg]. reflexivity.
Qed.

(** A clock that stands still in the middle of a second, and one that reads
    the last 100 nanoseconds of it. *)
Lemma test_rwl_basic_correct_witness :
  (exists s, @test_rwl_basic _ counting_lock (fun _ => Timespec 7 500) (Basic (0%nat, false) 0 []) =
    Ok (tt, s)) /\
  @test_rwl_basic _ counting_lock (fun _ => Timespec 7 999999950) (Basic (0%nat, false) 0 []) =
    Fault AssertFailed.
Proof.
  split.
  - apply (@test_rwl_basic_correct _ counting_lock counting_lock_spec (fun _ => Timespec 7 500) (0%nat, false)).
    reflexivity.
  - destruct (@test_rwl_basic_correct _ counting_lock counting_lock_spec
      (fun _ => Timespec 7 999999950) (0%nat, false)) as [[s Hs] _]; [reflexivity|].
    exact Hs.
Defined.
