(* ===== verification/RwlockLive.v ===== *)
(** * The priority test can always be completed

    A lock that grants what it can keeps [test_rwl_priority] from getting
    stuck: from every state that the test can reach, some steps without
    spurious wake-ups lead to the end.  The argument is a measure that some
    possible step decreases. *)

From S2P Require Import Prelude RwLock TestRwlock.

#[export] Instance mpc_eq_dec : EqDecision mpc.
Proof. solve_decision. Defined.
#[export] Instance wpc_eq_dec : EqDecision wpc.
Proof. solve_decision. Defined.

(** ** More of what is invariant *)

(** Who is between [pthread_mutex_lock] and [pthread_mutex_unlock]. *)
Definition thread_holds (p : wpc) : bool :=
  match p with In_cs | Checking | Leaving => true | _ => false end.

Definition main_holds (m : mpc) : bool :=
  match m with
  | M_poll_read | M_poll_unlock | M_check_read | M_check_unlock
  | M_out_set | M_out_broadcast | M_out_unlock | M_who_read | M_who_unlock
  | M_peers_set | M_peers_broadcast | M_peers_unlock => true
  | _ => false
  end.

(** How many threads the main thread has created. *)
Definition created (m : mpc) : Z :=
  match m with
  | M_create_linger => 0
  | M_poll_lock | M_poll_read | M_poll_unlock | M_create_writer => 1
  | M_wait_writer => 2
  | M_create_reader i => i
  | _ => 10
  end.

Record live_inv (s : state) : Prop := {
  lv_range t : pc s t <> Not_created -> 0 <= t < 10;
  lv_thread t : thread_holds (pc s t) = true -> test_m s = Some t;
  lv_main : main_holds (main_pc s) = true -> test_m s = Some main_thread;
  lv_holder t : test_m s = Some t ->
    main_holds (main_pc s) = true \/ thread_holds (pc s t) = true;
  lv_out : 6 <= phase (main_pc s) -> reader_getout s <> 0;
  lv_out_peers : 7 <= phase (main_pc s) -> peers_getout s <> 0;
  (** Nobody sleeps past the broadcast. *)
  lv_sleep t : pc s t = Sleeping -> getout t s = 0 \/
    main_pc s = (if t =? 0 then M_out_broadcast else M_peers_broadcast);
  lv_in : 5 <= rank (pc s 0) -> reader_in_cs s <> 0;
  lv_who : 5 <= rank (pc s 1) -> who_is_in_cs s <> 0;
  lv_created t : 0 <= t < created (main_pc s) -> pc s t <> Not_created;
  lv_bound : created (main_pc s) <= 10;
  lv_join i : main_pc s = M_join i -> 0 <= i <= 10 /\ forall t, 0 <= t < i -> pc s t = Finished;
}.

Lemma start_live : live_inv start.
Proof. split; simpl; (done || lia). Qed.

(** The three ways a step of a thread treats the mutex. *)
Definition mutex_step (t : Z) (p q : wpc) (m m' : option Z) : Prop :=
  (m' = m /\ thread_holds q = thread_holds p) \/
  (m = None /\ m' = Some t) /\ thread_holds q = true \/
  (m' = None /\ thread_holds p = true /\ thread_holds q = false).

Lemma live_move s s' t q :
  live_inv s -> pc s t <> Not_created -> pc s t <> Finished -> rank (pc s t) <= rank q ->
  main_pc s' = main_pc s -> reader_getout s' = reader_getout s ->
  peers_getout s' = peers_getout s ->
  (forall u, pc s' u = if decide (u = t) then q else pc s u) ->
  mutex_step t (pc s t) q (test_m s) (test_m s') ->
  (q = Sleeping -> getout t s = 0) ->
  reader_in_cs s' = reader_in_cs s \/ reader_in_cs s' <> 0 ->
  who_is_in_cs s' = who_is_in_cs s \/ who_is_in_cs s' <> 0 ->
  (5 <= rank q -> 5 <= rank (pc s t) \/
     (if t =? 0 then reader_in_cs s' <> 0 else who_is_in_cs s' <> 0)) -> live_inv s'.
Proof.
  intros [] Ht Hfin Hrank Hm Hg Hg' Hpc Hmut Hsl Hcs Hwho Hnew.
  assert (Hq : q <> Not_created) by (intros ->; by destruct (pc s t)).
  assert (Hgo : forall u, getout u s' = getout u s) by (intros u; unfold getout; by rewrite Hg, Hg').
  split; rewrite ?Hm, ?Hg, ?Hg'; try done.
  - intros u. rewrite Hpc. case_decide; [subst; auto|auto].
  - intros u. rewrite Hpc. intros Hu.
    destruct Hmut as [[-> E]|[[[E ->] E']|(-> & E & E')]].
    + apply lv_thread0. case_decide; [subst; congruence|done].
    + case_decide; [by subst|]. by rewrite (lv_thread0 u Hu) in E.
    + case_decide; [congruence|]. pose proof (lv_thread0 t E) as E1.
      rewrite (lv_thread0 u Hu) in E1. congruence.
  - intros Hmh. destruct Hmut as [[-> E]|[[[E ->] E']|(-> & E & E')]]; [auto| |].
    + by rewrite (lv_main0 Hmh) in E.
    + exfalso. pose proof (lv_thread0 t E) as E1. rewrite (lv_main0 Hmh) in E1.
      injection E1 as <-. specialize (lv_range0 _ Ht). unfold main_thread in *. lia.
  - intros u. rewrite Hpc. intros Hu.
    destruct Hmut as [[E1 E]|[[[E E1] E']|(E1 & E & E')]]; rewrite E1 in Hu.
    + destruct (lv_holder0 u Hu); [by left|right]. case_decide; [subst; congruence|done].
    + injection Hu as <-. right. by rewrite decide_True.
    + done.
  - intros u. rewrite Hpc, Hgo. case_decide; [subst; auto|apply lv_sleep0].
  - rewrite Hpc. intros Hk. assert (Hc : reader_in_cs s <> 0 \/ reader_in_cs s' <> 0).
    { case_decide as E; [|left; auto]. subst t. simpl in Hnew. destruct (Hnew Hk); auto. }
    destruct Hcs as [E|]; [|done]. rewrite E in *. tauto.
  - rewrite Hpc. intros Hk. assert (Hc : who_is_in_cs s <> 0 \/ who_is_in_cs s' <> 0).
    { case_decide as E; [|left; auto]. subst t. simpl in Hnew. destruct (Hnew Hk); auto. }
    destruct Hwho as [E|]; [|done]. rewrite E in *. tauto.
  - intros u Hu. rewrite Hpc. case_decide; [done|auto].
  - intros i Hi. destruct (lv_join0 i Hi) as [Hr Hj]. split; [done|]. intros u Hu.
    rewrite Hpc. case_decide; [|auto]. subst. by destruct Hfin; apply Hj.
Qed.

(** The obligations of [live_move] for a step that leaves the variables of the
    critical section alone. *)
Ltac live_step s t q Hpc :=
  apply (live_move s _ t q); rewrite ?Hpc; simpl;
    [done|done|done|lia|done|done|done|intros u; by rewrite pc_set_pc|
     unfold mutex_step; simpl; tauto|try done|by left|by left|
     intros ?; solve [lia | left; lia]].

Lemma thread_step_live s t s' : live_inv s -> thread_step t s = Some s' -> live_inv s'.
Proof.
  intros Hlv. unfold thread_step, take_m. destruct (pc s t) eqn:Hpc; try done.
  - intros [= <-]. live_step s t Waiting Hpc.
  - destruct (test_m s) eqn:Hm; [done|]. intros [= <-]. live_step s t In_cs Hpc.
  - intros [= <-]. apply (live_move s _ t Checking); rewrite ?Hpc; simpl; try done.
    + by destruct (t =? 0).
    + by destruct (t =? 0).
    + by destruct (t =? 0).
    + intros u. rewrite pc_set_pc. by destruct (t =? 0).
    + unfold mutex_step. simpl. by destruct (t =? 0); left.
    + destruct (t =? 0); [by right|by left].
    + destruct (t =? 0); [by left|right]. by destruct (is_writer t).
    + intros _. right. destruct (t =? 0) eqn:E; simpl; [lia|by destruct (is_writer t)].
  - destruct (Z.eqb_spec (getout t s) 0) as [Hg|Hg]; intros [= <-].
    + live_step s t Sleeping Hpc.
    + live_step s t Leaving Hpc.
  - destruct (test_m s) eqn:Hm; [done|]. intros [= <-]. live_step s t Checking Hpc.
  - intros [= <-]. live_step s t Unlocking Hpc.
  - intros [= <-]. live_step s t Finished Hpc.
Qed.

Lemma other_step_live `{GrantPolicy} s c s' :
  live_inv s -> c <> Main -> step c s = Some s' -> live_inv s'.
Proof.
  intros Hlv Hc. destruct c as [|t|t|t]; [done|by apply thread_step_live| |]; simpl;
    destruct (pc s t) eqn:Hpc; try done.
  - destruct (may_grant (l2 s) t); [|done]. intros [= <-]. live_step s t At_mutex Hpc.
  - intros [= <-]. live_step s t Woken Hpc.
Qed.

(** *** Steps of the main thread *)

(** The main thread moves on; the threads stay where they are or wake. *)
Lemma live_main s s0 m :
  live_inv s ->
  (forall u, pc s0 u = pc s u \/ pc s u = Sleeping /\ pc s0 u = Woken) ->
  test_m s0 = test_m s /\ main_holds m = main_holds (main_pc s) \/
    (test_m s = None /\ test_m s0 = Some main_thread) /\ main_holds m = true \/
    (test_m s0 = None /\ main_holds (main_pc s) = true) /\ main_holds m = false ->
  reader_in_cs s0 = reader_in_cs s -> who_is_in_cs s0 = who_is_in_cs s ->
  (6 <= phase m -> reader_getout s0 <> 0) -> (7 <= phase m -> peers_getout s0 <> 0) ->
  (forall t, pc s0 t = Sleeping -> getout t s0 = 0 \/
     m = (if t =? 0 then M_out_broadcast else M_peers_broadcast)) ->
  created m = created (main_pc s) ->
  (forall i, m = M_join i -> 0 <= i <= 10 /\ forall t, 0 <= t < i -> pc s t = Finished) ->
  live_inv (set_main m s0).
Proof.
  intros [] Hpc Hmut Hcs Hw Hg Hg' Hsl Hc Hj.
  assert (Hnot : forall u, pc s0 u = Not_created <-> pc s u = Not_created).
  { intros u. destruct (Hpc u) as [->|[-> ->]]; done. }
  assert (Hh : forall u, thread_holds (pc s0 u) = thread_holds (pc s u)).
  { intros u. destruct (Hpc u) as [->|[-> ->]]; done. }
  assert (Hr : forall u, rank (pc s0 u) = rank (pc s u)).
  { intros u. destruct (Hpc u) as [->|[-> ->]]; done. }
  assert (Hpc' : forall u, pc (set_main m s0) u = pc s0 u) by done.
  split; simpl; rewrite ?Hcs, ?Hw, ?Hc; try done.
  - intros t. rewrite Hpc', Hnot. auto.
  - intros t. rewrite Hpc', Hh. intros Ht. specialize (lv_thread0 t Ht).
    destruct Hmut as [[-> _]|[[[E _] _]|[[_ E] _]]]; [done|congruence|].
    specialize (lv_main0 E). rewrite lv_main0 in lv_thread0. injection lv_thread0 as <-.
    assert (E1 : pc s main_thread <> Not_created) by (intros E1; by rewrite E1 in Ht).
    specialize (lv_range0 _ E1). unfold main_thread in lv_range0. lia.
  - intros Hm. destruct Hmut as [[-> E]|[[[_ ->] _]|[_ E]]]; [|done|congruence].
    rewrite E in Hm. auto.
  - intros t Ht. rewrite Hpc', Hh.
    destruct Hmut as [[E1 E2]|[[_ E]|[[E _] _]]]; [|by left|congruence].
    rewrite E2. rewrite E1 in Ht. auto.
  - rewrite Hpc', Hr. done.
  - rewrite Hpc', Hr. done.
  - intros t Ht. rewrite Hpc', Hnot. auto.
  - intros i Hi. destruct (Hj i Hi) as [? Hf]. split; [done|]. intros t Ht. rewrite Hpc'.
    specialize (Hf t Ht). destruct (Hpc t) as [->|[E _]]; congruence.
Qed.

(** The main thread creates a thread. *)
Lemma live_create s t m :
  live_inv s -> pc s t = Not_created -> created (main_pc s) = t -> created m = t + 1 ->
  0 <= t < 10 -> main_holds (main_pc s) = false -> main_holds m = false -> phase m < 6 ->
  main_pc s <> M_out_broadcast -> main_pc s <> M_peers_broadcast ->
  live_inv (set_main m (set_pc t At_lock s)).
Proof.
  intros [] Hnew Hc Hc' Hr Hh Hh' Hph Hn1 Hn2.
  assert (Hpc : forall u, pc (set_main m (set_pc t At_lock s)) u = if decide (u = t) then At_lock else pc s u)
    by apply pc_set_pc.
  split; simpl; try (done || lia).
  - intros u. rewrite Hpc. case_decide; [lia|auto].
  - intros u. rewrite Hpc. case_decide; [done|auto].
  - congruence.
  - intros u Hu. rewrite Hpc. destruct (lv_holder0 u Hu); [congruence|right].
    case_decide; [|done]. subst u. by rewrite Hnew in H.
  - intros u. rewrite Hpc. case_decide; [done|]. intros Hu. left.
    destruct (lv_sleep0 u Hu) as [?|E]; [done|]. by destruct (u =? 0).
  - rewrite Hpc. case_decide; [done|auto].
  - rewrite Hpc. case_decide; [done|auto].
  - intros u Hu. rewrite Hpc. case_decide; [done|]. apply lv_created0. lia.
  - intros i ->. by simpl in Hph.
Qed.

(** The obligations of [live_main] for a step that leaves the threads and the
    variables they share with the main thread alone. *)
Ltac main_goes s Hm Hs :=
  apply (live_main s); rewrite ?Hm; simpl;
    [done|intros u; by left|
     solve [left; done | right; left; done | right; right; done]|done|done|
     solve [done | lia]|solve [done | lia]|
     intros t Ht; destruct (Hs t Ht) as [?|Hq]; [by left|exfalso; revert Hq; by destruct (t =? 0)]|
     done|done].

Lemma main_step_live s s' : inv s -> live_inv s -> main_step s = Some s' -> live_inv s'.
Proof.
  intros Hinv Hlv Hstep.
  pose proof (inv_safe _ (main_step_inv s s' Hinv Hstep)) as Hsafe. revert Hstep Hsafe.
  unfold main_step, take_m.
  pose proof (lv_out s Hlv) as Ho. pose proof (lv_out_peers s Hlv) as Ho'.
  pose proof (lv_sleep s Hlv) as Hs. pose proof (lv_bound s Hlv) as Hb.
  pose proof (lv_join s Hlv) as Hj.
  destruct (main_pc s) eqn:Hm; simpl in Ho, Ho', Hs, Hb;
    repeat (case_match; try done); intros [= <-] Hsafe; try done.
  all: try (main_goes s Hm Hs).
  - apply (live_create s); rewrite ?Hm; simpl; try (done || lia).
    apply (inv_first s Hinv). rewrite Hm. simpl. lia.
  - apply (live_create s); rewrite ?Hm; simpl; try (done || lia).
    apply (inv_second s Hinv). rewrite Hm. simpl. lia.
  - destruct (inv_fresh s Hinv i Hm) as [Hi Hf].
    apply (live_create s); rewrite ?Hm; simpl; try (done || lia). apply Hf. lia.
  - assert (i = 10) as -> by lia. main_goes s Hm Hs.
  - apply (live_main s); rewrite ?Hm; simpl; try (done || lia); [by intros u; left|by left|].
    intros t Ht. destruct (Hs t Ht) as [Hg|Hq]; [|exfalso; revert Hq; by destruct (t =? 0)].
    revert Hg. unfold getout. simpl. destruct (t =? 0); [by right|by left].
  - apply (live_main s); rewrite ?Hm; simpl; try (done || lia); [|by left|].
    + intros u. rewrite pc_broadcast. destruct (u =? 0); [|by left].
      destruct (pc s u); (by left) || (by right).
    + intros t. rewrite pc_broadcast. destruct (Z.eqb_spec t 0) as [->|Ht0]; [by destruct (pc s 0)|].
      intros Ht. destruct (Hs t Ht) as [?|Hq]; [by left|].
      by rewrite (proj2 (Z.eqb_neq t 0)) in Hq.
  - apply (live_main s); rewrite ?Hm; simpl; try (done || lia); [by intros u; left|by left|].
    intros t Ht. destruct (Hs t Ht) as [Hg|Hq]; [|exfalso; revert Hq; by destruct (t =? 0)].
    revert Hg. unfold getout. simpl. destruct (t =? 0); [by left|by right].
  - apply (live_main s); rewrite ?Hm; simpl; try (done || lia); [|by left|].
    + intros u. rewrite pc_broadcast. destruct (negb (u =? 0)); [|by left].
      destruct (pc s u); (by left) || (by right).
    + intros t. rewrite pc_broadcast. destruct (Z.eqb_spec t 0) as [->|Ht0].
      * intros Ht. destruct (Hs 0 Ht) as [?|?]; [by left|done].
      * intros Ht. simpl in Ht. by destruct (pc s t).
  - apply (live_main s); rewrite ?Hm; simpl; try (done || lia); [by intros u; left|by right; right| |].
    + intros t Ht. destruct (Hs t Ht) as [?|Hq]; [by left|exfalso; revert Hq; by destruct (t =? 0)].
    + intros i [= <-]. split; [lia|]. intros t Ht. lia.
  - apply (live_main s); rewrite ?Hm; simpl; try (done || lia); [by intros u; left|by left| |].
    + intros t Ht. destruct (Hs t Ht) as [?|Hq]; [by left|exfalso; revert Hq; by destruct (t =? 0)].
    + intros j [= <-]. destruct (Hj i eq_refl) as [Hi Hf]. split; [lia|]. intros t Ht.
      destruct (decide (t = i)) as [->|?]; [done|]. apply Hf. lia.
Qed.

Lemma step_live `{WriterPriority} c s s' :
  inv s -> live_inv s -> step c s = Some s' -> live_inv s'.
Proof.
  intros Hinv Hlv Hs. destruct c as [|t|t|t]; [by eapply main_step_live|..].
  all: by apply (other_step_live s _ s' Hlv) in Hs.
Qed.

Lemma run_live `{WriterPriority} cs s s' :
  inv s -> live_inv s -> run cs s = Some s' -> inv s' /\ live_inv s'.
Proof.
  revert s; induction cs as [|c cs IH]; intros s Hinv Hlv; simpl; [by intros [= <-]|].
  destruct (step c s) as [s1|] eqn:E; [|done]. simpl. apply IH; [by eapply step_inv|by eapply step_live].
Qed.

(** ** The measure *)

(** How far a thread has come, once more: a thread that was not told to get
    out goes from its loop's test to sleep, one that was told goes on. *)
Definition tprog (g : Z) (p : wpc) : Z :=
  match p with
  | Not_created => 0 | At_lock => 1 | Waiting => 2 | At_mutex => 3 | In_cs => 4
  | Woken => if g =? 0 then 5 else 8
  | Checking => if g =? 0 then 6 else 9
  | Sleeping => 7 | Leaving => 10 | Unlocking => 11 | Finished => 12
  end.

Definition total (f : Z -> Z) (ts : list Z) : Z := foldr (fun t n => f t + n) 0 ts.

Definition progress (s : state) : Z :=
  total (fun t => tprog (getout t s) (pc s t)) (seqZ 0 10).

(** How far the main thread is from the end, given what it will read next. *)
Definition remaining (s : state) : Z :=
  let seen := negb (reader_in_cs s =? 0) in
  let seen' := negb (who_is_in_cs s =? 0) in
  match main_pc s with
  | M_create_linger => 60
  | M_poll_lock => if seen then 53 else 50
  | M_poll_read => 52
  | M_poll_unlock => if negb (reader_in s =? 0) || negb seen then 51 else 54
  | M_create_writer => 49
  | M_wait_writer => 48
  | M_create_reader i => 47 - i
  | M_check_lock => 36
  | M_check_read => 35
  | M_check_unlock => 34
  | M_wait_all => 33
  | M_out_lock => 32
  | M_out_set => 31
  | M_out_broadcast => 30
  | M_out_unlock => 29
  | M_who => if negb (who s =? 0) || negb seen' then 21 else 25
  | M_who_lock => if seen' then 24 else 20
  | M_who_read => 23
  | M_who_unlock => if negb (who s =? 0) || negb seen' then 22 else 26
  | M_decide => 19
  | M_peers_lock => 18
  | M_peers_set => 17
  | M_peers_broadcast => 16
  | M_peers_unlock => 15
  | M_join i => 14 - i
  | M_passed | M_fatal => 0
  end.

Definition measure (s : state) : Z := 10 * (120 - progress s) + remaining s.

Lemma total_mono f g ts : (forall t, t ∈ ts -> f t <= g t) -> total f ts <= total g ts.
Proof.
  induction ts as [|t ts IH]; intros Hle; simpl; [lia|].
  pose proof (Hle t ltac:(set_solver)). specialize (IH ltac:(set_solver)). lia.
Qed.

Lemma total_lt f g ts t :
  t ∈ ts -> (forall u, u ∈ ts -> f u <= g u) -> f t < g t -> total f ts < total g ts.
Proof.
  intros Ht Hle Hlt. induction ts as [|u ts IH]; [set_solver|]. simpl.
  apply elem_of_cons in Ht as [<-|Ht].
  - pose proof (total_mono f g ts ltac:(set_solver)). lia.
  - pose proof (Hle u ltac:(set_solver)). specialize (IH Ht ltac:(set_solver)). lia.
Qed.

Lemma tprog_bounds g p : 0 <= tprog g p <= 12.
Proof. destruct p; simpl; try lia; destruct (g =? 0); lia. Qed.

Lemma progress_bounds s : 0 <= progress s <= 120.
Proof.
  unfold progress. split.
  - transitivity (total (fun _ => 0) (seqZ 0 10)); [done|].
    apply total_mono. intros t _. apply tprog_bounds.
  - transitivity (total (fun _ => 12) (seqZ 0 10)); [|done].
    apply total_mono. intros t _. apply tprog_bounds.
Qed.

Lemma remaining_nonneg s : live_inv s -> 0 <= remaining s.
Proof.
  intros Hlv. pose proof (lv_bound s Hlv) as Hb. pose proof (lv_join s Hlv) as Hj.
  unfold remaining. destruct (main_pc s) eqn:Hm; simpl in Hb; try lia;
    try (repeat case_match; lia).
  destruct (Hj _ eq_refl). lia.
Qed.

Lemma measure_nonneg s : live_inv s -> 0 <= measure s.
Proof.
  intros Hlv. pose proof (remaining_nonneg s Hlv). pose proof (progress_bounds s).
  unfold measure. lia.
Qed.

(** A thread's step. *)
Lemma thread_measure s s' t q :
  live_inv s -> pc s t <> Not_created ->
  (forall u, pc s' u = if decide (u = t) then q else pc s u) ->
  main_pc s' = main_pc s -> reader_in s' = reader_in s -> who s' = who s ->
  reader_getout s' = reader_getout s -> peers_getout s' = peers_getout s ->
  tprog (getout t s) (pc s t) < tprog (getout t s) q -> measure s' < measure s.
Proof.
  intros Hlv Ht Hpc Hm Hr Hw Hg Hg' Hlt.
  assert (Hgo : forall u, getout u s' = getout u s) by (intros u; unfold getout; by rewrite Hg, Hg').
  assert (progress s < progress s').
  { apply (total_lt _ _ _ t); [apply elem_of_seqZ; pose proof (lv_range s Hlv t Ht); lia|..].
    - intros u _. rewrite Hgo, Hpc. case_decide; [subst; lia|lia].
    - by rewrite Hgo, Hpc, decide_True. }
  assert (remaining s' <= remaining s + 6).
  { unfold remaining. rewrite Hm, Hr, Hw. destruct (main_pc s); try lia;
      repeat case_match; lia. }
  unfold measure. lia.
Qed.

Ltac thread_decr s t q Hpc :=
  apply (thread_measure s _ t q); rewrite ?Hpc; simpl;
    [done|done|intros u; by rewrite pc_set_pc|done..|try lia].

Lemma thread_step_decr s t s' :
  live_inv s -> thread_step t s = Some s' -> measure s' < measure s.
Proof.
  intros Hlv. unfold thread_step, take_m. destruct (pc s t) eqn:Hpc; try done.
  - intros [= <-]. thread_decr s t Waiting Hpc.
  - destruct (test_m s); [done|]. intros [= <-]. thread_decr s t In_cs Hpc.
  - intros [= <-]. destruct (t =? 0); thread_decr s t Checking Hpc; destruct (_ =? 0); lia.
  - destruct (getout t s =? 0) eqn:Hg; intros [= <-].
    + thread_decr s t Sleeping Hpc. rewrite Hg. lia.
    + thread_decr s t Leaving Hpc. rewrite Hg. lia.
  - destruct (test_m s); [done|]. intros [= <-]. thread_decr s t Checking Hpc.
    destruct (_ =? 0); lia.
  - intros [= <-]. thread_decr s t Unlocking Hpc.
  - intros [= <-]. thread_decr s t Finished Hpc.
Qed.

(** A step of the main thread, unless it would only look once more. *)
Definition looks_again (s : state) : Prop :=
  match main_pc s with
  | M_poll_lock => reader_in_cs s = 0
  | M_wait_writer => waiting (l2 s) <> 1
  | M_wait_all => waiting (l2 s) <> 9
  | M_who_lock => who_is_in_cs s = 0
  | _ => False
  end.

#[export] Instance looks_again_dec s : Decision (looks_again s).
Proof. unfold looks_again. destruct (main_pc s); apply _. Defined.

Lemma main_measure s s' :
  (forall t, tprog (getout t s) (pc s t) <= tprog (getout t s') (pc s' t)) ->
  remaining s' < remaining s -> measure s' < measure s.
Proof.
  intros Hp Hr. unfold measure.
  assert (progress s <= progress s') by (apply total_mono; intros t _; apply Hp). lia.
Qed.

(** A thread makes no less of a flag that is set. *)
Lemma tprog_told g g' p : g = g' \/ g' <> 0 -> tprog g p <= tprog g' p.
Proof. intros [->|Hg]; [done|]. destruct p; simpl; repeat case_match; lia. Qed.

Lemma tprog_wake g p : g <> 0 -> tprog g p <= tprog g (wake p).
Proof. intros Hg. destruct p; simpl; repeat case_match; lia. Qed.

Lemma create_progress s u t m :
  pc s u = Not_created ->
  tprog (getout t s) (pc s t) <= tprog (getout t s) (pc (set_main m (set_pc u At_lock s)) t).
Proof.
  intros Hu. change (pc (set_main m (set_pc u At_lock s)) t) with (pc (set_pc u At_lock s) t).
  rewrite pc_set_pc. case_decide as E; [|done]. subst. rewrite Hu. simpl. lia.
Qed.

Lemma main_step_progress s s' t :
  inv s -> live_inv s -> main_step s = Some s' ->
  tprog (getout t s) (pc s t) <= tprog (getout t s') (pc s' t).
Proof.
  intros Hinv Hlv. pose proof (lv_out s Hlv) as Ho. pose proof (lv_out_peers s Hlv) as Ho'.
  unfold main_step, take_m.
  destruct (main_pc s) eqn:Hm; simpl in Ho, Ho'; repeat (case_match; try done); intros [= <-]; try done.
  - apply (create_progress s), (inv_first s Hinv). rewrite Hm. simpl. lia.
  - apply (create_progress s), (inv_second s Hinv). rewrite Hm. simpl. lia.
  - apply (create_progress s), (inv_fresh s Hinv i Hm). lia.
  - apply tprog_told. unfold getout. simpl. destruct (t =? 0); [by right|by left].
  - change (pc (set_main _ ?s0) t) with (pc s0 t). rewrite pc_broadcast.
    unfold getout. simpl. destruct (t =? 0); [apply tprog_wake, Ho; simpl; lia|done].
  - apply tprog_told. unfold getout. simpl. destruct (t =? 0); [by left|by right].
  - change (pc (set_main _ ?s0) t) with (pc s0 t). rewrite pc_broadcast.
    unfold getout. simpl. destruct (t =? 0); [done|apply tprog_wake, Ho'; simpl; lia].
Qed.

Lemma main_step_decr s s' :
  inv s -> live_inv s -> ~ looks_again s -> main_step s = Some s' -> measure s' < measure s.
Proof.
  intros Hinv Hlv Hbusy Hstep.
  apply main_measure; [intros t; by apply main_step_progress|]. revert Hstep. unfold looks_again in Hbusy.
  unfold main_step, take_m.
  destruct (main_pc s) eqn:Hm; repeat (case_match; try done); intros [= <-];
    unfold remaining; rewrite Hm; cbn -[Z.eqb Z.add Z.sub].
  all: repeat match goal with H : _ =? 0 = _ |- _ => rewrite ?H; revert H end; intros; simpl.
  all: try (done || lia).
  all: try (repeat case_match; (done || lia)).
  - pose proof (lv_bound s Hlv) as Hb. rewrite Hm in Hb. simpl in Hb. lia.
  - destruct (lv_join s Hlv _ Hm). lia.
Qed.

(** ** Progress *)

Section live_progress.
Context `{WriterPriority, !GrantLive}.

Definition advances (s : state) : Prop :=
  exists c s', (forall t, c <> Spurious t) /\ step c s = Some s' /\ measure s' < measure s.

Lemma thread_advances s t s' : live_inv s -> thread_step t s = Some s' -> advances s.
Proof.
  intros Hlv Hs. exists (Thread t), s'. split; [done|]. split; [done|]. by eapply thread_step_decr.
Qed.

Lemma main_advances s s' :
  inv s -> live_inv s -> ~ looks_again s -> main_step s = Some s' -> advances s.
Proof.
  intros Hinv Hlv Hb Hs. exists Main, s'. split; [done|]. split; [done|]. by apply main_step_decr.
Qed.

Lemma grant_advances s t :
  live_inv s -> pc s t = Waiting -> may_grant (l2 s) t = true -> advances s.
Proof.
  intros Hlv Hpc Hg. eexists (Grant t), _. split; [done|]. simpl. rewrite Hpc, Hg.
  split; [done|]. thread_decr s t At_mutex Hpc.
Qed.

(** With the mutex free, only a thread that sleeps, waits for the lock or has
    returned cannot go on. *)
Lemma free_advances s t :
  live_inv s -> test_m s = None -> pc s t <> Not_created -> pc s t <> Waiting ->
  pc s t <> Sleeping -> pc s t <> Finished -> advances s.
Proof.
  intros Hlv Hm Hp Hw Hs Hf. destruct (thread_step t s) as [s'|] eqn:E; [by eapply thread_advances|].
  exfalso. revert E. unfold thread_step, take_m. rewrite Hm.
  destruct (pc s t); try done; by case_match.
Qed.

(** A thread that was told to get out does not sleep, except before the
    broadcast. *)
Lemma told_awake s t :
  live_inv s -> getout t s <> 0 -> test_m s = None -> pc s t <> Sleeping.
Proof.
  intros Hlv Hg Hm Ht. destruct (lv_sleep s Hlv t Ht) as [?|E]; [done|].
  pose proof (lv_main s Hlv) as Hh. rewrite Hm, E in Hh. destruct (t =? 0); by discriminate Hh.
Qed.

(** A reader may be granted the lock when the writer has not asked or left. *)
Lemma reader_granted s t :
  inv s -> pc s t = Waiting -> t <> 1 -> rank (pc s 1) < 2 \/ rank (pc s 1) = 8 ->
  may_grant (l2 s) t = true.
Proof.
  intros Hinv Ht Ht1 Hw. apply grant_reader.
  - rewrite (inv_lock s Hinv), Ht, request_of_wait. unfold is_writer.
    by rewrite (proj2 (Z.eqb_neq t 1)).
  - intros u b Hu. rewrite (inv_lock s Hinv) in Hu. destruct (decide (u = 1)) as [->|Hu1].
    + unfold request_of in Hu. destruct (Z.ltb_spec (rank (pc s 1)) 2); [done|].
      destruct Hw as [?|E]; [lia|]. by rewrite E in Hu.
    + unfold request_of, is_writer in Hu. rewrite (proj2 (Z.eqb_neq u 1)) in Hu by done.
      by repeat case_match.
Qed.

(** The writer may be granted the lock when nobody holds it. *)
Lemma writer_granted s :
  inv s -> pc s 1 = Waiting -> (forall u, 3 <= rank (pc s u) -> rank (pc s u) = 8) ->
  may_grant (l2 s) 1 = true.
Proof.
  intros Hinv Ht Hu. apply grant_writer.
  - by rewrite (inv_lock s Hinv), Ht.
  - intros u w E. rewrite (inv_lock s Hinv) in E. unfold request_of in E.
    specialize (Hu u). destruct (Z.ltb_spec (rank (pc s u)) 2); [done|].
    destruct (Z.ltb_spec (rank (pc s u)) 3); [done|]. by rewrite Hu in E by lia.
Qed.

(** A count of the waiting threads. *)
Lemma waiting_exactly (l : requests) ts :
  NoDup ts -> (forall t, t ∈ ts <-> exists w, l !! t = Some (w, false)) ->
  waiting l = Z.of_nat (length ts).
Proof.
  intros Hnd Hts. unfold waiting. rewrite <- size_dom. f_equal.
  rewrite <- (size_list_to_set (C := gset Z) ts Hnd). f_equal. apply leibniz_equiv. intros t.
  rewrite elem_of_dom, elem_of_list_to_set, Hts. unfold is_Some. setoid_rewrite map_lookup_filter_Some.
  split; [intros [[w b] [E Eb]]; simpl in Eb; subst; by exists w|intros [w E]; by exists (w, false)].
Qed.

Lemma request_waits s t :
  inv s -> (exists w, l2 s !! t = Some (w, false)) <-> pc s t = Waiting.
Proof.
  intros Hinv. rewrite (inv_lock s Hinv). unfold request_of. split.
  - intros [w E]. destruct (pc s t); simpl in E; (done || by injection E).
  - intros ->. simpl. by eexists.
Qed.

(** *** Where the main thread waits *)

Lemma poll_advances s :
  inv s -> live_inv s -> test_m s = None -> main_pc s = M_poll_lock -> reader_in_cs s = 0 ->
  advances s.
Proof.
  intros Hinv Hlv Hfree Hm Hcs.
  assert (Hc : pc s 0 <> Not_created) by (apply (lv_created s Hlv); rewrite Hm; simpl; lia).
  assert (Hin : rank (pc s 0) < 5).
  { destruct (Z.lt_ge_cases (rank (pc s 0)) 5) as [|Hr]; [done|].
    by destruct (lv_in s Hlv). }
  destruct (decide (pc s 0 = Waiting)) as [Hw|Hw].
  - apply (grant_advances s 0 Hlv Hw), reader_granted; try done. left.
    rewrite (inv_second s Hinv); [done|]. by rewrite Hm.
  - apply (free_advances s 0 Hlv Hfree Hc Hw); intros E; rewrite E in Hin; simpl in Hin; lia.
Qed.

Lemma wait_writer_advances s :
  inv s -> live_inv s -> test_m s = None -> main_pc s = M_wait_writer -> advances s.
Proof.
  intros Hinv Hlv Hfree Hm.
  assert (Hc : pc s 1 <> Not_created) by (apply (lv_created s Hlv); rewrite Hm; simpl; lia).
  assert (Hout : rank (pc s 1) < 3).
  { destruct (Z.lt_ge_cases (rank (pc s 1)) 3) as [|Hr]; [done|].
    destruct (inv_writer s Hinv Hr). apply (inv_stay s Hinv). by rewrite Hm. }
  destruct (decide (pc s 1 = Waiting)) as [Hw|Hw].
  - assert (Hn : waiting (l2 s) = 1).
    { apply (waiting_exactly _ [1]); [by apply NoDup_singleton|]. intros t.
      rewrite request_waits, list_elem_of_singleton by done. split; [by intros ->|]. intros Ht.
      destruct (decide (t = 1)) as [|Ht1]; [done|exfalso]. destruct (decide (t = 0)) as [->|Ht0].
      - pose proof (inv_linger s Hinv) as Hl. rewrite Hm, Ht in Hl. simpl in Hl. lia.
      - pose proof (inv_others s Hinv t Ht0 Ht1) as Hph. rewrite Hm, Ht in Hph. simpl in Hph. by apply Hph. }
    eapply main_advances; [done..| |unfold main_step; by rewrite Hm].
    unfold looks_again. rewrite Hm. lia.
  - apply (free_advances s 1 Hlv Hfree Hc Hw); intros E; rewrite E in Hout; simpl in Hout; lia.
Qed.

Lemma wait_all_advances s :
  inv s -> live_inv s -> test_m s = None -> main_pc s = M_wait_all -> advances s.
Proof.
  intros Hinv Hlv Hfree Hm.
  assert (Hc : forall t, 0 <= t < 10 -> pc s t <> Not_created)
    by (intros t Ht; apply (lv_created s Hlv); by rewrite Hm).
  assert (Hout : forall t, t <> 0 -> rank (pc s t) < 3).
  { intros t Ht. destruct (Z.lt_ge_cases (rank (pc s t)) 3) as [|Hr]; [done|].
    destruct (decide (t = 1)) as [->|Ht1].
    - destruct (inv_writer s Hinv Hr). apply (inv_stay s Hinv). by rewrite Hm.
    - destruct (inv_readers s Hinv t Ht Ht1 Hr). apply (inv_stay_peers s Hinv). by rewrite Hm. }
  destruct (decide (Exists (fun t => pc s t <> Waiting) (seqZ 1 9))) as [He|Hall].
  - apply Exists_exists in He as (t & Ht%elem_of_seqZ & Hw). specialize (Hout t ltac:(lia)).
    apply (free_advances s t Hlv Hfree (Hc t ltac:(lia)) Hw);
      intros E; rewrite E in Hout; simpl in Hout; lia.
  - assert (Hn : waiting (l2 s) = 9).
    { apply (waiting_exactly _ (seqZ 1 9)); [apply NoDup_seqZ|]. intros t.
      rewrite request_waits, elem_of_seqZ by done. split.
      - intros Ht. destruct (decide (pc s t = Waiting)) as [|Hw]; [done|].
        destruct Hall. apply Exists_exists. exists t. by rewrite elem_of_seqZ.
      - intros Ht. pose proof (lv_range s Hlv t) as Hr. rewrite Ht in Hr. specialize (Hr ltac:(done)).
        destruct (decide (t = 0)) as [->|]; [|lia].
        pose proof (inv_linger s Hinv) as Hl. rewrite Hm, Ht in Hl. simpl in Hl. lia. }
    eapply main_advances; [done..| |unfold main_step; by rewrite Hm].
    unfold looks_again. rewrite Hm. lia.
Qed.

Lemma who_advances s :
  inv s -> live_inv s -> test_m s = None -> main_pc s = M_who_lock -> who_is_in_cs s = 0 ->
  advances s.
Proof.
  intros Hinv Hlv Hfree Hm Hwho.
  assert (Hin : rank (pc s 1) < 5).
  { destruct (Z.lt_ge_cases (rank (pc s 1)) 5) as [|Hr]; [done|]. by destruct (lv_who s Hlv). }
  pose proof (inv_asked s Hinv) as Ha. pose proof (inv_linger s Hinv) as Hl.
  pose proof (lv_out s Hlv) as Ho. rewrite Hm in Ha, Hl, Ho. simpl in Ha, Hl, Ho.
  specialize (Ha ltac:(lia)). specialize (Hl ltac:(lia)). specialize (Ho ltac:(lia)).
  destruct (decide (pc s 0 = Finished)) as [Hf|Hf].
  - destruct (decide (pc s 1 = Waiting)) as [Hw|Hw].
    + apply (grant_advances s 1 Hlv Hw), writer_granted; [done..|]. intros u Hu.
      destruct (decide (u = 0)) as [->|Hu0]; [by rewrite Hf|].
      destruct (decide (u = 1)) as [->|Hu1]; [rewrite Hw in Hu; simpl in Hu; lia|].
      destruct (inv_readers s Hinv u Hu0 Hu1 Hu). apply (inv_stay_peers s Hinv). by rewrite Hm.
    + apply (free_advances s 1 Hlv Hfree); [|done|..];
        intros E; rewrite E in Ha, Hin; simpl in Ha, Hin; lia.
  - apply (free_advances s 0 Hlv Hfree); [..|done].
    + intros E. rewrite E in Hl. simpl in Hl. lia.
    + intros E. rewrite E in Hl. simpl in Hl. lia.
    + by apply told_awake.
Qed.

Lemma join_advances s i :
  inv s -> live_inv s -> test_m s = None -> main_pc s = M_join i -> advances s.
Proof.
  intros Hinv Hlv Hfree Hm. destruct (lv_join s Hlv i Hm) as [Hi Hj].
  assert (Hbusy : ~ looks_again s) by (unfold looks_again; rewrite Hm; tauto).
  destruct (Z.ltb_spec i 10) as [Hi'|Hi'].
  2: { eapply main_advances; [done..|]. unfold main_step. rewrite Hm.
       by rewrite (proj2 (Z.ltb_ge _ _)) by lia. }
  destruct (decide (pc s i = Finished)) as [Hf|Hf].
  { eapply main_advances; [done..|]. unfold main_step. rewrite Hm, Hf.
    by rewrite (proj2 (Z.ltb_lt _ _)) by lia. }
  assert (Htold : forall t, getout t s <> 0).
  { pose proof (lv_out s Hlv) as Ho. pose proof (lv_out_peers s Hlv) as Ho'.
    rewrite Hm in Ho, Ho'. simpl in Ho, Ho'. intros t. unfold getout. case_match; lia. }
  assert (Hc : forall t, 0 <= t < 10 -> pc s t <> Not_created)
    by (intros t Ht; apply (lv_created s Hlv); by rewrite Hm).
  destruct (decide (pc s i = Waiting)) as [Hw|Hw]; [|by apply (free_advances s i Hlv Hfree (Hc i ltac:(lia)) Hw); [apply told_awake|]].
  pose proof (inv_linger s Hinv) as Hl. rewrite Hm in Hl. simpl in Hl.
  destruct (decide (i = 1)) as [->|Hi1].
  - destruct (decide (Exists (fun t => 3 <= rank (pc s t) /\ pc s t <> Finished) (seqZ 0 10))) as [He|Hall].
    + apply Exists_exists in He as (t & Ht%elem_of_seqZ & Hr & Hnf).
      apply (free_advances s t Hlv Hfree (Hc t ltac:(lia))); [|by apply told_awake|done].
      intros E. rewrite E in Hr. simpl in Hr. lia.
    + apply (grant_advances s 1 Hlv Hw), writer_granted; [done..|]. intros u Hu.
      destruct (decide (pc s u = Finished)) as [->|Hnf]; [done|]. destruct Hall.
      apply Exists_exists. exists u. split; [|done]. apply elem_of_seqZ.
      assert (pc s u <> Not_created) as Hu' by (intros E; rewrite E in Hu; simpl in Hu; lia).
      pose proof (lv_range s Hlv u Hu'). lia.
  - apply (grant_advances s i Hlv Hw), reader_granted; [done..|].
    destruct (decide (i = 0)) as [->|Hi0].
    + rewrite Hw in Hl. simpl in Hl. lia.
    + right. by rewrite Hj by lia.
Qed.

Lemma always_advances s :
  inv s -> live_inv s -> main_pc s <> M_passed -> advances s.
Proof.
  intros Hinv Hlv Hnot.
  destruct (test_m s) as [t|] eqn:Hfree.
  - destruct (lv_holder s Hlv t Hfree) as [Hh|Hh].
    + destruct (main_step s) as [s'|] eqn:E.
      * eapply main_advances; [done..| |done]. unfold looks_again. destruct (main_pc s); (done || tauto).
      * exfalso. revert E. unfold main_step, take_m. by destruct (main_pc s).
    + destruct (thread_step t s) as [s'|] eqn:E; [by eapply thread_advances|].
      exfalso. revert E. unfold thread_step. destruct (pc s t); try done. by case_match.
  - pose proof (lv_main s Hlv) as Hh. pose proof (inv_safe s Hinv) as Hs.
    destruct (decide (looks_again s)) as [Hb|Hb].
    + unfold looks_again in Hb. destruct (main_pc s) eqn:Hm; try done.
      * by apply poll_advances.
      * by apply wait_writer_advances.
      * by apply wait_all_advances.
      * by apply who_advances.
    + destruct (main_pc s) eqn:Hm; try done;
        try (by specialize (Hh eq_refl); rewrite Hfree in Hh);
        try (by apply (join_advances s i)).
      all: destruct (main_step s) as [s'|] eqn:E; [by eapply main_advances|].
      all: exfalso; revert E; unfold main_step, take_m; rewrite Hm, ?Hfree; by try case_match.
Qed.
End live_progress.

(** ** Property *)

Definition no_spurious (cs : list choice) : Prop := Forall (fun c => forall t, c <> Spurious t) cs.

Lemma finish_from `{WriterPriority, !GrantLive} (n : nat) s :
  inv s -> live_inv s -> measure s <= Z.of_nat n ->
  exists cs s', (length cs <= n)%nat /\ no_spurious cs /\ run cs s = Some s' /\ main_pc s' = M_passed.
Proof.
  revert s; induction n as [|n IH]; intros s Hinv Hlv Hn;
    (destruct (decide (main_pc s = M_passed)) as [Hp|Hp];
      [exists [], s; split; [simpl; lia|]; split; [by constructor|done]|]);
    destruct (always_advances s Hinv Hlv Hp) as (c & s1 & Hc & Hstep & Hlt);
    pose proof (step_inv c s s1 Hinv Hstep) as Hinv1; pose proof (step_live c s s1 Hinv Hlv Hstep) as Hlv1.
  - pose proof (measure_nonneg s1 Hlv1). lia.
  - destruct (IH s1 Hinv1 Hlv1 ltac:(lia)) as (cs & s' & Hlen & Hns & Hrun & Hm).
    exists (c :: cs), s'. split; [simpl; lia|]. split; [by constructor|]. split; [|done].
    simpl. by rewrite Hstep.
Qed.

(** C20: [test_rwl_priority] cannot get stuck: whatever the threads, the lock
    and the spurious wake-ups have done so far, at most 1264 more steps, none
    of them a spurious wake-up, can lead the main thread to the end, if the
    lock grants what it can.  No busy loop waits for something that cannot come
    and no wake-up of [pthread_cond_broadcast] is lost. *)
Theorem priority_test_completes `{WriterPriority, !GrantLive} (cs : list choice) (s : state) :
  run cs start = Some s ->
  exists cs' s', (length cs' <= 1264)%nat /\ no_spurious cs' /\
    run cs' s = Some s' /\ main_pc s' = M_passed.
Proof.
  intros Hrun. destruct (run_live cs start s start_inv start_live Hrun) as [Hinv Hlv].
  apply finish_from; [done..|]. unfold measure. pose proof (progress_bounds s).
  assert (remaining s <= 64); [|lia]. unfold remaining.
  destruct (main_pc s) eqn:Hm; try lia; try (repeat case_match; lia).
  - destruct (inv_fresh s Hinv _ Hm). lia.
  - destruct (lv_join s Hlv _ Hm). lia.
Qed.

(** From the state in which all nine threads wait and the lingering reader
    has been woken spuriously. *)
Lemma priority_test_completes_witness :
  let cs := until_spawned ++ all_ask ++ [Spurious 0] in
  exists s, @run writers_first cs start = Some s /\ pc s 0 = Woken /\ waiting (l2 s) = 9 /\
    exists cs' s', (length cs' <= 1264)%nat /\ no_spurious cs' /\
      @run writers_first cs' s = Some s' /\ main_pc s' = M_passed.
Proof.
  intros cs. destruct (@run writers_first cs start) as [s|] eqn:E.
  - exists s. split; [reflexivity|].
    assert (Hw : (fun s => (pc s 0, waiting (l2 s))) <$> @run writers_first cs start = Some (Woken, 9))
      by (vm_compute; reflexivity).
    rewrite E in Hw. injection Hw as Hw1 Hw2. split; [exact Hw1|]. split; [exact Hw2|].
    exact (@priority_test_completes writers_first writers_first_priority writers_first_live cs s E).
  - exfalso. revert E. vm_compute. discriminate.
Defined.
