(* ===== verification/TestHash.v ===== *)
(** * The tests of the hash table ([threadlab/testhash.c])

    [test_htable] over any table with the operations of [htable.h].  The
    threads it creates are programs whose accesses to the shared table are
    visible, and run interleaved, one access at a time. *)

From S2P Require Import Prelude Doubles Primes HtableSpec RwLock.

(** ** Programs with visible accesses *)

Inductive program (A : Type) :=
  | Ret (a : A)
  | Access (op : table_op) (k : Z -> program A)
  | Stop (e : fault).
Arguments Ret {A} a.
Arguments Access {A} op k.
Arguments Stop {A} e.

#[export] Instance prog_ret : MRet program := fun A a => Ret a.
#[export] Instance prog_bind : MBind program := fun A B f =>
  fix bind (p : program A) : program B :=
    match p with
    | Ret a => f a
    | Access op k => Access op (fun r => bind (k r))
    | Stop e => Stop e
    end.

Definition access (op : table_op) : program Z := Access op Ret.
Definition calc {A} (r : result A) : program A :=
  match r with Ok a => Ret a | Fault e => Stop e end.

(** ** The table and the platform *)

(** The operations of [htable.h] on a table of type [T], atomic, as its
    comments ask of an implementation that threads share; [strs] is what the
    key pointers point to. *)
Class Table (T : Type) := {
  tbl_init : Z -> Z -> ST T unit;
  tbl_destroy : ST T unit;
  tbl_size : ST T Z;
  tbl_insert : gmap Z (list Z) -> Z -> Z -> ST T Z;
  tbl_lookup : gmap Z (list Z) -> Z -> ST T Z;
}.

Definition tbl_op {T} `{Table T} (strs : gmap Z (list Z)) (op : table_op) : ST T Z :=
  match op with
  | Insert key val => tbl_insert strs key val
  | Lookup key => tbl_lookup strs key
  end.

Inductive op_type := INSERT | MIX.

(** The C library and the system: the numbers of [rand]; the answers of
    [malloc] and [pthread_create] and the order in which the threads of a phase
    make their accesses, a phase being known by the number of readings of the
    clock before it; the clock; where the arrays of the test are. *)
Class Platform := {
  rand : nat -> Z;
  gets_threads : bool;
  pthread_create : nat -> Z -> Z;
  schedule : nat -> list nat;
  clock : nat -> timespec;
  testkeys_at : Z;
  testvals_at : Z;
}.

Definition TESTSZ : Z := 1000000.
Definition STRLEN : Z := 50.
Definition sizeof_int : Z := 4.

Definition int_quot (a b : Z) : result Z :=
  if b =? 0 then Fault Undefined else int_ (Z.quot a b).

Definition timediff (start end_ : timespec) : result Z :=
  s ← ll_ (tv_sec end_ - tv_sec start);
  us ← ll_ (s * 1000000);
  ns ← ll_ (tv_nsec end_ - tv_nsec start);
  ll_ (us + Z.quot ns 1000).

(** The characters of a C string in a buffer. *)
Fixpoint until_nul (s : list Z) : list Z :=
  match s with
  | [] => []
  | c :: s => if c =? 0 then [] else c :: until_nul s
  end.

(** What the test prints. *)
Inductive report_line :=
  | Initialized (size : Z)
  | Spawned (mode : op_type) (threads tuples : Z)
  | Throughput (mode : op_type) (threads : Z) (rate : double)
  | Table_passed (allow_resize size : Z).

(** ** The test

    For any number [tests] of keys in the place of [TESTSZ]. *)
Section test.
Context `{Platform} (tests num_threads : Z).

Definition testkey (i : Z) : Z := testkeys_at + i * STRLEN.
Definition testval (i : Z) : Z := testvals_at + i * sizeof_int.

(** The address of a cell of [testkeys] or [testvals]. *)
Definition in_tests (at_ : Z -> Z) (i : Z) : result Z :=
  guard_ ((0 <=? i) && (i <? tests));; Ok (at_ i).

(** The second tuple's index. *)
Definition random_index (thread_idx i : Z) : result Z :=
  a ← ll_ (thread_idx * i);
  b ← ll_ (Z.rem a 256 * BIG_PRIME);
  Ok (Z.rem b tests).

Definition insert_at (i : Z) : program unit :=
  key ← calc (in_tests testkey i);
  val ← calc (in_tests testval i);
  access (Insert key val);; mret tt.

(** A lookup whose answer must be the value of that key, if any. *)
Definition lookup_at (r : Z) : program unit :=
  key ← calc (in_tests testkey r);
  v ← access (Lookup key);
  if negb (v =? 0) then
    val ← calc (in_tests testval r);
    if negb (v =? val) then Stop (Exited 1) else mret tt
  else mret tt.

Definition test_turn (run_mode : op_type) (thread_idx i : Z) : program unit :=
  insert_at i;;
  r ← calc (random_index thread_idx i);
  match run_mode with INSERT => insert_at r | MIX => lookup_at r end.

(** The indices from [first] to [end]. *)
Definition thread_share (thread_idx : Z) : result (Z * Z) :=
  share ← int_quot tests num_threads;
  e ← ll_ ((thread_idx + 1) * share);
  let e := if thread_idx =? num_threads - 1 then tests else s32 e in
  first ← ll_ (thread_idx * share);
  Ok (first, e).

Definition test_htable_run (run_mode : op_type) (thread_idx : Z) : program unit :=
  fe ← calc (thread_share thread_idx);
  foldM (fun _ i => test_turn run_mode thread_idx i) tt (seqZ fe.1 (fe.2 - fe.1)).

Context {T : Type} `{Table T}.

(** The state of the program: the numbers drawn from [rand], the key array,
    the table, the readings of the clock and what was printed. *)
Record test := Test {
  t_rands : nat;
  t_keys : list (list Z);
  t_table : T;
  t_ticks : nat;
  t_out : list report_line;
}.

Definition on_keys {B} (c : ST (nat * list (list Z)) B) : ST test B := fun s =>
  match c (t_rands s, t_keys s) with
  | Ok (b, (r, ks)) => Ok (b, Test r ks (t_table s) (t_ticks s) (t_out s))
  | Fault e => Fault e
  end.
Definition on_table {B} (c : ST T B) : ST test B := fun s =>
  match c (t_table s) with
  | Ok (b, t) => Ok (b, Test (t_rands s) (t_keys s) t (t_ticks s) (t_out s))
  | Fault e => Fault e
  end.
Definition clock_gettime : ST test timespec := fun s =>
  Ok (clock (t_ticks s), Test (t_rands s) (t_keys s) (t_table s) (S (t_ticks s)) (t_out s)).
Definition say_line (l : report_line) : ST test unit := fun s =>
  Ok (tt, Test (t_rands s) (t_keys s) (t_table s) (t_ticks s) (t_out s ++ [l])).

(** [set_random_str(testkeys[i], len)] *)
Definition set_random_str (i : Z) (len : Z) : ST (nat * list (list Z)) unit := fun '(k, ks) =>
  s ← arr_get ks i;
  t ← foldM (fun '(k, s) j =>
        s ← arr_set s j (Z.rem (rand k) 26 + 65); Ok (S k, s)) (k, s) (seqZ 0 (len - 1));
  s ← arr_set t.2 (len - 1) 0;
  ks ← arr_set ks i s;
  Ok (tt, (t.1, ks)).

(** What the key pointers point to. *)
Definition key_strings (ks : list (list Z)) : gmap Z (list Z) :=
  list_to_map (imap (fun i s => (testkey (Z.of_nat i), until_nul s)) ks).

(** The accesses of the threads [ps], in the order of the schedule. *)
Fixpoint interleave (strs : gmap Z (list Z)) (sched : list nat) (ps : list (program unit))
    : ST T (list (program unit)) :=
  match sched with
  | [] => mret ps
  | t :: sched =>
      match ps !! t with
      | Some (Access op k) => r ← tbl_op strs op; interleave strs sched (<[t := k r]> ps)
      | Some (Stop e) => lift (Fault e)
      | _ => interleave strs sched ps
      end
  end.

Definition finished (p : program unit) : bool := match p with Ret _ => true | _ => false end.

(** The threads are created, run and joined. *)
Definition run_threads (run_mode : op_type) : ST test unit :=
  phase ← gets t_ticks;
  foldM (fun _ i =>
    lift (guard_ gets_threads);; lift (assert_ (pthread_create phase i =? 0))) tt
    (seqZ 0 num_threads);;
  n ← lift (int_ (2 * tests));
  tuples ← lift (int_quot n num_threads);
  say_line (Spawned run_mode num_threads tuples);;
  ks ← gets t_keys;
  ps ← on_table (interleave (key_strings ks) (schedule phase)
         (test_htable_run run_mode <$> seqZ 0 num_threads));
  if forallb finished ps then mret tt else lift (Fault OutOfFuel).

Definition timed_phase (run_mode : op_type) : ST test unit :=
  start ← clock_gettime;
  run_threads run_mode;;
  end_ ← clock_gettime;
  duration ← lift (timediff start end_);
  say_line (Throughput run_mode num_threads
    (ddiv (dmul (d_of_Z 2) (d_of_Z tests)) (d_of_Z duration))).

(** One turn of the validation. *)
Definition validate (i : Z) : ST test unit :=
  ks ← gets t_keys;
  key ← lift (in_tests testkey i);
  p ← on_table (tbl_lookup (key_strings ks) key);
  val ← lift (in_tests testval i);
  if negb (p =? 0) && (p =? val) then mret tt else lift (Fault (Exited 1)).

Definition test_htable (allow_resize : Z) : ST test unit :=
  foldM (fun _ i => on_keys (set_random_str i STRLEN)) tt (seqZ 0 tests);;
  on_table (tbl_init (Z.quot tests 100) allow_resize);;
  size ← on_table tbl_size;
  say_line (Initialized size);;
  timed_phase INSERT;;
  foldM (fun _ i => validate i) tt (seqZ 0 tests);;
  on_table tbl_destroy;;
  on_table (tbl_init (Z.quot tests 100) allow_resize);;
  timed_phase MIX;;
  sz ← on_table tbl_size;
  on_table tbl_destroy;;
  say_line (Table_passed allow_resize sz).
End test.
Arguments test T : clear implicits.
Arguments Test {T} t_rands t_keys t_table t_ticks t_out.
Arguments t_rands {T} _.
Arguments t_keys {T} _.
Arguments t_table {T} _.
Arguments t_ticks {T} _.
Arguments t_out {T} _.
