(* ===== verification/TestHashSpec.v ===== *)
(** * Properties of the hash table tests

    The contract of a table whose operations are atomic; what the threads of
    [test_htable] do to such a table in any order; and the run of the test. *)

From S2P Require Import Prelude Doubles Words Primes Htable HtableChains HtableInv HtableSpec RwLock TestHash.

(** ** The contract of an atomic table

    [tbl_at strs t m]: the table stands for [m], its keys read through
    [strs]; it has room for [cap] keys, if [tbl_takes] holds of the strings. *)
Class TableSpec (T : Type) `{Table T} (allow : Z) (cap : nat) := {
  tbl_fresh : T -> Prop;
  tbl_takes : gset (list Z) -> Prop;
  tbl_at : gmap Z (list Z) -> T -> gmap (list Z) Z -> Prop;
  tbl_init_spec strs t sz :
    tbl_fresh t -> tbl_takes (map_img strs) -> 0 <= sz < 2 ^ 31 - 1 ->
    exists t', tbl_init sz allow t = Ok (tt, t') /\ tbl_at strs t' ∅;
  tbl_op_spec strs t m op :
    tbl_at strs t m -> op_ok strs op -> (size m < cap)%nat ->
    exists t', tbl_op strs op t = Ok (fst (spec_op strs op m), t') /\
      tbl_at strs t' (snd (spec_op strs op m));
  tbl_size_spec strs t m : tbl_at strs t m -> exists n, tbl_size t = Ok (n, t);
  tbl_destroy_spec strs t m :
    tbl_at strs t m -> exists t', tbl_destroy t = Ok (tt, t') /\ tbl_fresh t';
}.

Lemma size_of_list (l : list (list Z)) : (size (list_to_set l : gset (list Z)) <= length l)%nat.
Proof.
  induction l as [|x l IH]; simpl; [done|].
  rewrite size_union_alt, size_singleton.
  pose proof (subseteq_size (list_to_set l ∖ {[x]}) (list_to_set l : gset (list Z)) ltac:(set_solver)). lia.
Qed.

(** ** Programs of threads *)

Section progs.
(** The pool of tuples, by index, and their strings. *)
Context `{Platform} (strs : gmap Z (list Z)) (tests : Z) (key_at : Z -> list Z).

(** An answer of the table when its tuples are from the pool. *)
Definition answer (op : table_op) (r : Z) : Prop :=
  match op with
  | Insert _ _ => True
  | Lookup key => r = 0 \/
      exists j, 0 <= j < tests /\ strs !! key = Some (key_at j) /\ r = testval j
  end.

Definition from_pool (op : table_op) : Prop :=
  match op with
  | Insert key val => exists j, 0 <= j < tests /\ strs !! key = Some (key_at j) /\ val = testval j
  | Lookup key => True
  end.

(** The program makes at most [b] accesses, all proper, and never stops. *)
Fixpoint fits {A} (b : nat) (p : program A) {struct p} : Prop :=
  match p with
  | Ret _ => True
  | Stop _ => False
  | Access op k =>
      match b with
      | O => False
      | S b => op_ok strs op /\ from_pool op /\ forall r, answer op r -> fits b (k r)
      end
  end.

(** Every run of the program inserts the string [s]. *)
Definition inserts (s : list Z) (op : table_op) : Prop :=
  match op with Insert key _ => strs !! key = Some s | Lookup _ => False end.

Fixpoint will_insert {A} (s : list Z) (p : program A) : Prop :=
  match p with
  | Ret _ => False
  | Stop _ => True
  | Access op k => inserts s op \/ forall r, will_insert s (k r)
  end.

Lemma fits_mono {A} (p : program A) : forall b b', (b <= b')%nat -> fits b p -> fits b' p.
Proof.
  induction p as [a|op k IH|e]; intros b b' Hle; simpl; [done| |done].
  destruct b as [|b]; [done|]. destruct b' as [|b']; [lia|]. intros (Hop & Hp & Hk).
  split_and!; [done..|]. intros r Hr. apply (IH r b); [lia|auto].
Qed.

Lemma fits_bind {A B} (p : program A) (f : A -> program B) : forall a b,
  fits a p -> (forall x, fits b (f x)) -> fits (a + b) (p ≫= f).
Proof.
  induction p as [x|op k IH|e]; intros a b Hp Hf; simpl in *; [|destruct a as [|a]; [done|]|done].
  - apply (fits_mono _ b); [lia|done].
  - simpl. destruct Hp as (Hop & Hfp & Hk). split_and!; [done..|]. intros r Hr. by apply IH; auto.
Qed.

Lemma fits_fold {X} (f : X -> program unit) b l :
  (forall x, x ∈ l -> fits b (f x)) -> fits (b * length l) (foldM (fun _ x => f x) tt l).
Proof.
  induction l as [|x l IH]; intros Hf; [done|]. cbn [foldM length].
  rewrite Nat.mul_succ_r, Nat.add_comm. apply fits_bind; [apply Hf; left|].
  intros []. apply IH. intros y Hy. apply Hf. by right.
Qed.

Lemma will_bind {A B} s (p : program A) (f : A -> program B) :
  will_insert s p \/ (forall x, will_insert s (f x)) -> will_insert s (p ≫= f).
Proof.
  intros Hor. induction p as [x|op k IH|e]; simpl in *; [by destruct Hor| |done].
  destruct Hor as [[Hop|Hk]|Hf]; [by left|right; auto..].
Qed.

Lemma will_fold {X} s (f : X -> program unit) x l :
  x ∈ l -> will_insert s (f x) -> will_insert s (foldM (fun _ x => f x) tt l).
Proof.
  intros Hx Hf. induction l as [|y l IH]; [by apply elem_of_nil in Hx|]. cbn [foldM].
  apply will_bind. apply elem_of_cons in Hx as [<-|Hx]; [by left|right; intros []; by apply IH].
Qed.

(** ** One access *)

(** The map's tuples are from the pool. *)
Definition pool (m : gmap (list Z) Z) : Prop :=
  forall s v, m !! s = Some v -> exists j, 0 <= j < tests /\ s = key_at j /\ v = testval j.

Lemma pool_size m : pool m -> (size m <= Z.to_nat tests)%nat.
Proof.
  intros Hm. rewrite <- (size_dom (D := gset (list Z))).
  transitivity (size (list_to_set (key_at <$> seqZ 0 tests) : gset (list Z))).
  - apply subseteq_size. intros s Hs. apply elem_of_dom in Hs as [v Hv].
    destruct (Hm s v Hv) as (j & Hj & -> & _). apply elem_of_list_to_set, list_elem_of_fmap.
    exists j. split; [done|]. apply elem_of_seqZ. lia.
  - etransitivity; [apply size_of_list|]. by rewrite length_fmap, length_seqZ.
Qed.

Lemma spec_op_pool m op :
  pool m -> op_ok strs op -> from_pool op ->
  answer op (fst (spec_op strs op m)) /\ pool (snd (spec_op strs op m)) /\
  (forall s, is_Some (m !! s) \/ inserts s op -> is_Some (snd (spec_op strs op m) !! s)).
Proof.
  intros Hm (s & Hs & _) Hp. destruct op as [key val|key]; simpl in *; rewrite Hs; simpl.
  - destruct Hp as (j & Hj & Hkey & ->). rewrite Hs in Hkey. injection Hkey as ->.
    destruct (m !! key_at j) as [v|] eqn:E; simpl; split_and!; try done.
    + intros s' [?|Es]; [done|]. simplify_eq. by eexists.
    + intros s' v'. rewrite lookup_insert. case_decide as Es; [|apply Hm].
      intros [= <-]. by exists j.
    + intros s' Hs'. rewrite lookup_insert. case_decide as Es; [done|].
      destruct Hs' as [?|Es']; [done|congruence].
  - split_and!; [|done|by intros s' [?|?]].
    destruct (m !! s) as [v|] eqn:E; simpl; [right|by left].
    destruct (Hm s v E) as (j & Hj & -> & ->). by exists j.
Qed.

(** ** Any interleaving *)

Context {T} `{TableSpec T allow cap} (Hcap : (Z.to_nat tests < cap)%nat).

Lemma tbl_access t m op :
  tbl_at strs t m -> pool m -> op_ok strs op -> from_pool op ->
  exists r t' m', tbl_op strs op t = Ok (r, t') /\ answer op r /\ tbl_at strs t' m' /\ pool m' /\
    (forall s, is_Some (m !! s) \/ inserts s op -> is_Some (m' !! s)).
Proof.
  intros Hat Hm Hop Hp. pose proof (pool_size m Hm).
  destruct (tbl_op_spec strs t m op Hat Hop ltac:(lia)) as (t' & Hrun & Hat').
  destruct (spec_op_pool m op Hm Hop Hp) as (Ha & Hm' & Hin). eauto 10.
Qed.

Lemma interleave_run sched : forall ps t m,
  (forall i p, ps !! i = Some p -> fits (count_occ Nat.eq_dec sched i) p) ->
  tbl_at strs t m -> pool m ->
  exists ps' t' m', interleave strs sched ps t = Ok (ps', t') /\ forallb finished ps' = true /\
    tbl_at strs t' m' /\ pool m' /\
    (forall s, is_Some (m !! s) \/ (exists p, p ∈ ps /\ will_insert s p) -> is_Some (m' !! s)).
Proof.
  induction sched as [|i sched IH]; intros ps t m Hfit Hat Hm; simpl.
  - exists ps, t, m. split_and!; [done| |done|done|].
    + apply forallb_forall. intros p Hp%list_elem_of_In. apply list_elem_of_lookup in Hp as [i Hi].
      specialize (Hfit i p Hi). by destruct p.
    + intros s [Hs|(p & Hp & Hw)]; [done|]. apply list_elem_of_lookup in Hp as [i Hi].
      specialize (Hfit i p Hi). by destruct p.
  - assert (Hother : forall j p, ps !! j = Some p -> j <> i -> fits (count_occ Nat.eq_dec sched j) p).
    { intros j p Hj Hne. specialize (Hfit j p Hj). simpl in Hfit. by destruct (Nat.eq_dec i j). }
    destruct (ps !! i) as [[a|op k|e]|] eqn:Hi.
    + apply IH; [|done|done]. intros j p Hj. destruct (decide (j = i)) as [->|]; [|auto].
      rewrite Hi in Hj. by injection Hj as <-.
    + pose proof (Hfit i _ Hi) as Hf. simpl in Hf. destruct (Nat.eq_dec i i) as [_|]; [|done].
      destruct Hf as (Hop & Hp & Hk).
      destruct (tbl_access t m op Hat Hm Hop Hp) as (r & t1 & m1 & Hrun & Ha & Hat1 & Hm1 & Hin).
      rewrite (bind_Ok _ _ _ r t1) by done.
      destruct (IH (<[i:=k r]> ps) t1 m1) as (ps' & t' & m' & Hr & Hfin & Hat' & Hm' & Hall); [|done|done|].
      { intros j p Hj. destruct (decide (j = i)) as [->|Hne].
        - rewrite list_lookup_insert_eq in Hj by (by eapply lookup_lt_Some). injection Hj as <-. auto.
        - rewrite list_lookup_insert_ne in Hj by done. auto. }
      exists ps', t', m'. split_and!; [done..|]. intros s Hs. apply Hall.
      destruct Hs as [Hs|(p & Hpin & Hw)]; [left; auto|].
      apply list_elem_of_lookup in Hpin as [j Hj]. destruct (decide (j = i)) as [->|Hne].
      * rewrite Hi in Hj. injection Hj as <-. destruct Hw as [Hw|Hw]; [left; auto|right].
        exists (k r). split; [|auto]. apply list_elem_of_lookup. exists i.
        apply list_lookup_insert_eq. by eapply lookup_lt_Some.
      * right. exists p. split; [|done]. apply list_elem_of_lookup. exists j.
        by rewrite list_lookup_insert_ne.
    + by specialize (Hfit i _ Hi).
    + apply IH; [|done|done]. intros j p Hj. apply Hother; [done|congruence].
Qed.
End progs.

(** ** The threads of the test *)

Section threads.
Context `{Platform} (strs : gmap Z (list Z)) (tests num_threads : Z) (key_at : Z -> list Z).
Context (Htests : 0 < tests <= TESTSZ) (Hthreads : 0 < num_threads < 2 ^ 31).
Context (Hstrs : forall i, 0 <= i < tests -> strs !! testkey i = Some (key_at i)).
Context (Hgood : forall i, 0 <= i < tests -> good_key (key_at i)).

Lemma int_quot_ok a b : 0 <= a < 2 ^ 31 -> 0 < b -> int_quot a b = Ok (a / b).
Proof.
  intros Ha Hb. unfold int_quot. rewrite (proj2 (Z.eqb_neq b 0)) by lia.
  rewrite Z.quot_div_nonneg by lia. apply int_ok.
  pose proof (Z.div_pos a b). pose proof (Z.div_le_upper_bound a b a). nia.
Qed.

Lemma in_tests_ok at_ i : 0 <= i < tests -> in_tests tests at_ i = Ok (at_ i).
Proof.
  intros Hi. unfold in_tests. by rewrite (proj2 (Z.leb_le _ _)), (proj2 (Z.ltb_lt _ _)) by lia.
Qed.

Lemma random_index_ok idx i :
  0 <= idx < num_threads -> 0 <= i < tests ->
  exists r, random_index tests idx i = Ok r /\ 0 <= r < tests.
Proof.
  intros Hidx Hi. unfold random_index, TESTSZ in *.
  assert (0 <= idx * i < 2 ^ 31 * 2 ^ 31) by nia.
  rewrite ll_ok by lia. unfold mbind at 1, result_bind at 1.
  rewrite Z.rem_mod_nonneg by lia. pose proof (Z.mod_pos_bound (idx * i) 256).
  rewrite ll_ok by (unfold BIG_PRIME; lia). unfold mbind, result_bind.
  eexists. split; [done|]. rewrite Z.rem_mod_nonneg by (unfold BIG_PRIME; lia).
  apply Z.mod_pos_bound. lia.
Qed.

Lemma insert_at_fits i : 0 <= i < tests -> fits strs tests key_at 1 (insert_at tests i).
Proof.
  intros Hi. unfold insert_at. rewrite !in_tests_ok by done. simpl. split_and!; [| |done].
  - exists (key_at i). simpl. auto.
  - exists i. auto.
Qed.

Lemma insert_at_inserts i : 0 <= i < tests -> will_insert strs (key_at i) (insert_at tests i).
Proof.
  intros Hi. unfold insert_at. rewrite !in_tests_ok by done. left. simpl. auto.
Qed.

(** The answer to a lookup is the pointer it asks for when no two keys are
    equal. *)
Lemma lookup_at_fits r :
  0 <= r < tests -> (forall j, 0 <= j < tests -> key_at j = key_at r -> j = r) ->
  fits strs tests key_at 1 (lookup_at tests r).
Proof.
  intros Hr Hinj. unfold lookup_at. rewrite !in_tests_ok by done. simpl. split; [|split; [done|]].
  - exists (key_at r). simpl. auto.
  - intros v Hv. destruct (Z.eqb_spec v 0) as [|Hv0]; [done|]. simpl.
    destruct Hv as [?|(j & Hj & Ej & ->)]; [done|]. rewrite Hstrs in Ej by done. injection Ej as Ej.
    rewrite (Hinj j) by done. by rewrite Z.eqb_refl.
Qed.

(** The mode's second access is harmless. *)
Definition mode_ok (mode : op_type) : Prop :=
  mode = INSERT \/ forall i j, 0 <= i < tests -> 0 <= j < tests -> key_at i = key_at j -> i = j.

Lemma test_turn_fits mode idx i :
  mode_ok mode -> 0 <= idx < num_threads -> 0 <= i < tests ->
  fits strs tests key_at 2 (test_turn tests mode idx i).
Proof.
  intros Hmode Hidx Hi. unfold test_turn. apply (fits_bind _ _ _ _ _ 1 1); [by apply insert_at_fits|].
  intros _. destruct (random_index_ok idx i Hidx Hi) as (r & -> & Hr). simpl.
  destruct mode; [by apply insert_at_fits|]. apply lookup_at_fits; [done|].
  destruct Hmode as [?|Hinj]; [done|]. intros j Hj. by apply Hinj.
Qed.

Lemma thread_share_ok idx :
  0 <= idx < num_threads ->
  exists first e, thread_share tests num_threads idx = Ok (first, e) /\
    0 <= first /\ e <= tests /\ first = idx * (tests / num_threads) /\
    e = if idx =? num_threads - 1 then tests else (idx + 1) * (tests / num_threads).
Proof.
  intros Hidx. unfold thread_share, TESTSZ in *.
  pose proof (Z.div_pos tests num_threads ltac:(lia) ltac:(lia)).
  pose proof (Z.mul_div_le tests num_threads ltac:(lia)).
  assert ((idx + 1) * (tests / num_threads) <= tests) by nia.
  rewrite int_quot_ok by lia. unfold mbind at 1, result_bind at 1.
  rewrite ll_ok by nia. unfold mbind at 1, result_bind at 1.
  rewrite ll_ok by nia. unfold mbind at 1, result_bind at 1.
  rewrite s32_id by nia. do 2 eexists. split; [done|]. split; [nia|].
  split; [by destruct (_ =? _)|done].
Qed.

Lemma test_htable_run_fits mode idx :
  mode_ok mode -> 0 <= idx < num_threads ->
  fits strs tests key_at (2 * Z.to_nat tests) (test_htable_run tests num_threads mode idx).
Proof.
  intros Hmode Hidx. unfold test_htable_run.
  destruct (thread_share_ok idx Hidx) as (first & e & -> & Hf & He & _).
  change (fits strs tests key_at (2 * Z.to_nat tests)
    (foldM (fun _ i => test_turn tests mode idx i) tt (seqZ first (e - first)))).
  apply (fits_mono _ _ _ _ (2 * length (seqZ first (e - first)))); [rewrite length_seqZ; lia|].
  apply fits_fold. intros i [Hi1 Hi2]%elem_of_seqZ. apply test_turn_fits; [done..|lia].
Qed.

(** Every index is in the share of some thread. *)
Lemma shares_cover i :
  0 <= i < tests ->
  exists idx first e, 0 <= idx < num_threads /\
    thread_share tests num_threads idx = Ok (first, e) /\ first <= i < e.
Proof.
  intros Hi. pose proof (Z.div_pos tests num_threads ltac:(lia) ltac:(lia)) as Hpos.
  destruct (Z.le_gt_cases ((num_threads - 1) * (tests / num_threads)) i) as [Hle|Hgt].
  - destruct (thread_share_ok (num_threads - 1)) as (f & e & Hs & _ & _ & -> & ->); [lia|].
    rewrite Z.eqb_refl in *. do 3 eexists. split; [|split; [exact Hs|]]; lia.
  - assert (Hsh : 0 < tests / num_threads) by nia.
    pose proof (Z.div_mod i (tests / num_threads) ltac:(lia)) as Hdm.
    pose proof (Z.mod_pos_bound i (tests / num_threads) Hsh) as Hm.
    pose proof (Z.div_pos i (tests / num_threads) ltac:(lia) ltac:(lia)) as Hq.
    assert (Hlt : i / (tests / num_threads) < num_threads - 1).
    { apply Z.div_lt_upper_bound; [done|]. lia. }
    destruct (thread_share_ok (i / (tests / num_threads))) as (f & e & Hs & _ & _ & -> & ->); [lia|].
    rewrite (proj2 (Z.eqb_neq _ (num_threads - 1))) in Hs by lia.
    do 3 eexists. split; [|split; [exact Hs|]]; nia.
Qed.

Lemma test_htable_run_inserts mode i :
  0 <= i < tests ->
  exists idx, 0 <= idx < num_threads /\
    will_insert strs (key_at i) (test_htable_run tests num_threads mode idx).
Proof.
  intros Hi. destruct (shares_cover i Hi) as (idx & f & e & Hidx & Hs & Hin).
  exists idx. split; [done|]. unfold test_htable_run. rewrite Hs.
  change (will_insert strs (key_at i)
    (foldM (fun _ i => test_turn tests mode idx i) tt (seqZ f (e - f)))).
  apply (will_fold _ _ _ i); [apply elem_of_seqZ; lia|].
  unfold test_turn. apply will_bind. left. by apply insert_at_inserts.
Qed.
End threads.

(** ** The platform's contract *)

Class PlatformSpec `{Platform} (tests num_threads : Z) : Prop := {
  rand_nonneg k : 0 <= rand k;
  threads_allocated : gets_threads = true;
  create_succeeds phase i : pthread_create phase i = 0;
  (** Every thread is scheduled until it has returned. *)
  schedule_completes phase i :
    (i < Z.to_nat num_threads)%nat ->
    (2 * Z.to_nat tests <= count_occ Nat.eq_dec (schedule phase) i)%nat;
  time_fits i j : exists d, timediff (clock i) (clock j) = Ok d;
  testvals_placed : 0 < testvals_at;
}.

Section fill.
Context `{Platform} (Hrand : forall k, 0 <= rand k).

(** The letter made of the [k]-th random number, and the string drawn from
    the [k]-th on. *)
Definition letter (k : nat) : Z := Z.rem (rand k) 26 + 65.
Definition random_letters (k : nat) : list Z := letter <$> seq k 49.

Lemma letter_range k : 65 <= letter k < 91.
Proof. unfold letter. specialize (Hrand k). rewrite Z.rem_mod_nonneg by lia. dlia. Qed.

Lemma random_letters_good k : good_key (random_letters k).
Proof.
  split; [|unfold random_letters; rewrite length_fmap, length_seq; lia].
  apply Forall_fmap, Forall_forall. intros j _. simpl. pose proof (letter_range j). lia.
Qed.

Lemma until_nul_letters s : Forall (fun c => 0 < c < 128) s -> until_nul (s ++ [0]) = s.
Proof.
  induction 1 as [|c s Hc _ IH]; [done|]. cbn [app until_nul].
  by rewrite (proj2 (Z.eqb_neq c 0)), IH by lia.
Qed.

(** The loop of [set_random_str]. *)
Lemma letters_run m : forall a k s,
  0 <= a -> (Z.to_nat a + m <= length s)%nat ->
  exists s', foldM (fun '(k, s) j =>
      s ← arr_set s j (Z.rem (rand k) 26 + 65); Ok (S k, s)) (k, s) (seqZ a (Z.of_nat m)) =
    Ok ((k + m)%nat, s') /\ length s' = length s /\
    forall j, s' !! j = if decide (Z.to_nat a <= j < Z.to_nat a + m)%nat
                        then Some (letter (k + (j - Z.to_nat a))) else s !! j.
Proof.
  induction m as [|m IH]; intros a k s Ha Hlen.
  - exists s. rewrite Nat.add_0_r. split_and!; [done..|]. intros j. by rewrite decide_False by lia.
  - rewrite seqZ_cons by lia. cbn [foldM]. rewrite arr_set_ok by lia. cbn [mbind result_bind].
    replace (Z.pred (Z.of_nat (S m))) with (Z.of_nat m) by lia.
    destruct (IH (Z.succ a) (S k) (<[Z.to_nat a:=letter k]> s)) as (s' & Hrun & Hl & Hs');
      [lia|rewrite length_insert; lia|].
    exists s'. split; [|split].
    + unfold letter in Hrun. rewrite Hrun. do 2 f_equal. lia.
    + by rewrite Hl, length_insert.
    + intros j. rewrite Hs'. repeat case_decide; try lia.
      * do 2 f_equal. lia.
      * assert (j = Z.to_nat a) as -> by lia. rewrite list_lookup_insert_eq by lia. do 2 f_equal. lia.
      * by rewrite list_lookup_insert_ne by lia.
Qed.

Lemma set_random_str_run i k ks s :
  ks !! Z.to_nat i = Some s -> 0 <= i -> length s = 50%nat ->
  set_random_str i STRLEN (k, ks) =
    Ok (tt, ((k + 49)%nat, <[Z.to_nat i := random_letters k ++ [0]]> ks)).
Proof.
  intros Hi Hi0 Hs. unfold set_random_str. rewrite (arr_get_ok _ _ _ Hi0 Hi).
  cbn [mbind result_bind]. change (STRLEN - 1) with (Z.of_nat 49).
  destruct (letters_run 49 0 k s) as (s' & Hrun & Hl & Hs'); [lia|rewrite Hs; lia|].
  rewrite Hrun. unfold mbind, result_bind. cbn [fst snd]. rewrite arr_set_ok by lia.
  rewrite arr_set_ok by (pose proof (lookup_lt_Some _ _ _ Hi); lia). do 5 f_equal.
  apply list_eq. intros j. rewrite lookup_app. unfold random_letters. rewrite length_fmap, length_seq.
  rewrite list_lookup_fmap. destruct (decide (j < 49)%nat) as [Hj|Hj].
  - rewrite list_lookup_insert_ne by lia. rewrite Hs', decide_True by lia.
    rewrite lookup_seq_lt by lia. simpl. do 2 f_equal. lia.
  - rewrite lookup_seq_ge by lia. simpl. destruct (decide (j = 49)%nat) as [->|].
    + by rewrite list_lookup_insert_eq by lia.
    + rewrite !lookup_ge_None_2; [done|simpl; lia|rewrite length_insert; lia].
Qed.
End fill.

(** ** The run of the test *)

Section run.
Context `{PlatformSpec tests num_threads} {T : Type} `{TableSpec T allow cap}.
Context (Htests : 0 < tests <= TESTSZ) (Hthreads : 0 < num_threads < 2 ^ 31).
Context (Hcap : (Z.to_nat tests < cap)%nat).
Implicit Types (s : test T).

Lemma fill_run m : forall a s,
  0 <= a -> (Z.to_nat a + m <= length (t_keys s))%nat ->
  (forall j row, (Z.to_nat a <= j)%nat -> t_keys s !! j = Some row -> length row = 50%nat) ->
  exists ks, foldM (fun _ i => on_keys (set_random_str i STRLEN)) tt (seqZ a (Z.of_nat m)) s =
      Ok (tt, Test (t_rands s + 49 * m) ks (t_table s) (t_ticks s) (t_out s)) /\
    length ks = length (t_keys s) /\
    forall j, ks !! j = if decide (Z.to_nat a <= j < Z.to_nat a + m)%nat
                        then Some (random_letters (t_rands s + 49 * (j - Z.to_nat a)) ++ [0])
                        else t_keys s !! j.
Proof.
  induction m as [|m IH]; intros a s Ha Hlen Hrows.
  - exists (t_keys s). replace (t_rands s + 49 * 0)%nat with (t_rands s) by lia.
    split_and!; [by destruct s|done|]. intros j. by rewrite decide_False by lia.
  - rewrite seqZ_cons by lia. cbn [foldM]. replace (Z.pred (Z.of_nat (S m))) with (Z.of_nat m) by lia.
    destruct (lookup_lt_is_Some_2 (t_keys s) (Z.to_nat a)) as [row Hrow]; [lia|].
    assert (Hset : on_keys (set_random_str a STRLEN) s = Ok (tt, Test (t_rands s + 49)
      (<[Z.to_nat a := random_letters (t_rands s) ++ [0]]> (t_keys s)) (t_table s) (t_ticks s) (t_out s))).
    { unfold on_keys. rewrite (set_random_str_run _ _ _ row Hrow Ha); [done|]. by eapply Hrows. }
    rewrite (bind_Ok _ _ _ _ _ Hset).
    destruct (IH (Z.succ a) (Test (t_rands s + 49)
      (<[Z.to_nat a := random_letters (t_rands s) ++ [0]]> (t_keys s)) (t_table s) (t_ticks s) (t_out s)))
      as (ks & Hrun & Hl & Hks); cbn [t_keys t_rands t_table t_ticks t_out] in *; [lia|rewrite length_insert; lia| |].
    { intros j r Hj. rewrite list_lookup_insert_ne by lia. apply Hrows. lia. }
    exists ks. split_and!.
    + rewrite Hrun. by replace (t_rands s + 49 * S m)%nat with (t_rands s + 49 + 49 * m)%nat by lia.
    + by rewrite Hl, length_insert.
    + intros j. rewrite Hks. repeat case_decide; try lia.
      * do 3 f_equal. lia.
      * assert (j = Z.to_nat a) as -> by lia. rewrite list_lookup_insert_eq by lia. do 3 f_equal. lia.
      * by rewrite list_lookup_insert_ne by lia.
Qed.

Lemma key_strings_lookup ks i row :
  ks !! Z.to_nat i = Some row -> 0 <= i -> key_strings ks !! testkey i = Some (until_nul row).
Proof.
  intros Hi Hi0. unfold key_strings. apply elem_of_list_to_map_1'.
  - intros y (j & r & Ej & Hj)%elem_of_lookup_imap. injection Ej as Ej ->.
    unfold testkey, STRLEN in Ej. assert (j = Z.to_nat i) as -> by lia. congruence.
  - apply elem_of_lookup_imap. exists (Z.to_nat i), row. by rewrite Z2Nat.id.
Qed.

(** Between two runs of the test: the table is fresh, the key array has its
    size. *)
Definition ready s : Prop :=
  tbl_fresh (t_table s) /\ length (t_keys s) = Z.to_nat tests /\
  Forall (fun row => length row = 50%nat) (t_keys s).

(** The strings after the first loop. *)
Definition key_at (k0 : nat) (i : Z) : list Z := random_letters (k0 + 49 * Z.to_nat i).

Definition keys_from (k0 : nat) (ks : list (list Z)) : Prop :=
  forall i, 0 <= i < tests -> key_strings ks !! testkey i = Some (key_at k0 i).

Definition distinct (k0 : nat) : Prop := NoDup (key_at k0 <$> seqZ 0 tests).

(** The set of the random keys. *)
Definition test_keys (k0 : nat) : gset (list Z) := list_to_set (key_at k0 <$> seqZ 0 tests).

Lemma test_keys_strings k0 ks :
  keys_from k0 ks -> length ks = Z.to_nat tests ->
  (forall j row, ks !! j = Some row -> row = random_letters (k0 + 49 * j) ++ [0]) ->
  map_img (key_strings ks) = test_keys k0.
Proof.
  intros Hkeys Hlen Hrows. apply set_eq. intros x. unfold test_keys.
  rewrite elem_of_map_img, elem_of_list_to_set, list_elem_of_fmap. split.
  - intros (a & Ha). unfold key_strings in Ha. apply elem_of_list_to_map_2 in Ha.
    apply elem_of_lookup_imap in Ha as (j & row & [= _ ->] & Hj). exists (Z.of_nat j).
    pose proof (lookup_lt_Some _ _ _ Hj). split; [|apply elem_of_seqZ; lia].
    rewrite (Hrows j row Hj). unfold key_at. rewrite Nat2Z.id.
    apply until_nul_letters. apply (random_letters_good rand_nonneg).
  - intros (i & -> & Hi%elem_of_seqZ). exists (testkey i). apply Hkeys. lia.
Qed.

Lemma distinct_inj k0 i j :
  distinct k0 -> 0 <= i < tests -> 0 <= j < tests -> key_at k0 i = key_at k0 j -> i = j.
Proof.
  intros Hd Hi Hj E.
  assert (Hl : forall i, 0 <= i < tests -> (key_at k0 <$> seqZ 0 tests) !! Z.to_nat i = Some (key_at k0 i)).
  { intros k Hk. rewrite list_lookup_fmap, lookup_seqZ_lt by lia. simpl. do 2 f_equal. lia. }
  pose proof (Hl i Hi) as Hli. rewrite E in Hli.
  pose proof (proj1 (NoDup_alt _) Hd _ _ _ Hli (Hl j Hj)). lia.
Qed.

(** A phase: the threads insert every key. *)
Lemma run_threads_run mode s k0 m :
  keys_from k0 (t_keys s) -> mode_ok tests (key_at k0) mode ->
  tbl_at (key_strings (t_keys s)) (t_table s) m -> pool tests (key_at k0) m ->
  exists t' m' out, run_threads tests num_threads mode s =
      Ok (tt, Test (t_rands s) (t_keys s) t' (t_ticks s) out) /\
    tbl_at (key_strings (t_keys s)) t' m' /\ pool tests (key_at k0) m' /\
    (forall i, 0 <= i < tests -> is_Some (m' !! key_at k0 i)).
Proof.
  intros Hkeys Hmode Hat Hm. unfold run_threads. erewrite bind_Ok; [|done].
  assert (Hcreate : forall l, foldM (fun _ i => lift (guard_ gets_threads);;
      lift (assert_ (pthread_create (t_ticks s) i =? 0))) tt l s = Ok (tt, s)).
  { induction l as [|i l IH]; [done|]. cbn [foldM].
    rewrite (bind_Ok _ _ _ tt s); [done|]. by rewrite threads_allocated, create_succeeds. }
  rewrite (bind_Ok _ _ _ _ _ (Hcreate _)).
  rewrite (bind_Ok _ _ _ (2 * tests) s) by (unfold lift, TESTSZ in *; by rewrite int_ok by lia).
  rewrite (bind_Ok _ _ _ (2 * tests / num_threads) s)
    by (unfold lift, TESTSZ in *; by rewrite int_quot_ok by lia).
  erewrite bind_Ok; [|done]. erewrite bind_Ok; [|done]. cbn [t_keys].
  assert (Hgood : forall i, 0 <= i < tests -> good_key (key_at k0 i))
    by (intros i _; apply random_letters_good, rand_nonneg).
  destruct (interleave_run (key_strings (t_keys s)) tests (key_at k0) Hcap (schedule (t_ticks s))
    (test_htable_run tests num_threads mode <$> seqZ 0 num_threads) (t_table s) m)
    as (ps' & t' & m' & Hrun & Hfin & Hat' & Hm' & Hin); [|done|done|].
  { intros i p Hp. rewrite list_lookup_fmap in Hp.
    destruct (seqZ 0 num_threads !! i) as [idx|] eqn:Hi; [|done]. injection Hp as <-.
    apply lookup_seqZ in Hi as [-> Hi].
    apply (fits_mono _ _ _ _ (2 * Z.to_nat tests)); [apply schedule_completes; lia|].
    apply test_htable_run_fits; try done. lia. }
  rewrite (bind_Ok _ _ _ ps' (Test (t_rands s) (t_keys s) t' (t_ticks s)
    (t_out s ++ [Spawned mode num_threads (2 * tests / num_threads)]))).
  2: { unfold on_table. cbn [t_table]. by rewrite Hrun. }
  rewrite Hfin. do 3 eexists. split_and!; [done|done|done|].
  intros i Hi. apply Hin. right.
  destruct (test_htable_run_inserts (key_strings (t_keys s)) tests num_threads (key_at k0)
    Htests Hthreads Hkeys mode i Hi) as (idx & Hidx & Hw).
  eexists. split; [|exact Hw]. apply list_elem_of_fmap. exists idx. split; [done|].
  apply elem_of_seqZ. lia.
Qed.
Lemma timed_phase_run mode s k0 m :
  keys_from k0 (t_keys s) -> mode_ok tests (key_at k0) mode ->
  tbl_at (key_strings (t_keys s)) (t_table s) m -> pool tests (key_at k0) m ->
  exists t' m' ticks out, timed_phase tests num_threads mode s =
      Ok (tt, Test (t_rands s) (t_keys s) t' ticks out) /\
    tbl_at (key_strings (t_keys s)) t' m' /\ pool tests (key_at k0) m' /\
    (forall i, 0 <= i < tests -> is_Some (m' !! key_at k0 i)).
Proof.
  intros Hkeys Hmode Hat Hm. unfold timed_phase. erewrite bind_Ok; [|done].
  destruct (run_threads_run mode (Test (t_rands s) (t_keys s) (t_table s) (S (t_ticks s)) (t_out s))
    k0 m Hkeys Hmode Hat Hm) as (t' & m' & out & Hrun & Hrest).
  rewrite (bind_Ok _ _ _ _ _ Hrun). cbn [t_rands t_keys t_table t_ticks t_out] in *.
  erewrite bind_Ok; [|done]. cbn [t_rands t_keys t_table t_ticks t_out].
  destruct (time_fits (t_ticks s) (S (t_ticks s))) as [d Hd].
  erewrite bind_Ok; [|unfold lift; by rewrite Hd]. do 4 eexists. split; [done|exact Hrest].
Qed.

Definition valid_at (k0 : nat) (m : gmap (list Z) Z) (i : Z) : bool :=
  bool_decide (m !! key_at k0 i = Some (testval i)).

(** One turn of the validation, and the loop. *)
Lemma validate_run s k0 m i :
  keys_from k0 (t_keys s) -> tbl_at (key_strings (t_keys s)) (t_table s) m ->
  pool tests (key_at k0) m -> 0 <= i < tests ->
  exists t', tbl_at (key_strings (t_keys s)) t' m /\ validate tests i s =
    if valid_at k0 m i then Ok (tt, Test (t_rands s) (t_keys s) t' (t_ticks s) (t_out s))
    else Fault (Exited 1).
Proof.
  intros Hkeys Hat Hm Hi. unfold validate. rewrite !in_tests_ok by done.
  erewrite bind_Ok; [|done]. erewrite bind_Ok; [|done].
  destruct (tbl_op_spec (key_strings (t_keys s)) (t_table s) m (Lookup (testkey i)) Hat)
    as (t' & Hrun & Hat').
  { exists (key_at k0 i). split; [by apply Hkeys|]. apply random_letters_good, rand_nonneg. }
  { pose proof (pool_size tests (key_at k0) m Hm). lia. }
  exists t'. split; [done|]. cbn [tbl_op spec_op fst] in Hrun.
  rewrite (Hkeys i Hi) in Hrun. change (default [] (Some ?x)) with x in Hrun.
  erewrite bind_Ok; [|unfold on_table; by rewrite Hrun].
  erewrite bind_Ok; [|done]. unfold valid_at. pose proof testvals_placed as Hpos.
  assert (Hv : forall j, 0 <= j -> testval j <> 0) by (unfold testval, sizeof_int; lia).
  destruct (m !! key_at k0 i) as [v|] eqn:E; simpl.
  - destruct (Hm _ _ E) as (j & Hj & _ & ->). rewrite (proj2 (Z.eqb_neq _ 0)) by (apply Hv; lia).
    simpl. destruct (Z.eqb_spec (testval j) (testval i)) as [->|Hne].
    + by rewrite bool_decide_true.
    + rewrite bool_decide_false by congruence. done.
  - done.
Qed.

Lemma validate_all k0 m l : forall s,
  keys_from k0 (t_keys s) -> tbl_at (key_strings (t_keys s)) (t_table s) m ->
  pool tests (key_at k0) m -> (forall i, i ∈ l -> 0 <= i < tests) ->
  exists t', tbl_at (key_strings (t_keys s)) t' m /\
    foldM (fun _ i => validate tests i) tt l s =
      if forallb (valid_at k0 m) l
      then Ok (tt, Test (t_rands s) (t_keys s) t' (t_ticks s) (t_out s)) else Fault (Exited 1).
Proof.
  induction l as [|i l IH]; intros s Hkeys Hat Hm Hl.
  - exists (t_table s). split; [done|]. by destruct s.
  - destruct (validate_run s k0 m i) as (t1 & Hat1 & Hrun); [done..|apply Hl; left|].
    cbn [foldM forallb]. destruct (valid_at k0 m i).
    + rewrite (bind_Ok _ _ _ _ _ Hrun).
      apply (IH (Test (t_rands s) (t_keys s) t1 (t_ticks s) (t_out s))); [done..|].
      intros j Hj. apply Hl. by right.
    + exists t1. split; [done|]. by rewrite (bind_Fault _ _ _ _ Hrun).
Qed.

(** All keys are found with their values when no two are equal; the value of
    one of two equal keys is missed. *)
Lemma all_valid k0 m :
  pool tests (key_at k0) m -> (forall i, 0 <= i < tests -> is_Some (m !! key_at k0 i)) ->
  forallb (valid_at k0 m) (seqZ 0 tests) = bool_decide (distinct k0).
Proof.
  intros Hm Hall. apply eq_true_iff_eq. rewrite forallb_forall, bool_decide_eq_true.
  split.
  - intros Hv. apply NoDup_fmap_2_strong; [|apply NoDup_seqZ].
    assert (Hval : forall i, i ∈ seqZ 0 tests -> m !! key_at k0 i = Some (testval i)).
    { intros i Hi. specialize (Hv i (proj1 (list_elem_of_In _ _) Hi)).
      by apply bool_decide_eq_true in Hv. }
    intros i j Hi Hj E. pose proof (Hval i Hi) as H1'. rewrite E, (Hval j Hj) in H1'.
    injection H1' as H1'. unfold testval, sizeof_int in H1'. lia.
  - intros Hd i Hi%list_elem_of_In%elem_of_seqZ. apply bool_decide_eq_true.
    destruct (Hall i ltac:(lia)) as [v Hv]. destruct (Hm _ _ Hv) as (j & Hj & E & ->).
    assert (i = j) as -> by (apply (distinct_inj k0); [done|lia|done|done]). done.
Qed.

Lemma pool_empty k0 : pool tests (key_at k0) ∅.
Proof. intros s v E. by rewrite lookup_empty in E. Qed.

Lemma test_run s :
  ready s -> tbl_takes (test_keys (t_rands s)) ->
  if bool_decide (distinct (t_rands s)) then
    exists s' size, test_htable tests num_threads allow s = Ok (tt, s') /\
      ready s' /\ t_rands s' = (t_rands s + 49 * Z.to_nat tests)%nat /\
      last (t_out s') = Some (Table_passed allow size)
  else test_htable tests num_threads allow s = Fault (Exited 1).
Proof.
  intros (Hfresh & Hlen & Hrows). set (k0 := t_rands s). intros Htakes.
  destruct (fill_run (Z.to_nat tests) 0 s) as (ks & Hfill & Hl & Hks); [lia|lia| |].
  { intros j row _ Hj. by apply (Forall_lookup_1 _ _ _ _ Hrows Hj). }
  rewrite Z2Nat.id in Hfill by lia.
  assert (Hkeys : keys_from k0 ks).
  { intros i Hi. rewrite (key_strings_lookup ks i (key_at k0 i ++ [0])); [|rewrite Hks|lia].
    - f_equal. apply until_nul_letters. apply (random_letters_good rand_nonneg).
    - rewrite decide_True by lia. unfold key_at. do 4 f_equal. lia. }
  assert (Himg : map_img (key_strings ks) = test_keys k0).
  { apply test_keys_strings; [done|by rewrite Hl|]. intros j row Hj. pose proof (lookup_lt_Some _ _ _ Hj).
    rewrite Hks, decide_True in Hj by lia. injection Hj as <-. change (Z.to_nat 0) with 0%nat. by rewrite Nat.sub_0_r. }
  rewrite <- Himg in Htakes.
  assert (Hsz : 0 <= Z.quot tests 100 < 2 ^ 31 - 1).
  { unfold TESTSZ in Htests. rewrite Z.quot_div_nonneg by lia. dlia. }
  destruct (tbl_init_spec (key_strings ks) (t_table s) _ Hfresh Htakes Hsz) as (t1 & Hi1 & Hat1).
  destruct (tbl_size_spec _ _ _ Hat1) as [n1 Hn1].
  unfold test_htable. rewrite (bind_Ok _ _ _ _ _ Hfill).
  erewrite bind_Ok; [|unfold on_table; cbn [t_table]; by rewrite Hi1].
  erewrite bind_Ok; [|unfold on_table; cbn [t_table]; by rewrite Hn1].
  erewrite bind_Ok; [|done]. cbn [t_rands t_keys t_table t_ticks t_out].
  destruct (timed_phase_run INSERT (Test (k0 + 49 * Z.to_nat tests) ks t1 (t_ticks s)
    (t_out s ++ [Initialized n1])) k0 ∅ Hkeys (or_introl eq_refl) Hat1 (pool_empty k0))
    as (t2 & m2 & ticks2 & out2 & Hrun2 & Hat2 & Hm2 & Hall2).
  rewrite (bind_Ok _ _ _ _ _ Hrun2). cbn [t_rands t_keys t_table t_ticks t_out] in *.
  destruct (validate_all k0 m2 (seqZ 0 tests) (Test (k0 + 49 * Z.to_nat tests) ks t2 ticks2 out2)
    Hkeys Hat2 Hm2) as (t3 & Hat3 & Hval); [intros i Hi%elem_of_seqZ; lia|].
  rewrite (all_valid k0 m2 Hm2 Hall2) in Hval. case_bool_decide as Hd.
  2: { by rewrite (bind_Fault _ _ _ _ Hval). }
  rewrite (bind_Ok _ _ _ _ _ Hval). cbn [t_rands t_keys t_table t_ticks t_out] in *.
  destruct (tbl_destroy_spec _ _ _ Hat3) as (t4 & Hd4 & Hf4).
  erewrite bind_Ok; [|unfold on_table; cbn [t_table]; by rewrite Hd4].
  destruct (tbl_init_spec (key_strings ks) t4 _ Hf4 Htakes Hsz) as (t5 & Hi5 & Hat5).
  erewrite bind_Ok; [|unfold on_table; cbn [t_table]; by rewrite Hi5].
  cbn [t_rands t_keys t_table t_ticks t_out].
  destruct (timed_phase_run MIX (Test (k0 + 49 * Z.to_nat tests) ks t5 ticks2 out2) k0 ∅ Hkeys)
    as (t6 & m6 & ticks6 & out6 & Hrun6 & Hat6 & _ & _); [|done|apply pool_empty|].
  { right. intros i j Hi Hj. by apply distinct_inj. }
  rewrite (bind_Ok _ _ _ _ _ Hrun6). cbn [t_rands t_keys t_table t_ticks t_out] in *.
  destruct (tbl_size_spec _ _ _ Hat6) as [n6 Hn6].
  destruct (tbl_destroy_spec _ _ _ Hat6) as (t7 & Hd7 & Hf7).
  erewrite bind_Ok; [|unfold on_table; cbn [t_table]; by rewrite Hn6].
  erewrite bind_Ok; [|unfold on_table; cbn [t_table]; by rewrite Hd7].
  do 2 eexists. split; [done|]. split; [|split; [done|]; cbn [t_out]; apply last_snoc].
  split; [done|]. split; [by rewrite <- Hlen|]. apply Forall_lookup_2. intros j row Hj. cbn [t_keys] in Hj.
  pose proof (lookup_lt_Some _ _ _ Hj). rewrite Hks, decide_True in Hj by lia. apply (inj Some) in Hj.
  rewrite <- Hj, length_app. unfold random_letters. by rewrite length_fmap, length_seq.
Qed.
End run.

(** ** The table of [htable.c], made atomic *)

Definition no_strings : gmap Z (list Z) := ∅.

Section htable_table.
Context `{Malloc}.

(** A table is the heap and the structure; an operation sees the strings of
    its caller. *)
Definition with_strings {B} (strs : gmap Z (list Z)) (c : ST world B) : ST (words * htable) B :=
  fun '(h, t) =>
    match c {| heap := h; strings := strs; ht := t |} with
    | Ok (b, w) => Ok (b, (heap w, ht w))
    | Fault e => Fault e
    end.

Definition htable_table : Table (words * htable) := {|
  tbl_init sz allow := with_strings no_strings (htable_init sz allow);
  tbl_destroy := with_strings no_strings htable_destroy;
  tbl_size := with_strings no_strings htable_size;
  tbl_insert strs key val := with_strings strs (htable_insert key val);
  tbl_lookup strs key := with_strings strs (htable_lookup key);
|}.
End htable_table.

Definition htable_world (strs : gmap Z (list Z)) (t : words * htable) : world :=
  {| heap := t.1; strings := strs; ht := t.2 |}.

(** An empty table does not depend on the strings. *)
Lemma table_over_restring h0 strs strs' t :
  table_over h0 (htable_world strs t) ∅ -> table_over h0 (htable_world strs' t) ∅.
Proof.
  intros (own & (chs & [Hly Hok Hk Hs] & Hm & Hown) & Hout & Hin).
  assert (Hnil : concat chs = []).
  { apply length_zero_iff_nil. rewrite <- (size_contents _ _ Hk), <- Hm. done. }
  exists own. split; [|done]. exists chs. rewrite Hnil in *. split; [|done].
  split; [done| | |done]; rewrite Hnil; constructor.
Qed.

(** Destroying a table does not read the strings either. *)
Lemma htable_destroy_strings `{MallocLaws} h0 strs t m :
  table_over h0 (htable_world strs t) m ->
  with_strings no_strings htable_destroy t = Ok (tt, (h0, t.2)).
Proof.
  intros Hover. pose proof (table_over_destroy _ _ _ Hover) as Hd.
  destruct Hover as (own & (chs & Hinv & _) & _). destruct t as [h t].
  pose proof (ti_layout _ _ Hinv) as Hly. unfold with_strings. cbv beta iota.
  rewrite (htable_destroy_run _ _ Hly) in Hd.
  pose proof (htable_destroy_run (htable_world no_strings (h, t)) chs Hly) as Hd'.
  unfold htable_world in Hd'. cbn [fst snd] in Hd'. rewrite Hd'. injection Hd as Hd. simpl in Hd |- *. by rewrite Hd.
Qed.

(** No more keys with one hash code than a slot may have. *)
Definition few_equal_hashes (keys : gset (list Z)) : Prop :=
  forall s, s ∈ keys -> Z.of_nat (size (filter (fun k => hash_of k = hash_of s) keys)) <= MAX_COLLISION.

Lemma few_keys keys : Z.of_nat (size keys) <= MAX_COLLISION -> few_equal_hashes keys.
Proof.
  intros Hsize s _. pose proof (subseteq_size (filter (fun k => hash_of k = hash_of s) keys) keys ltac:(set_solver)). lia.
Qed.

(** The keys of a table are strings that it was given. *)
Lemma find_key_Some strs s l e : find_key strs s l = Some e -> e ∈ l /\ key_of strs e = s.
Proof.
  induction l as [|e' l IH]; [done|]. cbn [find_key]. case_bool_decide as Hk.
  - intros [= <-]. split; [by left|done].
  - intros [Hin ?]%IH. split; [by right|done].
Qed.

Lemma table_over_key h0 w m k : table_over h0 w m -> is_Some (m !! k) -> good_key k /\ k ∈ (map_img (strings w) : gset (list Z)).
Proof.
  intros (own & (chs & Hinv & -> & _) & _) [v Hv]. rewrite contents_lookup in Hv.
  destruct (find_key (strings w) k (concat chs)) as [e|] eqn:Hf; [|done].
  apply find_key_Some in Hf as [Hin <-]. pose proof (ti_entries _ _ Hinv) as Hok. rewrite Forall_forall in Hok.
  destruct (Hok e Hin) as (s & Hs & Hg & _). unfold key_of. rewrite Hs. split; [done|]. by apply (elem_of_map_img_2 _ (e_key e)).
Qed.

(** A table with at least [2 ^ 30] slots has a slot for every hash code. *)
Lemma large_stays h0 w m key s :
  table_over h0 w m -> few_equal_hashes (map_img (strings w)) -> 2 ^ 30 <= ht_size (ht w) ->
  strings w !! key = Some s -> good_key s -> m !! s = None -> must_resize (ht w) s m = false.
Proof.
  intros Hover Hfew Hbig Hkey Hs Hnone. unfold must_resize. apply andb_false_intro2, Z.leb_gt.
  assert (Hin : s ∈ (map_img (strings w) : gset (list Z))) by (by apply (elem_of_map_img_2 _ key)).
  assert (Hmod : forall k, good_key k -> hash_of k mod ht_size (ht w) = hash_of k).
  { intros k [Ha _]. pose proof (hash_of_range k Ha). apply Z.mod_small. unfold BIG_PRIME in *. lia. }
  specialize (Hfew s Hin). unfold collisions. rewrite <- (size_dom (D := gset (list Z))).
  assert (Hsub : {[s]} ∪ dom (filter (same_slot (ht_size (ht w)) s) m) ⊆
    filter (fun k => hash_of k = hash_of s) (map_img (strings w) : gset (list Z))).
  { intros k [->%elem_of_singleton|[v Hv]%elem_of_dom]%elem_of_union; [by apply elem_of_filter|].
    apply map_lookup_filter_Some in Hv as [Hv Hslot]. unfold same_slot in Hslot. simpl in Hslot.
    destruct (table_over_key h0 w m k Hover) as [Hg Hk]; [by eexists|]. rewrite !Hmod in Hslot by done.
    by apply elem_of_filter. }
  apply subseteq_size in Hsub. rewrite size_union, size_singleton in Hsub; [lia|].
  intros k ->%elem_of_singleton [v Hv]%elem_of_dom. apply map_lookup_filter_Some in Hv as [Hv _]. congruence.
Qed.

(** On a heap with room for [cap] keys: a table that does not grow, and one
    that does, unless more than ten keys have one hash code. *)
Lemma htable_spec `{MallocLaws} blocks `{!MallocServes blocks} (h0 : words) (allow : Z) (cap : nat) :
  (size h0 + cap + 2 < blocks)%nat -> Z.of_nat cap <= 2 ^ 31 ->
  @TableSpec (words * htable) htable_table allow cap.
Proof.
  intros Hroom Hcap. refine {|
    tbl_fresh t := t.1 = h0;
    tbl_takes keys := allow = 0 \/ few_equal_hashes keys;
    tbl_at strs t m := table_over h0 (htable_world strs t) m /\ allow_resize t.2 = allow /\
      (allow = 0 \/ few_equal_hashes (map_img strs))
  |}.
  - intros strs [h t] sz Hf Hkeys Hsz. simpl in Hf. subst h.
    destruct (table_over_init (htable_world no_strings (h0, t)) sz allow Hsz) as (n & [Hn _] & Hinit).
    destruct (malloc_serves h0 (8 * n) ltac:(lia) ltac:(lia)) as [p Hp].
    simpl in Hinit. rewrite Hp in Hinit. destruct Hinit as (w' & Hrun & Hover & Hht & Hstr).
    exists (heap w', ht w'). split; [|split; [|by rewrite Hht]].
    + change (with_strings no_strings (htable_init sz allow) (h0, t) = Ok (tt, (heap w', ht w'))).
      unfold with_strings. unfold htable_world in Hrun. simpl in Hrun. by rewrite Hrun.
    + apply (table_over_restring _ no_strings). unfold htable_world. simpl. rewrite <- Hstr. by destruct w'.
  - intros strs [h t] m op (Hover & Ha & Hkeys) Hop Hsize. simpl in Ha.
    pose proof (table_over_size _ _ _ Hover) as Hh. simpl in Hh.
    pose proof (run_op_over blocks h0 (htable_world strs (h, t)) m op Hover Hop ltac:(lia) ltac:(simpl; lia)) as Hrun.
    destruct (run_op op _) as [[r w']|e] eqn:E.
    2: { destruct Hrun as (_ & Hbig & Hnone & Hmust). exfalso.
         pose proof (must_resize_allowed _ _ _ Hmust) as Ha0. simpl in Ha0. destruct Hkeys as [H0'|Hfew]; [congruence|].
         destruct Hop as (s & Hkey & Hg). change (strings (htable_world strs (h, t))) with strs in Hnone, Hmust.
         rewrite Hkey in Hnone, Hmust. change (default [] (Some s)) with s in Hnone, Hmust.
         by rewrite (large_stays h0 _ m (op_key op) s Hover Hfew Hbig Hkey Hg Hnone) in Hmust. }
    destruct Hrun as (-> & Hover' & Hstr & Ha'). exists (heap w', ht w'). split.
    + destruct op; unfold tbl_op; simpl tbl_insert; simpl tbl_lookup; unfold with_strings;
        simpl run_op in E; unfold htable_world in E; simpl in E; by rewrite E.
    + simpl in Hstr, Ha' |- *. split; [|split; [congruence|done]]. unfold htable_world. simpl. rewrite <- Hstr at 1.
      by destruct w'.
  - intros strs [h t] m _. by exists (ht_size t).
  - intros strs t m (Hover & _). exists (h0, t.2). split; [|done].
    by apply (htable_destroy_strings h0 strs t m).
Defined.

(** ** Properties *)

(** C17: [test_htable] on any table whose operations are atomic and keep their
    contract for the random keys of the test, with any number of threads, however
    their accesses interleave: the test ends; it passes exactly when no two of the random keys are equal, with
    the table destroyed, and otherwise exits with an error although the table is
    right.  In particular the shares of the threads cover all the keys, no
    index leaves the arrays and no thread sees a value that is not its key's.
    [htable.c] is such a table, also when it may grow, unless more than
    MAX_COLLISION of the keys have one hash code ([htable_spec]). *)
Theorem test_htable_correct `{PlatformSpec tests num_threads} {T : Type} `{TableSpec T allow cap}
    (s : test T) :
  0 < tests <= TESTSZ -> 0 < num_threads < 2 ^ 31 -> (Z.to_nat tests < cap)%nat ->
  ready (tests := tests) (allow := allow) (cap := cap) s ->
  tbl_takes (allow := allow) (cap := cap) (test_keys (tests := tests) (t_rands s)) ->
  if bool_decide (distinct (tests := tests) (t_rands s)) then
    exists s' size, test_htable tests num_threads allow s = Ok (tt, s') /\
      ready (tests := tests) (allow := allow) (cap := cap) s' /\
      t_rands s' = (t_rands s + 49 * Z.to_nat tests)%nat /\
      last (t_out s') = Some (Table_passed allow size)
  else test_htable tests num_threads allow s = Fault (Exited 1).
Proof. intros. by apply (test_run (cap := cap)). Qed.

(** Two threads that alternate, three keys. *)
Definition example_platform (random : nat -> Z) : Platform := {|
  rand := random;
  gets_threads := true;
  pthread_create _ _ := 0;
  schedule _ := concat (replicate 6 [0; 1])%nat;
  clock k := Timespec 5 (Z.of_nat k mod 2 * 500000);
  testkeys_at := 4096;
  testvals_at := 65536;
|}.

Lemma example_platform_spec random :
  (forall k, 0 <= random k) -> @PlatformSpec (example_platform random) 3 2.
Proof.
  intros Hr. split; try done.
  - intros phase i Hi. destruct i as [|[|i]]; [vm_compute; lia|vm_compute; lia|lia].
  - intros i j. unfold timediff. cbn [clock example_platform tv_sec tv_nsec].
    change (5 - 5) with 0. rewrite (ll_ok 0) by lia. unfold mbind, result_bind.
    change (0 * 1000000) with 0. rewrite (ll_ok 0) by lia.
    assert (Hm : forall i, 0 <= i mod 2 < 2) by (intros k; by apply Z.mod_pos_bound).
    pose proof (Hm (Z.of_nat i)). pose proof (Hm (Z.of_nat j)).
    set (d := Z.of_nat j mod 2 * 500000 - Z.of_nat i mod 2 * 500000) in *.
    assert (-500000 <= d <= 500000) by (subst d; lia).
    rewrite (ll_ok d) by lia. rewrite ll_ok; [by eexists|].
    pose proof (Z.quot_le_mono (-500000) d 1000 ltac:(lia) ltac:(lia)) as Hlo.
    pose proof (Z.quot_le_mono d 500000 1000 ltac:(lia) ltac:(lia)) as Hhi.
    change (Z.quot (-500000) 1000) with (-500) in Hlo. change (Z.quot 500000 1000) with 500 in Hhi. lia.
Qed.

(** No random number was drawn, the key array is zero. *)
Definition example_test : test (words * htable) :=
  Test 0 (replicate 3 (replicate 50 0)) (heap example_world, ht example_world) 0 [].

(** The table of [htable.c] passes with keys that differ, also when it may
    grow, and fails with equal ones. *)
Lemma test_htable_correct_witness :
  Forall (fun allow => exists s' size, @test_htable (example_platform Z.of_nat) 3 2 _ (@htable_table lowest_free) allow
      example_test = Ok (tt, s') /\ (t_table s').1 = heap example_world /\
    last (t_out s') = Some (Table_passed allow size)) [0; 1] /\
  @test_htable (example_platform (fun _ => 7)) 3 2 _ (@htable_table lowest_free) 0 example_test =
    Fault (Exited 1).
Proof.
  assert (Hrows : Forall (fun row => length row = 50%nat) (t_keys example_test)) by (by apply Forall_replicate).
  pose (spec := fun allow => @htable_spec lowest_free lowest_free_laws 100 (lowest_free_serves 100 ltac:(lia))
    (heap example_world) allow 10 ltac:(vm_compute; lia) ltac:(lia)).
  assert (Hruns : forall random Hr allow, allow = 0 \/ few_equal_hashes (@test_keys (example_platform random) 3 0) -> _)
    by exact (fun random Hr allow Hkeys => @test_htable_correct (example_platform random) 3 2
      (example_platform_spec random Hr) _ (@htable_table lowest_free) allow 10 (spec allow) example_test
      ltac:(unfold TESTSZ; lia) ltac:(lia) ltac:(lia) (conj eq_refl (conj eq_refl Hrows)) Hkeys).
  split.
  - apply Forall_forall. intros allow Hin.
    pose proof (Hruns Z.of_nat ltac:(lia) allow ltac:(right; apply few_keys; vm_compute; discriminate)) as Ht.
    rewrite bool_decide_true in Ht by (apply (bool_decide_unpack _); vm_compute; exact I).
    destruct Ht as (s' & size & Hrun & (Hfresh & _) & _ & Hlast).
    exists s', size. split; [exact Hrun|]. split; [exact Hfresh|exact Hlast].
  - pose proof (Hruns (fun _ => 7) ltac:(lia) 0 (or_introl eq_refl)) as Ht.
    rewrite bool_decide_false in Ht; [exact Ht|].
    intros Hd. apply (bool_decide_pack _) in Hd. vm_compute in Hd. exact Hd.
Defined.
