(* ===== verification/Locked.v ===== *)
(** * Threads that use a table under a reader-writer lock

    Each access of a [TestHash.program] is an operation that makes several
    accesses to memory ([Interleave.prog]), between asking for the lock of
    [rwlock.h] and releasing it.  Whatever the schedule, such threads do what
    they would do if the operations were atomic; and they never get stuck. *)

From S2P Require Import Prelude HtableSpec RwLock TestHash Interleave.

(** ** The system *)

(** An insertion asks for the lock in "write" mode, a lookup in "read" mode. *)
Definition writes (op : table_op) : bool :=
  match op with Insert _ _ => true | Lookup _ => false end.

(** A thread between two operations; one that waits for the lock; one that
    holds it, with the rest of the operation. *)
Inductive thread (W : Type) :=
  | Running (p : program unit)
  | Waits (op : table_op) (k : Z -> program unit)
  | Holds (q : prog W Z) (k : Z -> program unit).
Arguments Running {W} p.
Arguments Waits {W} op k.
Arguments Holds {W} q k.

Record system (W : Type) := System {
  threads : list (thread W);
  lock : requests;
  shared : W;
}.
Arguments System {W} threads lock shared.
Arguments threads {W} _.
Arguments lock {W} _.
Arguments shared {W} _.

Section system.
Context {W : Type} `{GrantPolicy} (op_p : table_op -> prog W Z).

(** The thread [i] has its turn: it asks for the lock, is granted it if the
    lock may, makes one access, or releases the lock with the answer. *)
Definition turn (s : system W) (i : nat) : result (system W) :=
  let t := Z.of_nat i in
  match threads s !! i with
  | Some (Running (Access op k)) =>
      Ok (System (<[i := Waits op k]> (threads s)) (<[t := (writes op, false)]> (lock s)) (shared s))
  | Some (Running (Stop e)) => Fault e
  | Some (Waits op k) =>
      if may_grant (lock s) t then
        Ok (System (<[i := Holds (op_p op) k]> (threads s)) (<[t := (writes op, true)]> (lock s)) (shared s))
      else Ok s
  | Some (Holds (Do c k') k) =>
      rw ← c (shared s);
      Ok (System (<[i := Holds (k' rw.1) k]> (threads s)) (lock s) rw.2)
  | Some (Holds (Done r) k) =>
      Ok (System (<[i := Running (k r)]> (threads s)) (delete t (lock s)) (shared s))
  | Some (Holds (Halt e) _) => Fault e
  | _ => Ok s
  end.

Definition run (sched : list nat) (s : system W) : result (system W) := foldM turn s sched.

(** Nobody has asked for the lock. *)
Definition start (ps : list (program unit)) (w : W) : system W := System (Running <$> ps) ∅ w.

Lemma run_app s1 s2 s : run (s1 ++ s2) s = (s' ← run s1 s; run s2 s').
Proof.
  unfold run. revert s; induction s1 as [|i s1 IH]; intros s; [done|]. cbn [app foldM].
  destruct (turn s i) as [s'|e]; [apply IH|done].
Qed.

Lemma run_cons i sched s : run (i :: sched) s = (s' ← turn s i; run sched s').
Proof. reflexivity. Qed.

(** Who holds the lock comes to the end of the operation and releases it. *)
Lemma holds_run (q : prog W Z) : forall s i k r w,
  threads s !! i = Some (Holds q k) -> exec q (shared s) = Ok (r, w) ->
  exists n, run (replicate n i) s =
    Ok (System (<[i := Running (k r)]> (threads s)) (delete (Z.of_nat i) (lock s)) w).
Proof.
  induction q as [a|c k' IH|e]; intros s i k r w Hi Hq; [| |done].
  - injection Hq as -> <-. exists 1%nat. cbn [replicate]. rewrite run_cons. unfold turn. by rewrite Hi.
  - simpl in Hq. destruct (c (shared s)) as [[x w1]|e] eqn:Hc; [|done].
    destruct (IH x (System (<[i := Holds (k' x) k]> (threads s)) (lock s) w1) i k r w) as [n Hn];
      [|exact Hq|].
    { simpl. apply list_lookup_insert_eq. by eapply lookup_lt_Some. }
    exists (S n). cbn [replicate]. rewrite run_cons. unfold turn. rewrite Hi, Hc. cbn [mbind result_bind fst snd].
    rewrite Hn. simpl. by rewrite list_insert_insert_eq.
Qed.
End system.

(** ** The atomic run *)

Section refinement.
Context {W T : Type} `{Table T} (strs : gmap Z (list Z)).
Context (view : T -> W) (op_p : table_op -> prog W Z).
Context `{WriterPriority}.
(** A pool and a table.  No schedule of the atomic run leads to an operation
    that fails or that differs from the program of its accesses. *)
Context (ps0 : list (program unit)) (t0 : T).

Definition atomic_reach (ps : list (program unit)) (t : T) : Prop :=
  exists sched, TestHash.interleave strs sched ps0 t0 = Ok (ps, t).

Context (Hsafe : forall ps t i op k, atomic_reach ps t -> ps !! i = Some (Access op k) ->
  exists r t', tbl_op strs op t = Ok (r, t') /\ exec (op_p op) (view t) = Ok (r, view t')).
Context (Hreads : forall op, writes op = false -> read_only (op_p op)).

(** A thread that has been granted the lock counts as past its operation. *)
Definition matches (l : requests) (w wa : W) (i : nat) (th : thread W) (p : program unit) : Prop :=
  match th with
  | Running q => p = q /\ l !! Z.of_nat i = None
  | Waits op k => p = Access op k /\ l !! Z.of_nat i = Some (writes op, false)
  | Holds q k => exists (b : bool) r w', l !! Z.of_nat i = Some (b, true) /\ exec q w = Ok (r, w') /\
      p = k r /\ if b then w' = wa else read_only q /\ w' = w
  end.

Record agree (s : system W) (ps : list (program unit)) (t : T) : Prop := {
  ag_length : length ps = length (threads s);
  ag_threads i th p : threads s !! i = Some th -> ps !! i = Some p ->
    matches (lock s) (shared s) (view t) i th p;
  ag_lock j e : lock s !! j = Some e -> exists i, j = Z.of_nat i /\ (i < length ps)%nat;
  ag_alone j j' b : lock s !! j = Some (true, true) -> lock s !! j' = Some (b, true) -> j' = j;
  ag_shared : (forall j, lock s !! j <> Some (true, true)) -> shared s = view t;
}.

Lemma agree_start ps t : agree (start ps (view t)) ps t.
Proof.
  split; simpl; try done.
  - by rewrite length_fmap.
  - intros i th p Hi Hp. rewrite list_lookup_fmap, Hp in Hi. by injection Hi as <-.
Qed.

Lemma atomic_app s1 s2 : forall ps t,
  TestHash.interleave strs (s1 ++ s2) ps t =
    (TestHash.interleave strs s1 ps ≫= TestHash.interleave strs s2) t.
Proof.
  induction s1 as [|i s1 IH]; intros ps t; [done|]. simpl.
  destruct (ps !! i) as [[a|op k|e]|]; [apply IH| |done|apply IH].
  unfold mbind, st_bind. destruct (tbl_op strs op t) as [[r t1]|e]; [|done]. apply IH.
Qed.

Lemma atomic_reach_app ps t sched ps' t' :
  atomic_reach ps t -> TestHash.interleave strs sched ps t = Ok (ps', t') -> atomic_reach ps' t'.
Proof. intros [s0 Hs0] Hs. exists (s0 ++ sched). by rewrite atomic_app, (bind_Ok _ _ _ _ _ Hs0). Qed.

(** ** One turn *)

(** The threads other than [i] are matched as before if their requests, and
    what the holders among them see, are as before. *)
Lemma agree_other s ps t l w t' i th' p' :
  agree s ps t -> (i < length ps)%nat ->
  (forall j, j <> i -> l !! Z.of_nat j = lock s !! Z.of_nat j) ->
  (forall j b, j <> i -> lock s !! Z.of_nat j = Some (b, true) -> w = shared s /\ (b = true -> view t' = view t)) ->
  matches l w (view t') i th' p' ->
  forall j th p, <[i := th']> (threads s) !! j = Some th -> <[i := p']> ps !! j = Some p ->
    matches l w (view t') j th p.
Proof.
  intros Hag Hlen Hl Hw Hi j th p Hth Hp. destruct (decide (i = j)) as [<-|Hne].
  - rewrite list_lookup_insert_eq in Hth by (by rewrite <- (ag_length _ _ _ Hag)).
    rewrite list_lookup_insert_eq in Hp by done. by injection Hth as <-; injection Hp as <-.
  - rewrite list_lookup_insert_ne in Hth by done. rewrite list_lookup_insert_ne in Hp by done.
    pose proof (ag_threads _ _ _ Hag j th p Hth Hp) as Hm.
    destruct th as [q|op k|q k]; simpl in Hm |- *; rewrite Hl by done; [done..|].
    destruct Hm as (b & r & w' & Hlock & Hq & -> & Hb).
    destruct (Hw j b ltac:(done) Hlock) as [-> Hv]. exists b, r, w'. split_and!; [done..|].
    destruct b; [|done]. by rewrite Hv.
Qed.

Lemma ask_agree s ps t i op k :
  agree s ps t -> threads s !! i = Some (Running (Access op k)) ->
  agree (System (<[i := Waits op k]> (threads s)) (<[Z.of_nat i := (writes op, false)]> (lock s)) (shared s)) ps t.
Proof.
  intros Hag Hi. pose proof (lookup_lt_Some _ _ _ Hi) as Hlt. rewrite <- (ag_length _ _ _ Hag) in Hlt.
  destruct (lookup_lt_is_Some_2 ps i Hlt) as [p Hp].
  destruct (ag_threads _ _ _ Hag i _ _ Hi Hp) as [-> Hnone].
  assert (Hold : forall j b, <[Z.of_nat i := (writes op, false)]> (lock s) !! j = Some (b, true) ->
    lock s !! j = Some (b, true)) by (by intros j b [[_ ?]|[_ ?]]%lookup_insert_Some).
  split; simpl.
  - rewrite length_insert. apply Hag.
  - intros j th p Hth Hj. apply (agree_other s ps t _ _ t i (Waits op k) (Access op k) Hag Hlt) with (j := j).
    + intros j' Hne. rewrite lookup_insert_ne by lia. done.
    + done.
    + split; [done|]. apply lookup_insert_eq.
    + done.
    + by rewrite list_insert_id.
  - intros j e [[<- _]|[_ Hj]]%lookup_insert_Some; [by exists i|by eapply ag_lock].
  - intros j j' b Hj%Hold Hj'%Hold. by eapply (ag_alone _ _ _ Hag).
  - intros Hnw. apply Hag. intros j Hj. apply (Hnw j). rewrite lookup_insert_ne; [done|].
    intros <-. by rewrite Hnone in Hj.
Qed.

(** The operation takes effect when the lock is granted. *)
Lemma grant_agree s ps t i op k r t' :
  agree s ps t -> threads s !! i = Some (Waits op k) -> may_grant (lock s) (Z.of_nat i) = true ->
  exec (op_p op) (view t) = Ok (r, view t') ->
  agree (System (<[i := Holds (op_p op) k]> (threads s)) (<[Z.of_nat i := (writes op, true)]> (lock s)) (shared s))
    (<[i := k r]> ps) t'.
Proof.
  intros Hag Hi Hgrant Hrun. pose proof (lookup_lt_Some _ _ _ Hi) as Hlt. rewrite <- (ag_length _ _ _ Hag) in Hlt.
  destruct (lookup_lt_is_Some_2 ps i Hlt) as [p Hp].
  destruct (ag_threads _ _ _ Hag i _ _ Hi Hp) as [-> Hwait].
  assert (Hex : forall j b, lock s !! j = Some (b, true) -> writes op = false /\ b = false)
    by (intros j b; by apply (grant_excludes _ _ _ _ _ Hgrant Hwait)).
  assert (Hsh : shared s = view t) by (apply Hag; intros j Hj; by destruct (Hex _ _ Hj)).
  assert (Hsame : writes op = false -> view t' = view t).
  { intros Hw. by apply (read_only_exec _ _ _ _ (Hreads op Hw) Hrun). }
  split; simpl.
  - rewrite !length_insert. apply Hag.
  - apply (agree_other s ps t _ _ t' i _ _ Hag Hlt).
    + intros j' Hne. rewrite lookup_insert_ne by lia. done.
    + intros j b _ Hj. split; [done|]. destruct (Hex _ _ Hj) as [_ ->]. done.
    + exists (writes op), r, (view t'). rewrite Hsh. split_and!; [apply lookup_insert_eq|done|done|].
      destruct (writes op) eqn:Hw; [done|]. split; [by apply Hreads|by apply Hsame].
  - intros j e [[<- _]|[_ Hj]]%lookup_insert_Some; rewrite length_insert; [by exists i|by eapply ag_lock].
  - intros j j' b [[<- Hw]|[Hne Hj]]%lookup_insert_Some [[<- Hw']|[Hne' Hj']]%lookup_insert_Some; try done.
    + destruct (Hex _ _ Hj') as [Hw' _]. congruence.
    + destruct (Hex _ _ Hj) as [_ Hb]. done.
    + destruct (Hex _ _ Hj) as [_ Hb]. done.
  - intros Hnw. rewrite Hsh. destruct (writes op) eqn:Hw; [|by rewrite Hsame].
    by destruct (Hnw (Z.of_nat i)); rewrite lookup_insert_eq.
Qed.

(** An access of who holds the lock. *)
Lemma access_agree s ps t (i : nat) (c : ST W Z) (k' : Z -> prog W Z) k :
  agree s ps t -> threads s !! i = Some (Holds (Do c k') k) ->
  exists (x : Z) (w : W), c (shared s) = Ok (x, w) /\
    agree (System (<[i := Holds (k' x) k]> (threads s)) (lock s) w) ps t.
Proof.
  intros Hag Hi. pose proof (lookup_lt_Some _ _ _ Hi) as Hlt. rewrite <- (ag_length _ _ _ Hag) in Hlt.
  destruct (lookup_lt_is_Some_2 ps i Hlt) as [p Hp].
  destruct (ag_threads _ _ _ Hag i _ _ Hi Hp) as (b & r & w' & Hlock & Hq & -> & Hb).
  simpl in Hq. destruct (c (shared s)) as [[x w]|e] eqn:Hc; [|done]. exists x, w. split; [done|].
  assert (Hw : b = false -> w = shared s).
  { intros ->. destruct Hb as [[Hro _] _]. by eapply Hro. }
  split; simpl.
  - rewrite length_insert. apply Hag.
  - intros j th p Hth Hj. apply (agree_other s ps t _ _ t i (Holds (k' x) k) (k r) Hag Hlt) with (j := j).
    + done.
    + intros j' b' Hne Hj'. split; [|done]. destruct b; [|by apply Hw].
      exfalso. apply Hne. pose proof (ag_alone _ _ _ Hag _ _ _ Hlock Hj'). lia.
    + exists b, r, w'. split_and!; [done..|]. destruct b; [done|]. destruct Hb as [[_ Hro] ->]. by rewrite Hw.
    + done.
    + by rewrite list_insert_id.
  - intros j e Hj. by eapply ag_lock.
  - apply Hag.
  - intros Hnw. destruct b; [by destruct (Hnw (Z.of_nat i))|]. rewrite Hw by done. by apply Hag.
Qed.

Lemma release_agree s ps t i r k :
  agree s ps t -> threads s !! i = Some (Holds (Done r) k) ->
  agree (System (<[i := Running (k r)]> (threads s)) (delete (Z.of_nat i) (lock s)) (shared s)) ps t.
Proof.
  intros Hag Hi. pose proof (lookup_lt_Some _ _ _ Hi) as Hlt. rewrite <- (ag_length _ _ _ Hag) in Hlt.
  destruct (lookup_lt_is_Some_2 ps i Hlt) as [p Hp].
  destruct (ag_threads _ _ _ Hag i _ _ Hi Hp) as (b & r' & w' & Hlock & [= <- <-] & -> & Hb).
  split; simpl.
  - rewrite length_insert. apply Hag.
  - intros j th p Hth Hj. apply (agree_other s ps t _ _ t i (Running (k r)) (k r) Hag Hlt) with (j := j).
    + intros j' Hne. rewrite lookup_delete_ne by lia. done.
    + done.
    + split; [done|]. apply lookup_delete_eq.
    + done.
    + by rewrite list_insert_id.
  - intros j e [_ Hj]%lookup_delete_Some. by eapply ag_lock.
  - intros j j' b' [_ Hj]%lookup_delete_Some [_ Hj']%lookup_delete_Some. by eapply (ag_alone _ _ _ Hag).
  - intros Hnw. destruct b; [done|]. apply Hag. intros j Hj.
    destruct (decide (j = Z.of_nat i)) as [->|Hne]; [congruence|]. apply (Hnw j). by rewrite lookup_delete_ne.
Qed.

Lemma atomic_step ps t i op k r t' :
  ps !! i = Some (Access op k) -> tbl_op strs op t = Ok (r, t') ->
  TestHash.interleave strs [i] ps t = Ok (<[i := k r]> ps, t').
Proof. intros Hi Hop. simpl. rewrite Hi. by rewrite (bind_Ok _ _ _ _ _ Hop). Qed.

(** A turn is no step of the atomic run, or one by the same thread. *)
Lemma turn_agree s ps t i :
  agree s ps t -> atomic_reach ps t ->
  match turn op_p s i with
  | Ok s' => exists a ps' t', a `sublist_of` [i] /\
      TestHash.interleave strs a ps t = Ok (ps', t') /\ agree s' ps' t'
  | Fault e => TestHash.interleave strs [i] ps t = Fault e
  end.
Proof.
  intros Hag Hreach.
  assert (Hstay : forall s', agree s' ps t -> exists a ps' t', a `sublist_of` [i] /\
    TestHash.interleave strs a ps t = Ok (ps', t') /\ agree s' ps' t')
    by (intros s' Hag'; exists [], ps, t; split_and!; [apply sublist_nil_l|done|done]).
  unfold turn. destruct (threads s !! i) as [th|] eqn:Hi; [|auto].
  destruct (lookup_lt_is_Some_2 ps i) as [p Hp].
  { rewrite (ag_length _ _ _ Hag). by eapply lookup_lt_Some. }
  pose proof (ag_threads _ _ _ Hag i _ _ Hi Hp) as Hm.
  destruct th as [[a|op k|e]|op k|[r|c k'|e] k]; simpl in Hm.
  - auto.
  - by apply Hstay, ask_agree.
  - destruct Hm as [-> _]. simpl. by rewrite Hp.
  - destruct Hm as [-> _]. destruct (may_grant _ _) eqn:Hgrant; [|auto].
    destruct (Hsafe ps t i op k Hreach Hp) as (r & t' & Hop & Hrun).
    exists [i], (<[i := k r]> ps), t'. split_and!; [done|by eapply atomic_step|by eapply grant_agree].
  - by apply Hstay, release_agree.
  - destruct (access_agree s ps t i c k' k Hag Hi) as (x & w & -> & Hag'). cbn [mbind result_bind fst snd]. auto.
  - by destruct Hm as (? & ? & ? & _ & ? & _).
Qed.

(** ** Whole runs *)

(** The run under the lock is matched by an atomic run, faults included; an
    operation takes effect at one of its thread's turns. *)
Lemma run_agree sched : forall s ps t,
  agree s ps t -> atomic_reach ps t ->
  match run op_p sched s with
  | Ok s' => exists asched ps' t', asched `sublist_of` sched /\
      TestHash.interleave strs asched ps t = Ok (ps', t') /\ agree s' ps' t'
  | Fault e => exists asched, asched `sublist_of` sched /\ TestHash.interleave strs asched ps t = Fault e
  end.
Proof.
  induction sched as [|i sched IH]; intros s ps t Hag Hreach; [by exists [], ps, t|].
  rewrite run_cons. pose proof (turn_agree s ps t i Hag Hreach) as Hturn.
  destruct (turn op_p s i) as [s'|e]; cbn [mbind result_bind].
  2: { exists [i]. split; [apply sublist_skip, sublist_nil_l|done]. }
  destruct Hturn as (a & ps1 & t1 & Ha & Hrun1 & Hag1).
  specialize (IH s' ps1 t1 Hag1 (atomic_reach_app _ _ _ _ _ Hreach Hrun1)).
  destruct (run op_p sched s') as [s2|e].
  - destruct IH as (asched & ps' & t' & Hsub & Hrun & Hag'). exists (a ++ asched), ps', t'.
    split_and!; [by apply (sublist_app _ [i])|by rewrite atomic_app, (bind_Ok _ _ _ _ _ Hrun1)|done].
  - destruct IH as (asched & Hsub & Hrun). exists (a ++ asched).
    split; [by apply (sublist_app _ [i])|by rewrite atomic_app, (bind_Ok _ _ _ _ _ Hrun1)].
Qed.

Lemma run_from_start sched :
  match run op_p sched (start ps0 (view t0)) with
  | Ok s' => exists asched ps' t', asched `sublist_of` sched /\
      TestHash.interleave strs asched ps0 t0 = Ok (ps', t') /\ agree s' ps' t'
  | Fault e => exists asched, asched `sublist_of` sched /\ TestHash.interleave strs asched ps0 t0 = Fault e
  end.
Proof. apply (run_agree _ _ ps0 t0); [apply agree_start|]. by exists []. Qed.

(** ** Progress *)

Definition is_running (th : thread W) : bool := match th with Running _ => true | _ => false end.

Lemma agree_running s ps t :
  agree s ps t -> Forall (fun th => is_running th = true) (threads s) -> s = start ps (view t).
Proof.
  intros Hag Hall.
  assert (Hth : threads s = Running <$> ps).
  { apply list_eq_same_length with (length ps); [by rewrite length_fmap|by rewrite (ag_length _ _ _ Hag)|].
    intros i th th' Hi Hth Hth'. rewrite list_lookup_fmap in Hth'.
    destruct (ps !! i) as [p|] eqn:Hp; [|done]. injection Hth' as <-.
    pose proof (Forall_lookup_1 _ _ _ _ Hall Hth) as Hr. pose proof (ag_threads _ _ _ Hag i _ _ Hth Hp) as Hm.
    destruct th as [q| |]; [|done..]. by destruct Hm as [-> _]. }
  assert (Hlock : lock s = ∅).
  { apply map_eq. intros j. rewrite lookup_empty. destruct (lock s !! j) as [e|] eqn:Hj; [|done].
    destruct (ag_lock _ _ _ Hag j e Hj) as (i & -> & Hlt). destruct (lookup_lt_is_Some_2 ps i Hlt) as [p Hp].
    assert (Hi : threads s !! i = Some (Running p)) by (by rewrite Hth, list_lookup_fmap, Hp).
    destruct (ag_threads _ _ _ Hag i _ _ Hi Hp) as [_ Hnone]. congruence. }
  assert (Hsh : shared s = view t) by (apply Hag; intros j; by rewrite Hlock, lookup_empty).
  unfold start. destruct s as [ths l w]. simpl in *. congruence.
Qed.

(** A request belongs to a thread that waits or has been granted the lock. *)
Lemma ag_request s ps t j b g :
  agree s ps t -> lock s !! j = Some (b, g) ->
  exists i th, j = Z.of_nat i /\ threads s !! i = Some th /\
    match th with Running _ => False | Waits op _ => b = writes op /\ g = false | Holds _ _ => g = true end.
Proof.
  intros Hag Hj. destruct (ag_lock _ _ _ Hag j _ Hj) as (i & -> & Hlt).
  destruct (lookup_lt_is_Some_2 ps i Hlt) as [p Hp].
  rewrite (ag_length _ _ _ Hag) in Hlt. destruct (lookup_lt_is_Some_2 (threads s) i Hlt) as [th Hth].
  exists i, th. split_and!; [done..|]. pose proof (ag_threads _ _ _ Hag i _ _ Hth Hp) as Hm.
  destruct th as [q|op k|q k]; simpl in Hm.
  - destruct Hm as [_ Hm]. congruence.
  - destruct Hm as [_ Hm]. rewrite Hj in Hm. by injection Hm as -> ->.
  - destruct Hm as (b' & _ & _ & Hm & _). rewrite Hj in Hm. by injection Hm.
Qed.

Definition is_holding (th : thread W) : bool := match th with Holds _ _ => true | _ => false end.
Definition is_writer (th : thread W) : bool := match th with Waits op _ => writes op | _ => false end.

Context `{!GrantLive}.

(** When nobody holds the lock and somebody waits, one of those who wait may
    be granted it. *)
Lemma somebody_granted s ps t :
  agree s ps t -> ~ Exists (fun th => is_holding th = true) (threads s) ->
  ~ Forall (fun th => is_running th = true) (threads s) ->
  exists i op k, threads s !! i = Some (Waits op k) /\ may_grant (lock s) (Z.of_nat i) = true.
Proof.
  intros Hag Hnone Hbusy.
  assert (Hhold : forall j b, lock s !! j <> Some (b, true)).
  { intros j b Hj. destruct (ag_request _ _ _ _ _ _ Hag Hj) as (i & th & _ & Hth & Hm).
    apply Hnone, Exists_exists. exists th. split; [by eapply list_elem_of_lookup_2|]. by destruct th; [|destruct Hm|]. }
  assert (Hwait : forall i op k, threads s !! i = Some (Waits op k) -> lock s !! Z.of_nat i = Some (writes op, false)).
  { intros i op k Hi. destruct (lookup_lt_is_Some_2 ps i) as [p Hp].
    { rewrite (ag_length _ _ _ Hag). by eapply lookup_lt_Some. }
    by destruct (ag_threads _ _ _ Hag i _ _ Hi Hp). }
  destruct (decide (Exists (fun th => is_writer th = true) (threads s))) as [Hw|Hw].
  - apply Exists_exists in Hw as (th & (i & Hi)%list_elem_of_lookup & Hw). destruct th as [|op k|]; [done| |done].
    exists i, op, k. split; [done|]. apply grant_writer; [|done]. rewrite (Hwait _ _ _ Hi). simpl in Hw. by rewrite Hw.
  - apply not_Forall_Exists in Hbusy; [|apply _]. apply Exists_exists in Hbusy as (th & (i & Hi)%list_elem_of_lookup & Hb).
    destruct th as [|op k|q k]; [by destruct Hb| |].
    + exists i, op, k. split; [done|]. assert (Hr : forall j th, threads s !! j = Some th -> is_writer th = false).
      { intros j th Hj. destruct (is_writer th) eqn:Hth; [|done]. exfalso. apply Hw, Exists_exists. exists th.
        split; [by eapply list_elem_of_lookup_2|done]. }
      pose proof (Hr _ _ Hi) as Hread. simpl in Hread.
      apply grant_reader; [by rewrite (Hwait _ _ _ Hi), Hread|]. intros j b Hj.
      destruct (ag_request _ _ _ _ _ _ Hag Hj) as (i' & th & _ & Hth & Hm). specialize (Hr _ _ Hth).
      destruct th as [|op' k'|]; [done|simpl in Hr; destruct Hm; congruence|].
      subst b. by destruct (Hhold j true).
    + exfalso. apply Hnone, Exists_exists. exists (Holds q k). split; [by eapply list_elem_of_lookup_2|done].
Qed.

(** Some thread completes its operation. *)
Lemma complete_one s ps t :
  agree s ps t -> atomic_reach ps t -> ~ Forall (fun th => is_running th = true) (threads s) ->
  exists sched i th p l w, run op_p sched s = Ok (System (<[i := Running p]> (threads s)) l w) /\
    threads s !! i = Some th /\ is_running th = false.
Proof.
  intros Hag Hreach Hbusy.
  destruct (decide (Exists (fun th => is_holding th = true) (threads s))) as [Hh|Hh].
  - apply Exists_exists in Hh as (th & (i & Hi)%list_elem_of_lookup & Hh). destruct th as [| |q k]; [done..|].
    destruct (lookup_lt_is_Some_2 ps i) as [p Hp].
    { rewrite (ag_length _ _ _ Hag). by eapply lookup_lt_Some. }
    destruct (ag_threads _ _ _ Hag i _ _ Hi Hp) as (b & r & w' & _ & Hq & _).
    destruct (holds_run op_p q s i k r w' Hi Hq) as [n Hn]. eauto 10.
  - destruct (somebody_granted s ps t Hag Hh Hbusy) as (i & op & k & Hi & Hgrant).
    destruct (lookup_lt_is_Some_2 ps i) as [p Hp].
    { rewrite (ag_length _ _ _ Hag). by eapply lookup_lt_Some. }
    pose proof (turn_agree s ps t i Hag Hreach) as Hturn. unfold turn in Hturn. rewrite Hi, Hgrant in Hturn.
    destruct Hturn as (_ & ps' & t' & _ & _ & Hag').
    assert (Hi' : <[i := Holds (op_p op) k]> (threads s) !! i = Some (Holds (op_p op) k))
      by (apply list_lookup_insert_eq; by eapply lookup_lt_Some).
    destruct (lookup_lt_is_Some_2 ps' i) as [p' Hp'].
    { rewrite (ag_length _ _ _ Hag'). by eapply lookup_lt_Some. }
    destruct (ag_threads _ _ _ Hag' i _ _ Hi' Hp') as (b & r & w' & _ & Hq & _).
    destruct (holds_run op_p (op_p op) (System (<[i := Holds (op_p op) k]> (threads s))
      (<[Z.of_nat i := (writes op, true)]> (lock s)) (shared s)) i k r w' Hi' Hq) as [n Hn]. simpl in Hn.
    rewrite list_insert_insert_eq in Hn. exists (i :: replicate n i), i, (Waits op k). do 3 eexists.
    split; [|done]. rewrite run_cons. unfold turn at 1. rewrite Hi, Hgrant. exact Hn.
Qed.

Definition busy (ths : list (thread W)) : nat := length (filter (fun th => is_running th = false) ths).

Lemma busy_insert ths i th p :
  ths !! i = Some th -> is_running th = false -> (busy (<[i := Running p]> ths) < busy ths)%nat.
Proof.
  unfold busy. revert i; induction ths as [|th' ths IH]; intros [|i] Hi Hb; simpl in Hi; [done..| |].
  - injection Hi as ->. simpl. rewrite filter_cons_False by done. rewrite filter_cons_True by done. simpl. lia.
  - specialize (IH i Hi Hb). simpl. rewrite !filter_cons. case_decide; simpl; lia.
Qed.

(** From every state the threads can be run until nobody waits for the lock
    or holds it. *)
Lemma quiesce_busy n : forall s ps t,
  agree s ps t -> atomic_reach ps t -> (busy (threads s) < n)%nat ->
  exists sched ps' t', run op_p sched s = Ok (start ps' (view t')) /\ atomic_reach ps' t'.
Proof.
  induction n as [|n IH]; intros s ps t Hag Hreach Hn; [lia|].
  destruct (decide (Forall (fun th => is_running th = true) (threads s))) as [Hall|Hbusy].
  { exists [], ps, t. split; [by rewrite (agree_running _ _ _ Hag Hall)|done]. }
  destruct (complete_one s ps t Hag Hreach Hbusy) as (s1 & i & th & p & l & w & Hrun & Hi & Hb).
  pose proof (busy_insert _ _ _ p Hi Hb) as Hless.
  pose proof (run_agree s1 s ps t Hag Hreach) as Hnext. rewrite Hrun in Hnext.
  destruct Hnext as (a & ps1 & t1 & _ & Hatomic & Hag1).
  pose proof (atomic_reach_app _ _ _ _ _ Hreach Hatomic) as Hreach1.
  destruct (IH _ ps1 t1 Hag1 Hreach1) as (s2 & ps' & t' & Hrun2 & Hr); [simpl; lia|].
  exists (s1 ++ s2), ps', t'. split; [|done]. by rewrite run_app, Hrun.
Qed.

Lemma quiesce s ps t :
  agree s ps t -> atomic_reach ps t ->
  exists sched ps' t', run op_p sched s = Ok (start ps' (view t')) /\ atomic_reach ps' t'.
Proof. intros Hag Hreach. by apply (quiesce_busy (S (busy (threads s))) s ps t); [| |lia]. Qed.

(** Every atomic run is a run under the lock. *)
Lemma realize asched : forall ps t ps' t',
  atomic_reach ps t -> TestHash.interleave strs asched ps t = Ok (ps', t') ->
  exists sched, run op_p sched (start ps (view t)) = Ok (start ps' (view t')).
Proof.
  induction asched as [|i asched IH]; intros ps t ps' t' Hreach Hrun; [injection Hrun as -> ->; by exists []|].
  simpl in Hrun. destruct (ps !! i) as [[a|op k|e]|] eqn:Hi; try (by eapply IH).
  apply bind_inv in Hrun as (r & t1 & Hop & Hrun).
  destruct (Hsafe ps t i op k Hreach Hi) as (r' & t1' & Hop' & Hexec). rewrite Hop in Hop'. injection Hop' as <- <-.
  destruct (IH (<[i := k r]> ps) t1 ps' t') as [s2 Hs2]; [|done|].
  { apply (atomic_reach_app ps t [i]); [done|]. by eapply atomic_step. }
  set (w := view t) in *. pose proof (lookup_lt_Some _ _ _ Hi) as Hlt.
  assert (Hgrant : may_grant (<[Z.of_nat i := (writes op, false)]> ∅) (Z.of_nat i) = true).
  { destruct (writes op) eqn:Hw; [apply grant_writer|apply grant_reader]; try apply lookup_insert_eq;
      intros u b [[_ ?]|[_ Hu]]%lookup_insert_Some; done. }
  pose proof (holds_run op_p (op_p op) (System (<[i := Holds (op_p op) k]> (Running <$> ps))
    (<[Z.of_nat i := (writes op, true)]> ∅) w) i k r (view t1)) as Hhold.
  destruct Hhold as [n Hn]; [simpl; apply list_lookup_insert_eq; by rewrite length_fmap|done|].
  simpl in Hn. rewrite list_insert_insert_eq, delete_insert_eq, delete_empty in Hn.
  exists (i :: i :: replicate n i ++ s2). rewrite run_cons. unfold turn, start at 1. simpl.
  rewrite list_lookup_fmap, Hi. simpl. rewrite run_cons. unfold turn. simpl.
  rewrite list_lookup_insert_eq by (by rewrite length_fmap). rewrite Hgrant. simpl.
  rewrite list_insert_insert_eq, insert_insert_eq, run_app, Hn. simpl.
  unfold start in Hs2. by rewrite list_fmap_insert in Hs2.
Qed.
End refinement.
