(* ===== verification/HtableLocked.v ===== *)
(** * The hash table under a reader-writer lock

    The programs of [HtableSteps], which share memory access by access, run
    between the calls of the lock of [rwlock.h]: they are then the atomic
    operations of [TestHashSpec], and the threads of [test_htable] pass. *)

From S2P Require Import Prelude Doubles Words Primes Htable HtableChains HtableInv HtableSpec Interleave HtableSteps HtableRace HtableView RwLock TestHash TestHashSpec Locked.

(** ** Programs that ask for known keys only *)

Section proper.
Context (strs : gmap Z (list Z)).

Fixpoint proper {A} (p : program A) : Prop :=
  match p with
  | Access op k => op_ok strs op /\ forall r, proper (k r)
  | _ => True
  end.

Lemma proper_bind {A B} (p : program A) (f : A -> program B) :
  proper p -> (forall a, proper (f a)) -> proper (p ≫= f).
Proof.
  intros Hp Hf. induction p as [a|op k IH|e]; [apply Hf| |done].
  destruct Hp as [Hop Hk]. split; [done|]. intros r. by apply IH.
Qed.

Lemma proper_calc {A} (r : result A) : proper (calc r).
Proof. by destruct r. Qed.

Lemma proper_fold {X} (f : X -> program unit) l :
  (forall x, x ∈ l -> proper (f x)) -> proper (foldM (fun _ x => f x) tt l).
Proof.
  induction l as [|x l IH]; intros Hf; [done|]. cbn [foldM].
  apply proper_bind; [apply Hf; left|]. intros []. apply IH. intros y Hy. apply Hf. by right.
Qed.
End proper.

(** ** The operations *)

Lemma size_img (ss : gmap Z (list Z)) : (size (map_img ss : gset (list Z)) <= size ss)%nat.
Proof.
  induction ss as [|k s ss Hk IH] using map_ind; [by rewrite map_img_empty|].
  rewrite map_img_insert_notin, map_size_insert_None by done.
  rewrite size_union_alt, size_singleton.
  pose proof (subseteq_size (map_img ss ∖ {[s]}) (map_img ss : gset (list Z)) ltac:(set_solver)). lia.
Qed.

Section operations.
Context `{MallocLaws} (blocks : nat) `{!MallocServes blocks}.
Context (h0 : words) (strs : gmap Z (list Z)) (cap fuel : nat).
Context (Hroom : (size h0 + cap + 3 < blocks)%nat) (Hcap : Z.of_nat cap <= 2 ^ 31).
Context (Hfuel : (size h0 + cap + 3 < fuel)%nat) (Hturns : 2 ^ 31 <= Z.of_nat fuel).
Context (Hstrs : (size strs < cap)%nat).
(** The table does not grow, or its keys do not all go to one slot. *)
Context (allow : Z) (Htakes : allow = 0 \/ few_equal_hashes (map_img strs)).

Definition holds (t : words * htable) (m : gmap (list Z) Z) : Prop :=
  table_over h0 (htable_world strs t) m /\ allow_resize t.2 = allow.

Lemma holds_size t m : holds t m -> (size m < cap)%nat.
Proof.
  intros [Hover _]. apply Nat.le_lt_trans with (size (map_img strs : gset (list Z))).
  - rewrite <- (size_dom (D := gset (list Z))). apply subseteq_size. intros s Hs%elem_of_dom.
    by destruct (table_over_key _ _ _ _ Hover Hs).
  - pose proof (size_img strs). lia.
Qed.

(** An operation as the atomic table makes it, and access by access. *)
Lemma operation_run t m op :
  holds t m -> op_ok strs op ->
  exists r t', @tbl_op _ htable_table strs op t = Ok (r, t') /\
    exec (run_op_p strs fuel op) (htable_world strs t) = Ok (r, htable_world strs t') /\
    r = fst (spec_op strs op m) /\ holds t' (snd (spec_op strs op m)).
Proof.
  intros Hh Hop. pose proof (holds_size t m Hh) as Hsize. destruct Hh as [Hover Hallow].
  assert (Hroom' : (size h0 + cap + 2 < blocks)%nat) by lia.
  pose proof (@tbl_op_spec _ htable_table _ _ (htable_spec blocks h0 allow cap Hroom' Hcap) strs t m op
    (conj Hover (conj Hallow Htakes)) Hop Hsize) as (t' & Hrun & Hover' & Hallow' & _).
  exists (fst (spec_op strs op m)), t'. split; [done|]. split; [|by split].
  destruct t as [h ht]. pose proof (table_over_size _ _ _ Hover) as Hh. simpl in Hh.
  pose proof (run_op_over blocks h0 (htable_world strs (h, ht)) m op Hover Hop ltac:(lia) ltac:(simpl; lia)) as Hspec.
  assert (Hw : run_op op (htable_world strs (h, ht)) = Ok (fst (spec_op strs op m), htable_world strs t')).
  { assert (Hws : with_strings strs (run_op op) (h, ht) = Ok (fst (spec_op strs op m), t')) by (by destruct op).
    unfold with_strings in Hws. unfold htable_world in Hspec |- *. simpl in Hspec |- *.
    destruct (run_op op _) as [[r w]|e]; [|done]. injection Hws as -> <-. simpl.
    destruct Hspec as (_ & _ & <- & _). by destruct w. }
  assert (Hpos : (Z.to_nat (ht_size ht) < fuel)%nat).
  { destruct Hover as (own & (chs & Hinv & _) & _). pose proof (ly_pos _ _ _ (ti_layout _ _ Hinv)) as Hp. simpl in Hp. lia. }
  assert (Hcalm : calm strs ht (size h) (htable_world strs (h, ht))) by done.
  rewrite <- Hw. destruct op as [key val|key]; simpl.
  - apply (sim_exec (calm strs ht (size h)) _ _ (fun _ _ => True)); [|done|].
    + apply sim_htable_insert; lia.
    + simpl in Hw. by rewrite Hw.
  - apply (sim_exec (calm strs ht (size h)) _ _ (fun _ => calm strs ht (size h))); [|done|].
    + apply sim_htable_lookup. lia.
    + simpl in Hw. by rewrite Hw.
Qed.

(** The atomic run keeps the table and the programs in order. *)
Lemma atomic_inv sched : forall ps t m ps' t',
  holds t m -> Forall (proper strs) ps ->
  @TestHash.interleave _ htable_table strs sched ps t = Ok (ps', t') ->
  (exists m', holds t' m') /\ Forall (proper strs) ps'.
Proof.
  induction sched as [|i sched IH]; intros ps t m ps' t' Hh Hps Hrun; [injection Hrun as -> ->; eauto|].
  simpl in Hrun. destruct (ps !! i) as [[a|op k|e]|] eqn:Hi; try (by eapply IH).
  pose proof (Forall_lookup_1 _ _ _ _ Hps Hi) as [Hop Hk].
  destruct (operation_run t m op Hh Hop) as (r & t1 & Hrun1 & _ & _ & Hh1).
  rewrite (bind_Ok _ _ _ _ _ Hrun1) in Hrun. eapply IH; [exact Hh1| |exact Hrun].
  apply Forall_insert; [done|apply Hk].
Qed.

Lemma operations_safe ps0 t0 m0 :
  holds t0 m0 -> Forall (proper strs) ps0 ->
  forall ps t i op k, @atomic_reach _ htable_table strs ps0 t0 ps t -> ps !! i = Some (Access op k) ->
  exists r t', @tbl_op _ htable_table strs op t = Ok (r, t') /\
    exec (run_op_p strs fuel op) (htable_world strs t) = Ok (r, htable_world strs t').
Proof.
  intros Hh Hps ps t i op k [sched Hs] Hi. destruct (atomic_inv _ _ _ _ _ _ Hh Hps Hs) as [[m Hm] Hps'].
  pose proof (Forall_lookup_1 _ _ _ _ Hps' Hi) as [Hop _].
  destruct (operation_run t m op Hm Hop) as (r & t' & ? & ? & _). eauto.
Qed.

Lemma lookups_read_only op : writes op = false -> read_only (run_op_p strs fuel op).
Proof. destruct op as [key val|key]; [done|]. intros _. apply read_only_lookup. Qed.
End operations.

(** ** The threads of [test_htable] *)

(** Every thread has its turn [k] times. *)
Definition rounds (k n : nat) : list nat := concat (replicate k (seq 0 n)).

Lemma count_rounds k n i : (i < n)%nat -> count_occ Nat.eq_dec (rounds k n) i = k.
Proof.
  intros Hi. unfold rounds. induction k as [|k IH]; [done|]. simpl. rewrite count_occ_app, IH.
  rewrite (proj1 (NoDup_count_occ' Nat.eq_dec (seq 0 n))); [lia|apply List.seq_NoDup|].
  apply in_seq. lia.
Qed.

Lemma atomic_finished {T} `{Table T} strs sched ps (t : T) :
  forallb finished ps = true -> TestHash.interleave strs sched ps t = Ok (ps, t).
Proof.
  intros Hfin. induction sched as [|i sched IH]; [done|]. simpl.
  destruct (ps !! i) as [p|] eqn:Hi; [|done]. rewrite forallb_forall in Hfin.
  specialize (Hfin p (proj1 (list_elem_of_In _ _) (list_elem_of_lookup_2 _ _ _ Hi))). by destruct p.
Qed.

Section test.
Context `{Platform} (strs : gmap Z (list Z)) (tests num_threads : Z) (key_at : Z -> list Z).
Context (Htests : 0 < tests <= TESTSZ) (Hthreads : 0 < num_threads < 2 ^ 31).
Context (Hkeys : forall i, 0 <= i < tests -> strs !! testkey i = Some (key_at i)).
Context (Hgood : forall i, 0 <= i < tests -> good_key (key_at i)).

Lemma proper_insert_at i : 0 <= i < tests -> proper strs (insert_at tests i).
Proof.
  intros Hi. unfold insert_at. rewrite !in_tests_ok by done. simpl. split; [|done].
  exists (key_at i). simpl. auto.
Qed.

Lemma proper_lookup_at i : 0 <= i < tests -> proper strs (lookup_at tests i).
Proof.
  intros Hi. unfold lookup_at. rewrite !in_tests_ok by done. simpl. split.
  - exists (key_at i). simpl. auto.
  - intros v. destruct (negb (v =? 0)); [|done]. simpl. by destruct (negb _).
Qed.

Lemma proper_threads mode :
  Forall (proper strs) (test_htable_run tests num_threads mode <$> seqZ 0 num_threads).
Proof.
  apply Forall_fmap, Forall_forall. intros idx Hidx%elem_of_seqZ. simpl. unfold test_htable_run.
  destruct (thread_share_ok tests num_threads Htests Hthreads idx) as (first & e & -> & Hf & He & _); [lia|].
  apply (proper_fold strs (fun i => test_turn tests mode idx i)). intros i [Hi1 Hi2]%elem_of_seqZ.
  unfold test_turn. apply proper_bind; [apply proper_insert_at; cbn [fst snd] in *; lia|intros []].
  destruct (random_index_ok tests num_threads Htests Hthreads idx i) as (r & -> & Hr); [lia|cbn [fst snd] in *; lia|].
  destruct mode; [by apply proper_insert_at|by apply proper_lookup_at].
Qed.
End test.

Section phase.
Context `{MallocLaws} (blocks : nat) `{!MallocServes blocks} `{Platform}.
Context (h0 : words) (strs : gmap Z (list Z)) (cap : nat) (allow : Z).
Context (Hroom : (size h0 + cap + 3 < blocks)%nat) (Hcap : Z.of_nat cap <= 2 ^ 31).
Context (tests num_threads : Z) (key_at : Z -> list Z) (mode : TestHash.op_type).
Context (Htests : 0 < tests <= TESTSZ) (Hthreads : 0 < num_threads < 2 ^ 31).
Context (Hkeys : forall i, 0 <= i < tests -> strs !! testkey i = Some (key_at i)).
Context (Hgood : forall i, 0 <= i < tests -> good_key (key_at i)).
Context (Hmode : mode_ok tests key_at mode) (Hcount : (Z.to_nat tests < cap)%nat).
Context (Htakes : allow = 0 \/ few_equal_hashes (map_img strs)).

Definition test_pool : list (program unit) := test_htable_run tests num_threads mode <$> seqZ 0 num_threads.

(** All keys are in the table, with values of theirs. *)
Definition all_inserted (t : words * htable) : Prop :=
  exists m, holds h0 strs allow t m /\ pool tests key_at m /\ forall i, 0 <= i < tests -> is_Some (m !! key_at i).

(** However the atomic run begins, it can be brought to its end. *)
Lemma atomic_completes asched t m :
  holds h0 strs allow t m -> pool tests key_at m ->
  exists ps' t', @TestHash.interleave _ htable_table strs
      (asched ++ rounds (2 * Z.to_nat tests) (Z.to_nat num_threads)) test_pool t = Ok (ps', t') /\
    forallb finished ps' = true /\ all_inserted t'.
Proof.
  intros [Hover Hallow] Hpool. assert (Hroom' : (size h0 + cap + 2 < blocks)%nat) by lia.
  destruct (@interleave_run _ strs tests key_at _ htable_table allow cap (htable_spec blocks h0 allow cap Hroom' Hcap)
    Hcount (asched ++ rounds (2 * Z.to_nat tests) (Z.to_nat num_threads)) test_pool t m)
    as (ps' & t' & m' & Hrun & Hfin & (Hover' & Hallow' & _) & Hpool' & Hin); [|exact (conj Hover (conj Hallow Htakes))|done|].
  { intros i p Hp. unfold test_pool in Hp. rewrite list_lookup_fmap in Hp.
    destruct (seqZ 0 num_threads !! i) as [idx|] eqn:Hi; [|done]. injection Hp as <-.
    apply lookup_seqZ in Hi as [-> Hi].
    apply (fits_mono _ _ _ _ (2 * Z.to_nat tests)); [rewrite count_occ_app, count_rounds; lia|].
    apply test_htable_run_fits; try done. lia. }
  exists ps', t'. split_and!; [done|done|]. exists m'. split_and!; [by split|done|].
  intros i Hi. apply Hin. right.
  destruct (test_htable_run_inserts strs tests num_threads key_at Htests Hthreads Hkeys mode i Hi) as (idx & Hidx & Hw).
  eexists. split; [|exact Hw]. apply list_elem_of_fmap. exists idx. split; [done|]. apply elem_of_seqZ. lia.
Qed.

Lemma atomic_never_fails asched t m e :
  holds h0 strs allow t m -> pool tests key_at m ->
  @TestHash.interleave _ htable_table strs asched test_pool t <> Fault e.
Proof.
  intros Hh Hpool Hf. destruct (atomic_completes asched t m Hh Hpool) as (ps' & t' & Hrun & _).
  by rewrite atomic_app, (bind_Fault _ _ _ _ Hf) in Hrun.
Qed.

(** From a state that the atomic run reaches on. *)
Lemma atomic_end ps t t' m :
  holds h0 strs allow t m -> pool tests key_at m ->
  @atomic_reach _ htable_table strs test_pool t ps t' ->
  exists asched ps'' t'', @TestHash.interleave _ htable_table strs asched ps t' = Ok (ps'', t'') /\
    forallb finished ps'' = true /\ all_inserted t''.
Proof.
  intros Hh Hpool [asched Hs]. destruct (atomic_completes asched t m Hh Hpool) as (ps'' & t'' & Hrun & Hfin & Hall).
  rewrite atomic_app, (bind_Ok _ _ _ _ _ Hs) in Hrun. eauto 10.
Qed.
End phase.

Definition returned (th : thread world) : bool :=
  match th with Running p => finished p | _ => false end.

Lemma returned_start (s : system world) ps t strs :
  @agree _ _ (htable_world strs) s ps t -> forallb returned (threads s) = true ->
  s = start ps (htable_world strs t) /\ forallb finished ps = true.
Proof.
  intros Hag Hret. assert (Hs : s = start ps (htable_world strs t)).
  { apply (agree_running _ _ _ _ Hag). apply Forall_forall. intros th Hth%list_elem_of_In.
    rewrite forallb_forall in Hret. specialize (Hret th Hth). by destruct th. }
  split; [done|]. subst s. apply forallb_forall. intros p Hp. rewrite forallb_forall in Hret.
  apply (Hret (Running p)). by apply in_map.
Qed.

Lemma start_returned ps (w : world) : forallb finished ps = true -> forallb returned (threads (start ps w)) = true.
Proof.
  rewrite !forallb_forall. intros Hfin th (p & <- & Hp)%in_map_iff. by apply Hfin.
Qed.

(** ** Properties *)

(** C2: threads that use the table of [htable.c], each insertion with the
    lock in "write" mode and each lookup in "read" mode, do, whatever the
    schedule of their single accesses to memory and whatever the order in which
    the lock is granted, what they do when the operations are atomic: at any
    moment the threads that hold the lock count as past the operation, the
    others are where some atomic run has them, in which every operation comes at
    one of its thread's turns, in their order, and memory is that of the atomic
    run when no insertion is under way; only a thread that exits stops the run.
    And they never get stuck: they can always be run on until nobody waits. *)
Theorem locked_threads_linearizable `{MallocLaws} (blocks : nat) `{!MallocServes blocks}
    `{WriterPriority, !GrantLive} (h0 : words) (strs : gmap Z (list Z)) (cap fuel : nat) (allow : Z)
    (t : words * htable) (m : gmap (list Z) Z) (ps : list (program unit)) (sched : list nat) :
  (size h0 + cap + 3 < blocks)%nat -> Z.of_nat cap <= 2 ^ 31 -> (size strs < cap)%nat ->
  (size h0 + cap + 3 < fuel)%nat -> 2 ^ 31 <= Z.of_nat fuel ->
  allow = 0 \/ few_equal_hashes (map_img strs) -> holds h0 strs allow t m -> Forall (proper strs) ps ->
  match Locked.run (run_op_p strs fuel) sched (start ps (htable_world strs t)) with
  | Ok s =>
      (exists asched ps' t', asched `sublist_of` sched /\
         @TestHash.interleave _ htable_table strs asched ps t = Ok (ps', t') /\
         agree (htable_world strs) s ps' t' /\ exists m', holds h0 strs allow t' m') /\
      (exists more ps' t', Locked.run (run_op_p strs fuel) more s = Ok (start ps' (htable_world strs t')))
  | Fault e => exists asched, asched `sublist_of` sched /\
      @TestHash.interleave _ htable_table strs asched ps t = Fault e
  end.
Proof.
  intros Hroom Hcap Hstrs Hfuel Hturns Htakes Hh Hps.
  pose proof (operations_safe blocks h0 strs cap fuel Hroom Hcap Hfuel Hturns Hstrs allow Htakes ps t m Hh Hps) as Hsafe.
  pose proof (lookups_read_only strs fuel) as Hreads.
  pose proof (run_from_start (H := htable_table) strs _ _ ps t Hsafe Hreads sched) as Hrun.
  destruct (Locked.run _ _ _) as [s|e]; [|exact Hrun]. destruct Hrun as (asched & ps' & t' & Hsub & Hs & Hag). split.
  - exists asched, ps', t'. split_and!; [done|done|done|].
    by apply (atomic_inv blocks h0 strs cap fuel Hroom Hcap Hfuel Hturns Hstrs allow Htakes _ _ _ _ _ _ Hh Hps Hs).
  - destruct (quiesce (H := htable_table) strs _ _ ps t Hsafe Hreads s ps' t' Hag) as (more & ps2 & t2 & Hmore & _);
      [by exists asched|]. eauto.
Qed.

(** A table of four slots made in an empty heap, that may grow. *)
Definition no_table : words * htable := (∅, {| allow_resize := 0; store := 0; ht_size := 0 |}).

Lemma fresh_table (strs : gmap Z (list Z)) :
  few_equal_hashes (map_img strs) ->
  exists t, @tbl_init _ (@htable_table lowest_free) 4 1 no_table = Ok (tt, t) /\ holds ∅ strs 1 t ∅.
Proof.
  intros Hfew.
  destruct (@tbl_init_spec _ (@htable_table lowest_free) _ _ (@htable_spec lowest_free lowest_free_laws 100
    (lowest_free_serves 100 ltac:(lia)) ∅ 1 10 ltac:(rewrite map_size_empty; lia) ltac:(lia)) strs no_table 4)
    as (t & Hrun & Hover & Hallow & _); [done|by right|lia|].
  by exists t.
Qed.

(** Two keys, and two threads that insert one and look up the other. *)
Definition two_strings : gmap Z (list Z) := {[1000 := [65; 66]; 1001 := [67]]}.
Definition two_threads_of (a b : Z) : program unit :=
  TestHash.access (Insert a (a + 5));; v ← TestHash.access (Lookup b);
  if v =? 0 then TestHash.access (Insert b 7);; mret tt else mret tt.

Lemma two_known key : key = 1000 \/ key = 1001 -> exists s, two_strings !! key = Some s /\ good_key s.
Proof.
  intros [->| ->]; eexists; (split; [reflexivity|]); split; try (simpl; lia); repeat constructor; lia.
Qed.

Lemma two_proper a b : a = 1000 \/ a = 1001 -> b = 1000 \/ b = 1001 -> proper two_strings (two_threads_of a b).
Proof.
  intros Ha Hb. split; [by apply two_known|]. intros r. split; [by apply two_known|]. intros v. simpl.
  destruct (v =? 0); [|done]. split; [by apply two_known|done].
Qed.

Lemma locked_threads_linearizable_witness :
  exists t, @tbl_init _ (@htable_table lowest_free) 4 1 no_table = Ok (tt, t) /\
  let op_p := @run_op_p lowest_free two_strings (Z.to_nat (2 ^ 31)) in
  forall sched,
    match @Locked.run _ writers_first op_p sched
            (start [two_threads_of 1000 1001; two_threads_of 1001 1000] (htable_world two_strings t)) with
    | Ok s => exists more ps t', @Locked.run _ writers_first op_p more s = Ok (start ps (htable_world two_strings t'))
    | Fault e => exists asched, asched `sublist_of` sched /\
        @TestHash.interleave _ (@htable_table lowest_free) two_strings asched
        [two_threads_of 1000 1001; two_threads_of 1001 1000] t = Fault e
    end.
Proof.
  assert (Hsize : size two_strings = 2%nat) by reflexivity.
  assert (Hfew : few_equal_hashes (map_img two_strings)).
  { apply few_keys. pose proof (size_img two_strings). unfold MAX_COLLISION. lia. }
  destruct (fresh_table two_strings Hfew) as (t & Hrun & Hholds). exists t. split; [exact Hrun|].
  intros op_p sched.
  pose proof (@locked_threads_linearizable lowest_free lowest_free_laws 100 (lowest_free_serves 100 ltac:(lia))
    writers_first writers_first_priority writers_first_live ∅ two_strings 10 (Z.to_nat (2 ^ 31)) 1 t ∅
    [two_threads_of 1000 1001; two_threads_of 1001 1000] sched) as Hall.
  specialize (Hall ltac:(rewrite map_size_empty; lia) ltac:(lia) ltac:(lia) ltac:(rewrite map_size_empty; lia)
    ltac:(lia) (or_intror Hfew) Hholds).
  assert (Hproper : Forall (proper two_strings) [two_threads_of 1000 1001; two_threads_of 1001 1000])
    by (apply Forall_cons; split; [|apply Forall_singleton]; apply two_proper; auto).
  specialize (Hall Hproper). destruct (@Locked.run _ _ _ _ _) as [s|e]; apply Hall.
Defined.


(** Three keys, two threads, the phase that only inserts. *)
Definition three_strings : gmap Z (list Z) :=
  list_to_map ((fun i => (@testkey (example_platform Z.of_nat) i, @key_at (example_platform Z.of_nat) 0 i)) <$> seqZ 0 3).

