(* ===== verification/Tester.v ===== *)
(** * The test program of the thread lab ([threadlab/tester.c])

    The options, the choice of tests and their run one after the other, over
    any table and any lock; and what its exit status tells. *)

From Stdlib Require Import String.
From S2P Require Import Prelude TraceFile HtableSpec Words Htable RwLock TestRwlock TestHash TestHashSpec.

Definition codes (s : string) : list Z := Z.of_nat ∘ Ascii.nat_of_ascii <$> list_ascii_of_string s.

(** [num_threads] and [which_test], and an option [getopt] returned with its
    argument; any other answer prints the usage. *)
Definition tester_option (opts : Z * list Z) (o : Z * list Z) : result (Z * list Z) :=
  let '(num_threads, which_test) := opts in
  let '(c, optarg) := o in
  if c =? 110 then n ← atoi optarg; Ok (n, which_test)
  else if c =? 116 then Ok (num_threads, optarg)
  else Fault (Exited 1).

Definition default_tests : Z * list Z := (4, codes "all").

Definition selects (which_test : list Z) (name : string) : bool :=
  bool_decide (which_test = codes "all") || bool_decide (which_test = codes name).

Section tester.
Context `{Platform} {T L : Type} `{Table T, RwLock L, GrantPolicy} (tests : Z).
(** The clock of [test_rwl_basic], and the choices made for the threads of
    [test_rwl_priority]. *)
Context (now : nat -> timespec) (choices : list choice).

(** The state of the tests: that of the hash table's and that of the lock's. *)
Definition on_hash {B} (c : ST (test T) B) : ST (test T * basic L) B := fun s =>
  match c s.1 with Ok (b, t) => Ok (b, (t, s.2)) | Fault e => Fault e end.
Definition on_rwl {B} (c : ST (basic L) B) : ST (test T * basic L) B := fun s =>
  match c s.2 with Ok (b, l) => Ok (b, (s.1, l)) | Fault e => Fault e end.

(** [test_rwl_priority] under the choices made. *)
Definition test_rwl_priority : result unit :=
  match main_pc <$> TestRwlock.run choices start with
  | Some M_passed => Ok tt
  | Some M_fatal => Fault (Exited 1)
  | _ => Fault OutOfFuel
  end.

(** One of the three blocks of [main]. *)
Definition tested_if (b : bool) (c : ST (test T * basic L) unit) (tested : Z)
    : ST (test T * basic L) Z :=
  if b then c;; mret (tested + 1) else mret tested.

Definition tester_main (opts : list (Z * list Z)) : ST (test T * basic L) Z :=
  o ← lift (foldM tester_option default_tests opts);
  let '(num_threads, which_test) := o in
  tested ← tested_if (selects which_test "htable") (on_hash (test_htable tests num_threads 0)) 0;
  tested ← tested_if (selects which_test "rwl")
             (on_rwl (test_rwl_basic now);; lift test_rwl_priority) tested;
  tested ← tested_if (selects which_test "resize") (on_hash (test_htable tests num_threads 1)) tested;
  if tested =? 0 then lift (Fault (Exited 1)) else mret 0.
End tester.

(** ** The verdict of the tester *)

Section verdict.
Context `{PlatformSpec tests num_threads} {T L : Type}.
Context `{Table T} (cap : nat) `{!TableSpec T 0 cap, !TableSpec T 1 cap}.
Context `{RwLockSpec L} `{WriterPriority}.
Context (now : nat -> timespec) (choices : list choice).
Context (Htests : 0 < tests <= TESTSZ) (Hthreads : 0 < num_threads < 2 ^ 31).
Context (Hcap : (Z.to_nat tests < cap)%nat).
(** A table that was destroyed can be set up again, to grow or not. *)
Context (Hfresh : forall t : T, tbl_fresh (allow := 0) (cap := cap) t <-> tbl_fresh (allow := 1) (cap := cap) t).
Context (Hclock : forall k, valid_time (now k) = true).
(** The threads of the priority test are scheduled until the main thread ends. *)
Context (Hended : exists s, TestRwlock.run choices start = Some s /\
                            (main_pc s = M_passed \/ main_pc s = M_fatal)).

(** What can still go wrong with a right table and a right lock: two equal
    random keys, or a clock too near the end of a second. *)
Definition hash_fate (k0 : nat) : result unit :=
  if bool_decide (distinct (tests := tests) k0) then Ok tt else Fault (Exited 1).
Definition rwl_fate (ticks : nat) : result unit :=
  if time_left now ticks && time_left now (ticks + 2) && time_left now (ticks + 3) then Ok tt
  else Fault AssertFailed.

(** The random numbers drawn before the test of the growing table. *)
Definition resize_rands (which_test : list Z) (s : test T * basic L) : nat :=
  (t_rands s.1 + if selects which_test "htable" then 49 * Z.to_nat tests else 0)%nat.

Definition fate (which_test : list Z) (s : test T * basic L) : result unit :=
  (if selects which_test "htable" then hash_fate (t_rands s.1) else Ok tt);;
  (if selects which_test "rwl" then rwl_fate (b_ticks s.2) else Ok tt);;
  (if selects which_test "resize" then hash_fate (resize_rands which_test s) else Ok tt).

Lemma priority_stage : test_rwl_priority choices = Ok tt.
Proof.
  destruct Hended as (s & Hrun & Hend). unfold test_rwl_priority. rewrite Hrun. simpl.
  pose proof (inv_safe s (run_inv_from choices start s start_inv Hrun)) as Hsafe.
  by destruct Hend as [->|].
Qed.

Lemma ready_switch (s : test T) :
  ready (tests := tests) (allow := 0) (cap := cap) s <-> ready (tests := tests) (allow := 1) (cap := cap) s.
Proof. unfold ready. by rewrite Hfresh. Qed.

(** A run of the table's test within the program. *)
Lemma hash_stage allow `{!TableSpec T allow cap} (s : test T * basic L) :
  ready (tests := tests) (allow := allow) (cap := cap) s.1 ->
  tbl_takes (allow := allow) (cap := cap) (test_keys (tests := tests) (t_rands s.1)) ->
  match hash_fate (t_rands s.1) with
  | Ok _ => exists s', on_hash (test_htable tests num_threads allow) s = Ok (tt, s') /\
      ready (tests := tests) (allow := allow) (cap := cap) s'.1 /\
      t_rands s'.1 = (t_rands s.1 + 49 * Z.to_nat tests)%nat /\ s'.2 = s.2
  | Fault e => on_hash (test_htable tests num_threads allow) s = Fault e
  end.
Proof.
  intros Hready Htakes. pose proof (test_run (cap := cap) Htests Hthreads Hcap s.1 Hready Htakes) as Hrun.
  unfold hash_fate, on_hash. case_bool_decide.
  - destruct Hrun as (s' & size & -> & Hready' & Hr & _). by exists (s', s.2).
  - by rewrite Hrun.
Qed.

Lemma rwl_stage (s : test T * basic L) :
  match rwl_fate (b_ticks s.2) with
  | Ok _ => exists s', (on_rwl (test_rwl_basic now);; lift (test_rwl_priority choices)) s =
      Ok (tt, s') /\ s'.1 = s.1
  | Fault e => (on_rwl (test_rwl_basic now);; lift (test_rwl_priority choices)) s = Fault e
  end.
Proof.
  destruct (basic_run now s.2) as [l Hrun]; [by intros k _|]. unfold rwl_fate.
  rewrite priority_stage. case_match.
  - exists (s.1, l). split; [|done]. unfold on_rwl. erewrite bind_Ok; [|by rewrite Hrun]. done.
  - apply bind_Fault. unfold on_rwl. by rewrite Hrun.
Qed.

(** One block of [main]: skipped, passed or failed. *)
Lemma tested_if_run (b : bool) (c : ST (test T * basic L) unit) n s (f : result unit) (Q : test T * basic L -> Prop) :
  (b = true -> match f with Ok _ => exists s', c s = Ok (tt, s') /\ Q s' | Fault e => c s = Fault e end) ->
  (b = false -> Q s) ->
  match (if b then f else Ok tt) with
  | Ok _ => exists s', tested_if b c n s = Ok (if b then n + 1 else n, s') /\ Q s'
  | Fault e => tested_if b c n s = Fault e
  end.
Proof.
  intros Hc Hs. destruct b; simpl; [|by exists s; auto]. specialize (Hc eq_refl).
  destruct f as [[]|e].
  - destruct Hc as (s' & Hc & HQ). exists s'. split; [|done]. by rewrite (bind_Ok _ _ _ _ _ Hc).
  - by rewrite (bind_Fault _ _ _ _ Hc).
Qed.

(** The blocks of [main]. *)
Lemma hash_block allow `{!TableSpec T allow cap} (b : bool) n (s : test T * basic L) :
  ready (tests := tests) (allow := allow) (cap := cap) s.1 ->
  (b = true -> tbl_takes (allow := allow) (cap := cap) (test_keys (tests := tests) (t_rands s.1))) ->
  match (if b then hash_fate (t_rands s.1) else Ok tt) with
  | Ok _ => exists s', tested_if b (on_hash (test_htable tests num_threads allow)) n s =
        Ok (if b then n + 1 else n, s') /\
      ready (tests := tests) (allow := allow) (cap := cap) s'.1 /\
      t_rands s'.1 = (t_rands s.1 + if b then 49 * Z.to_nat tests else 0)%nat /\ s'.2 = s.2
  | Fault e => tested_if b (on_hash (test_htable tests num_threads allow)) n s = Fault e
  end.
Proof.
  intros Hready Htakes. apply tested_if_run; destruct b; try done; intros _. by apply hash_stage; [|apply Htakes].
Qed.

Lemma rwl_block (b : bool) n (s : test T * basic L) :
  match (if b then rwl_fate (b_ticks s.2) else Ok tt) with
  | Ok _ => exists s', tested_if b (on_rwl (test_rwl_basic now);; lift (test_rwl_priority choices)) n s =
        Ok (if b then n + 1 else n, s') /\ s'.1 = s.1
  | Fault e => tested_if b (on_rwl (test_rwl_basic now);; lift (test_rwl_priority choices)) n s = Fault e
  end.
Proof. apply tested_if_run; destruct b; try done; intros _. apply rwl_stage. Qed.

(** C22: the tester with a right lock and a table right for the random keys: the options choose
    what runs; it returns 0 when the chosen tests pass, which they do unless two
    random keys are equal (exit 1) or the clock is too near the end of a second
    when [test_rwl_basic] reads it (a failed assertion), in the order in which
    the tests run; it exits with 1 when the name given chooses no test. *)
Theorem tester_main_correct (opts : list (Z * list Z)) (which_test : list Z) (s : test T * basic L) :
  foldM tester_option default_tests opts = Ok (num_threads, which_test) ->
  ready (tests := tests) (allow := 0) (cap := cap) s.1 ->
  (selects which_test "htable" = true ->
     tbl_takes (allow := 0) (cap := cap) (test_keys (tests := tests) (t_rands s.1))) ->
  (selects which_test "resize" = true ->
     tbl_takes (allow := 1) (cap := cap) (test_keys (tests := tests) (resize_rands which_test s))) ->
  match fate which_test s with
  | Ok _ =>
      if selects which_test "htable" || selects which_test "rwl" || selects which_test "resize"
      then exists s', tester_main tests now choices opts s = Ok (0, s')
      else tester_main tests now choices opts s = Fault (Exited 1)
  | Fault e => tester_main tests now choices opts s = Fault e
  end.
Proof.
  intros Hopts Hready Htakes0 Htakes1. unfold tester_main, fate.
  rewrite (bind_Ok _ _ _ (num_threads, which_test) s) by (unfold lift; by rewrite Hopts).
  unfold resize_rands in *. set (b1 := selects which_test "htable") in *. set (b2 := selects which_test "rwl").
  set (b3 := selects which_test "resize") in *.
  set (k1 := (t_rands s.1 + if b1 then 49 * Z.to_nat tests else 0)%nat) in *.
  pose proof (hash_block 0 b1 0 s Hready Htakes0) as Hs1.
  destruct (if b1 then hash_fate (t_rands s.1) else Ok tt) as [[]|e]; [|by apply bind_Fault].
  destruct Hs1 as (s1 & Hr1 & Hready1 & Hk1 & Hl1). rewrite (bind_Ok _ _ _ _ _ Hr1).
  pose proof (rwl_block b2 (if b1 then 0 + 1 else 0) s1) as Hs2. rewrite Hl1 in Hs2.
  cbn [mbind result_bind].
  destruct (if b2 then rwl_fate (b_ticks s.2) else Ok tt) as [[]|e]; [|by apply bind_Fault].
  destruct Hs2 as (s2 & Hr2 & Hl2). rewrite (bind_Ok _ _ _ _ _ Hr2). set (n := if b2 then _ else _).
  apply ready_switch in Hready1. rewrite <- Hl2 in Hready1.
  pose proof (hash_block 1 b3 n s2 Hready1) as Hs3. rewrite Hl2, Hk1 in Hs3. fold k1 in Hs3. specialize (Hs3 Htakes1).
  cbn [mbind result_bind].
  destruct (if b3 then hash_fate k1 else Ok tt) as [[]|e]; [|by apply bind_Fault].
  destruct Hs3 as (s3 & Hr3 & _). rewrite (bind_Ok _ _ _ _ _ Hr3).
  subst n. by destruct b1, b2, b3; try (by exists s3).
Qed.
End verdict.

(** ** A run *)

Definition example_state : test (words * htable) * basic (nat * bool) :=
  (example_test, Basic (0%nat, false) 0 []).

Definition still_clock (k : nat) : timespec := Timespec 7 500.

(** Three keys are few. *)
Lemma three_keys_few k0 : few_equal_hashes (@test_keys (example_platform Z.of_nat) 3 k0).
Proof.
  apply few_keys. unfold test_keys. etransitivity; [apply inj_le, size_of_list|].
  by rewrite length_fmap, length_seqZ.
Qed.

(** The table of [htable.c], two threads and all tests; then a name that
    chooses none. *)
Lemma tester_main_correct_witness :
  (exists s', @tester_main (example_platform Z.of_nat) _ _ (@htable_table lowest_free) counting_lock writers_first 3
      still_clock passing [(110, codes "2")] example_state = Ok (0, s')) /\
  @tester_main (example_platform Z.of_nat) _ _ (@htable_table lowest_free) counting_lock writers_first 3
      still_clock passing [(116, codes "htable2"); (110, codes "2")] example_state = Fault (Exited 1).
Proof.
  assert (Hended : exists s, @TestRwlock.run writers_first passing start = Some s /\
    (main_pc s = M_passed \/ main_pc s = M_fatal)).
  { pose proof passing_run as Hp. destruct (@TestRwlock.run writers_first passing start) as [s|]; [|discriminate].
    exists s. split; [reflexivity|]. left. injection Hp as Hp. exact Hp. }
  assert (Hrows : Forall (fun row => length row = 50%nat) (t_keys example_state.1))
    by (by apply Forall_replicate).
  pose (spec := fun allow => @htable_spec lowest_free lowest_free_laws 100 (lowest_free_serves 100 ltac:(lia))
    (heap example_world) allow 10 ltac:(vm_compute; lia) ltac:(lia)).
  pose proof (fun which opts => @tester_main_correct (example_platform Z.of_nat) 3 2
    (example_platform_spec Z.of_nat ltac:(lia)) _ _ (@htable_table lowest_free) 10 (spec 0) (spec 1)
    counting_lock counting_lock_spec writers_first writers_first_priority still_clock passing
    ltac:(unfold TESTSZ; lia) ltac:(lia) ltac:(lia) (fun t => conj (fun h => h) (fun h => h))
    (fun k => eq_refl) Hended opts which example_state) as Hmain.
  split.
  - specialize (Hmain (codes "all") [(110, codes "2")] eq_refl (conj eq_refl (conj eq_refl Hrows))
      (fun _ => or_introl eq_refl) (fun _ => or_intror (three_keys_few _))).
    match type of Hmain with match ?f with _ => _ end => assert (Hf : f = Ok tt) by (vm_compute; reflexivity) end.
    rewrite Hf in Hmain. exact Hmain.
  - specialize (Hmain (codes "htable2") [(116, codes "htable2"); (110, codes "2")] eq_refl
      (conj eq_refl (conj eq_refl Hrows)) (fun _ => or_introl eq_refl) (fun _ => or_intror (three_keys_few _))).
    match type of Hmain with match ?f with _ => _ end => assert (Hf : f = Ok tt) by (vm_compute; reflexivity) end.
    rewrite Hf in Hmain. exact Hmain.
Defined.
