(* ===== verification/Tree.v ===== *)
(** * Sorted binary trees of strings ([clab/mini/part7.c])

    The abstract trees of the comments in part7.c, the interface of the five
    functions the student writes, and its contract. *)

From Stdlib Require Import Sorting.Sorted.
From stdpp Require Import sorting.
From S2P Require Import Prelude Words Primes.

(** ** The order of [strcmp] *)

Definition str_lt (a b : list Z) : Prop := strcmp a b < 0.
Definition str_le (a b : list Z) : Prop := strcmp a b <= 0.

#[export] Instance str_lt_dec a b : Decision (str_lt a b).
Proof. unfold str_lt. apply _. Defined.
#[export] Instance str_le_dec a b : Decision (str_le a b).
Proof. unfold str_le. apply _. Defined.

Lemma strcmp_antisym a b : strcmp b a = - strcmp a b.
Proof.
  revert b; induction a as [|x a IH]; intros [|y b]; simpl; try lia.
  rewrite (Z.eqb_sym y x). destruct (x =? y); [apply IH|lia].
Qed.

#[export] Instance str_lt_antisym : AntiSymm (=) str_lt.
Proof. intros a b. unfold str_lt. rewrite (strcmp_antisym a b). lia. Qed.
#[export] Instance str_le_total : Total str_le.
Proof. intros a b. unfold str_le. rewrite (strcmp_antisym a b). lia. Qed.

Lemma strcmp_refl a : strcmp a a = 0.
Proof. induction a as [|x a IH]; simpl; [done|]. by rewrite Z.eqb_refl. Qed.

Lemma ascii_cons x a : ascii (x :: a) <-> 0 < x < 128 /\ ascii a.
Proof. unfold ascii. by rewrite Forall_cons. Qed.

Lemma strcmp_0 a b : ascii a -> ascii b -> strcmp a b = 0 -> a = b.
Proof.
  revert b; induction a as [|x a IH]; intros [|y b]; rewrite ?ascii_cons; simpl; try done.
  - intros _ [Hy _]. rewrite u8_id by lia. intros; lia.
  - intros [Hx _] _. rewrite u8_id by lia. intros; lia.
  - intros [Hx Ha] [Hy Hb]. rewrite !u8_id by lia.
    destruct (Z.eqb_spec x y) as [->|]; [|intros; lia]. intros E. f_equal. by apply IH.
Qed.

Lemma str_lt_trans a b c :
  ascii a -> ascii b -> ascii c -> str_lt a b -> str_lt b c -> str_lt a c.
Proof.
  unfold str_lt. revert b c. induction a as [|x a IH]; intros [|y b] [|z c] Ha Hb Hc;
    rewrite ?ascii_cons in *; destruct_and?; simpl; rewrite ?u8_id by lia; try lia.
  specialize (IH b c). destruct (Z.eqb_spec x y), (Z.eqb_spec y z), (Z.eqb_spec x z); subst; try lia. auto.
Qed.

(** ** Trees *)

Inductive bst :=
  | Leaf
  | Node (l : bst) (s : list Z) (r : bst).

(** A tree is sorted the way insertion keeps it; a string that is there
    already is not inserted again. *)
Fixpoint bst_insert (s : list Z) (t : bst) : bst :=
  match t with
  | Leaf => Node Leaf s Leaf
  | Node l x r =>
      if strcmp s x <? 0 then Node (bst_insert s l) x r
      else if strcmp s x =? 0 then t
      else Node l x (bst_insert s r)
  end.

Fixpoint nodes_in (t : bst) : list (list Z) :=
  match t with Leaf => [] | Node l s r => nodes_in l ++ s :: nodes_in r end.

Fixpoint nodes_pre (t : bst) : list (list Z) :=
  match t with Leaf => [] | Node l s r => s :: nodes_pre l ++ nodes_pre r end.

(** Strings stored into an array from its start. *)
Definition store_all (strs : list (list Z)) (arr : list (option (list Z))) : list (option (list Z)) :=
  (Some <$> strs) ++ drop (length strs) arr.

(** ** The interface and its contract *)

(** The functions of part7.c on a memory [M]; a tree is a pointer, a string
    what its pointer points to.  The traversals get the array they store
    into. *)
Class Tree (M : Type) := {
  init_tree : ST M Z;
  insert : Z -> list Z -> ST M Z;
  preorder : Z -> list (option (list Z)) -> Z -> ST M (Z * list (option (list Z)));
  inorder : Z -> list (option (list Z)) -> Z -> ST M (Z * list (option (list Z)));
  del_tree : Z -> ST M unit;
}.

(** The contract in the comments, for trees of at most [cap] nodes. *)
Class TreeSpec (M : Type) `{Tree M} (cap : nat) := {
  mem_idle : M -> Prop;
  tree_at : M -> Z -> bst -> Prop;
  init_tree_spec m :
    mem_idle m -> exists p m', init_tree m = Ok (p, m') /\ tree_at m' p Leaf;
  insert_spec m p t s :
    tree_at m p t -> ascii s -> (length (nodes_in t) < cap)%nat ->
    exists m', insert p s m = Ok (if bool_decide (s ∈ nodes_in t) then 1 else 0, m') /\
      tree_at m' p (bst_insert s t);
  preorder_spec m p t arr max :
    tree_at m p t -> Z.of_nat (length (nodes_in t)) <= max <= Z.of_nat (length arr) ->
    exists m', preorder p arr max m =
        Ok ((Z.of_nat (length (nodes_pre t)), store_all (nodes_pre t) arr), m') /\ tree_at m' p t;
  inorder_spec m p t arr max :
    tree_at m p t -> Z.of_nat (length (nodes_in t)) <= max <= Z.of_nat (length arr) ->
    exists m', inorder p arr max m =
        Ok ((Z.of_nat (length (nodes_in t)), store_all (nodes_in t) arr), m') /\ tree_at m' p t;
  del_tree_spec m p t :
    tree_at m p t -> exists m', del_tree p m = Ok (tt, m') /\ mem_idle m';
}.

(** As handed out: the functions have no [return], and the root that
    [init_tree] passes on has no value. *)
Definition shipped_tree : Tree unit := {|
  init_tree _ := Fault Undefined;
  insert _ _ _ := Fault Undefined;
  preorder _ _ _ _ := Fault Undefined;
  inorder _ _ _ _ := Fault Undefined;
  del_tree _ m := Ok (tt, m);
|}.

(** The abstract trees themselves, one at a time, as an instance. *)
Definition plain_tree : Tree bst := {|
  init_tree _ := Ok (1, Leaf);
  insert _ s t := Ok (if bool_decide (s ∈ nodes_in t) then 1 else 0, bst_insert s t);
  preorder _ arr _ t := Ok ((Z.of_nat (length (nodes_pre t)), store_all (nodes_pre t) arr), t);
  inorder _ arr _ t := Ok ((Z.of_nat (length (nodes_in t)), store_all (nodes_in t) arr), t);
  del_tree _ t := Ok (tt, Leaf);
|}.

Lemma plain_tree_spec cap : @TreeSpec bst plain_tree cap.
Proof.
  refine {| mem_idle _ := True; tree_at m _ t := m = t |}; simpl.
  - intros m _. by exists 1, Leaf.
  - intros m p t s -> _ _. by eexists.
  - intros m p t arr max -> _. by exists t.
  - intros m p t arr max -> _. by exists t.
  - intros m p t _. by exists Leaf.
Defined.

(** ** Sorted trees *)

Lemma elem_of_bst_insert s t x :
  x ∈ nodes_in (bst_insert s t) -> x = s \/ x ∈ nodes_in t.
Proof.
  induction t as [|l IHl y r IHr]; simpl; [by intros ->%list_elem_of_singleton; left|].
  repeat case_match; simpl; rewrite ?elem_of_app, ?elem_of_cons; tauto.
Qed.

Lemma bst_insert_nodes s t :
  Forall ascii (nodes_in t) -> ascii s -> StronglySorted str_lt (nodes_in t) ->
  StronglySorted str_lt (nodes_in (bst_insert s t)) /\
  (forall x, x ∈ nodes_in (bst_insert s t) <-> x = s \/ x ∈ nodes_in t).
Proof.
  intros Ht Hs. induction t as [|l IHl y r IHr]; simpl.
  - intros _. split; [by repeat constructor|]. intros x. rewrite list_elem_of_singleton, elem_of_nil. tauto.
  - simpl in Ht. apply Forall_app in Ht as [Hl [Hy Hr]%Forall_cons].
    rewrite StronglySorted_app. intros (Hlt & Hsl & [Hsr Hyr]%StronglySorted_inv).
    specialize (IHl Hl Hsl) as [IHl IHl']. specialize (IHr Hr Hsr) as [IHr IHr'].
    destruct (Z.ltb_spec (strcmp s y) 0) as [Hlt'|Hge]; [|destruct (Z.eqb_spec (strcmp s y) 0) as [He|Hne]]; simpl.
    + split; [|intros x; rewrite !elem_of_app, IHl'; tauto].
      rewrite StronglySorted_app. split; [|split; [done|by constructor]].
      intros x1 x2 [->|H1]%IHl' H2; [|by apply Hlt].
      apply elem_of_cons in H2 as [->|H2]; [done|].
      rewrite Forall_forall in Hyr. rewrite Forall_forall in Hr.
      apply (str_lt_trans s y); auto.
    + apply strcmp_0 in He as ->; [|done..]. split.
      * rewrite StronglySorted_app. split; [done|split; [done|by constructor]].
      * intros x. rewrite !elem_of_app, !elem_of_cons. tauto.
    + split; [|intros x; rewrite !elem_of_app, !elem_of_cons, IHr'; tauto].
      assert (Hys : str_lt y s) by (unfold str_lt; rewrite strcmp_antisym; lia).
      rewrite StronglySorted_app. split; [|split; [done|constructor; [done|]]].
      * intros x1 x2 H1 H2. apply elem_of_cons in H2 as [->|[->|H2]%IHr']; [apply Hlt; [done|left]| |apply Hlt; [done|by right]].
        apply (str_lt_trans x1 y); [|done|done|apply Hlt; [done|left]|done].
        rewrite Forall_forall in Hl. by apply Hl.
      * apply Forall_forall. intros x [->|Hx]%IHr'; [done|].
        rewrite Forall_forall in Hyr. by apply Hyr.
Qed.
