(* ===== verification/TreeHarness.v ===== *)
(** * The harness of the tree exercise ([clab/mini/part7_harness.c])

    The program over any [Tree]: five fixed trees traversed in preorder and in
    order, a thousand random strings with duplicates, and the run for the
    challenge question. *)

From Stdlib Require Import Sorting.Sorted.
From stdpp Require Import sorting.
From S2P Require Import Prelude Words Primes TraceFile Tree.

(** Ends the program with a message unless the condition holds. *)
Definition panic_cond (b : bool) : result unit := assert_ b.

(** [qsort] with [strcmp_for_qsort]: equal strings cannot be told apart. *)
Definition qsort (strs : list (list Z)) : list (list Z) := merge_sort str_le strs.

Definition NUM_NODES : Z := 5.

(** Three times the digit [d]. *)
Definition digits3 (d : Z) : list Z := replicate 3 (48 + d).

Definition test_strings : list (list (list Z)) :=
  map (map digits3) [[0; 1; 2; 3; 4]; [4; 3; 2; 1; 0]; [2; 1; 3; 0; 4]; [0; 1; 3; 2; 4]; [2; 0; 4; 1; 3]].

Definition preorder_results : list (list (list Z)) :=
  map (map digits3) [[0; 1; 2; 3; 4]; [4; 3; 2; 1; 0]; [2; 1; 0; 3; 4]; [0; 1; 3; 2; 4]; [2; 0; 1; 4; 3]].

(** The debugging text of an array of strings, in a buffer of 10000 bytes; it
    is made before [panic_cond] looks at its condition. *)
Definition concat_strings (strs : list (option (list Z))) (n : Z) : result (list Z) :=
  foldM (fun text j =>
    s ← cell_get strs j;
    let text := text ++ s ++ [32] in
    guard_ (Z.of_nat (length text) <? 10000);; Ok text) [] (seqZ 0 n).

Section harness.
(** [served] tells whether [malloc] serves the harness' own requests, [rand k]
    is the [k]-th number of [rand]. *)
Context {M : Type} `{Tree M} (served : bool) (rand : nat -> Z).

(** The memory of the trees and the numbers drawn so far. *)
Record harness := Harness { h_mem : M; h_rands : nat }.

Definition on_tree {B} (c : ST M B) : ST harness B := fun s =>
  match c (h_mem s) with
  | Ok (b, m) => Ok (b, Harness m (h_rands s))
  | Fault e => Fault e
  end.

Definition next_rand : ST harness Z := fun s =>
  Ok (rand (h_rands s), Harness (h_mem s) (S (h_rands s))).

(** [n_chars] digits from 1 to 9. *)
Definition rand_string (n_chars : Z) : ST harness (list Z) :=
  foldM (fun str _ => r ← next_rand; mret (str ++ [Z.rem r 9 + 49])) [] (seqZ 0 n_chars).

Definition gen_rand_strings (num_strings n_chars : Z) : ST harness (list (list Z)) :=
  foldM (fun strs _ =>
    lift (guard_ served);; s ← rand_string n_chars; mret (strs ++ [s])) []
    (seqZ 0 num_strings).

(** One round of the first two loops of [main]: a tree of the strings [strs],
    traversed by [traverse] into [result], then compared with [expected]. *)
Definition compare_at (expected : list (list Z)) (result : list (option (list Z))) (j : Z)
    : ST harness unit :=
  e ← lift (arr_get expected j);
  g ← lift (cell_get result j);
  lift (assert_ served);;
  lift (concat_strings (Some <$> expected) NUM_NODES);;
  lift (concat_strings result NUM_NODES);;
  lift (panic_cond (strcmp e g =? 0)).

Definition fixed_round
    (traverse : Z -> list (option (list Z)) -> Z -> ST M (Z * list (option (list Z))))
    (strs expected : list (list Z)) (result : list (option (list Z)))
    : ST harness (list (option (list Z))) :=
  tree ← on_tree init_tree;
  foldM (fun _ s => ret ← on_tree (insert tree s); lift (panic_cond (ret =? 0))) tt strs;;
  r ← on_tree (traverse tree result NUM_NODES);
  let '(ret, result) := r in
  lift (panic_cond (ret =? NUM_NODES));;
  foldM (fun _ j => compare_at expected result j) tt (seqZ 0 NUM_NODES);;
  on_tree (del_tree tree);;
  mret result.

Definition fixed_tests : ST harness unit :=
  lift (guard_ served);;
  let sorted := qsort (default [] (head test_strings)) in
  result ← foldM (fun result '(strs, expected) => fixed_round preorder strs expected result)
             (replicate (Z.to_nat NUM_NODES) None) (zip test_strings preorder_results);
  foldM (fun result strs => fixed_round inorder strs sorted result) result test_strings;;
  mret tt.

(** One turn of the loop that inserts the random strings. *)
Definition insert_seen (num_nodes tree : Z) (seen_before : list bool) (s : list Z)
    : ST harness (list bool) :=
  val ← lift (atoi s);
  lift (assert_ ((0 <? val) && (val <? num_nodes)));;
  ret ← on_tree (insert tree s);
  b ← lift (arr_get seen_before val);
  if negb b then
    lift (panic_cond (ret =? 0));; lift (arr_set seen_before val true)
  else lift (panic_cond (ret =? 1));; mret seen_before.

(** One turn of the loop that skips equal neighbours. *)
Definition keep_new (num_nodes : Z) (nodup : list (list Z)) (s : list Z) : result (list (list Z)) :=
  let nodup_i := Z.of_nat (length nodup) in
  differs ← (if nodup_i =? 0 then Ok true
             else p ← arr_get nodup (nodup_i - 1); Ok (negb (strcmp s p =? 0)));
  if differs : bool then guard_ (nodup_i <? num_nodes);; Ok (nodup ++ [s]) else Ok nodup.

Definition duplicates_test (num_nodes : Z) : ST harness unit :=
  strings ← gen_rand_strings num_nodes 3;
  lift (guard_ served);;
  tree ← on_tree init_tree;
  foldM (insert_seen num_nodes tree) (replicate (Z.to_nat num_nodes) false) strings;;
  let strings := qsort strings in
  nodup ← lift (foldM (keep_new num_nodes) [] strings);
  let nodup_i := Z.of_nat (length nodup) in
  r ← on_tree (inorder tree (replicate (Z.to_nat num_nodes) None) num_nodes);
  let '(ret, result) := r in
  lift (panic_cond (ret =? nodup_i));;
  foldM (fun _ i =>
    g ← lift (cell_get result i);
    e ← lift (arr_get nodup i);
    lift (panic_cond (strcmp g e =? 0))) tt (seqZ 0 nodup_i);;
  on_tree (del_tree tree).

Definition insert_strings (strs : list (list Z)) : ST harness unit :=
  tree ← on_tree init_tree;
  foldM (fun _ s => on_tree (insert tree s);; mret tt) tt strs;;
  on_tree (del_tree tree).

Definition challenge_question (num_nodes : Z) : ST harness unit :=
  strings ← gen_rand_strings num_nodes 20;
  insert_strings strings;;
  insert_strings (qsort strings).

(** The option loop: [opts] is what [getopt] returns, with the arguments. *)
Fixpoint num_nodes_option (opts : list (Z * list Z)) : result Z :=
  match opts with
  | [] => Ok 0
  | (c, optarg) :: opts => if c =? 110 then atoi optarg else num_nodes_option opts
  end.

Definition harness_main (argc : Z) (opts : list (Z * list Z)) : ST harness Z :=
  if argc >? 1 then
    num_nodes ← lift (num_nodes_option opts);
    if num_nodes <=? 0 then lift (Fault (Exited 1))
    else challenge_question num_nodes;; mret 0
  else
    fixed_tests;;
    duplicates_test 1000;;
    mret 0.
End harness.
Arguments harness M : clear implicits.
Arguments Harness {M} h_mem h_rands.
Arguments h_mem {M} _.
Arguments h_rands {M} _.
