(* ===== verification/TreeHarnessSpec.v ===== *)
(** * Properties of the tree harness

    Any tree that meets the contract of part7.c passes the harness. *)

From Stdlib Require Import Sorting.Sorted.
From stdpp Require Import sorting.
From S2P Require Import Prelude Words Primes TraceFile Tree TreeHarness.

(** ** Trees of strings *)

Definition insert_all (strs : list (list Z)) (t : bst) : bst :=
  foldl (fun t s => bst_insert s t) t strs.

Definition sorted_tree (t : bst) : Prop :=
  Forall ascii (nodes_in t) /\ StronglySorted str_lt (nodes_in t).

Lemma sorted_insert s t : sorted_tree t -> ascii s -> sorted_tree (bst_insert s t).
Proof.
  intros [Ha Hs] Has. split; [|by apply bst_insert_nodes].
  apply Forall_forall. intros x [->|Hx]%elem_of_bst_insert; [done|].
  rewrite Forall_forall in Ha. by apply Ha.
Qed.

Lemma insert_length s t : (length (nodes_in (bst_insert s t)) <= S (length (nodes_in t)))%nat.
Proof.
  induction t as [|l IHl y r IHr]; simpl; [lia|].
  repeat case_match; simpl; rewrite !length_app; simpl; lia.
Qed.

Lemma pre_in_length t : length (nodes_pre t) = length (nodes_in t).
Proof. induction t as [|l IHl s r IHr]; simpl; [done|]. rewrite !length_app. simpl. lia. Qed.

Lemma str_lt_irrefl s : ~ str_lt s s.
Proof. unfold str_lt. rewrite strcmp_refl. lia. Qed.

Lemma sorted_NoDup l : StronglySorted str_lt l -> NoDup l.
Proof.
  induction 1 as [|s l _ IH Hs]; constructor; [|done].
  rewrite Forall_forall in Hs. intros Hin. by apply (str_lt_irrefl s), Hs.
Qed.

(** Two strictly sorted lists with the same elements are the same. *)
Lemma sorted_unique l k :
  StronglySorted str_lt l -> StronglySorted str_lt k -> (forall x, x ∈ l <-> x ∈ k) -> l = k.
Proof.
  intros Hl Hk He. apply (StronglySorted_unique str_lt); [done..|].
  apply NoDup_Permutation; [by apply sorted_NoDup..|done].
Qed.

Lemma length_store_all strs arr :
  (length strs <= length arr)%nat -> length (store_all strs arr) = length arr.
Proof. intros. unfold store_all. rewrite length_app, length_fmap, length_drop. lia. Qed.

Lemma store_all_exact strs arr : length strs = length arr -> store_all strs arr = Some <$> strs.
Proof. intros E. unfold store_all. by rewrite drop_ge, app_nil_r by lia. Qed.

Lemma cell_get_store strs arr i s :
  strs !! i = Some s -> cell_get (store_all strs arr) (Z.of_nat i) = Ok s.
Proof.
  intros Hi. unfold cell_get, store_all. rewrite (arr_get_ok _ _ (Some s)); [done|lia|].
  rewrite Nat2Z.id, lookup_app_l by (rewrite length_fmap; by eapply lookup_lt_Some).
  by rewrite list_lookup_fmap, Hi.
Qed.

(** ** Random strings of digits *)

Definition digits_str (n : nat) (s : list Z) : Prop :=
  length s = n /\ Forall (fun c => 49 <= c <= 57) s.

Lemma digits_ascii n s : digits_str n s -> ascii s.
Proof. intros [_ Hs]. eapply Forall_impl; [exact Hs|]. simpl. lia. Qed.

Lemma atoi_digits s :
  digits_str 3 s -> atoi s = Ok (digits_value s) /\ 0 < digits_value s < 1000.
Proof.
  intros [Hl Hs]. destruct s as [|a [|b [|c [|]]]]; try done.
  rewrite !Forall_cons in Hs. destruct Hs as (Ha & Hb & Hc & _).
  assert (Hd : forall x, 49 <= x <= 57 -> is_digit x = true).
  { intros x Hx. unfold is_digit. by rewrite !(proj2 (Z.leb_le _ _)) by lia. }
  unfold atoi, scan_d. simpl skip_space. rewrite digit_not_space by auto.
  rewrite digit_not_sign by auto. simpl span. rewrite !Hd by done.
  unfold digits_value. simpl. rewrite int_ok by lia. split; [done|lia].
Qed.

Lemma digits_value_inj s s' :
  digits_str 3 s -> digits_str 3 s' -> digits_value s = digits_value s' -> s = s'.
Proof.
  intros [Hl Hs] [Hl' Hs']. destruct s as [|a [|b [|c [|]]]]; try done.
  destruct s' as [|a' [|b' [|c' [|]]]]; try done.
  rewrite !Forall_cons in Hs, Hs'. destruct Hs as (Ha & Hb & Hc & _), Hs' as (Ha' & Hb' & Hc' & _).
  unfold digits_value. simpl. intros E. repeat f_equal; lia.
Qed.

(** ** Parts of the harness *)

Section parts.
Context {M : Type} `{TreeSpec M cap} (rand : nat -> Z) (Hrand : forall k, 0 <= rand k).
Implicit Types (h : harness M).

Lemma on_tree_run {B} (c : ST M B) h b m :
  c (h_mem h) = Ok (b, m) -> on_tree c h = Ok (b, Harness m (h_rands h)).
Proof. intros E. unfold on_tree. by rewrite E. Qed.

Lemma rand_string_run n : forall str h a, Forall (fun c => 49 <= c <= 57) str ->
  exists s k, foldM (fun str _ => r ← next_rand rand; mret (str ++ [Z.rem r 9 + 49])) str
      (seqZ a (Z.of_nat n)) h = Ok (s, Harness (h_mem h) k) /\
    digits_str (length str + n) s.
Proof.
  induction n as [|n IH]; intros str h a Hstr.
  - exists str, (h_rands h). split; [by destruct h|]. split; [lia|done].
  - rewrite seqZ_cons by lia. cbn [foldM]. replace (Z.pred (Z.of_nat (S n))) with (Z.of_nat n) by lia.
    erewrite bind_Ok; [|done].
    destruct (IH (str ++ [Z.rem (rand (h_rands h)) 9 + 49]) (Harness (h_mem h) (S (h_rands h)))
      (Z.succ a)) as (s & k & Hrun & Hs).
    { apply Forall_app. split; [done|]. apply Forall_singleton. specialize (Hrand (h_rands h)).
      rewrite Z.rem_mod_nonneg by lia. dlia. }
    exists s, k. split; [exact Hrun|]. rewrite length_app in Hs. simpl in Hs.
    by replace (length str + S n)%nat with (length str + 1 + n)%nat by lia.
Qed.

Lemma gen_rand_strings_run num n : forall strs h a,
  Forall (digits_str n) strs ->
  exists strs' k, foldM (fun strs _ =>
      lift (guard_ true);; s ← rand_string rand (Z.of_nat n); mret (strs ++ [s])) strs
      (seqZ a (Z.of_nat num)) h = Ok (strs', Harness (h_mem h) k) /\
    length strs' = (length strs + num)%nat /\ Forall (digits_str n) strs'.
Proof.
  induction num as [|num IH]; intros strs h a Hstrs.
  - exists strs, (h_rands h). split; [by destruct h|]. split; [lia|done].
  - rewrite seqZ_cons by lia. cbn [foldM]. replace (Z.pred (Z.of_nat (S num))) with (Z.of_nat num) by lia.
    destruct (rand_string_run n [] h 0 ltac:(constructor)) as (s & k & Hs & Hd).
    rewrite (bind_Ok _ _ _ (strs ++ [s]) (Harness (h_mem h) k)).
    2: { erewrite bind_Ok; [|done]. unfold rand_string. by rewrite (bind_Ok _ _ _ _ _ Hs). }
    destruct (IH (strs ++ [s]) (Harness (h_mem h) k) (Z.succ a)) as (strs' & k' & Hrun & Hl & Hall).
    { apply Forall_app. split; [done|]. by apply Forall_singleton. }
    exists strs', k'. split; [exact Hrun|]. split; [|done]. rewrite Hl, length_app. simpl. lia.
Qed.

(** Insertion of strings whose answers are not looked at. *)
Lemma insert_all_run p strs : forall h t,
  tree_at (h_mem h) p t -> Forall ascii strs -> (length (nodes_in t) + length strs <= cap)%nat ->
  exists m, foldM (fun _ s => on_tree (insert p s);; mret tt) tt strs h = Ok (tt, Harness m (h_rands h)) /\
    tree_at m p (insert_all strs t).
Proof.
  induction strs as [|s strs IH]; intros h t Hat Hstrs Hcap; simpl in Hcap.
  - exists (h_mem h). split; [by destruct h|done].
  - apply Forall_cons in Hstrs as [Hs Hstrs]. cbn [foldM].
    destruct (insert_spec _ _ _ s Hat Hs ltac:(lia)) as (m & Hrun & Hat').
    erewrite bind_Ok; [|erewrite bind_Ok; [done|by apply on_tree_run]].
    pose proof (insert_length s t).
    destruct (IH (Harness m (h_rands h)) (bst_insert s t)) as (m' & Hrun' & Hat''); [done|done|lia|].
    by exists m'.
Qed.

Lemma insert_strings_run strs h :
  mem_idle (h_mem h) -> Forall ascii strs -> (length strs <= cap)%nat ->
  exists m, insert_strings strs h = Ok (tt, Harness m (h_rands h)) /\ mem_idle m.
Proof.
  intros Hidle Hstrs Hcap. unfold insert_strings.
  destruct (init_tree_spec _ Hidle) as (p & m & Hrun & Hat).
  rewrite (bind_Ok _ _ _ _ _ (on_tree_run _ h _ _ Hrun)).
  destruct (insert_all_run p strs (Harness m (h_rands h)) Leaf Hat Hstrs) as (m' & Hrun' & Hat'); [simpl; lia|].
  rewrite (bind_Ok _ _ _ _ _ Hrun').
  destruct (del_tree_spec _ _ _ Hat') as (m'' & Hdel & Hidle').
  exists m''. split; [|done]. exact (on_tree_run _ (Harness m' (h_rands h)) _ _ Hdel).
Qed.

(** Insertion of strings that are all new. *)
Fixpoint all_new (strs : list (list Z)) (t : bst) : bool :=
  match strs with
  | [] => true
  | s :: strs => negb (bool_decide (s ∈ nodes_in t)) && all_new strs (bst_insert s t)
  end.

Lemma insert_new_run p strs : forall h t,
  tree_at (h_mem h) p t -> Forall ascii strs -> (length (nodes_in t) + length strs <= cap)%nat ->
  all_new strs t = true ->
  exists m, foldM (fun _ s => ret ← on_tree (insert p s); lift (panic_cond (ret =? 0))) tt strs h =
      Ok (tt, Harness m (h_rands h)) /\ tree_at m p (insert_all strs t).
Proof.
  induction strs as [|s strs IH]; intros h t Hat Hstrs Hcap Hnew; simpl in Hcap.
  - exists (h_mem h). split; [by destruct h|done].
  - apply Forall_cons in Hstrs as [Hs Hstrs]. apply andb_prop in Hnew as [Hs' Hnew]. cbn [foldM].
    destruct (insert_spec _ _ _ s Hat Hs ltac:(lia)) as (m & Hrun & Hat').
    apply negb_true_iff, bool_decide_eq_false in Hs'. rewrite bool_decide_false in Hrun by done.
    rewrite (bind_Ok _ _ _ tt (Harness m (h_rands h)))
      by (by rewrite (bind_Ok _ _ _ _ _ (on_tree_run _ h _ _ Hrun))).
    pose proof (insert_length s t).
    destruct (IH (Harness m (h_rands h)) (bst_insert s t)) as (m' & Hrun' & Hat''); [done|done|lia|done|].
    by exists m'.
Qed.

(** ** The fixed trees *)

(** What a round needs: five new strings and the text of five expected ones,
    those of the tree. *)
Definition round_ok (nodes : bst -> list (list Z)) (strs expected : list (list Z)) : bool :=
  (length strs =? 5)%nat && (length expected =? 5)%nat && all_new strs Leaf &&
  bool_decide (Forall (Forall (fun c => 0 < c < 128)) strs) &&
  bool_decide (nodes (insert_all strs Leaf) = expected) &&
  match concat_strings (Some <$> expected) NUM_NODES with Ok _ => true | _ => false end.

Lemma compare_run expected text l h :
  concat_strings (Some <$> expected) NUM_NODES = Ok text ->
  (forall j, j ∈ l -> 0 <= j < Z.of_nat (length expected)) ->
  foldM (fun _ j => compare_at true expected (Some <$> expected) j) tt l h = Ok (tt, h).
Proof.
  intros Htext Hl. induction l as [|j l IH]; [done|]. cbn [foldM].
  rewrite (bind_Ok _ _ _ tt h); [apply IH; intros i Hi; apply Hl; by right|].
  destruct (lookup_lt_is_Some_2 expected (Z.to_nat j)) as [e He].
  { pose proof (Hl j ltac:(left)). lia. }
  pose proof (Hl j ltac:(left)) as Hj. unfold compare_at.
  rewrite (bind_Ok _ _ _ e h) by (unfold lift; by rewrite (arr_get_ok _ _ e) by (done || lia)).
  rewrite (bind_Ok _ _ _ e h).
  2: { unfold lift, cell_get. by rewrite (arr_get_ok _ _ (Some e)) by (lia || by rewrite list_lookup_fmap, He). }
  erewrite bind_Ok; [|done]. do 2 (rewrite (bind_Ok _ _ _ text h) by (unfold lift; by rewrite Htext)).
  by rewrite strcmp_refl.
Qed.

Lemma fixed_round_run traverse nodes strs expected arr h :
  (forall m p t arr max, tree_at m p t -> Z.of_nat (length (nodes_in t)) <= max <= Z.of_nat (length arr) ->
    exists m', traverse p arr max m = Ok ((Z.of_nat (length (nodes t)), store_all (nodes t) arr), m') /\
      tree_at m' p t) ->
  (forall t, length (nodes t) = length (nodes_in t)) ->
  (5 <= cap)%nat -> mem_idle (h_mem h) -> length arr = 5%nat -> round_ok nodes strs expected = true ->
  exists m, fixed_round true traverse strs expected arr h =
    Ok (Some <$> expected, Harness m (h_rands h)) /\ mem_idle m.
Proof.
  intros Htr Hlen Hcap Hidle Harr Hok. unfold round_ok in Hok.
  repeat apply andb_prop in Hok as [Hok ?]. rewrite ?Nat.eqb_eq, ?bool_decide_eq_true in *.
  destruct (concat_strings (Some <$> expected) NUM_NODES) as [text|] eqn:Htext; [|done].
  unfold fixed_round. destruct (init_tree_spec _ Hidle) as (p & m1 & Hinit & Hat1).
  rewrite (bind_Ok _ _ _ _ _ (on_tree_run _ h _ _ Hinit)).
  destruct (insert_new_run p strs (Harness m1 (h_rands h)) Leaf Hat1) as (m2 & Hins & Hat2);
    [done|simpl; lia|done|].
  rewrite (bind_Ok _ _ _ _ _ Hins). set (t := insert_all strs Leaf) in *.
  assert (Hn : length (nodes t) = 5%nat) by congruence.
  destruct (Htr m2 p t arr NUM_NODES Hat2) as (m3 & Hrun3 & Hat3).
  { rewrite <- Hlen, Hn, Harr. unfold NUM_NODES. lia. }
  rewrite (bind_Ok _ _ _ _ _ (on_tree_run _ (Harness m2 (h_rands h)) _ _ Hrun3)). cbv beta iota.
  rewrite Hn. erewrite bind_Ok; [|done]. rewrite store_all_exact by congruence.
  replace (nodes t) with expected by done.
  assert (Hrange : forall j, j ∈ seqZ 0 NUM_NODES -> 0 <= j < Z.of_nat (length expected))
    by (intros j [? ?]%elem_of_seqZ; unfold NUM_NODES in *; lia).
  rewrite (bind_Ok _ _ _ _ _ (compare_run expected text _ _ Htext Hrange)).
  destruct (del_tree_spec _ _ _ Hat3) as (m4 & Hdel & Hidle4).
  rewrite (bind_Ok _ _ _ _ _ (on_tree_run _ (Harness m3 (h_rands h)) _ _ Hdel)).
  by exists m4.
Qed.

Lemma rounds_run {X} traverse nodes (f g : X -> list (list Z)) F l : forall arr h,
  (forall m p t arr max, tree_at m p t -> Z.of_nat (length (nodes_in t)) <= max <= Z.of_nat (length arr) ->
    exists m', traverse p arr max m = Ok ((Z.of_nat (length (nodes t)), store_all (nodes t) arr), m') /\
      tree_at m' p t) ->
  (forall t, length (nodes t) = length (nodes_in t)) ->
  (forall arr x, F arr x = fixed_round true traverse (f x) (g x) arr) ->
  (5 <= cap)%nat -> mem_idle (h_mem h) -> length arr = 5%nat ->
  Forall (fun x => round_ok nodes (f x) (g x) = true) l ->
  exists arr' m, foldM F arr l h = Ok (arr', Harness m (h_rands h)) /\ mem_idle m /\ length arr' = 5%nat.
Proof.
  intros arr h Htr Hlen HF Hcap. revert arr h. induction l as [|x l IH]; intros arr h Hidle Harr Hok.
  - exists arr, (h_mem h). split; [by destruct h|done].
  - apply Forall_cons in Hok as [Hx Hok]. cbn [foldM]. rewrite HF.
    destruct (fixed_round_run traverse nodes _ _ arr h Htr Hlen Hcap Hidle Harr Hx) as (m & Hrun & Hidle').
    rewrite (bind_Ok _ _ _ _ _ Hrun).
    apply (IH (Some <$> g x) (Harness m (h_rands h))); [done| |done].
    rewrite length_fmap. unfold round_ok in Hx. repeat apply andb_prop in Hx as [Hx ?].
    by rewrite ?Nat.eqb_eq in *.
Qed.

Lemma fixed_tests_run h :
  (5 <= cap)%nat -> mem_idle (h_mem h) ->
  exists m, fixed_tests true h = Ok (tt, Harness m (h_rands h)) /\ mem_idle m.
Proof.
  intros Hcap Hidle. unfold fixed_tests. erewrite bind_Ok; [|done].
  destruct (rounds_run preorder nodes_pre fst snd
    (fun result '(strs, expected) => fixed_round true preorder strs expected result)
    (zip test_strings preorder_results) (replicate (Z.to_nat NUM_NODES) None) h)
    as (arr & m & Hrun & Hidle1 & Harr); [apply preorder_spec|apply pre_in_length|by intros ? []|done|done|done| |].
  { apply (bool_decide_unpack _). vm_compute. exact I. }
  rewrite (bind_Ok _ _ _ _ _ Hrun).
  destruct (rounds_run inorder nodes_in (fun x => x) (fun _ => qsort (default [] (head test_strings)))
    (fun result strs => fixed_round true inorder strs (qsort (default [] (head test_strings))) result)
    test_strings arr (Harness m (h_rands h)))
    as (arr' & m' & Hrun' & Hidle' & _); [apply inorder_spec|done|done|done|done|done| |].
  { apply (bool_decide_unpack _). vm_compute. exact I. }
  rewrite (bind_Ok _ _ _ _ _ Hrun'). by exists m'.
Qed.

(** ** The strings with duplicates *)

(** [seen_before] knows the values of the strings in the tree. *)
Definition seen_inv (t : bst) (seen : list bool) : Prop :=
  sorted_tree t /\ Forall (digits_str 3) (nodes_in t) /\ length seen = 1000%nat /\
  forall s, digits_str 3 s -> seen !! Z.to_nat (digits_value s) = Some (bool_decide (s ∈ nodes_in t)).

Lemma insert_seen_run p s h t seen :
  tree_at (h_mem h) p t -> seen_inv t seen -> digits_str 3 s -> (length (nodes_in t) < cap)%nat ->
  exists m seen', insert_seen 1000 p seen s h = Ok (seen', Harness m (h_rands h)) /\
    tree_at m p (bst_insert s t) /\ seen_inv (bst_insert s t) seen'.
Proof.
  intros Hat (Hsorted & Hdig & Hlen & Hseen) Hs Hcap.
  destruct (atoi_digits s Hs) as [Hatoi Hv]. pose proof (digits_ascii 3 s Hs) as Ha.
  destruct (insert_spec _ _ _ s Hat Ha Hcap) as (m & Hrun & Hat').
  destruct (bst_insert_nodes s t (proj1 Hsorted) Ha (proj2 Hsorted)) as [_ Hnodes].
  assert (Hsorted' : sorted_tree (bst_insert s t)) by by apply sorted_insert.
  assert (Hdig' : Forall (digits_str 3) (nodes_in (bst_insert s t))).
  { apply Forall_forall. intros x [->|Hx]%Hnodes; [done|]. rewrite Forall_forall in Hdig. by apply Hdig. }
  unfold insert_seen. rewrite (bind_Ok _ _ _ (digits_value s) h) by (unfold lift; by rewrite Hatoi).
  rewrite (bind_Ok _ _ _ tt h).
  2: { unfold lift. by rewrite !(proj2 (Z.ltb_lt _ _)) by lia. }
  rewrite (bind_Ok _ _ _ _ _ (on_tree_run _ h _ _ Hrun)).
  rewrite (bind_Ok _ _ _ (bool_decide (s ∈ nodes_in t)) (Harness m (h_rands h))).
  2: { unfold lift. by rewrite (arr_get_ok _ _ (bool_decide (s ∈ nodes_in t))) by (lia || by apply Hseen). }
  case_bool_decide as Hin.
  - exists m, seen. split; [done|]. split; [done|]. split_and!; [done..|].
    intros x Hx. rewrite Hseen by done. f_equal. apply bool_decide_ext. rewrite Hnodes.
    split; [by right|by intros [->|?]].
  - exists m, (<[Z.to_nat (digits_value s) := true]> seen). split.
    { cbv iota. change (negb false) with true. cbv iota. erewrite bind_Ok; [|done].
      unfold lift. by rewrite arr_set_ok by lia. }
    split; [done|]. split_and!; [done|done|by rewrite length_insert|].
    intros x Hx. destruct (decide (x = s)) as [->|Hne].
    + rewrite list_lookup_insert_eq by lia. f_equal. symmetry. apply bool_decide_eq_true, Hnodes. by left.
    + rewrite list_lookup_insert_ne, Hseen; [|done|].
      * f_equal. apply bool_decide_ext. rewrite Hnodes. split; [by right|by intros [?|?]].
      * pose proof (proj2 (atoi_digits x Hx)). intros E. apply Hne, digits_value_inj; [done..|lia].
Qed.

Lemma insert_seen_all p strs : forall h t seen,
  tree_at (h_mem h) p t -> seen_inv t seen -> Forall (digits_str 3) strs ->
  (length (nodes_in t) + length strs <= cap)%nat ->
  exists m seen' t', foldM (insert_seen 1000 p) seen strs h = Ok (seen', Harness m (h_rands h)) /\
    tree_at m p t' /\ sorted_tree t' /\ (length (nodes_in t') <= length (nodes_in t) + length strs)%nat /\
    forall x, x ∈ nodes_in t' <-> x ∈ strs \/ x ∈ nodes_in t.
Proof.
  induction strs as [|s strs IH]; intros h t seen Hat Hinv Hstrs Hcap; simpl in Hcap.
  - exists (h_mem h), seen, t. split; [by destruct h|]. split; [done|]. split; [apply Hinv|].
    split; [lia|]. intros x. rewrite elem_of_nil. tauto.
  - apply Forall_cons in Hstrs as [Hs Hstrs]. cbn [foldM].
    destruct (insert_seen_run p s h t seen Hat Hinv Hs ltac:(lia)) as (m & seen' & Hrun & Hat' & Hinv').
    rewrite (bind_Ok _ _ _ _ _ Hrun). pose proof (insert_length s t).
    destruct (IH (Harness m (h_rands h)) (bst_insert s t) seen' Hat' Hinv' Hstrs ltac:(lia))
      as (m' & seen'' & t' & Hrun' & Hat'' & Hsorted & Hl & Hel).
    exists m', seen'', t'. split; [done|]. split; [done|]. split; [done|]. split; [simpl; lia|].
    intros x. rewrite Hel, elem_of_cons.
    destruct (bst_insert_nodes s t (proj1 (proj1 Hinv)) (digits_ascii 3 s Hs) (proj2 (proj1 Hinv))) as [_ Hn].
    rewrite Hn. tauto.
Qed.
End parts.

(** ** Sorting and skipping equal neighbours *)

Lemma qsort_spec strs :
  Forall ascii strs -> StronglySorted str_le (qsort strs) /\ qsort strs ≡ₚ strs.
Proof.
  intros Ha. assert (Hp : qsort strs ≡ₚ strs) by apply merge_sort_Permutation. split; [|done].
  assert (Ha' : Forall ascii (qsort strs)) by by rewrite Hp.
  assert (Hs : Sorted str_le (qsort strs)) by (apply Sorted_merge_sort; apply _).
  clear Hp Ha. induction Hs as [|s l Hs IH Hhd]; constructor; apply Forall_cons in Ha' as [Has Hal]; [by apply IH|].
  specialize (IH Hal). destruct l as [|y l]; constructor.
  - by inversion Hhd.
  - apply StronglySorted_inv in IH as [_ Hy]. apply Forall_cons in Hal as [Hay Hal].
    apply HdRel_inv in Hhd. rewrite !Forall_forall in *. intros x Hx. specialize (Hy x Hx).
    unfold str_le in *. destruct (decide (strcmp s y = 0)) as [E|].
    { apply strcmp_0 in E as ->; done. }
    destruct (decide (strcmp y x = 0)) as [E|].
    { apply strcmp_0 in E as <-; [done..|]. by apply Hal. }
    pose proof (str_lt_trans s y x Has Hay (Hal x Hx)) as Ht. unfold str_lt in Ht. lia.
Qed.

(** What is kept: a strictly sorted list below the rest. *)
Definition kept_inv (kept rest : list (list Z)) : Prop :=
  Forall ascii kept /\ StronglySorted str_lt kept /\
  forall x y, x ∈ kept -> y ∈ rest -> str_le x y.

Lemma keep_new_run n kept s rest :
  kept_inv kept (s :: rest) -> ascii s -> (forall y, y ∈ rest -> str_le s y) ->
  Z.of_nat (length kept) < n ->
  exists kept', keep_new n kept s = Ok kept' /\ kept_inv kept' rest /\
    (forall x, x ∈ kept' <-> x = s \/ x ∈ kept) /\ (length kept' <= S (length kept))%nat.
Proof.
  intros (Ha & Hsort & Hle) Hs Hrest Hn. unfold keep_new.
  assert (Hadd : (forall x, x ∈ kept -> str_lt x s) -> kept_inv (kept ++ [s]) rest /\
    forall x, x ∈ kept ++ [s] <-> x = s \/ x ∈ kept).
  { intros Hlt. split; [|intros x; rewrite elem_of_app, list_elem_of_singleton; tauto]. split_and!.
    - apply Forall_app. split; [done|by apply Forall_singleton].
    - apply StronglySorted_app. split; [|split; [done|by repeat constructor]].
      intros x y Hx ->%list_elem_of_singleton. auto.
    - intros x y Hx Hy. apply elem_of_app in Hx as [Hx| ->%list_elem_of_singleton]; [|auto].
      apply Hle; [done|by right]. }
  destruct (last kept) as [p|] eqn:Elast; [apply last_Some in Elast as [init ->]|apply last_None in Elast as ->]; swap 1 2.
  - exists [s]. cbn [length] in *. change (Z.of_nat 0) with 0 in *. rewrite Z.eqb_refl.
    cbn [mbind result_bind]. rewrite (proj2 (Z.ltb_lt 0 n)) by lia. split; [done|].
    destruct Hadd as [? ?]; [by intros x ?%elem_of_nil|]. split_and!; [done|done|simpl; lia].
  - rewrite (proj2 (Z.eqb_neq _ 0)) by (rewrite length_app; simpl; lia).
    rewrite (arr_get_ok _ _ p); [|rewrite length_app; simpl; lia|].
    2: { rewrite lookup_app_r by (rewrite length_app; simpl; lia).
         replace (_ - _)%nat with 0%nat by (rewrite length_app; simpl; lia). done. }
    cbn [mbind result_bind]. rewrite StronglySorted_app in Hsort. destruct Hsort as (Hip & Hsi & Hsp).
    destruct (Z.eqb_spec (strcmp s p) 0) as [E|Hne]; simpl.
    + apply strcmp_0 in E as ->; [|done|by apply Forall_app in Ha as [_ [? _]%Forall_cons]].
      exists (init ++ [p]). split; [done|]. split_and!; [|intros x; set_solver|lia].
      split; [done|]. split; [by apply StronglySorted_app|]. intros x y Hx Hy. apply Hle; [done|by right].
    + rewrite (proj2 (Z.ltb_lt _ _)) by done. exists ((init ++ [p]) ++ [s]). split; [done|].
      apply Forall_app in Ha as [Hai [Hap _]%Forall_cons].
      assert (Hps : str_lt p s).
      { pose proof (Hle p s ltac:(set_solver) ltac:(left)) as Hle'. unfold str_le, str_lt in *.
        rewrite (strcmp_antisym s p) in *. lia. }
      destruct Hadd as [? ?]; [|split_and!; [done|done|rewrite !length_app; simpl; lia]].
      intros x [Hx| ->%list_elem_of_singleton]%elem_of_app; [|done].
      apply (str_lt_trans x p s); [|done|done|apply Hip; [done|by left]|done].
      rewrite Forall_forall in Hai. by apply Hai.
Qed.

Lemma keep_new_all n rest : forall kept,
  kept_inv kept rest -> Forall ascii rest -> StronglySorted str_le rest ->
  Z.of_nat (length kept + length rest) <= n ->
  exists kept', foldM (keep_new n) kept rest = Ok kept' /\ StronglySorted str_lt kept' /\
    forall x, x ∈ kept' <-> x ∈ rest \/ x ∈ kept.
Proof.
  induction rest as [|s rest IH]; intros kept Hinv Ha Hs Hn; simpl in Hn.
  - exists kept. split; [done|]. split; [apply Hinv|]. intros x. rewrite elem_of_nil. tauto.
  - apply Forall_cons in Ha as [Has Ha]. apply StronglySorted_inv in Hs as [Hs Hle].
    rewrite Forall_forall in Hle. cbn [foldM].
    destruct (keep_new_run n kept s rest Hinv Has Hle ltac:(lia)) as (kept1 & -> & Hinv1 & Hel1 & Hl1).
    destruct (IH kept1 Hinv1 Ha Hs ltac:(lia)) as (kept' & Hrun & Hsort & Hel).
    exists kept'. split; [done|]. split; [done|]. intros x. rewrite Hel, Hel1, elem_of_cons. tauto.
Qed.

(** ** The whole program *)

Section whole.
Context {M : Type} `{TreeSpec M cap} (rand : nat -> Z) (Hrand : forall k, 0 <= rand k).
Implicit Types (h : harness M).

Lemma seen_start : seen_inv Leaf (replicate (Z.to_nat 1000) false).
Proof.
  split; [by repeat constructor|]. split; [constructor|]. split; [apply length_replicate|].
  intros s Hs. rewrite bool_decide_false by (by intros ?%elem_of_nil).
  apply lookup_replicate. split; [done|]. pose proof (proj2 (atoi_digits s Hs)). lia.
Qed.

(** The comparison of what [inorder] stored with the list without duplicates. *)
Lemma fixed_round_same strs arr l h :
  (forall i, i ∈ l -> 0 <= i < Z.of_nat (length strs)) ->
  foldM (fun _ i =>
    g ← lift (cell_get (store_all strs arr) i);
    e ← lift (arr_get strs i);
    lift (panic_cond (strcmp g e =? 0))) tt l h = Ok (tt, h).
Proof.
  intros Hl. induction l as [|i l IH]; [done|]. cbn [foldM].
  rewrite (bind_Ok _ _ _ tt h); [apply IH; intros j Hj; apply Hl; by right|].
  pose proof (Hl i ltac:(left)) as Hi.
  destruct (lookup_lt_is_Some_2 strs (Z.to_nat i)) as [s Hs]; [lia|].
  rewrite (bind_Ok _ _ _ s h).
  2: { unfold lift. rewrite <- (Z2Nat.id i) by lia. by rewrite (cell_get_store _ _ _ s). }
  rewrite (bind_Ok _ _ _ s h) by (unfold lift; by rewrite (arr_get_ok _ _ s) by (done || lia)).
  by rewrite strcmp_refl.
Qed.

Lemma duplicates_run num h :
  num = 1000 -> (1000 <= cap)%nat -> mem_idle (h_mem h) ->
  exists h', duplicates_test true rand num h = Ok (tt, h') /\ mem_idle (h_mem h').
Proof.
  intros Hnum Hcap Hidle. unfold duplicates_test.
  destruct (gen_rand_strings_run rand Hrand (Z.to_nat num) 3 [] h 0 ltac:(constructor))
    as (strs & k & Hgen & Hlen & Hstrs).
  rewrite Z2Nat.id in Hgen by lia. cbn [length Nat.add] in Hlen.
  rewrite (bind_Ok _ _ _ _ _ Hgen). erewrite bind_Ok; [|done].
  destruct (init_tree_spec _ Hidle) as (p & m1 & Hinit & Hat1).
  rewrite (bind_Ok _ _ _ _ _ (on_tree_run _ (Harness (h_mem h) k) _ _ Hinit)).
  assert (Hins : exists m2 seen t, foldM (insert_seen num p) (replicate (Z.to_nat num) false) strs
      (Harness m1 k) = Ok (seen, Harness m2 k) /\ tree_at m2 p t /\ sorted_tree t /\
      (length (nodes_in t) <= length strs)%nat /\ forall x, x ∈ nodes_in t <-> x ∈ strs).
  { rewrite Hnum. destruct (insert_seen_all p strs (Harness m1 k) Leaf _ Hat1 seen_start Hstrs)
      as (m2 & seen & t & Hins & Hat2 & Hsorted & Hl2 & Hel); [cbn [nodes_in length]; lia|].
    exists m2, seen, t. split; [exact Hins|]. split; [done|]. split; [done|]. split; [exact Hl2|].
    intros x. rewrite Hel. cbn [nodes_in]. rewrite elem_of_nil. tauto. }
  destruct Hins as (m2 & seen & t & Hins & Hat2 & Hsorted & Hl2 & Hel). rewrite (bind_Ok _ _ _ _ _ Hins).
  assert (Hascii : Forall ascii strs) by (eapply Forall_impl; [exact Hstrs|apply digits_ascii]).
  destruct (qsort_spec strs Hascii) as [Hqs Hqp].
  destruct (keep_new_all num (qsort strs) []) as (nodup & Hkeep & Hnd & Hnel).
  { split_and!; [constructor|constructor|by intros x y ?%elem_of_nil]. }
  { by rewrite Hqp. } { done. } { rewrite (Permutation_length Hqp). cbn [length]. lia. }
  assert (nodup = nodes_in t) as ->.
  { apply sorted_unique; [done|apply Hsorted|]. intros x. rewrite Hnel, Hel, Hqp, elem_of_nil. tauto. }
  erewrite bind_Ok; [|unfold lift; by rewrite Hkeep].
  destruct (inorder_spec m2 p t (replicate (Z.to_nat num) None) num Hat2) as (m3 & Hrun3 & Hat3).
  { rewrite length_replicate. lia. }
  rewrite (bind_Ok _ _ _ _ _ (on_tree_run _ (Harness m2 k) _ _ Hrun3)). cbv beta iota.
  rewrite Z.eqb_refl. erewrite bind_Ok; [|done].
  assert (Hrange : forall i, i ∈ seqZ 0 (Z.of_nat (length (nodes_in t))) ->
    0 <= i < Z.of_nat (length (nodes_in t))) by (intros i [? ?]%elem_of_seqZ; lia).
  rewrite (bind_Ok _ _ _ _ _ (fixed_round_same (nodes_in t) _ _ _ Hrange)).
  destruct (del_tree_spec _ _ _ Hat3) as (m4 & Hdel & Hidle4).
  exists (Harness m4 k). split; [|done]. exact (on_tree_run _ (Harness m3 k) _ _ Hdel).
Qed.

Lemma challenge_run n h :
  0 <= n -> (Z.to_nat n <= cap)%nat -> mem_idle (h_mem h) ->
  exists h', challenge_question true rand n h = Ok (tt, h') /\ mem_idle (h_mem h').
Proof.
  intros Hn Hcap Hidle. unfold challenge_question.
  destruct (gen_rand_strings_run rand Hrand (Z.to_nat n) 20 [] h 0 ltac:(constructor))
    as (strs & k & Hgen & Hlen & Hstrs).
  rewrite Z2Nat.id in Hgen by done. simpl in Hlen.
  assert (Hascii : Forall ascii strs) by (eapply Forall_impl; [exact Hstrs|apply digits_ascii]).
  destruct (qsort_spec strs Hascii) as [_ Hqp].
  rewrite (bind_Ok _ _ _ _ _ Hgen).
  destruct (insert_strings_run strs (Harness (h_mem h) k) Hidle Hascii ltac:(lia)) as (m1 & Hrun1 & Hidle1).
  rewrite (bind_Ok _ _ _ _ _ Hrun1).
  destruct (insert_strings_run (qsort strs) (Harness m1 k) Hidle1) as (m2 & Hrun2 & Hidle2).
  { by rewrite Hqp. } { rewrite (Permutation_length Hqp). lia. }
  exists (Harness m2 k). by split.
Qed.
End whole.


