(* ===== verification/Itimer.v ===== *)
(** * The interval timers ([malloclab/ftimer.c])

    The measurement with the Unix interval timers, the alternative
    [USE_ITIMER] of fsecs.c. *)

From S2P Require Import Prelude Doubles Fcyc.

Inductive itimer := ITIMER_REAL | ITIMER_VIRTUAL | ITIMER_PROF.

Record timeval := Timeval { tv_sec : Z; tv_usec : Z }.
Record itimerval := Itimerval { it_interval : timeval; it_value : timeval }.

(** The system calls on the timers of a machine [W]. *)
Class Timers (W : Type) := {
  setitimer : itimer -> itimerval -> W -> W;
  getitimer : itimer -> W -> itimerval * W;
}.

Definition MAX_ETIME : Z := 86400.

(** The initial values of the three timers. *)
Record etimers := Etimers { first_u : itimerval; first_r : itimerval; first_p : itimerval }.

Section itimer.
Context {W : Type} `{Timers W}.

Definition full : itimerval := Itimerval (Timeval 0 0) (Timeval MAX_ETIME 0).

Definition init_etime (w : W) : etimers * W :=
  let w := setitimer ITIMER_VIRTUAL full w in
  let w := setitimer ITIMER_REAL full w in
  let w := setitimer ITIMER_PROF full w in
  (Etimers full full full, w).

(** The real time is read, and subtracted from the start of the [prof] timer,
    which is the same. *)
Definition get_etime (t : etimers) (w : W) : result (double * W) :=
  let '(v_curr, w) := getitimer ITIMER_VIRTUAL w in
  let '(r_curr, w) := getitimer ITIMER_REAL w in
  let '(p_curr, w) := getitimer ITIMER_PROF w in
  sec ← ll_ (tv_sec (it_value (first_p t)) - tv_sec (it_value r_curr));
  usec ← ll_ (tv_usec (it_value (first_p t)) - tv_usec (it_value r_curr));
  Ok (dadd (d_of_Z sec) (dmul (d_of_Z usec) (d_lit 1 1000000)), w).

Definition ftimer_itimer (f : W -> result W) (n : Z) (w : W) : result (double * W) :=
  let '(t, w) := init_etime w in
  r ← get_etime t w;
  let '(start, w) := r in
  w ← repeat_f f n w;
  r ← get_etime t w;
  let '(tmeas, w) := r in
  Ok (ddiv (dsub tmeas start) (d_of_Z n), w).

Definition fsecs_itimer (f : W -> result W) (w : W) : result (double * W) := ftimer_itimer f 10 w.
End itimer.

(** ** What is measured

    A clock that counts microseconds drives the real timer; the other two do
    what they like. *)
Section measured.
Context {W : Type} `{Timers W} (now : W -> Z).

(** The time at which the real timer was last set, and its laws. *)
Context (set_at : W -> Z).
Context (Hreal : forall v w, set_at (setitimer ITIMER_REAL v w) = now w).
Context (Hother : forall v w, set_at (setitimer ITIMER_PROF v w) = set_at w).
Context (Hnow : forall i v w, now (setitimer i v w) = now w).
Context (Hget : forall i w, now (snd (getitimer i w)) = now w /\ set_at (snd (getitimer i w)) = set_at w).
Context (Hleft : forall w, let left := MAX_ETIME * 1000000 - (now w - set_at w) in
  0 < left <= MAX_ETIME * 1000000 ->
  it_value (fst (getitimer ITIMER_REAL w)) = Timeval (left / 1000000) (left mod 1000000)).

(** The seconds as the sum that [get_etime] computes. *)
Definition elapsed (us : Z) : double :=
  let left := MAX_ETIME * 1000000 - us in
  dadd (d_of_Z (MAX_ETIME - left / 1000000)) (dmul (d_of_Z (- (left mod 1000000))) (d_lit 1 1000000)).

Lemma get_etime_run (w : W) :
  0 <= now w - set_at w < MAX_ETIME * 1000000 ->
  exists w', get_etime (Etimers full full full) w = Ok (elapsed (now w - set_at w), w') /\
    now w' = now w /\ set_at w' = set_at w.
Proof.
  intros Hus. unfold get_etime, MAX_ETIME in *.
  pose proof (Hget ITIMER_VIRTUAL w) as [Hn1 Hs1]. destruct (getitimer ITIMER_VIRTUAL w) as [v w1].
  simpl in Hn1, Hs1. pose proof (Hget ITIMER_REAL w1) as [Hn2 Hs2]. pose proof (Hleft w1) as Hl.
  destruct (getitimer ITIMER_REAL w1) as [r w2]. simpl in Hn2, Hs2, Hl.
  rewrite Hn1, Hs1 in Hl. pose proof (Hget ITIMER_PROF w2) as [Hn3 Hs3].
  destruct (getitimer ITIMER_PROF w2) as [p w3]. simpl in Hn3, Hs3.
  rewrite Hl by lia. unfold full, MAX_ETIME. cbn [first_p it_value tv_sec tv_usec].
  rewrite !ll_ok by dlia. exists w3. split; [|split; congruence]. unfold elapsed, MAX_ETIME.
  cbn [mbind result_bind]. by rewrite Z.sub_0_l.
Qed.

(** [ftimer_itimer] measures real time, whatever the other timers do: the time
    from the first reading to the last, divided by the number of runs, unless
    the runs take a day, when the timer has run out. *)
Theorem ftimer_itimer_correct (f : W -> result W) (n : Z) (w : W) :
  (forall w1, now w1 = now w -> set_at w1 = now w ->
     exists w2, repeat_f f n w1 = Ok w2 /\ set_at w2 = now w /\
       now w <= now w2 < now w + MAX_ETIME * 1000000) ->
  exists us w', 0 <= us < MAX_ETIME * 1000000 /\ now w' = now w + us /\
    ftimer_itimer f n w = Ok (ddiv (dsub (elapsed us) (elapsed 0)) (d_of_Z n), w').
Proof.
  intros Hf. unfold ftimer_itimer, init_etime. set (w0 := setitimer ITIMER_PROF full _).
  assert (Hw0 : now w0 = now w /\ set_at w0 = now w) by (subst w0; by rewrite Hother, Hreal, !Hnow).
  destruct Hw0 as [Hn0 Hs0].
  destruct (get_etime_run w0) as (w1 & -> & Hn1 & Hs1); [unfold MAX_ETIME; lia|].
  cbn [mbind result_bind].
  destruct (Hf w1) as (w2 & -> & Hs2 & Hn2); [congruence..|]. cbn [mbind result_bind].
  destruct (get_etime_run w2) as (w3 & -> & Hn3 & Hs3); [lia|]. cbn [mbind result_bind].
  exists (now w2 - now w), w3. split; [lia|]. split; [lia|].
  by rewrite Hn0, Hs0, Z.sub_diag, Hs2.
Qed.
End measured.

(** A machine with a clock, and the time and the state of its real timer. *)
Definition counting_timers : Timers (Z * Z) := {|
  setitimer i v w := match i with ITIMER_REAL => (w.1, w.1) | _ => w end;
  getitimer i w :=
    let left := MAX_ETIME * 1000000 - (w.1 - w.2) in
    (Itimerval (Timeval 0 0) (Timeval (left / 1000000) (left mod 1000000)), w);
|}.

(** Ten runs of a quarter of a second: the result is a quarter of a second. *)
Lemma ftimer_itimer_correct_witness :
  exists us w', us = 2500000 /\ w'.1 = 9 + us /\
    @fsecs_itimer _ counting_timers (fun w => Ok (w.1 + 250000, w.2)) (9, 0) =
      Ok (ddiv (dsub (elapsed us) (elapsed 0)) (d_of_Z 10), w') /\
    ddiv (dsub (elapsed us) (elapsed 0)) (d_of_Z 10) = d_lit 1 4.
Proof.
  destruct (@ftimer_itimer_correct _ counting_timers fst snd ltac:(done) ltac:(done)
    ltac:(by intros [] v w) ltac:(done) ltac:(done)
    (fun w => Ok (w.1 + 250000, w.2)) 10 (9, 0)) as (us & w' & Hus & Hw & Hrun).
  - intros [t u] Ht Hu. simpl in Ht, Hu. subst. eexists. split; [reflexivity|].
    unfold MAX_ETIME. simpl. lia.
  - assert (w'.1 = 2500009) as Hend.
    { assert (E : snd <$> (match @ftimer_itimer _ counting_timers (fun w => Ok (w.1 + 250000, w.2)) 10 (9, 0) with
        | Ok r => Some r | Fault _ => None end) = Some (2500009, 9)) by (vm_compute; reflexivity).
      rewrite Hrun in E. injection E as ->. reflexivity. }
    exists us, w'. simpl in Hw. assert (us = 2500000) as -> by lia.
    split; [reflexivity|]. split; [exact Hw|]. split; [exact Hrun|]. vm_compute. reflexivity.
Defined.
