(* ===== verification/BloomFilter.v ===== *)
(** * What a bloom filter promises ([rklab/bloom.c])

    [bloom_add] and [bloom_query] are left to the student: their interface,
    the contract in their comments, and the facts about the bitmap that its
    clients need. *)

From S2P Require Import Prelude Rkgrep.

(** ** The interface and its contract *)

Class BloomOps := {
  bf_add : bloom_filter -> Z -> result bloom_filter;
  bf_query : bloom_filter -> Z -> result bool;
}.

(** As shipped. *)
Definition shipped_bloom : BloomOps := {|
  bf_add bf elm := Ok (bloom_add bf elm);
  bf_query bf elm := Ok (bloom_query bf elm);
|}.

(** The bit at a position, counted from the left of its byte. *)
Definition byte_bit (c : option Z) (w : Z) : bool :=
  match c with Some b => Z.testbit b (7 - w) | None => false end.
Definition bit_at (bf : bloom_filter) (pos : Z) : bool :=
  byte_bit (bf_buf bf !!! Z.to_nat (pos / 8)) (pos mod 8).

Definition set_byte_bit (w : Z) (c : option Z) : option Z :=
  (fun b => s8 (Z.lor b (2 ^ (7 - w)))) <$> c.
Definition set_bit (bf : bloom_filter) (pos : Z) : bloom_filter :=
  {| bf_buf := alter (set_byte_bit (pos mod 8)) (Z.to_nat (pos / 8)) (bf_buf bf); bf_bsz := bf_bsz bf |}.

(** The positions of an element: its hashes modulo the size of the bitmap. *)
Definition positions (bsz elm : Z) : result (list Z) :=
  foldM (fun l i => h ← hash_i i elm; Ok (l ++ [Z.rem h bsz])) [] (seqZ 0 BLOOM_HASH_NUM).

Definition added (bf : bloom_filter) (elm : Z) : result bloom_filter :=
  l ← positions (bf_bsz bf) elm; Ok (foldl set_bit bf l).
Definition contained (bf : bloom_filter) (elm : Z) : result bool :=
  l ← positions (bf_bsz bf) elm; Ok (forallb (bit_at bf) l).

(** A bitmap as [bloom_init] makes it and [bloom_add] leaves it. *)
Definition char_cell (c : option Z) : Prop := exists b, c = Some b /\ - 128 <= b < 128.
Record bf_ok (bf : bloom_filter) : Prop := {
  bsz_range : 0 < bf_bsz bf < 2 ^ 31;
  bsz_bytes : Z.of_nat (length (bf_buf bf)) * 8 = bf_bsz bf;
  buf_cells : Forall char_cell (bf_buf bf);
}.

(** The elements the filters of the lab hold. *)
Definition elm_ok (elm : Z) : Prop := 0 <= elm < 2 ^ 62.

Class BloomSpec `{BloomOps} := {
  bf_add_spec bf elm : bf_ok bf -> elm_ok elm -> bf_add bf elm = added bf elm;
  bf_query_spec bf elm : bf_ok bf -> elm_ok elm -> bf_query bf elm = contained bf elm;
}.

(** The comments taken literally. *)
Definition documented_bloom : BloomOps := {| bf_add := added; bf_query := contained |}.
#[export] Instance documented_bloom_spec : @BloomSpec documented_bloom.
Proof. by split. Qed.

(** ** The hashes *)

Definition hash_value (elm i : Z) : Z := elm mod H1PRIME + i * (elm mod H2PRIME) + 1 + i * i.

Lemma hash_i_run i elm : 0 <= i < 10 -> elm_ok elm -> hash_i i elm = Ok (hash_value elm i).
Proof.
  intros Hi [Hx Hx']. unfold hash_i, hash_value.
  assert (HP : H1PRIME = 4189793 /\ H2PRIME = 3296731) by done. destruct HP as [HP1 HP2].
  rewrite !Z.rem_mod_nonneg by (done || lia).
  pose proof (Z.mod_pos_bound elm H1PRIME ltac:(done)). pose proof (Z.mod_pos_bound elm H2PRIME ltac:(done)).
  rewrite !ll_ok by nia. cbn [mbind result_bind]. rewrite !ll_ok by nia. cbn [mbind result_bind].
  rewrite !ll_ok by nia. cbn [mbind result_bind]. rewrite int_ok by nia. cbn [mbind result_bind].
  rewrite ll_ok by nia. cbn [mbind result_bind]. by rewrite s32_id by nia.
Qed.

Lemma hash_value_pos i elm : 0 <= i -> 0 <= hash_value elm i.
Proof.
  intros Hi. unfold hash_value.
  pose proof (Z.mod_pos_bound elm H1PRIME ltac:(done)). pose proof (Z.mod_pos_bound elm H2PRIME ltac:(done)). nia.
Qed.

Lemma positions_run bsz elm :
  0 < bsz -> elm_ok elm ->
  positions bsz elm = Ok ((fun i => hash_value elm i mod bsz) <$> seqZ 0 BLOOM_HASH_NUM).
Proof.
  intros Hb He. unfold positions.
  assert (Hloop : forall idx l, Forall (fun i => 0 <= i < 10) idx ->
    foldM (fun l i => h ← hash_i i elm; Ok (l ++ [Z.rem h bsz])) l idx =
      Ok (l ++ ((fun i => hash_value elm i mod bsz) <$> idx))).
  { induction idx as [|i idx IH]; intros l Hall; [by rewrite app_nil_r|].
    apply Forall_cons in Hall as [Hi His]. cbn [foldM]. rewrite hash_i_run by done.
    cbn [mbind result_bind]. rewrite IH by done.
    rewrite (Z.rem_mod_nonneg (hash_value elm i) bsz) by first [done | apply hash_value_pos; lia]. by rewrite <- app_assoc. }
  apply Hloop. apply Forall_forall. intros i Hi%elem_of_seqZ. unfold BLOOM_HASH_NUM in Hi. lia.
Qed.

Lemma positions_range bsz elm l :
  0 < bsz -> elm_ok elm -> positions bsz elm = Ok l -> Forall (fun pos => 0 <= pos < bsz) l.
Proof.
  intros Hb He. rewrite positions_run by done. generalize (seqZ 0 BLOOM_HASH_NUM). intros idx [= <-].
  apply Forall_fmap, Forall_forall. intros i _. by apply Z.mod_pos_bound.
Qed.

(** ** The bitmap *)

Lemma testbit_s8 x k : 0 <= k < 8 -> Z.testbit (s8 x) k = Z.testbit x k.
Proof.
  intros Hk. rewrite <- (Z.mod_pow2_bits_low x 8 k), <- (Z.mod_pow2_bits_low (s8 x) 8 k) by lia.
  f_equal. unfold s8, wrap_s. change (2 ^ (8 - 1)) with 128. change (2 ^ 8) with 256. dlia.
Qed.

Lemma set_byte_bit_get c w v :
  char_cell c -> 0 <= w < 8 -> 0 <= v < 8 ->
  byte_bit (set_byte_bit w c) v = byte_bit c v || (v =? w).
Proof.
  intros (b & -> & _) Hw Hv. unfold byte_bit, set_byte_bit. cbn [fmap option_fmap option_map].
  rewrite testbit_s8, Z.lor_spec, Z.pow2_bits_eqb by lia. f_equal.
  destruct (Z.eqb_spec v w), (Z.eqb_spec (7 - w) (7 - v)); (done || lia).
Qed.

Lemma set_byte_bit_cell c w : char_cell c -> char_cell (set_byte_bit w c).
Proof. intros (b & -> & _). eexists. split; [reflexivity|]. apply s8_range. Qed.

Lemma length_set_bit bf pos : length (bf_buf (set_bit bf pos)) = length (bf_buf bf).
Proof. apply length_alter. Qed.

Lemma set_bit_ok bf pos : bf_ok bf -> bf_ok (set_bit bf pos).
Proof.
  intros [H1 H2 H3]. split; [done|by rewrite length_set_bit|].
  apply Forall_forall. intros c [k Hk]%list_elem_of_lookup. simpl in Hk.
  destruct (decide (k = Z.to_nat (pos / 8))) as [->|Hne].
  - rewrite list_lookup_alter_eq in Hk. destruct (bf_buf bf !! _) as [c'|] eqn:Hc; [|done].
    injection Hk as <-. apply set_byte_bit_cell. by eapply (Forall_lookup_1 _ _ _ _ H3).
  - rewrite list_lookup_alter_ne in Hk by done. by eapply (Forall_lookup_1 _ _ _ _ H3).
Qed.

Lemma byte_at bf pos :
  bf_ok bf -> 0 <= pos < bf_bsz bf ->
  exists b, bf_buf bf !! Z.to_nat (pos / 8) = Some (Some b) /\ - 128 <= b < 128.
Proof.
  intros [_ H2 H3] Hpos.
  destruct (lookup_lt_is_Some_2 (bf_buf bf) (Z.to_nat (pos / 8))) as [c Hc]; [dlia|].
  destruct (Forall_lookup_1 _ _ _ _ H3 Hc) as (b & -> & Hb). by exists b.
Qed.

(** Setting a bit sets that bit and no other. *)
Lemma bit_at_set bf pos q :
  bf_ok bf -> 0 <= pos < bf_bsz bf -> 0 <= q < bf_bsz bf ->
  bit_at (set_bit bf pos) q = bit_at bf q || (q =? pos).
Proof.
  intros Hok Hpos Hq. unfold bit_at. destruct (byte_at bf q Hok Hq) as (b & Hb & Hr).
  rewrite (list_lookup_total_correct _ _ _ Hb).
  pose proof (Z.mod_pos_bound pos 8 ltac:(done)). pose proof (Z.mod_pos_bound q 8 ltac:(done)).
  destruct (decide (q / 8 = pos / 8)) as [E|Hne].
  - rewrite E in *. rewrite (list_lookup_total_correct _ _ (set_byte_bit (pos mod 8) (Some b))).
    2: { simpl. by rewrite list_lookup_alter_eq, Hb. }
    rewrite set_byte_bit_get; [|by exists b|done..]. f_equal.
    destruct (Z.eqb_spec (q mod 8) (pos mod 8)), (Z.eqb_spec q pos); (done || dlia).
  - rewrite (list_lookup_total_correct _ _ (Some b)).
    2: { simpl. rewrite list_lookup_alter_ne; [done|]. dlia. }
    destruct (Z.eqb_spec q pos) as [->|]; [done|]. by rewrite orb_false_r.
Qed.

Lemma set_bits_run l : forall bf,
  bf_ok bf -> Forall (fun pos => 0 <= pos < bf_bsz bf) l ->
  bf_ok (foldl set_bit bf l) /\ bf_bsz (foldl set_bit bf l) = bf_bsz bf /\
  (forall q, 0 <= q < bf_bsz bf -> bit_at bf q = true \/ q ∈ l -> bit_at (foldl set_bit bf l) q = true).
Proof.
  induction l as [|pos l IH]; intros bf Hok Hl; cbn [foldl].
  - split; [done|]. split; [done|]. intros q _ [Hq|Hq]; [done|by apply elem_of_nil in Hq].
  - apply Forall_cons in Hl as [Hpos Hl].
    destruct (IH (set_bit bf pos) (set_bit_ok bf pos Hok) Hl) as (Hok' & Hsz & Hbits).
    split; [done|]. split; [done|]. intros q Hq Hin. apply Hbits; [done|].
    rewrite bit_at_set by done. destruct Hin as [->|[->|Hin]%elem_of_cons]; [by left| |by right].
    left. by rewrite Z.eqb_refl, orb_true_r.
Qed.

(** Adding an element: the filter contains it, and what it contained before. *)
Lemma added_run bf elm :
  bf_ok bf -> elm_ok elm ->
  exists bf', added bf elm = Ok bf' /\ bf_ok bf' /\ bf_bsz bf' = bf_bsz bf /\
    contained bf' elm = Ok true /\
    (forall x, elm_ok x -> contained bf x = Ok true -> contained bf' x = Ok true).
Proof.
  intros Hok He. pose proof (bsz_range bf Hok) as Hb. unfold added, contained.
  destruct (positions (bf_bsz bf) elm) as [l|e] eqn:Hl; [|by rewrite positions_run in Hl by (done || lia)].
  cbn [mbind result_bind]. pose proof (positions_range _ _ _ (proj1 Hb) He Hl) as Hr.
  destruct (set_bits_run l bf Hok Hr) as (Hok' & Hsz & Hbits).
  exists (foldl set_bit bf l). rewrite Hsz, Hl. cbn [mbind result_bind].
  split_and!; [done|done|done| |].
  - f_equal. apply forallb_forall. intros q Hq%list_elem_of_In. apply Hbits; [|by right].
    rewrite Forall_forall in Hr. by apply Hr.
  - intros x Hx. destruct (positions (bf_bsz bf) x) as [lx|e] eqn:Hlx; [|done]. cbn [mbind result_bind].
    intros [= Hall]. rewrite forallb_forall in Hall. f_equal. apply forallb_forall. intros q Hq.
    apply Hbits; [|left; by apply Hall].
    pose proof (positions_range _ _ _ (proj1 Hb) Hx Hlx) as Hrx. rewrite Forall_forall in Hrx.
    by apply Hrx, list_elem_of_In.
Qed.

(** An empty bitmap. *)
Lemma bloom_init_run bsz :
  0 < bsz < 2 ^ 31 -> bsz mod 8 = 0 ->
  exists bf, bloom_init true true bsz = Ok bf /\ bf_ok bf /\ bf_bsz bf = bsz.
Proof.
  intros Hb Hm. unfold bloom_init. rewrite Z.rem_mod_nonneg, Hm by lia. simpl.
  eexists. split; [done|]. split; [|done]. split; simpl; [done| |].
  - rewrite length_replicate, Z.shiftr_div_pow2 by lia. rewrite u64_id by dlia. dlia.
  - apply Forall_replicate. by exists 0.
Qed.

(** [bloom_bit_at_pos] answers inside the bitmap, if not always rightly. *)
Lemma bloom_bit_at_pos_total bf pos :
  bf_ok bf -> 0 <= pos < bf_bsz bf -> exists b, bloom_bit_at_pos bf pos = Ok b.
Proof.
  intros Hok Hpos. destruct (byte_at bf pos Hok Hpos) as (b & Hb & Hr).
  eexists. by apply (bloom_bit_at_pos_run bf pos b).
Qed.
