(* ===== verification/RkTest.v ===== *)
(** * The unit tests of rklab ([rklab/rkgrep_test.c])

    The program over any matching routines, hash and bloom filter of the
    student, and any reference implementation: that is shipped as an object
    file only, and is a parameter here. *)

From S2P Require Import Prelude TraceFile RwLock Rkgrep RkgrepMain BloomFilter.

(** ** The routines under test *)

(** The hash of rkgrep.h; [rkhash_init] returns the hash and what it stores
    through [h], if anything. *)
Class RkHash := {
  rkhash_init : list (option Z) -> Z -> result (Z * option Z);
  rkhash_next : Z -> Z -> Z -> Z -> result Z;
}.

(** As shipped: no [return]. *)
Definition shipped_hash : RkHash := {|
  rkhash_init _ _ := Fault Undefined;
  rkhash_next _ _ _ _ := Fault Undefined;
|}.

(** The reference implementation, from another object file. *)
Class Reference := {
  rkhash_init_1 : list (option Z) -> Z -> result (Z * option Z);
  rkhash_next_1 : Z -> Z -> Z -> Z -> result Z;
  bloom_init_1 : Z -> result bloom_filter;
  bloom_add_1 : bloom_filter -> Z -> result bloom_filter;
  rk_create_doc_bloom_1 : Z -> list (option Z) -> Z -> result (option bloom_filter);
}.

(** The C library: the numbers of [rand] for a seed, the clock, [time], and
    whether [malloc] serves the requests. *)
Class System := {
  sys_rand : Z -> nat -> Z;
  sys_clock : nat -> timespec;
  sys_time : Z;
  sys_served : bool;
}.

(** The seed, and how often [rand] and the clock have been asked. *)
Record env := Env { e_seed : Z; e_rands : nat; e_clocks : nat }.

(** The globals, and the variables of [main]. *)
Record settings := Settings {
  which_test : algo_type;
  test_pattern_len : Z;
  test_document_len : Z;
  seed : Z;
}.

Definition test_bloom_bsz_large : Z := 8000.
Definition test_bloom_bsz_small : Z := 80.

Definition panic_cond (b : bool) : result unit := assert_ b.

Definition timediff (ts ts0 : timespec) : result Z :=
  s ← ll_ (tv_sec ts - tv_sec ts0);
  us ← ll_ (s * 1000000);
  ns ← ll_ (tv_nsec ts - tv_nsec ts0);
  ll_ (us + Z.quot ns 1000).

(** At most [n] characters of a string. *)
Fixpoint str_take (n : nat) (src : list (option Z)) : option (list Z) :=
  match n, src with
  | O, _ => Some []
  | S n, Some c :: src => if c =? 0 then Some [] else s ← str_take n src; Some (c :: s)
  | _, _ => None
  end.

(** [strncpy] writes [n] characters, the last ones NUL if the string is
    shorter. *)
Definition strncpy (dest src : list (option Z)) (n : Z) : result (list (option Z)) :=
  let n := u64 n in
  guard_ (n <=? Z.of_nat (length dest));;
  s ← need (str_take (Z.to_nat n) src);
  Ok ((Some <$> s) ++ replicate (Z.to_nat n - length s) (Some 0) ++ drop (Z.to_nat n) dest).

Definition abracadabra : list Z := chars "abracadabra".

Section rkgrep_test.
Context `{System, Matcher, RkHash, BloomOps, Reference}.

Definition next_rand : ST env Z := fun s =>
  Ok (sys_rand (e_seed s) (e_rands s), Env (e_seed s) (S (e_rands s)) (e_clocks s)).

Definition clock_gettime : ST env timespec := fun s =>
  Ok (sys_clock (e_clocks s), Env (e_seed s) (e_rands s) (S (e_clocks s))).

(** [generate_random_word(buf + off, len)]. *)
Definition generate_random_word (buf : list (option Z)) (off len : Z) : ST env (list (option Z)) :=
  buf ← foldM (fun buf i => r ← next_rand; lift (arr_set buf (off + i) (Some (97 + Z.rem r 26))))
          buf (seqZ 0 len);
  lift (arr_set buf (off + len) (Some 0)).

(** One turn of the loop; the blank after a word is at [i], where the next
    word starts. *)
Definition document_step (len : Z) (a : Z * list (option Z))
    : ST env ((Z * list (option Z)) + list (option Z)) :=
  let '(i, buf) := a in
  if i <? len then
    r ← next_rand;
    let word_len := Z.rem r 5 + 5 in
    let word_len := if word_len >? len - i then len - i
                    else if word_len =? len - i - 1 then word_len + 1 else word_len in
    buf ← generate_random_word buf i word_len;
    let i := i + word_len in
    if i =? len then mret (inr buf)
    else buf ← lift (arr_set buf i (Some 32)); mret (inl (i, buf))
  else mret (inr buf).

Definition generate_random_document (len : Z) : ST env (list (option Z)) :=
  size ← lift (int_ (len + 1));
  lift (guard_ (sys_served && (0 <=? size)));;
  buf ← while_st (Z.to_pos (len + 1)) (document_step len) (0, replicate (Z.to_nat size) None);
  lift (arr_set buf len (Some 0)).

(** The pattern at [pos], or a random one that does not match, is searched
    with [matchFunc], or with the filter when there is one. *)
Definition test_match_at_pos
    (matchFunc : option (list (option Z) -> list (option Z) -> result (Z * option Z)))
    (doc : list (option Z)) (pos expected_n_matches pattern_len : Z) (bf : option bloom_filter)
    : ST env Z :=
  size ← lift (int_ (pattern_len + 1));
  lift (guard_ (sys_served && (0 <=? size)));;
  let p := replicate (Z.to_nat size) (Some 0) in
  p ← (if pos >=? 0 then
         lift (guard_ (pos <=? Z.of_nat (length doc)));;
         lift (strncpy p (drop (Z.to_nat pos) doc) pattern_len)
       else
         p ← generate_random_word p 0 pattern_len;
         lift (arr_set p (pattern_len - 1) (Some 33)));
  ts1 ← clock_gettime;
  r ← lift (match bf with
            | Some _ => rk_substring_match_using_bloom p doc bf
            | None => f ← need matchFunc; f p doc
            end);
  let '(n_matches, first_match_ind) := r in
  ts2 ← clock_gettime;
  (if expected_n_matches >=? 0 then lift (panic_cond (n_matches =? expected_n_matches)) else mret tt);;
  (if negb (expected_n_matches =? 0) then
     i ← lift (need first_match_ind);
     lift (panic_cond (i =? pos))
   else mret tt);;
  lift (timediff ts2 ts1).

(** One turn of the worst-case loops of [test_naive] and [test_rk]. *)
Definition worst_turn
    (matchFunc : list (option Z) -> list (option Z) -> result (Z * option Z))
    (m dl : Z) (a : list (option Z) * Z) (_ : Z) : ST env (list (option Z) * Z) :=
  let '(doc, duration_sum) := a in
  r ← next_rand;
  range ← lift (int_ (dl - m));
  pos ← lift (int_rem r range);
  last ← lift (int_ (pos + m));
  doc ← lift (arr_set doc (last - 1) (Some 98));
  t ← test_match_at_pos (Some matchFunc) doc pos 1 m None;
  duration_sum ← lift (ll_ (duration_sum + t));
  doc ← lift (arr_set doc (last - 1) (Some 97));
  mret (doc, duration_sum).

(** Those loops, on a document of [a]s. *)
Definition worst_case
    (matchFunc : list (option Z) -> list (option Z) -> result (Z * option Z)) (m dl : Z)
    : ST env unit :=
  size ← lift (int_ (dl + 1));
  lift (guard_ (sys_served && (0 <=? dl)));;
  let doc := replicate (Z.to_nat dl) (Some 97) ++ [Some 0] in
  foldM (worst_turn matchFunc m dl) (doc, 0) (seqZ 0 100);;
  mret tt.

(** A pattern that the document does not have. *)
Definition no_match (matchFunc : list (option Z) -> list (option Z) -> result (Z * option Z))
    : ST env unit :=
  r ← lift (matchFunc (as_buf (chars "aaa")) (as_buf abracadabra));
  lift (panic_cond (r.1 =? 0)).

Definition test_naive (m dl : Z) : ST env unit :=
  let doc := as_buf abracadabra in
  test_match_at_pos (Some naive_substring_match) doc 0 2 3 None;;
  test_match_at_pos (Some naive_substring_match) doc 6 1 3 None;;
  no_match naive_substring_match;;
  worst_case naive_substring_match m dl.

(** Both calls of [rkhash_init] store into [h]. *)
Definition test_rkhash (pattern_len : Z) (doc : list (option Z)) : result unit :=
  r ← rkhash_init doc pattern_len;
  r1 ← rkhash_init_1 doc pattern_len;
  let h := match r1.2 with Some h => Some h | None => r.2 end in
  panic_cond (r.1 =? r1.1);;
  dlen ← strlen doc;
  foldM (fun '(hash, hash1) i =>
    prev ← cell_get doc (i - pattern_len);
    next ← cell_get doc i;
    h ← need h;
    hash ← rkhash_next hash h prev next;
    hash1 ← rkhash_next_1 hash1 h prev next;
    panic_cond (hash =? hash1);;
    Ok (hash, hash1)) (r.1, r1.1) (seqZ pattern_len (s32 dlen - pattern_len));;
  Ok tt.

Definition test_rk (m dl : Z) : ST env unit :=
  lift (test_rkhash 3 (as_buf abracadabra));;
  no_match rk_substring_match;;
  worst_case rk_substring_match m dl.

(** The loops that compare two filters bit by bit. *)
Definition same_bits (bf bf1 : bloom_filter) (n : Z) : result unit :=
  foldM (fun _ i =>
    b ← bloom_bit_at_pos bf i;
    b1 ← bloom_bit_at_pos bf1 i;
    panic_cond (eqb b b1)) tt (seqZ 0 n).

Definition add_random (a : bloom_filter * bloom_filter * list Z) (_ : Z)
    : ST env (bloom_filter * bloom_filter * list Z) :=
  let '(bf, bf1, test_numbers) := a in
  x ← next_rand;
  x ← lift (ll_ (Z.shiftl x 31));
  r ← next_rand;
  let x := Z.lor x r in
  bf ← lift (bf_add bf x);
  bf1 ← lift (bloom_add_1 bf1 x);
  mret (bf, bf1, test_numbers ++ [x]).

Definition query_all (bf : bloom_filter) (test_numbers : list Z) (n : Z) : result unit :=
  foldM (fun _ i =>
    x ← arr_get test_numbers i;
    b ← bf_query bf x;
    panic_cond b) tt (seqZ 0 n).

Definition test_bloom : ST env unit :=
  bf ← lift (bloom_init sys_served sys_served test_bloom_bsz_small);
  bf1 ← lift (bloom_init_1 test_bloom_bsz_small);
  r ← next_rand;
  let x := Z.rem r 100 in
  bf ← lift (bf_add bf x);
  bf1 ← lift (bloom_add_1 bf1 x);
  lift (same_bits bf bf1 test_bloom_bsz_small);;
  b ← lift (bf_query bf x);
  lift (panic_cond b);;
  bf ← lift (bloom_init sys_served sys_served test_bloom_bsz_large);
  bf1 ← lift (bloom_init_1 test_bloom_bsz_large);
  let n_inserted := Z.quot test_bloom_bsz_large 10 in
  lift (guard_ sys_served);;
  a ← foldM add_random (bf, bf1, []) (seqZ 0 n_inserted);
  let '(bf, bf1, test_numbers) := a in
  lift (query_all bf test_numbers n_inserted);;
  lift (same_bits bf bf1 test_bloom_bsz_large).

(** The filters that the student's and the reference's routine make of a
    document, compared. *)
Definition compared_filters (m : Z) (doc : list (option Z)) (bloom_size : Z)
    : result (option bloom_filter) :=
  bf ← rk_create_doc_bloom m doc bloom_size;
  bf1 ← rk_create_doc_bloom_1 m doc bloom_size;
  (if 0 <? bloom_size then b ← need bf; b1 ← need bf1; same_bits b b1 bloom_size else Ok tt);;
  Ok bf.

(** One turn of the last loop: nine times out of ten a pattern that does not
    occur. *)
Definition sample_turn (m dl : Z) (doc : list (option Z)) (bf : option bloom_filter)
    (duration_sum : Z) (_ : Z) : ST env Z :=
  r ← next_rand;
  target ← (if Z.rem r 10 >=? 1 then mret (-1, 0)
            else
              r ← next_rand;
              range ← lift (int_ (dl - m));
              pos ← lift (int_rem r range);
              mret (pos, 1));
  let '(pos, n_matches) := target in
  t ← test_match_at_pos None doc pos n_matches m bf;
  lift (ll_ (duration_sum + t)).

Definition test_rk_bloom (m dl : Z) : ST env unit :=
  let doc := as_buf (chars "123 456 789") in
  let pattern := as_buf (chars "456") in
  bf ← lift (compared_filters 3 doc test_bloom_bsz_small);
  r ← lift (rk_substring_match_using_bloom pattern doc bf);
  pos ← lift (need r.2);
  lift (panic_cond (pos =? 4));;
  doc ← generate_random_document dl;
  bloom_size ← lift (int_ (dl * 10));
  bf ← lift (compared_filters m doc bloom_size);
  foldM (sample_turn m dl doc bf) 0 (seqZ 0 100);;
  mret tt.

(** ** The program *)

Definition default_settings : settings := Settings All 800 100000 42.

(** An option that [getopt] returned, with its argument. *)
Definition test_option (st : settings) (o : Z * list Z) : result settings :=
  let '(c, optarg) := o in
  let '(Settings which m n seed) := st in
  if c =? 97 then
    if bool_decide (optarg = chars "naive") then Ok (Settings Naive m n seed)
    else if bool_decide (optarg = chars "rk") then Ok (Settings RK m n seed)
    else if bool_decide (optarg = chars "bloom") then Ok (Settings Bloom m n seed)
    else if bool_decide (optarg = chars "rkbloom") then Ok (Settings RKBloom m n seed)
    else Fault (Exited 1)
  else if c =? 109 then m ← atoi optarg; Ok (Settings which m n seed)
  else if c =? 110 then n ← atoi optarg; Ok (Settings which m n seed)
  else if c =? 115 then seed ← atoi optarg; Ok (Settings which m n (u32 seed))
  else if c =? 114 then Ok (Settings which m n (u32 sys_time))
  else Fault (Exited 1).

Definition srand (seed : Z) : ST env unit := modify (fun s => Env seed 0 (e_clocks s)).

(** The test [t] is run when it is the one chosen, or all are. *)
Definition runs (which_test t : algo_type) : bool :=
  (algo_number which_test =? algo_number t) || (algo_number which_test =? algo_number All).

Definition run_if (b : bool) (c : ST env unit) : ST env unit := if b then c else mret tt.

Definition rkgrep_test_main (opts : list (Z * list Z)) : ST env Z :=
  st ← lift (foldM test_option default_settings opts);
  let '(Settings which m n seed) := st in
  srand seed;;
  run_if (runs which Naive) (test_naive m n);;
  run_if (runs which RK) (test_rk m n);;
  run_if (runs which Bloom) test_bloom;;
  run_if (runs which RKBloom) (test_rk_bloom m n);;
  mret 0.
End rkgrep_test.
