(* ===== verification/RkTestSpec.v ===== *)
(** * Properties of the unit tests of rklab

    The contracts of the routines under test and of the reference, the random
    documents, and the verdict of every test over right routines. *)

From S2P Require Import Prelude RwLock Rkgrep RkgrepMain RkgrepSpec BloomFilter RkTest.

(** ** Contracts *)

Definition plain (s : list Z) : Prop := Forall (fun c => 0 < c < 128) s.

(** The hash of the comments in rkgrep.c.  What [rkhash_init] stores through
    [h] is left open: no test depends on it. *)
Class RkHashSpec `{RkHash} := {
  rkhash_init_spec buf s m :
    c_str buf = Some s -> plain s -> 0 < m <= Z.of_nat (length s) ->
    exists h, rkhash_init buf m = Ok (rk_hash (take (Z.to_nat m) s), h);
  rkhash_next_spec l s r h :
    0 <= l < 128 -> 0 <= r < 128 -> h = 256 ^ Z.of_nat (S (length s)) mod PRIME ->
    rkhash_next (rk_hash (l :: s)) h l r = Ok (rk_hash (s ++ [r]));
}.

(** The filter of a document: the hashes of all its substrings of length [m]. *)
Definition windows (m : nat) (d : list Z) : list (list Z) :=
  (fun i => take m (drop i d)) <$> seq 0 (length d - m + 1).

Definition doc_filter (m : nat) (d : list Z) (bsz : Z) : result bloom_filter :=
  bf ← bloom_init true true bsz; foldM added bf (rk_hash <$> windows m d).

Definition creates_filter (create : Z -> list (option Z) -> Z -> result (option bloom_filter)) : Prop :=
  forall m db d bsz, c_str db = Some d -> plain d -> (0 < m <= length d)%nat ->
    bsz mod 8 = 0 -> 0 < bsz < 2 ^ 31 ->
    create (Z.of_nat m) db bsz = bf ← doc_filter m d bsz; Ok (Some bf).

(** The reference does what the comments say of the routine it stands for. *)
Class ReferenceSpec `{Reference} := {
  rkhash_init_1_spec buf s m :
    c_str buf = Some s -> plain s -> 0 < m <= Z.of_nat (length s) ->
    rkhash_init_1 buf m = Ok (rk_hash (take (Z.to_nat m) s), Some (256 ^ m mod PRIME));
  rkhash_next_1_spec l s r h :
    0 <= l < 128 -> 0 <= r < 128 -> h = 256 ^ Z.of_nat (S (length s)) mod PRIME ->
    rkhash_next_1 (rk_hash (l :: s)) h l r = Ok (rk_hash (s ++ [r]));
  bloom_init_1_spec bsz :
    0 < bsz < 2 ^ 31 -> bsz mod 8 = 0 -> bloom_init_1 bsz = bloom_init true true bsz;
  bloom_add_1_spec bf elm : bf_ok bf -> elm_ok elm -> bloom_add_1 bf elm = added bf elm;
  rk_create_doc_bloom_1_spec : creates_filter rk_create_doc_bloom_1;
}.

(** The C library: [rand] answers in its range, the clock shows valid times,
    and memory does not run out. *)
Class SystemSpec `{System} := {
  sys_rand_range seed k : 0 <= sys_rand seed k < 2 ^ 31;
  sys_clock_range k : 0 <= tv_sec (sys_clock k) < 2 ^ 33 /\ 0 <= tv_nsec (sys_clock k) < 10 ^ 9;
  sys_serves : sys_served = true;
}.

(** ** Strings in buffers *)

Lemma plain_no_nul s : plain s -> no_nul s.
Proof. intros Hs. eapply Forall_impl; [exact Hs|]. simpl. lia. Qed.

Lemma c_str_string s : plain s -> c_str (as_buf s) = Some s.
Proof. intros Hs. rewrite <- (app_nil_r (as_buf s)). apply c_str_as_buf. by apply plain_no_nul. Qed.

Lemma plain_take n s : plain s -> plain (take n s).
Proof. apply Forall_take. Qed.
Lemma plain_drop n s : plain s -> plain (drop n s).
Proof. apply Forall_drop. Qed.

Lemma drop_as_buf n s : (n <= length s)%nat -> drop n (as_buf s) = as_buf (drop n s).
Proof.
  intros Hn. rewrite <- (take_drop n s) at 1.
  rewrite <- (drop_as_buf_app (take n s) (drop n s)). by rewrite length_take_le.
Qed.

Lemma str_take_run s n : plain s -> (n <= length s)%nat -> str_take n (as_buf s) = Some (take n s).
Proof.
  intros Hs. revert n; induction Hs as [|c s Hc Hs IH]; intros [|n] Hn; simpl in Hn; try done.
  rewrite as_buf_cons. cbn [str_take]. rewrite (proj2 (Z.eqb_neq c 0)) by lia. by rewrite IH by lia.
Qed.

(** The copy of a substring. *)
Lemma strncpy_run d pos m :
  plain d -> (pos + m <= length d)%nat -> Z.of_nat m < 2 ^ 31 ->
  strncpy (replicate (S m) (Some 0)) (drop pos (as_buf d)) (Z.of_nat m) = Ok (as_buf (take m (drop pos d))).
Proof.
  intros Hd Hm Hlt. unfold strncpy. rewrite u64_id by lia. rewrite length_replicate.
  rewrite (proj2 (Z.leb_le _ _)) by lia. cbn [guard_ mbind result_bind].
  rewrite drop_as_buf by lia. rewrite Nat2Z.id, str_take_run by first [by apply plain_drop | rewrite length_drop; lia].
  cbn [need mbind result_bind]. unfold as_buf. do 2 f_equal.
  rewrite length_take_le, Nat.sub_diag by (rewrite length_drop; lia).
  rewrite drop_replicate. by replace (S m - m)%nat with 1%nat by lia.
Qed.

(** Storing a character into a string. *)
Lemma arr_set_string d i x :
  0 <= i < Z.of_nat (length d) -> arr_set (as_buf d) i (Some x) = Ok (as_buf (<[Z.to_nat i := x]> d)).
Proof.
  intros Hi. rewrite arr_set_ok by (rewrite length_as_buf; lia).
  unfold as_buf. rewrite insert_app_l by (rewrite length_fmap; lia). by rewrite <- (list_fmap_insert Some).
Qed.

Section system.
Context `{SystemSpec}.

(** ** Random words and documents *)

(** The word that [rand] gives from the [k]-th number on. *)
Definition word (seed : Z) (k n : nat) : list Z :=
  (fun j => 97 + Z.rem (sys_rand seed j) 26) <$> seq k n.

Lemma word_letters seed k n : Forall (fun c => 97 <= c <= 122) (word seed k n).
Proof.
  apply Forall_fmap, Forall_forall. intros j _. simpl. pose proof (sys_rand_range seed j).
  rewrite Z.rem_mod_nonneg by lia. dlia.
Qed.

Lemma letters_plain s : Forall (fun c => 97 <= c <= 122) s -> plain s.
Proof. intros Hs. eapply Forall_impl; [exact Hs|]. simpl. lia. Qed.

Lemma length_word seed k n : length (word seed k n) = n.
Proof. unfold word. by rewrite length_fmap, length_seq. Qed.

(** Writing the next cell after a part that is done. *)
Lemma arr_set_next {A} (pre rest : list A) x y i :
  i = Z.of_nat (length pre) -> arr_set (pre ++ x :: rest) i y = Ok ((pre ++ [y]) ++ rest).
Proof.
  intros ->. rewrite arr_set_ok by (rewrite length_app; simpl; lia).
  by rewrite Nat2Z.id, insert_app_r_alt, Nat.sub_diag, <- app_assoc.
Qed.

Lemma word_loop off n : forall pre rest a seed k c,
  off + a = Z.of_nat (length pre) -> (n <= length rest)%nat ->
  foldM (fun buf i => r ← next_rand; lift (arr_set buf (off + i) (Some (97 + Z.rem r 26))))
    (pre ++ rest) (seqZ a (Z.of_nat n)) (Env seed k c) =
  Ok (pre ++ (Some <$> word seed k n) ++ drop n rest, Env seed (k + n) c).
Proof.
  induction n as [|n IH]; intros pre rest a seed k c Hpre Hn.
  - by rewrite Nat.add_0_r.
  - destruct rest as [|x rest]; simpl in Hn; [lia|].
    rewrite seqZ_cons by lia. cbn [foldM]. replace (Z.pred (Z.of_nat (S n))) with (Z.of_nat n) by lia.
    erewrite bind_Ok.
    2: { erewrite bind_Ok; [|reflexivity]. unfold lift. rewrite arr_set_next by lia. reflexivity. }
    simpl e_seed. simpl e_rands. simpl e_clocks.
    rewrite (IH (pre ++ [_]) rest (Z.succ a) seed (S k) c) by (rewrite ?length_app; simpl; lia).
    rewrite <- app_assoc. by replace (k + S n)%nat with (S k + n)%nat by lia.
Qed.

Lemma generate_random_word_run n pre rest seed k c :
  (n < length rest)%nat ->
  generate_random_word (pre ++ rest) (Z.of_nat (length pre)) (Z.of_nat n) (Env seed k c) =
  Ok (pre ++ as_buf (word seed k n) ++ drop (S n) rest, Env seed (k + n) c).
Proof.
  intros Hn. unfold generate_random_word.
  rewrite (bind_Ok _ _ _ _ _ (word_loop (Z.of_nat (length pre)) n pre rest 0 seed k c ltac:(lia) ltac:(lia))).
  destruct (lookup_lt_is_Some_2 rest n Hn) as [x Hx]. rewrite (drop_S _ _ _ Hx). unfold lift.
  rewrite app_assoc, arr_set_next by (rewrite length_app, length_fmap, length_word; lia).
  unfold as_buf. by rewrite <- !app_assoc.
Qed.

(** Every turn writes a word and never the last cell. *)
Lemma document_step_run len w rest seed k c :
  length rest = S len ->
  match document_step (Z.of_nat (length w + len)) (Z.of_nat (length w), (Some <$> w) ++ rest) (Env seed k c) with
  | Ok (inl (i, buf), s) => exists n w' rest', (0 < n <= len)%nat /\ i = Z.of_nat (length w') /\
      buf = (Some <$> w') ++ rest' /\ length w' = (length w + n)%nat /\
      length rest' = S (len - n) /\
      (Forall (fun c => 97 <= c <= 122) w -> Forall (fun c => 97 <= c <= 122) w') /\
      s = Env seed (k + 1 + n) c
  | Ok (inr buf, s) => exists w' x k', buf = (Some <$> w') ++ [x] /\ length w' = (length w + len)%nat /\
      (Forall (fun c => 97 <= c <= 122) w -> Forall (fun c => 97 <= c <= 122) w') /\ s = Env seed k' c
  | Fault _ => False
  end.
Proof.
  intros Hlen. unfold document_step. destruct (Z.ltb_spec (Z.of_nat (length w)) (Z.of_nat (length w + len))) as [Hlt|Hge].
  2: { exists w. destruct rest as [|x [|]]; simpl in Hlen; try lia. exists x, k. split; [done|]. split; [lia|done]. }
  erewrite bind_Ok; [|reflexivity]. simpl e_seed. simpl e_rands. simpl e_clocks.
  pose proof (sys_rand_range seed k) as Hr. rewrite Z.rem_mod_nonneg, !Z.gtb_ltb by lia.
  pose proof (Z.mod_pos_bound (sys_rand seed k) 5 ltac:(done)) as Hm.
  set (wl := if _ <? _ then _ else _).
  assert (Hwl : 0 < wl <= Z.of_nat len).
  { subst wl. destruct (Z.ltb_spec (Z.of_nat (length w + len) - Z.of_nat (length w)) (sys_rand seed k mod 5 + 5)); [lia|].
    destruct (Z.eqb_spec (sys_rand seed k mod 5 + 5) (Z.of_nat (length w + len) - Z.of_nat (length w) - 1)); lia. }
  clearbody wl. destruct (Z_of_nat_complete wl ltac:(lia)) as [n ->].
  pose proof (generate_random_word_run n (Some <$> w) rest seed (S k) c ltac:(lia)) as Hrun.
  rewrite length_fmap in Hrun. rewrite (bind_Ok _ _ _ _ _ Hrun).
  assert (Hall : Forall (fun c => 97 <= c <= 122) w -> Forall (fun c => 97 <= c <= 122) (w ++ word seed (S k) n))
    by (intros; apply Forall_app; split; [done|apply word_letters]).
  destruct (Z.eqb_spec (Z.of_nat (length w) + Z.of_nat n) (Z.of_nat (length w + len))) as [He|Hne].
  - exists (w ++ word seed (S k) n), (Some 0), (S k + n)%nat. unfold as_buf.
    rewrite drop_ge by lia. rewrite fmap_app, app_nil_r, length_app, length_word, <- app_assoc. split_and!; [done|lia|done|done].
  - unfold as_buf. rewrite <- app_assoc, app_assoc, <- fmap_app.
    erewrite bind_Ok.
    2: { unfold lift. simpl app. rewrite arr_set_next; [reflexivity|]. rewrite length_fmap, length_app, length_word. lia. }
    exists n, (w ++ word seed (S k) n), ([Some 32] ++ drop (S n) rest).
    rewrite length_app, length_word. simpl length. rewrite length_drop.
    split_and!; [lia..|by rewrite <- app_assoc|lia|lia|done|f_equal; lia].
Qed.

Lemma generate_random_document_run len seed k c :
  Z.of_nat len < 2 ^ 31 - 1 ->
  exists d k', length d = len /\ Forall (fun c => 97 <= c <= 122) d /\
    generate_random_document (Z.of_nat len) (Env seed k c) = Ok (as_buf d, Env seed k' c).
Proof.
  intros Hlen. unfold generate_random_document. rewrite int_ok by lia. erewrite bind_Ok; [|reflexivity].
  rewrite sys_serves, (proj2 (Z.leb_le _ _)) by lia. erewrite bind_Ok; [|reflexivity].
  replace (Z.to_nat (Z.of_nat len + 1)) with (S len) by lia.
  set (loop := while_st _ _ _).
  assert (Hloop : exists w x k', loop (Env seed k c) = Ok ((Some <$> w) ++ [x], Env seed k' c) /\
    length w = len /\ Forall (fun c => 97 <= c <= 122) w).
  { apply (while_st_rule (fun n a s => exists w rest k', a = (Z.of_nat (length w), (Some <$> w) ++ rest) /\
        length rest = S n /\ (length w + n)%nat = len /\ Forall (fun c => 97 <= c <= 122) w /\ s = Env seed k' c)
      (fun r => exists w x k', r = Ok ((Some <$> w) ++ [x], Env seed k' c) /\
        length w = len /\ Forall (fun c => 97 <= c <= 122) w) _ _ len).
    - intros n a s (w & rest & k' & -> & Hrest & <- & Hw & ->).
      pose proof (document_step_run n w rest seed k' c Hrest) as Hstep.
      destruct (document_step _ _ _) as [[[[i buf]|buf] s]|]; [| |done].
      + destruct Hstep as (j & w' & rest' & Hj & -> & -> & Hl & Hr & Hw' & ->).
        exists (n - j)%nat. split; [lia|]. exists w', rest', (k' + 1 + j)%nat. split_and!; [done|done|lia|auto|done].
      + destruct Hstep as (w' & x & k'' & -> & Hl & Hw' & ->). exists w', x, k''. auto.
    - exists [], (replicate (S len) None), k. split_and!; [done|by rewrite length_replicate|done|done|done].
    - lia. }
  destruct Hloop as (w & x & k' & Hrun & Hl & Hw). exists w, k'. split; [done|]. split; [done|].
  rewrite (bind_Ok _ _ _ _ _ Hrun). unfold lift.
  rewrite arr_set_next by (by rewrite length_fmap, Hl). unfold as_buf. by rewrite app_nil_r.
Qed.

(** ** Matches *)

Lemma elem_of_occurrences p d i :
  i ∈ occurrences p d <-> take (length p) (drop i d) = p /\ (i < length d)%nat.
Proof.
  unfold occurrences. rewrite list_elem_of_filter, elem_of_seq. unfold occurs_at.
  rewrite bool_decide_spec. split; intros [? ?]; (split; [done|lia]).
Qed.

Lemma occurrences_none p d c : c ∈ p -> c ∉ d -> occurrences p d = [].
Proof.
  intros Hp Hd. destruct (occurrences p d) as [|i l] eqn:Ho; [done|]. exfalso. apply Hd.
  assert (Hi : i ∈ occurrences p d) by (rewrite Ho; left). apply elem_of_occurrences in Hi as [Hi _].
  rewrite <- Hi in Hp. apply elem_of_take in Hp as (j & Hj & _). rewrite lookup_drop in Hj.
  by eapply list_elem_of_lookup_2.
Qed.

Lemma occurrences_one p d i :
  i ∈ occurrences p d -> (forall j, j ∈ occurrences p d -> j = i) -> occurrences p d = [i].
Proof.
  intros Hi Huniq. assert (Hnd : NoDup (occurrences p d)) by apply NoDup_filter, NoDup_seq.
  apply Permutation_singleton_r. apply NoDup_Permutation; [done|by apply NoDup_singleton|].
  intros j. rewrite list_elem_of_singleton. split; [apply Huniq|by intros ->].
Qed.

(** Whether a match at [pos] and [e] matches in all are found. *)
Definition found (p d : list Z) (pos : nat) (e : Z) : bool :=
  (Z.of_nat (length (occurrences p d)) =? e) &&
  match occurrences p d with i :: _ => (i =? pos)%nat | [] => false end.

Definition elapsed (c : nat) : Z :=
  (tv_sec (sys_clock (S c)) - tv_sec (sys_clock c)) * 1000000 +
  Z.quot (tv_nsec (sys_clock (S c)) - tv_nsec (sys_clock c)) 1000.

Lemma timediff_run c :
  timediff (sys_clock (S c)) (sys_clock c) = Ok (elapsed c) /\ - 2 ^ 54 <= elapsed c <= 2 ^ 54.
Proof.
  unfold timediff, elapsed. pose proof (sys_clock_range c) as [Hs Hn].
  pose proof (sys_clock_range (S c)) as [Hs' Hn'].
  set (dn := tv_nsec (sys_clock (S c)) - tv_nsec (sys_clock c)) in *.
  assert (Hq : - 1000000 <= Z.quot dn 1000 <= 1000000) by (subst dn; Z.to_euclidean_division_equations; lia).
  rewrite !ll_ok by (subst dn; lia). cbn [mbind result_bind]. rewrite !ll_ok by lia.
  cbn [mbind result_bind]. rewrite !ll_ok by lia. split; [done|lia].
Qed.

Section matching.
Context `{Matcher}.
Implicit Types (f : option (list (option Z) -> list (option Z) -> result (Z * option Z))).

(** What [test_match_at_pos] calls. *)
Definition call f (bf : option bloom_filter) (p doc : list (option Z)) : result (Z * option Z) :=
  match bf with
  | Some _ => rk_substring_match_using_bloom p doc bf
  | None => g ← need f; g p doc
  end.

(** A pattern taken from the document. *)
Lemma match_found_run f d (pos m : nat) e bf seed k c :
  plain d -> (0 < m)%nat -> (pos + m <= length d)%nat -> Z.of_nat m < 2 ^ 31 - 1 -> 0 < e ->
  let p := take m (drop pos d) in
  match_answer p d (call f bf (as_buf p) (as_buf d)) ->
  test_match_at_pos f (as_buf d) (Z.of_nat pos) e (Z.of_nat m) bf (Env seed k c) =
    if found p d pos e then Ok (elapsed c, Env seed k (S (S c))) else Fault AssertFailed.
Proof.
  intros Hd Hm Hpos Hlt He p (i & Hcall & Hi). unfold test_match_at_pos. rewrite int_ok by lia.
  erewrite bind_Ok; [|reflexivity]. rewrite sys_serves, (proj2 (Z.leb_le 0 (Z.of_nat m + 1))) by lia.
  erewrite bind_Ok; [|reflexivity]. replace (Z.to_nat (Z.of_nat m + 1)) with (S m) by lia.
  rewrite (bind_Ok _ _ _ (as_buf p) (Env seed k c)).
  2: { rewrite Z.geb_leb, (proj2 (Z.leb_le 0 (Z.of_nat pos))) by lia.
       rewrite (proj2 (Z.leb_le _ _)) by (rewrite length_as_buf; lia). rewrite Nat2Z.id.
       erewrite bind_Ok; [|reflexivity]. unfold lift. by rewrite strncpy_run by (done || lia). }
  erewrite bind_Ok; [|reflexivity]. simpl e_seed. simpl e_rands. simpl e_clocks.
  fold (call f bf (as_buf p) (as_buf d)). rewrite Hcall. erewrite bind_Ok; [|reflexivity].
  cbv beta iota.
  erewrite bind_Ok; [|reflexivity]. simpl e_seed. simpl e_rands. simpl e_clocks.
  rewrite Z.geb_leb, (proj2 (Z.leb_le 0 e)) by lia. rewrite (proj2 (Z.eqb_neq e 0)) by lia. cbn [negb].
  assert (Hin : pos ∈ occurrences p d).
  { apply elem_of_occurrences. unfold p. rewrite length_take_le by (rewrite length_drop; lia). split; [done|lia]. }
  unfold found. destruct (occurrences p d) as [|j l]; [by apply elem_of_nil in Hin|].
  destruct (Z.of_nat (length (j :: l)) =? e); simpl andb.
  2: { by apply bind_Fault. }
  erewrite bind_Ok; [|reflexivity]. rewrite Hi.
  destruct (Nat.eqb_spec j pos) as [->|Hne].
  - erewrite bind_Ok; [|erewrite bind_Ok; [|reflexivity]; by rewrite Z.eqb_refl].
    unfold lift. by rewrite (proj1 (timediff_run c)).
  - apply bind_Fault. erewrite bind_Ok; [|reflexivity]. by rewrite (proj2 (Z.eqb_neq _ _)) by lia.
Qed.

(** A random pattern with an exclamation mark. *)
Lemma match_absent_run f d (m : nat) bf seed k c :
  plain d -> 33 ∉ d -> (0 < m)%nat -> Z.of_nat m < 2 ^ 31 - 1 ->
  (forall p, plain p -> length p = m -> match_answer p d (call f bf (as_buf p) (as_buf d))) ->
  test_match_at_pos f (as_buf d) (-1) 0 (Z.of_nat m) bf (Env seed k c) =
    Ok (elapsed c, Env seed (k + m) (S (S c))).
Proof.
  intros Hd Hbang Hm Hlt Hcall. unfold test_match_at_pos. rewrite int_ok by lia.
  erewrite bind_Ok; [|reflexivity]. rewrite sys_serves, (proj2 (Z.leb_le 0 (Z.of_nat m + 1))) by lia.
  erewrite bind_Ok; [|reflexivity]. replace (Z.to_nat (Z.of_nat m + 1)) with (S m) by lia.
  set (p := <[pred m := 33]> (word seed k m)).
  assert (Hlen : length p = m) by (unfold p; by rewrite length_insert, length_word).
  assert (Hp : plain p) by (apply Forall_insert; [apply letters_plain, word_letters|lia]).
  assert (Hin : 33 ∈ p).
  { apply (list_elem_of_lookup_2 _ (pred m)). apply list_lookup_insert_eq. rewrite length_word. lia. }
  rewrite (bind_Ok _ _ _ (as_buf p) (Env seed (k + m) c)).
  2: { change (-1 >=? 0) with false. cbv iota.
       rewrite (bind_Ok _ _ _ _ _ (generate_random_word_run m [] (replicate (S m) (Some 0)) seed k c
         ltac:(rewrite length_replicate; lia))).
       rewrite drop_ge by (rewrite length_replicate; lia). rewrite app_nil_r. simpl app. unfold lift.
       rewrite arr_set_string by (rewrite length_word; lia).
       by replace (Z.to_nat (Z.of_nat m - 1)) with (pred m) by lia. }
  erewrite bind_Ok; [|reflexivity]. simpl e_seed. simpl e_rands. simpl e_clocks.
  destruct (Hcall p Hp Hlen) as (i & Hrun & _). rewrite (occurrences_none p d 33) in Hrun by done.
  fold (call f bf (as_buf p) (as_buf d)). rewrite Hrun. erewrite bind_Ok; [|reflexivity].
  cbv beta iota.
  erewrite bind_Ok; [|reflexivity]. simpl e_seed. simpl e_rands. simpl e_clocks.
  erewrite bind_Ok; [|reflexivity]. erewrite bind_Ok; [|reflexivity].
  unfold lift. by rewrite (proj1 (timediff_run c)).
Qed.
End matching.
End system.
