(* ===== verification/RkTestRun.v ===== *)
(** * The unit tests of rklab over right routines

    The run of every test and of the whole program. *)

From Stdlib Require Import String.
From S2P Require Import Prelude RwLock Rkgrep RkgrepMain RkgrepSpec BloomFilter RkTest RkTestSpec.

(** ** Worst-case documents *)

(** One [b], at the end of the match. *)
Definition worst_doc (dl pos m : nat) : list Z := <[(pos + m - 1)%nat := 98]> (replicate dl 97).

Lemma worst_lookup dl pos m j : worst_doc dl pos m !! j = Some 98 -> j = (pos + m - 1)%nat.
Proof.
  unfold worst_doc. intros Hj. destruct (decide (j = pos + m - 1)%nat) as [|Hne]; [done|].
  rewrite list_lookup_insert_ne in Hj by done. by apply lookup_replicate in Hj as [? _].
Qed.

Lemma worst_found dl pos m :
  (0 < m)%nat -> (pos + m <= dl)%nat ->
  found (take m (drop pos (worst_doc dl pos m))) (worst_doc dl pos m) pos 1 = true.
Proof.
  intros Hm Hpos. set (d := worst_doc dl pos m). set (p := take m (drop pos d)).
  assert (Hd : length d = dl) by (unfold d, worst_doc; by rewrite length_insert, length_replicate).
  assert (Hp : length p = m) by (unfold p; rewrite length_take_le; [done|]; rewrite length_drop; lia).
  assert (Hlast : d !! (pos + m - 1)%nat = Some 98).
  { apply list_lookup_insert_eq. rewrite length_replicate. lia. }
  unfold found. rewrite (occurrences_one p d pos); [by rewrite Nat.eqb_refl|..].
  - apply elem_of_occurrences. rewrite Hp. split; [done|lia].
  - intros j [Hj Hlt]%elem_of_occurrences. rewrite Hp in Hj.
    assert (Hb : p !! (m - 1)%nat = Some 98).
    { unfold p. rewrite lookup_take_lt, lookup_drop by lia. by replace (pos + (m - 1))%nat with (pos + m - 1)%nat by lia. }
    rewrite <- Hj, lookup_take_lt, lookup_drop in Hb by lia. apply worst_lookup in Hb. lia.
Qed.

Lemma plain_replicate dl : plain (replicate dl 97).
Proof. by apply Forall_replicate. Qed.
Lemma plain_worst dl pos m : plain (worst_doc dl pos m).
Proof. apply Forall_insert; [apply plain_replicate|lia]. Qed.

(** A matching routine as its comment describes it. *)
Definition matches (f : list (option Z) -> list (option Z) -> result (Z * option Z)) : Prop :=
  forall pb db p d, c_str pb = Some p -> c_str db = Some d -> p <> [] -> match_answer p d (f pb db).

Lemma plain_abracadabra : plain abracadabra.
Proof. unfold plain, abracadabra. by repeat (constructor; [done|]). Qed.

Section tests.
Context `{SystemSpec}.

(** Sums of running times. *)
Definition sum_ok (turns sum : Z) : Prop := - turns * 2 ^ 54 <= sum <= turns * 2 ^ 54.

Section matchers.
Context `{Matcher}.
Context (f : list (option Z) -> list (option Z) -> result (Z * option Z)) (Hf : matches f).

Lemma no_match_run (s : env) : no_match f s = Ok (tt, s).
Proof.
  unfold no_match.
  destruct (Hf (as_buf (chars "aaa")) (as_buf abracadabra) (chars "aaa") abracadabra) as (i & -> & _); [done..|].
  reflexivity.
Qed.

(** A pattern of the document, without a filter. *)
Lemma pattern_answer d (pos m : nat) :
  plain d -> (0 < m)%nat -> (pos + m <= length d)%nat ->
  let p := take m (drop pos d) in
  match_answer p d (call (Some f) None (as_buf p) (as_buf d)).
Proof.
  intros Hd Hm Hpos p. apply Hf.
  - by apply c_str_string, plain_take, plain_drop.
  - by apply c_str_string.
  - intros Hp%(f_equal length). unfold p in Hp. rewrite length_take_le in Hp by (rewrite length_drop; lia).
    simpl in Hp. lia.
Qed.

Context (m dl : nat) (Hm : (0 < m < dl)%nat) (Hdl : Z.of_nat dl < 2 ^ 31 - 1).

Lemma worst_turn_run x sum turns seed k c :
  sum_ok turns sum -> 0 <= turns < 100 ->
  exists sum', worst_turn f (Z.of_nat m) (Z.of_nat dl) (as_buf (replicate dl 97), sum) x (Env seed k c) =
    Ok ((as_buf (replicate dl 97), sum'), Env seed (S k) (S (S c))) /\ sum_ok (turns + 1) sum'.
Proof.
  intros Hsum Hturns. unfold worst_turn. erewrite bind_Ok; [|reflexivity]. simpl e_seed. simpl e_rands. simpl e_clocks.
  rewrite int_ok by lia. erewrite bind_Ok; [|reflexivity].
  pose proof (sys_rand_range seed k) as Hrand. rewrite int_rem_ok by lia. erewrite bind_Ok; [|reflexivity].
  pose proof (Z.mod_pos_bound (sys_rand seed k) (Z.of_nat dl - Z.of_nat m) ltac:(lia)) as Hpos.
  generalize dependent (sys_rand seed k mod (Z.of_nat dl - Z.of_nat m)). intros r Hr.
  destruct (Z_of_nat_complete r) as [pos ->]; [lia|]. rewrite int_ok by lia. erewrite bind_Ok; [|reflexivity].
  rewrite arr_set_string by (rewrite length_replicate; lia). erewrite bind_Ok; [|reflexivity].
  replace (Z.to_nat (Z.of_nat pos + Z.of_nat m - 1)) with (pos + m - 1)%nat by lia. fold (worst_doc dl pos m).
  assert (Hlen : length (worst_doc dl pos m) = dl) by (unfold worst_doc; by rewrite length_insert, length_replicate).
  rewrite (bind_Ok _ _ _ (elapsed c) (Env seed (S k) (S (S c)))).
  2: { change 1 with (Z.of_nat 1). rewrite (match_found_run (Some f) (worst_doc dl pos m) pos m 1 None);
         [|apply plain_worst|lia..|apply pattern_answer; [apply plain_worst|lia..]].
       by rewrite worst_found by lia. }
  pose proof (timediff_run c) as [_ Ht]. unfold sum_ok in *. rewrite ll_ok by lia.
  erewrite bind_Ok; [|reflexivity]. exists (sum + elapsed c). split; [|lia].
  rewrite arr_set_string by lia. erewrite bind_Ok; [|reflexivity].
  replace (Z.to_nat (Z.of_nat pos + Z.of_nat m - 1)) with (pos + m - 1)%nat by lia.
  unfold worst_doc. rewrite list_insert_insert_eq. by rewrite insert_replicate.
Qed.

Lemma worst_turns_run l : forall sum turns seed k c,
  sum_ok turns sum -> 0 <= turns -> turns + Z.of_nat (length l) <= 100 ->
  exists sum', foldM (worst_turn f (Z.of_nat m) (Z.of_nat dl)) (as_buf (replicate dl 97), sum) l (Env seed k c) =
    Ok ((as_buf (replicate dl 97), sum'), Env seed (k + length l) (c + 2 * length l)).
Proof.
  induction l as [|x l IH]; intros sum turns seed k c Hsum Ht Hl; cbn [foldM length] in *.
  - exists sum. by rewrite !Nat.add_0_r.
  - destruct (worst_turn_run x sum turns seed k c Hsum ltac:(lia)) as (sum' & Hrun & Hsum').
    rewrite (bind_Ok _ _ _ _ _ Hrun).
    destruct (IH sum' (turns + 1) seed (S k) (S (S c)) Hsum' ltac:(lia) ltac:(lia)) as (sum'' & ->).
    exists sum''. do 3 f_equal; lia.
Qed.

Lemma worst_case_run seed k c :
  worst_case f (Z.of_nat m) (Z.of_nat dl) (Env seed k c) = Ok (tt, Env seed (k + 100) (c + 200)).
Proof.
  unfold worst_case. rewrite int_ok by lia. erewrite bind_Ok; [|reflexivity].
  rewrite sys_serves, (proj2 (Z.leb_le 0 (Z.of_nat dl))) by lia. erewrite bind_Ok; [|reflexivity].
  rewrite Nat2Z.id. replace (replicate dl (Some 97) ++ [Some 0]) with (as_buf (replicate dl 97))
    by (unfold as_buf; by rewrite fmap_replicate).
  destruct (worst_turns_run (seqZ 0 100) 0 0 seed k c) as (sum & Hrun); [done|done|by rewrite length_seqZ|].
  rewrite length_seqZ in Hrun. by rewrite (bind_Ok _ _ _ _ _ Hrun).
Qed.
End matchers.

(** ** [test_naive] and [test_rk] *)

Section naive_rk.
Context `{MatcherSpec, RkHashSpec, ReferenceSpec}.
Context (m dl : nat) (Hm : (0 < m < dl)%nat) (Hdl : Z.of_nat dl < 2 ^ 31 - 1).

Lemma naive_matches : matches naive_substring_match.
Proof. intros pb db p d. apply naive_match_spec. Qed.
Lemma rk_matches : matches rk_substring_match.
Proof. intros pb db p d. apply rk_match_spec. Qed.

(** A pattern of "abracadabra", at [pos], with [e] matches. *)
Lemma abracadabra_run pos e seed k c :
  (pos + 3 <= 11)%nat -> 0 < e -> found (take 3 (drop pos abracadabra)) abracadabra pos e = true ->
  test_match_at_pos (Some naive_substring_match) (as_buf abracadabra) (Z.of_nat pos) e 3 None (Env seed k c) =
    Ok (elapsed c, Env seed k (S (S c))).
Proof.
  intros Hpos He Hfound. change 3 with (Z.of_nat 3).
  rewrite (match_found_run (Some naive_substring_match) abracadabra pos 3 e None); [by rewrite Hfound|..];
    try lia; try apply plain_abracadabra; try (change (length abracadabra) with 11%nat; lia).
  apply pattern_answer; [apply naive_matches|apply plain_abracadabra|lia|].
  change (length abracadabra) with 11%nat. lia.
Qed.

Lemma test_naive_run seed k c :
  test_naive (Z.of_nat m) (Z.of_nat dl) (Env seed k c) = Ok (tt, Env seed (k + 100) (c + 204)).
Proof.
  unfold test_naive.
  rewrite (bind_Ok _ _ _ _ _ (abracadabra_run 0 2 seed k c ltac:(lia) ltac:(lia) ltac:(vm_compute; reflexivity))).
  rewrite (bind_Ok _ _ _ _ _ (abracadabra_run 6 1 seed k (S (S c)) ltac:(lia) ltac:(lia) ltac:(vm_compute; reflexivity))).
  rewrite (bind_Ok _ _ _ _ _ (no_match_run _ naive_matches _)).
  rewrite (worst_case_run _ naive_matches m dl Hm Hdl). do 3 f_equal. lia.
Qed.

(** The next window. *)
Lemma window_step (j w : nat) (d : list Z) :
  (0 < w)%nat -> (j + w < length d)%nat ->
  exists l s r, d !! j = Some l /\ d !! (j + w)%nat = Some r /\ length s = (w - 1)%nat /\
    take w (drop j d) = l :: s /\ take w (drop (S j) d) = s ++ [r].
Proof.
  intros Hw Hj. destruct w as [|w]; [lia|].
  destruct (lookup_lt_is_Some_2 d j ltac:(lia)) as [l Hl].
  destruct (lookup_lt_is_Some_2 d (j + S w) ltac:(lia)) as [r Hr].
  exists l, (take w (drop (S j) d)), r. rewrite (drop_S _ _ _ Hl). split_and!; try done.
  - rewrite length_take_le by (rewrite length_drop; lia). lia.
  - apply take_S_r. rewrite lookup_drop. by replace (S j + w)%nat with (j + S w)%nat by lia.
Qed.

(** The hashes of all windows agree, whatever [rkhash_init] stored. *)
Lemma test_rkhash_run (w : nat) d :
  plain d -> (0 < w <= length d)%nat -> Z.of_nat (length d) < 2 ^ 31 ->
  test_rkhash (Z.of_nat w) (as_buf d) = Ok tt.
Proof.
  intros Hd Hw Hlen. unfold test_rkhash.
  destruct (rkhash_init_spec (as_buf d) d (Z.of_nat w)) as [h0 ->]; [by apply c_str_string|done|lia|].
  rewrite (rkhash_init_1_spec (as_buf d) d) by (done || lia || by apply c_str_string).
  cbn [mbind result_bind fst snd]. unfold panic_cond at 1. rewrite Z.eqb_refl. cbn [assert_ mbind result_bind].
  unfold strlen. rewrite c_str_string by done. cbn [need mbind result_bind]. rewrite s32_id, Nat2Z.id by lia.
  replace (Z.of_nat (length d) - Z.of_nat w) with (Z.of_nat (length d - w)) by lia.
  set (body := fun '(hash, hash1) (i : Z) => _).
  assert (Hloop : forall n (j : nat), (j + w + n = length d)%nat ->
    foldM body (rk_hash (take w (drop j d)), rk_hash (take w (drop j d))) (seqZ (Z.of_nat (j + w)) (Z.of_nat n)) =
      Ok (rk_hash (take w (drop (j + n) d)), rk_hash (take w (drop (j + n) d)))).
  { induction n as [|n IH]; intros j Hj; [by rewrite Nat.add_0_r|].
    rewrite seqZ_cons by lia. cbn [foldM]. replace (Z.pred (Z.of_nat (S n))) with (Z.of_nat n) by lia.
    destruct (window_step j w d ltac:(lia) ltac:(lia)) as (l & s & r & Hl & Hr & Hs & -> & Hnext).
    replace (body _ _) with (Ok (rk_hash (s ++ [r]), rk_hash (s ++ [r]))).
    2: { unfold body. replace (Z.of_nat (j + w) - Z.of_nat w) with (Z.of_nat j) by lia.
         rewrite (as_buf_get d j l Hl), (as_buf_get d _ r Hr). cbn [mbind result_bind need].
         pose proof (Forall_lookup_1 _ _ _ _ Hd Hl). pose proof (Forall_lookup_1 _ _ _ _ Hd Hr). simpl in *.
         assert (Hh : 256 ^ Z.of_nat w mod PRIME = 256 ^ Z.of_nat (S (length s)) mod PRIME) by (do 3 f_equal; lia).
         rewrite (rkhash_next_spec l s r) by (done || lia). cbn [mbind result_bind].
         rewrite (rkhash_next_1_spec l s r) by (done || lia). cbn [mbind result_bind].
         unfold panic_cond. by rewrite Z.eqb_refl. }
    cbn [mbind result_bind]. rewrite <- Hnext. replace (Z.succ (Z.of_nat (j + w))) with (Z.of_nat (S j + w)) by lia.
    rewrite IH by lia. by replace (S j + n)%nat with (j + S n)%nat by lia. }
  pose proof (Hloop (length d - w)%nat 0%nat ltac:(lia)) as Hrun. rewrite drop_0 in Hrun. cbn [Nat.add] in Hrun. by rewrite Hrun.
Qed.

Lemma test_rk_run seed k c :
  test_rk (Z.of_nat m) (Z.of_nat dl) (Env seed k c) = Ok (tt, Env seed (k + 100) (c + 200)).
Proof.
  unfold test_rk. change 3 with (Z.of_nat 3).
  rewrite (test_rkhash_run 3 abracadabra plain_abracadabra ltac:(change (length abracadabra) with 11%nat; lia)
    ltac:(change (length abracadabra) with 11%nat; lia)).
  erewrite bind_Ok; [|reflexivity]. rewrite (bind_Ok _ _ _ _ _ (no_match_run _ rk_matches _)).
  by rewrite (worst_case_run _ rk_matches m dl Hm Hdl).
Qed.
End naive_rk.
End tests.
