(* ===== verification/RkTestBloom.v ===== *)
(** * The tests of the bloom filter and of the filter of a document

    The rest of rkgrep_test.c over right routines, and the verdict of the
    whole program. *)

From Stdlib Require Import String.
From S2P Require Import Prelude RwLock Rkgrep RkgrepMain RkgrepSpec BloomFilter RkTest RkTestSpec RkTestRun.

(** ** Filters *)

Lemma same_bits_run bf n : bf_ok bf -> n <= bf_bsz bf -> same_bits bf bf n = Ok tt.
Proof.
  intros Hok Hn. unfold same_bits.
  assert (Hloop : forall l, Forall (fun i => 0 <= i < bf_bsz bf) l ->
    foldM (fun _ i => b ← bloom_bit_at_pos bf i; b1 ← bloom_bit_at_pos bf i; panic_cond (eqb b b1)) tt l = Ok tt).
  { induction l as [|i l IH]; intros Hl; [done|]. apply Forall_cons in Hl as [Hi Hl]. cbn [foldM].
    destruct (bloom_bit_at_pos_total bf i Hok Hi) as [b ->]. cbn [mbind result_bind].
    unfold panic_cond at 1. rewrite eqb_reflx. by apply IH. }
  apply Hloop, Forall_forall. intros i Hi%elem_of_seqZ. lia.
Qed.

Lemma rk_hash_elm s : elm_ok (rk_hash s).
Proof. unfold elm_ok, rk_hash. pose proof (Z.mod_pos_bound (rk_value s) PRIME ltac:(done)) as Hr. unfold PRIME in *. lia. Qed.

Lemma doc_filter_run m d bsz :
  0 < bsz < 2 ^ 31 -> bsz mod 8 = 0 ->
  exists bf, doc_filter m d bsz = Ok bf /\ bf_ok bf /\ bf_bsz bf = bsz.
Proof.
  intros Hb Hm. unfold doc_filter. destruct (bloom_init_run bsz Hb Hm) as (bf & -> & Hok & Hsz).
  cbn [mbind result_bind].
  assert (Hall : Forall elm_ok (rk_hash <$> windows m d)) by (apply Forall_fmap, Forall_forall; intros; apply rk_hash_elm).
  revert bf Hok Hsz. induction Hall as [|x l Hx Hl IH]; intros bf Hok Hsz; [by exists bf|].
  cbn [foldM]. destruct (added_run bf x Hok Hx) as (bf' & -> & Hok' & Hsz' & _). cbn [mbind result_bind].
  apply IH; [done|congruence].
Qed.

Section filters.
Context `{SystemSpec, BloomSpec, ReferenceSpec}.

(** Two random numbers make an element. *)
Lemma random_elm x r : 0 <= x < 2 ^ 31 -> 0 <= r < 2 ^ 31 -> elm_ok (Z.lor (Z.shiftl x 31) r).
Proof.
  intros Hx Hr.
  assert (Hlog : forall y, 0 <= y < 2 ^ 62 -> Z.log2 y < 62).
  { intros y Hy. destruct (Z.eq_dec y 0) as [->|]; [done|]. apply Z.log2_lt_pow2; lia. }
  assert (Hs : 0 <= Z.shiftl x 31 < 2 ^ 62) by (rewrite Z.shiftl_mul_pow2; lia).
  assert (Hnn : 0 <= Z.lor (Z.shiftl x 31) r) by (apply Z.lor_nonneg; lia). split; [done|].
  destruct (Z.eq_dec (Z.lor (Z.shiftl x 31) r) 0) as [->|]; [done|]. apply Z.log2_lt_pow2; [lia|].
  rewrite Z.log2_lor by lia. apply Z.max_lub_lt; apply Hlog; lia.
Qed.

(** The two filters stay the same, and keep what was added. *)
Lemma add_random_loop l : forall bf nums seed k c,
  bf_ok bf -> Forall (fun x => elm_ok x /\ contained bf x = Ok true) nums ->
  exists bf' nums', foldM add_random (bf, bf, nums) l (Env seed k c) =
      Ok ((bf', bf', nums'), Env seed (k + 2 * length l) c) /\
    bf_ok bf' /\ bf_bsz bf' = bf_bsz bf /\ length nums' = (length nums + length l)%nat /\
    Forall (fun x => elm_ok x /\ contained bf' x = Ok true) nums'.
Proof.
  induction l as [|i l IH]; intros bf nums seed k c Hok Hnums; cbn [foldM length].
  { exists bf, nums. rewrite !Nat.add_0_r. by split_and!. }
  pose proof (sys_rand_range seed k) as Hr. pose proof (sys_rand_range seed (S k)) as Hr'.
  pose proof (random_elm _ _ Hr Hr') as Hx. set (x := Z.lor _ _) in Hx.
  destruct (added_run bf x Hok Hx) as (bf' & Hadd & Hok' & Hsz & Hin & Hmono).
  destruct (IH bf' (nums ++ [x]) seed (S (S k)) c Hok') as (bf'' & nums' & Hrun & Hok'' & Hsz' & Hlen & Hall).
  { apply Forall_app. split; [|by apply Forall_singleton].
    eapply Forall_impl; [exact Hnums|]. intros y [Hy Hy']. split; [done|by apply Hmono]. }
  exists bf'', nums'. rewrite length_app in Hlen. simpl in Hlen. split_and!; [|done|congruence|lia|done].
  erewrite bind_Ok.
  2: { unfold add_random. erewrite bind_Ok; [|reflexivity]. simpl e_seed. simpl e_rands. simpl e_clocks.
       rewrite ll_ok by (rewrite Z.shiftl_mul_pow2; lia). erewrite bind_Ok; [|reflexivity].
       erewrite bind_Ok; [|reflexivity]. simpl e_seed. simpl e_rands. simpl e_clocks. fold x.
       rewrite bf_add_spec, bloom_add_1_spec, Hadd by done.
       erewrite bind_Ok; [|reflexivity]. erewrite bind_Ok; [|reflexivity]. reflexivity. }
  rewrite Hrun. do 3 f_equal. lia.
Qed.

Lemma query_all_run bf nums n :
  bf_ok bf -> Forall (fun x => elm_ok x /\ contained bf x = Ok true) nums -> n = Z.of_nat (length nums) ->
  query_all bf nums n = Ok tt.
Proof.
  intros Hok Hall ->. unfold query_all.
  assert (Hloop : forall l, Forall (fun i => 0 <= i < Z.of_nat (length nums)) l ->
    foldM (fun _ i => x ← arr_get nums i; b ← bf_query bf x; panic_cond b) tt l = Ok tt).
  { induction l as [|i l IH]; intros Hl; [done|]. apply Forall_cons in Hl as [Hi Hl]. cbn [foldM].
    destruct (lookup_lt_is_Some_2 nums (Z.to_nat i) ltac:(lia)) as [x Hx].
    rewrite (arr_get_ok _ _ x) by (done || lia). cbn [mbind result_bind].
    destruct (Forall_lookup_1 _ _ _ _ Hall Hx) as [He Hc]. rewrite bf_query_spec, Hc by done.
    cbn [mbind result_bind]. by apply IH. }
  apply Hloop, Forall_forall. intros i Hi%elem_of_seqZ. lia.
Qed.

Lemma small_filter_run (x : Z) :
  elm_ok x ->
  exists bf bf', bloom_init true true test_bloom_bsz_small = Ok bf /\ bloom_init_1 test_bloom_bsz_small = Ok bf /\
    bf_add bf x = Ok bf' /\ bloom_add_1 bf x = Ok bf' /\
    same_bits bf' bf' test_bloom_bsz_small = Ok tt /\ bf_query bf' x = Ok true.
Proof.
  intros Hx. destruct (bloom_init_run test_bloom_bsz_small) as (bf & Hinit & Hok & Hsz); [done|done|].
  destruct (added_run bf x Hok Hx) as (bf' & Hadd & Hok' & Hsz' & Hin & _).
  exists bf, bf'. rewrite bloom_init_1_spec, bf_add_spec, bloom_add_1_spec, bf_query_spec by done.
  split_and!; [done..|apply same_bits_run; [done|by rewrite Hsz', Hsz]|done].
Qed.

Lemma test_bloom_run seed k c : test_bloom (Env seed k c) = Ok (tt, Env seed (k + 1601) c).
Proof.
  pose proof (sys_rand_range seed k) as Hr.
  destruct (small_filter_run (Z.rem (sys_rand seed k) 100)) as (bf & bf' & Ei & Ei1 & Ea & Ea1 & Es & Eq).
  { rewrite Z.rem_mod_nonneg by lia. unfold elm_ok. dlia. }
  destruct (bloom_init_run test_bloom_bsz_large) as (bl & Hinit & Hok & Hsz); [done|done|].
  assert (Hinit1 : bloom_init_1 test_bloom_bsz_large = Ok bl) by (by rewrite bloom_init_1_spec by done).
  set (n := Z.quot test_bloom_bsz_large 10). assert (Hn : n = 800) by done. clearbody n.
  destruct (add_random_loop (seqZ 0 n) bl [] seed (S k) c Hok ltac:(constructor))
    as (bl' & nums & Hrun & Hok' & Hsz' & Hlen & Hall). rewrite length_seqZ in Hlen, Hrun.
  unfold test_bloom. rewrite sys_serves, Ei, Ei1. do 2 (erewrite bind_Ok; [|reflexivity]).
  erewrite bind_Ok; [|reflexivity]. simpl e_seed. simpl e_rands. simpl e_clocks. rewrite Ea, Ea1.
  do 2 (erewrite bind_Ok; [|reflexivity]). rewrite Es. erewrite bind_Ok; [|reflexivity].
  rewrite Eq. erewrite bind_Ok; [|reflexivity]. erewrite bind_Ok; [|reflexivity].
  rewrite Hinit, Hinit1. do 3 (erewrite bind_Ok; [|reflexivity]).
  change (Z.quot test_bloom_bsz_large 10) with 800. rewrite <- Hn. rewrite (bind_Ok _ _ _ _ _ Hrun).
  cbv beta iota. simpl in Hlen. rewrite (query_all_run bl' nums n) by (done || lia).
  erewrite bind_Ok; [|reflexivity]. rewrite same_bits_run by (done || lia).
  unfold lift. do 3 f_equal. lia.
Qed.

(** ** Samples of a random document *)

Lemma found_once p d pos :
  pos ∈ occurrences p d -> found p d pos 1 = (length (occurrences p d) =? 1)%nat.
Proof.
  intros Hin. unfold found. destruct (occurrences p d) as [|i [|j l]]; [by apply elem_of_nil in Hin|..].
  - apply list_elem_of_singleton in Hin as ->. by rewrite Nat.eqb_refl.
  - rewrite (proj2 (Z.eqb_neq _ _)) by (simpl; lia). done.
Qed.

(** The pattern taken at [pos] occurs nowhere else. *)
Definition once (m : nat) (d : list Z) (pos : nat) : bool :=
  (length (occurrences (take m (drop pos d)) d) =? 1)%nat.

(** The positions that [n] turns of the last loop sample, from the [k]-th
    random number on; a turn without a sample draws a pattern. *)
Fixpoint samples (seed : Z) (m dl n k : nat) : list nat :=
  match n with
  | O => []
  | S n => if Z.rem (sys_rand seed k) 10 >=? 1 then samples seed m dl n (k + 1 + m)
           else Z.to_nat (sys_rand seed (S k) mod (Z.of_nat dl - Z.of_nat m)) :: samples seed m dl n (k + 2)
  end.

Section documents.
Context `{MatcherSpec} (Hcreate : creates_filter rk_create_doc_bloom).

Lemma compared_filters_run m d bsz :
  plain d -> (0 < m <= length d)%nat -> 0 < bsz < 2 ^ 31 -> bsz mod 8 = 0 ->
  exists bf, compared_filters (Z.of_nat m) (as_buf d) bsz = Ok (Some bf) /\ bloom_of (Z.of_nat m) d (Some bf).
Proof.
  intros Hd Hm Hb Hmod. pose proof (c_str_string d Hd) as Hstr.
  destruct (doc_filter_run m d bsz Hb Hmod) as (bf & Hfilter & Hok & Hsz).
  destruct (create_bloom_spec (Z.of_nat m) (as_buf d) d bsz Hstr) as (bf' & Hmine & Hof);
    [lia|by rewrite Z.rem_mod_nonneg by lia|done|].
  pose proof (Hcreate m (as_buf d) d bsz Hstr Hd Hm Hmod Hb) as Hmine'.
  rewrite Hfilter, Hmine in Hmine'. injection Hmine' as ->. exists bf. split; [|done].
  unfold compared_filters. rewrite Hmine. cbn [mbind result_bind].
  rewrite (rk_create_doc_bloom_1_spec m (as_buf d) d bsz), Hfilter by done. cbn [mbind result_bind need].
  rewrite (proj2 (Z.ltb_lt _ _)) by lia. cbn [mbind result_bind need].
  by rewrite same_bits_run by (done || lia).
Qed.

Context (m dl : nat) (Hm : (0 < m < dl)%nat) (Hdl : Z.of_nat dl * 10 < 2 ^ 31).
Context (d : list Z) (Hlen : length d = dl) (Hd : Forall (fun c => 97 <= c <= 122) d).
Context (bf : bloom_filter) (Hbf : bloom_of (Z.of_nat m) d (Some bf)).

Lemma filtered_answer p :
  plain p -> length p = m -> match_answer p d (call None (Some bf) (as_buf p) (as_buf d)).
Proof.
  intros Hp Hlp. unfold call. apply bloom_match_spec.
  - by apply c_str_string.
  - by apply c_str_string, letters_plain.
  - intros ->. simpl in Hlp. lia.
  - by rewrite Hlp.
Qed.

(** A turn with the pattern at [pos]. *)
Lemma sampled_run pos seed k c :
  (pos + m <= dl)%nat ->
  test_match_at_pos None (as_buf d) (Z.of_nat pos) 1 (Z.of_nat m) (Some bf) (Env seed k c) =
    if once m d pos then Ok (elapsed c, Env seed k (S (S c))) else Fault AssertFailed.
Proof.
  intros Hpos. pose proof (letters_plain d Hd) as Hp.
  assert (Hlp : length (take m (drop pos d)) = m) by (apply length_take_le; rewrite length_drop; lia).
  rewrite (match_found_run None d pos m 1 (Some bf)); [|done|lia..|].
  - rewrite found_once; [done|]. apply elem_of_occurrences. rewrite Hlp. split; [done|lia].
  - apply filtered_answer; [by apply plain_take, plain_drop|done].
Qed.

Lemma sample_loop l : forall sum turns seed k c,
  sum_ok turns sum -> 0 <= turns -> turns + Z.of_nat (length l) <= 100 ->
  if forallb (once m d) (samples seed m dl (length l) k) then
    exists sum' s, foldM (sample_turn (Z.of_nat m) (Z.of_nat dl) (as_buf d) (Some bf)) sum l (Env seed k c) = Ok (sum', s)
  else foldM (sample_turn (Z.of_nat m) (Z.of_nat dl) (as_buf d) (Some bf)) sum l (Env seed k c) = Fault AssertFailed.
Proof.
  induction l as [|x l IH]; intros sum turns seed k c Hsum Ht Hl; cbn [foldM length samples forallb] in *.
  { by eexists _, _. }
  pose proof (timediff_run c) as [_ Htd]. unfold sum_ok in *.
  set (turn := sample_turn _ _ _ _ sum x).
  destruct (Z.rem (sys_rand seed k) 10 >=? 1) eqn:Hskip.
  - assert (Hturn : turn (Env seed k c) = Ok (sum + elapsed c, Env seed (k + 1 + m) (S (S c)))).
    { unfold turn, sample_turn. erewrite bind_Ok; [|reflexivity]. simpl e_seed. simpl e_rands. simpl e_clocks.
      rewrite Hskip. erewrite bind_Ok; [|reflexivity]. cbv beta iota.
      rewrite (bind_Ok _ _ _ (elapsed c) (Env seed (k + 1 + m) (S (S c)))).
      2: { replace (k + 1)%nat with (S k) by lia. apply match_absent_run; [by apply letters_plain| |lia|lia|apply filtered_answer].
           intros Hin. rewrite Forall_forall in Hd. specialize (Hd 33 Hin). simpl in Hd. lia. }
      unfold lift. by rewrite ll_ok by lia. }
    rewrite (bind_Ok _ _ _ _ _ Hturn). apply (IH _ (turns + 1)); lia.
  - pose proof (sys_rand_range seed (S k)) as Hr.
    pose proof (Z.mod_pos_bound (sys_rand seed (S k)) (Z.of_nat dl - Z.of_nat m) ltac:(lia)) as Hpos.
    set (pos := Z.to_nat (sys_rand seed (S k) mod (Z.of_nat dl - Z.of_nat m))).
    assert (Hturn : turn (Env seed k c) =
      if once m d pos then Ok (sum + elapsed c, Env seed (k + 2) (S (S c))) else Fault AssertFailed).
    { unfold turn, sample_turn. erewrite bind_Ok; [|reflexivity]. simpl e_seed. simpl e_rands. simpl e_clocks.
      rewrite Hskip. erewrite bind_Ok.
      2: { erewrite bind_Ok; [|reflexivity]. rewrite int_ok by lia. erewrite bind_Ok; [|reflexivity].
           simpl e_seed. simpl e_rands. simpl e_clocks.
           rewrite int_rem_ok by lia. erewrite bind_Ok; [|reflexivity]. reflexivity. }
      cbv beta iota. replace (sys_rand seed (S k) mod (Z.of_nat dl - Z.of_nat m)) with (Z.of_nat pos) by (unfold pos; lia).
      pose proof (sampled_run pos seed (S (S k)) c ltac:(lia)) as Hrun.
      replace (k + 2)%nat with (S (S k)) by lia.
      destruct (once m d pos); [|by rewrite (bind_Fault _ _ _ _ Hrun)].
      rewrite (bind_Ok _ _ _ _ _ Hrun). unfold lift. by rewrite ll_ok by lia. }
    clearbody turn. cbn [forallb]. destruct (once m d pos); simpl andb.
    + rewrite (bind_Ok _ _ _ _ _ Hturn). apply (IH _ (turns + 1)); lia.
    + by apply bind_Fault.
Qed.
End documents.
End filters.
