(* ===== verification/RkTestMain.v ===== *)
(** * The verdict of the unit tests of rklab

    Which implementations the program rkgrep_test accepts, and instances to
    run it with. *)

From Stdlib Require Import String.
From S2P Require Import Prelude RwLock Rkgrep RkgrepMain RkgrepSpec BloomFilter RkTest RkTestSpec RkTestRun RkTestBloom.

Definition letter (c : Z) : Prop := 97 <= c <= 122.

(** The random numbers and the readings of the clock that the tests before
    [test_rk_bloom] use up. *)
Definition draws (which : algo_type) : nat :=
  (if runs which Naive then 100 else 0) + (if runs which RK then 100 else 0) +
  (if runs which Bloom then 1601 else 0).
Definition ticks (which : algo_type) : nat :=
  (if runs which Naive then 204 else 0) + (if runs which RK then 200 else 0).

Section verdict.
Context `{SystemSpec, MatcherSpec, RkHashSpec, BloomSpec, ReferenceSpec}.
Context (Hcreate : creates_filter rk_create_doc_bloom).
Context (m dl : nat) (Hm : (0 < m < dl)%nat) (Hdl : Z.of_nat dl * 10 < 2 ^ 31) (Hfour : (dl mod 4 = 0)%nat).

Lemma small_document_run : exists bf,
  compared_filters 3 (as_buf (chars "123 456 789")) test_bloom_bsz_small = Ok (Some bf) /\
  match_answer (chars "456") (chars "123 456 789")
    (rk_substring_match_using_bloom (as_buf (chars "456")) (as_buf (chars "123 456 789")) (Some bf)).
Proof.
  destruct (compared_filters_run Hcreate 3 (chars "123 456 789") test_bloom_bsz_small) as (bf & Hrun & Hof).
  - unfold plain. by repeat (constructor; [done|]).
  - simpl. lia.
  - done.
  - done.
  - exists bf. split; [exact Hrun|]. by apply bloom_match_spec.
Qed.

Lemma test_rk_bloom_run seed k c :
  exists d k', length d = dl /\ Forall letter d /\
    generate_random_document (Z.of_nat dl) (Env seed k c) = Ok (as_buf d, Env seed k' c) /\
    if forallb (once m d) (samples seed m dl 100 k') then
      exists s, test_rk_bloom (Z.of_nat m) (Z.of_nat dl) (Env seed k c) = Ok (tt, s)
    else test_rk_bloom (Z.of_nat m) (Z.of_nat dl) (Env seed k c) = Fault AssertFailed.
Proof.
  destruct (generate_random_document_run dl seed k c ltac:(lia)) as (d & k' & Hlen & Hd & Hgen).
  exists d, k'. split_and!; [done..|].
  destruct small_document_run as (bf0 & Hsmall & i & Hmatch & Hi).
  assert (Hmod : (Z.of_nat dl * 10) mod 8 = 0) by (apply (f_equal Z.of_nat) in Hfour; rewrite Nat2Z.inj_mod in Hfour; dlia).
  destruct (compared_filters_run Hcreate m d (Z.of_nat dl * 10)) as (bf & Hlarge & Hof);
    [by apply letters_plain|lia|lia|done|].
  pose proof (sample_loop m dl Hm Hdl d Hlen Hd bf Hof (seqZ 0 100) 0 0 seed k' c) as Hloop.
  rewrite length_seqZ in Hloop. specialize (Hloop ltac:(done) ltac:(done) ltac:(done)).
  assert (Hpre : forall r, (doc ← generate_random_document (Z.of_nat dl);
      bloom_size ← lift (int_ (Z.of_nat dl * 10)); bf ← lift (compared_filters (Z.of_nat m) doc bloom_size);
      foldM (sample_turn (Z.of_nat m) (Z.of_nat dl) doc bf) 0 (seqZ 0 100);; mret tt) (Env seed k c) = r ->
      test_rk_bloom (Z.of_nat m) (Z.of_nat dl) (Env seed k c) = r).
  { intros r <-. unfold test_rk_bloom. rewrite Hsmall. erewrite bind_Ok; [|reflexivity].
    rewrite Hmatch. erewrite bind_Ok; [|reflexivity].
    change (occurrences (chars "456") (chars "123 456 789")) with [4%nat] in Hi. simpl in Hi. subst i.
    erewrite bind_Ok; [|reflexivity]. erewrite bind_Ok; [|reflexivity]. reflexivity. }
  assert (Hrun : forall r, (foldM (sample_turn (Z.of_nat m) (Z.of_nat dl) (as_buf d) (Some bf)) 0 (seqZ 0 100);; mret tt)
      (Env seed k' c) = r -> test_rk_bloom (Z.of_nat m) (Z.of_nat dl) (Env seed k c) = r).
  { intros r <-. apply Hpre. rewrite (bind_Ok _ _ _ _ _ Hgen). rewrite int_ok by lia.
    erewrite bind_Ok; [|reflexivity]. rewrite Hlarge. erewrite bind_Ok; [|reflexivity]. reflexivity. }
  clear Hpre. change (Z.to_nat 100) with 100%nat in Hloop.
  destruct (forallb (once m d) (samples seed m dl 100 k')).
  - destruct Hloop as (sum & s & Hloop). exists s. apply Hrun. by rewrite (bind_Ok _ _ _ _ _ Hloop).
  - apply Hrun. by apply bind_Fault.
Qed.

Lemma run_if_Ok (b : bool) (c : ST env unit) s s' :
  c s = Ok (tt, s') -> run_if b c s = Ok (tt, if b then s' else s).
Proof. by destruct b. Qed.

(** The tests before the last. *)
Lemma first_tests_run which seed c :
  (run_if (runs which Naive) (test_naive (Z.of_nat m) (Z.of_nat dl));;
   run_if (runs which RK) (test_rk (Z.of_nat m) (Z.of_nat dl));;
   run_if (runs which Bloom) test_bloom) (Env seed 0 c) = Ok (tt, Env seed (draws which) (c + ticks which)).
Proof.
  pose proof (test_naive_run m dl Hm ltac:(lia) seed 0 c) as Hnaive.
  rewrite (bind_Ok _ _ _ _ _ (run_if_Ok (runs which Naive) _ _ _ Hnaive)).
  set (s1 := if runs which Naive then _ else _).
  pose proof (test_rk_run m dl Hm ltac:(lia) (e_seed s1) (e_rands s1) (e_clocks s1)) as Hrk.
  replace (Env _ (e_rands s1) _) with s1 in Hrk by (by destruct s1).
  rewrite (bind_Ok _ _ _ _ _ (run_if_Ok (runs which RK) _ _ _ Hrk)).
  set (s2 := if runs which RK then _ else _).
  pose proof (test_bloom_run (e_seed s2) (e_rands s2) (e_clocks s2)) as Hbloom.
  replace (Env _ (e_rands s2) (e_clocks s2)) with s2 in Hbloom by (by destruct s2).
  rewrite (run_if_Ok (runs which Bloom) _ _ _ Hbloom). subst s1 s2.
  unfold draws, ticks. destruct which; simpl; do 3 f_equal; lia.
Qed.
End verdict.

(** ** Instances *)

Definition horner_step (buf : list (option Z)) (a : Z * Z) (i : Z) : result (Z * Z) :=
  let '(hash, h) := a in
  c ← cell_get buf i;
  hash ← mmul hash 256;
  hash ← Rkgrep.madd hash c;
  h ← mmul h 256;
  Ok (hash, h).

(** The hash as the comments of rkgrep.c compute it. *)
Definition formula_init (buf : list (option Z)) (m : Z) : result (Z * option Z) :=
  a ← foldM (horner_step buf) (0, 1) (seqZ 0 m); Ok (a.1, Some a.2).
Definition formula_next (hash h l r : Z) : result Z :=
  p ← mmul hash 256; q ← mmul l h; d ← msub p q; Rkgrep.madd d r.

(** One that forgets to store the power of 256. *)
Definition forgetful_hash : RkHash := {|
  rkhash_init buf m := a ← formula_init buf m; Ok (a.1, None);
  rkhash_next := formula_next;
|}.

(** The filter of a document, from its definition. *)
Definition create_filter (m : Z) (db : list (option Z)) (bsz : Z) : result (option bloom_filter) :=
  d ← need (c_str db); bf ← doc_filter (Z.to_nat m) d bsz; Ok (Some bf).

Definition filtering_matcher : Matcher := {|
  naive_substring_match := match_by_definition;
  rk_substring_match := match_by_definition;
  rk_create_doc_bloom := create_filter;
  rk_substring_match_using_bloom pb db _ := match_by_definition pb db;
|}.

Definition documented_reference : Reference := {|
  rkhash_init_1 := formula_init;
  rkhash_next_1 := formula_next;
  bloom_init_1 := bloom_init true true;
  bloom_add_1 := added;
  rk_create_doc_bloom_1 := create_filter;
|}.

(** A [rand] that always answers [r], and a clock that stands still. *)
Definition constant_system (r : Z) : System := {|
  sys_rand _ _ := r;
  sys_clock _ := Timespec 0 0;
  sys_time := 0;
  sys_served := true;
|}.

Lemma rk_hash_snoc s c : rk_hash (s ++ [c]) = (rk_hash s * 256 + c) mod PRIME.
Proof.
  unfold rk_hash. rewrite rk_value_snoc. rewrite <- Z.add_mod_idemp_l, <- Z.mul_mod_idemp_l by done.
  by rewrite Z.add_mod_idemp_l by done.
Qed.

Lemma formula_init_run buf s m :
  c_str buf = Some s -> plain s -> 0 < m <= Z.of_nat (length s) ->
  formula_init buf m = Ok (rk_hash (take (Z.to_nat m) s), Some (256 ^ m mod PRIME)).
Proof.
  intros Hbuf Hs Hm. unfold formula_init. assert (HP : PRIME = 961748941) by done.
  assert (Hloop : forall n j, (j + n <= length s)%nat ->
    foldM (horner_step buf) (rk_hash (take j s), 256 ^ Z.of_nat j mod PRIME) (seqZ (Z.of_nat j) (Z.of_nat n)) =
      Ok (rk_hash (take (j + n) s), 256 ^ Z.of_nat (j + n) mod PRIME)).
  { induction n as [|n IH]; intros j Hj; [by rewrite Nat.add_0_r|].
    rewrite seqZ_cons by lia. cbn [foldM]. replace (Z.pred (Z.of_nat (S n))) with (Z.of_nat n) by lia.
    destruct (lookup_lt_is_Some_2 s j ltac:(lia)) as [c Hc].
    pose proof (Forall_lookup_1 _ _ _ _ Hs Hc) as Hrange. simpl in Hrange.
    pose proof (Z.mod_pos_bound (rk_value (take j s)) PRIME ltac:(done)).
    pose proof (Z.mod_pos_bound (256 ^ Z.of_nat j) PRIME ltac:(done)).
    replace (horner_step _ _ _) with (Ok (rk_hash (take (S j) s), 256 ^ Z.of_nat (S j) mod PRIME)).
    - cbn [mbind result_bind]. replace (Z.succ (Z.of_nat j)) with (Z.of_nat (S j)) by lia.
      rewrite IH by lia. by replace (S j + n)%nat with (j + S n)%nat by lia.
    - unfold horner_step. rewrite (c_str_get _ _ _ _ Hbuf Hc). cbn [mbind result_bind].
      rewrite (mmul_ok (rk_hash (take j s))) by (unfold rk_hash; lia). cbn [mbind result_bind].
      pose proof (Z.mod_pos_bound (rk_hash (take j s) * 256) PRIME ltac:(done)).
      rewrite madd_ok by lia. cbn [mbind result_bind]. rewrite mmul_ok by lia. cbn [mbind result_bind].
      rewrite (take_S_r _ _ _ Hc), rk_hash_snoc, Nat2Z.inj_succ, Z.pow_succ_r by lia.
      rewrite Z.add_mod_idemp_l, Z.mul_mod_idemp_l by done. by rewrite (Z.mul_comm 256). }
  pose proof (Hloop (Z.to_nat m) 0%nat ltac:(lia)) as Hrun. cbn [Nat.add] in Hrun.
  rewrite !Z2Nat.id in Hrun by lia.
  change (foldM (horner_step buf) (0, 1) (seqZ 0 m) = Ok (rk_hash (take (Z.to_nat m) s), 256 ^ m mod PRIME)) in Hrun.
  by rewrite Hrun.
Qed.

Lemma create_filter_creates : creates_filter create_filter.
Proof. intros m db d bsz Hdb _ _ _ _. unfold create_filter. by rewrite Hdb, Nat2Z.id. Qed.

#[export] Instance forgetful_hash_spec : @RkHashSpec forgetful_hash.
Proof.
  split; simpl.
  - intros buf s m Hbuf Hs Hm. rewrite (formula_init_run buf s m) by done. by eexists.
  - intros l s r h. apply rolling_formula_run.
Qed.

#[export] Instance documented_reference_spec : @ReferenceSpec documented_reference.
Proof.
  split; simpl; [exact formula_init_run|intros l s r h; apply rolling_formula_run|done|done|apply create_filter_creates].
Qed.

Definition filtering_matcher_spec : @MatcherSpec filtering_matcher.
Proof.
  refine (@Build_MatcherSpec filtering_matcher _ _ (fun _ _ _ => True) _ _).
  - intros pb db p d Hp Hd _. by apply match_by_definition_spec.
  - intros pb db p d Hp Hd _. by apply match_by_definition_spec.
  - intros m db d bsz Hd Hm Hmod Hb. simpl. unfold create_filter. rewrite Hd. cbn [need mbind result_bind].
    rewrite Z.rem_mod_nonneg in Hmod by lia.
    destruct (doc_filter_run (Z.to_nat m) d bsz Hb Hmod) as (bf & -> & _). by eexists.
  - intros pb db p d bf Hp Hd _ _. by apply match_by_definition_spec.
Defined.

Lemma constant_system_spec r : 0 <= r < 2 ^ 31 -> @SystemSpec (constant_system r).
Proof. intros Hr. by split. Qed.

(** ** Properties *)

(** C25: [generate_random_document] ends for every length and all random numbers
    and returns a string of exactly that many letters.  The blanks it writes between
    the words are all overwritten, as the next word starts where the blank is: the
    document is a single word.  A negative length is undefined. *)
Theorem generate_random_document_correct `{SystemSpec} (len : Z) (s : env) :
  - 2 ^ 31 <= len < 2 ^ 31 - 1 ->
  if len <? 0 then generate_random_document len s = Fault Undefined
  else exists d s', generate_random_document len s = Ok (as_buf d, s') /\
    Z.of_nat (length d) = len /\ Forall letter d /\ 32 ∉ d /\ c_str (as_buf d) = Some d.
Proof.
  intros Hlen. destruct (Z.ltb_spec len 0) as [Hneg|Hpos].
  - unfold generate_random_document. rewrite int_ok by lia. erewrite bind_Ok; [|reflexivity].
    rewrite sys_serves. destruct (Z.leb_spec 0 (len + 1)) as [H0'|H0']; [|done].
    assert (len = -1) as -> by lia. done.
  - destruct (Z_of_nat_complete len Hpos) as [n ->]. destruct s as [seed k c].
    destruct (generate_random_document_run n seed k c ltac:(lia)) as (d & k' & Hl & Hd & Hrun).
    exists d, (Env seed k' c). split_and!; [done|by rewrite Hl|done| |by apply c_str_string, letters_plain].
    intros Hin. rewrite Forall_forall in Hd. specialize (Hd 32 Hin). simpl in Hd. lia.
Qed.

(** Twelve letters; [rand] answers 0, so that the words have five. *)
Lemma generate_random_document_correct_witness :
  exists s', @generate_random_document (constant_system 0) 12 (Env 42 0 0) = Ok (as_buf (replicate 12 97), s') /\
    32 ∉ replicate 12 97.
Proof.
  destruct (@generate_random_document_correct (constant_system 0) (constant_system_spec 0 ltac:(lia)) 12 (Env 42 0 0)
    ltac:(lia)) as (d & s' & Hrun & _ & _ & Hblank & Hstr).
  assert (Ht : @generate_random_document (constant_system 0) 12 (Env 42 0 0) =
    Ok (as_buf (replicate 12 97), Env 42 15 0)) by (vm_compute; reflexivity).
  rewrite Ht in Hrun. injection Hrun as Ed Es. exists (Env 42 15 0). split; [exact Ht|].
  change (as_buf (replicate 12 97) = as_buf d) in Ed. rewrite <- Ed in Hstr.
  assert (d = replicate 12 97) as -> by (vm_compute in Hstr; by injection Hstr as <-). exact Hblank.
Defined.

(** C24: rkgrep_test over right matching routines, hash and filter and the reference it
    is linked with returns 0, whatever [rkhash_init] stores through [h] (the
    reference stores into the same variable), unless the test of the filter of a
    document is run and a pattern it samples from the random document occurs there
    twice: then right routines fail an assertion.  This is for pattern lengths below
    that of the document, which must be a multiple of 4. *)
Theorem rkgrep_test_correct `{SystemSpec, MatcherSpec, RkHashSpec, BloomSpec, ReferenceSpec}
    (opts : list (Z * list Z)) (which : algo_type) (m n : nat) (seed : Z) (s : env) :
  creates_filter rk_create_doc_bloom ->
  foldM test_option default_settings opts = Ok (Settings which (Z.of_nat m) (Z.of_nat n) seed) ->
  (0 < m < n)%nat -> Z.of_nat n * 10 < 2 ^ 31 -> (n mod 4 = 0)%nat ->
  exists d k c, generate_random_document (Z.of_nat n) (Env seed (draws which) c) = Ok (as_buf d, Env seed k c) /\
    length d = n /\ Forall letter d /\
    if negb (runs which RKBloom) || forallb (once m d) (samples seed m n 100 k) then
      exists s', rkgrep_test_main opts s = Ok (0, s')
    else rkgrep_test_main opts s = Fault AssertFailed.
Proof.
  intros Hcreate Hopts Hm Hn Hfour.
  pose proof (first_tests_run m n Hm Hn Hfour which seed (e_clocks s)) as Hfirst.
  destruct (test_rk_bloom_run Hcreate m n Hm Hn Hfour seed (draws which) (e_clocks s + ticks which))
    as (d & k & Hlen & Hd & Hgen & Hlast).
  exists d, k, (e_clocks s + ticks which)%nat. split_and!; [done..|].
  assert (Hmain : forall r, (run_if (runs which RKBloom) (test_rk_bloom (Z.of_nat m) (Z.of_nat n));; mret 0)
      (Env seed (draws which) (e_clocks s + ticks which)) = r -> rkgrep_test_main opts s = r).
  { intros r <-. unfold rkgrep_test_main. rewrite Hopts. erewrite bind_Ok; [|reflexivity]. cbv beta iota.
    erewrite bind_Ok; [|reflexivity].
    apply bind_inv in Hfirst as ([] & s1 & Hr1 & Hfirst). rewrite (bind_Ok _ _ _ _ _ Hr1).
    apply bind_inv in Hfirst as ([] & s2 & Hr2 & Hfirst). rewrite (bind_Ok _ _ _ _ _ Hr2).
    by rewrite (bind_Ok _ _ _ _ _ Hfirst). }
  destruct (runs which RKBloom); cbn [negb orb run_if] in *.
  - destruct (forallb (once m d) (samples seed m n 100 k)).
    + destruct Hlast as [s' Hlast]. exists s'. apply Hmain. by rewrite (bind_Ok _ _ _ _ _ Hlast).
    + apply Hmain. by apply bind_Fault.
  - eexists. by apply Hmain.
Qed.

(** With the options [-m 3 -n 8 -a rkbloom], a hash that stores nothing, and a [rand] that only answers 1,
    the tests pass; when it only answers 0 the document is a single letter
    repeated, and right routines fail. *)
Lemma rkgrep_test_correct_witness :
  (exists s', @rkgrep_test_main (constant_system 1) filtering_matcher forgetful_hash documented_bloom documented_reference
     [(109, [51]); (110, [56])] (Env 1 0 0) = Ok (0, s')) /\
  @rkgrep_test_main (constant_system 0) filtering_matcher forgetful_hash documented_bloom documented_reference
     [(109, [51]); (110, [56]); (97, chars "rkbloom")] (Env 1 0 0) = Fault AssertFailed.
Proof.
  split.
  - destruct (@rkgrep_test_correct (constant_system 1) (constant_system_spec 1 ltac:(lia)) filtering_matcher
      filtering_matcher_spec forgetful_hash _ documented_bloom _ documented_reference _
      [(109, [51]); (110, [56])] All 3 8 42 (Env 1 0 0) create_filter_creates eq_refl
      ltac:(lia) ltac:(lia) eq_refl) as (d & k & c & _ & _ & _ & Hrun). exact Hrun.
  - destruct (@rkgrep_test_correct (constant_system 0) (constant_system_spec 0 ltac:(lia)) filtering_matcher
      filtering_matcher_spec forgetful_hash _ documented_bloom _ documented_reference _
      [(109, [51]); (110, [56]); (97, chars "rkbloom")] RKBloom 3 8 42 (Env 1 0 0) create_filter_creates eq_refl
      ltac:(lia) ltac:(lia) eq_refl) as (d & k & c & Hgen & _ & Hd & Hrun).
    assert (Ht : @generate_random_document (constant_system 0) 8 (Env 42 0 c) =
      Ok (as_buf (replicate 8 97), Env 42 10 c)) by (vm_compute; reflexivity).
    change (@generate_random_document (constant_system 0) 8 (Env 42 0 c) = Ok (as_buf d, Env 42 k c)) in Hgen.
    rewrite Ht in Hgen. injection Hgen as Ed Ek.
    pose proof (c_str_string d (letters_plain d Hd)) as Hstr. change (as_buf (replicate 8 97) = as_buf d) in Ed.
    rewrite <- Ed in Hstr. vm_compute in Hstr. injection Hstr as <-. subst k.
    exact Hrun.
Defined.
