(* ===== verification/Exercises.v ===== *)
(** * The exercises as handed out ([clab/mini], [binarylab])

    The bodies that a student is to write: what they check of their
    arguments, and the assertion that always fails.  The memory of a [struct
    list_node] is a block of two words, its value and its [next]. *)

From S2P Require Import Prelude Doubles Words.

(** [assert(0)]. *)
Definition unwritten {W} : ST W unit := lift (assert_ false).

(** The end of a function that should return a value and has no [return]. *)
Definition no_return {W A} : ST W A := lift (Fault Undefined).

Definition not_null {W} (p : Z) : ST W unit := lift (assert_ (negb (p =? 0))).

Section bodies.
Context {W : Type}.

(** ** [part1.c] to [part4.c] *)

Definition set_to_five (ptr : Z) : ST W unit := unwritten.
Definition array_sum (arr n : Z) : ST W Z := unwritten;; mret (-1).

Definition swap (p1 p2 : Z) : ST W unit := not_null p1;; not_null p2;; unwritten.
Definition bubble_sort (arr n : Z) : ST W unit := unwritten.

Definition initialize_array (arr n : Z) : ST W unit := unwritten.
Definition mark_multiples (arr n p : Z) : ST W unit := unwritten.
Definition prime_number_sieves (arr n : Z) : ST W unit := unwritten.
Definition find_smallest_divisor (n divisor : Z) : ST W Z := unwritten;; no_return.

Definition set_point (pt : Z) (x y : double) : ST W unit := unwritten.
Definition point_dist (pt1 pt2 : Z) : ST W double := unwritten;; mret dzero.

(** ** [part6.c], [part8.c] and [binarylab] *)

Definition get_exponent_field (f : Z) : ST W Z := unwritten;; no_return.
Definition clear_msb (number b : Z) : ST W Z := unwritten;; no_return.
Definition bit_at_index (array array_size i : Z) : ST W Z := unwritten;; no_return.
Definition string_token (str delim saveptr : Z) : ST W Z := no_return.

Definition ex1 : ST W unit := unwritten.
Definition ex2 : ST W unit := unwritten.
Definition ex3 : ST W unit := unwritten.
Definition ex4 : ST W unit := unwritten.
Definition ex5 (n : Z) : ST W unit := unwritten.
End bodies.

(** ** [part5.c] *)

Definition list_insert (head value : Z) : ST words unit := not_null head;; unwritten.
Definition list_end (head : Z) : ST words Z := not_null head;; unwritten;; mret 0.
Definition list_size (head : Z) : ST words Z := not_null head;; unwritten;; mret 0.
Definition list_find (head value predp : Z) : ST words Z :=
  not_null head;; not_null predp;; unwritten;; mret 0.
Definition list_remove (headp value : Z) : ST words Z :=
  not_null headp;;
  h ← get;
  head ← lift (load_word h headp 0);
  not_null head;; unwritten;; mret 0.

(** ** None of them returns *)

Definition stops {W A} (c : ST W A) : Prop := forall w a w', c w <> Ok (a, w').

Lemma unwritten_stops {W A} (k : ST W A) : stops (unwritten;; k).
Proof. by intros w a w'. Qed.

Lemma check_stops {W A B} (c : ST W A) (k : A -> ST W B) : (forall a, stops (k a)) -> stops (c ≫= k).
Proof. intros Hk w b w'. unfold mbind, st_bind. destruct (c w) as [[a w1]|e]; [apply Hk|done]. Qed.

Lemma bodies_stop head value predp :
  stops (swap (W := words) head value) /\ stops (list_insert head value) /\ stops (list_end head) /\ stops (list_size head) /\
  stops (list_find head value predp) /\ stops (list_remove head value).
Proof.
  split_and!; repeat first [apply unwritten_stops | apply check_stops; intros ?]; intros ? ? ?; discriminate.
Qed.
